(* ===== verification/_CoqProject ===== *)
-Q . S2P
Prelude.v
GoList.v
GoStd.v
G53.v
Instances.v
Core.v
HttpCmd.v
Json.v
HttpProto.v
Cache.v
CacheHandler.v
Cement.v
Schedule.v
Acl.v
RateLimit.v
ViewSelector.v
Util.v
Chain.v
Forwarder.v
Resolver.v
Recursor.v
Dns64.v
Zone.v
ZoneInv.v
ZoneSpec.v
ZoneLock.v
Auth.v
AuthSpec.v
RecursorRun.v
Xfr.v
XfrSpec.v
LocalData.v
LocalDataSpec.v
Stub.v
RespTransfer.v
RespTransferSpec.v
Server.v
ServerSpec.v
ServerStop.v
MetricsVars.v
QueryLog.v
Config.v
Transport.v
Main.v
MainSpec.v
K8s.v
K8sSpec.v
System.v
SystemSpec.v
SystemProps.v
SystemIds.v
Commands.v
VgClient.v
VgClientSpec.v
Startup.v
StartupSpec.v
ServerRun.v
