(* ===== verification/Prelude.v ===== *)
(** * Vanguard: a verification development

    Vanguard is a DNS server.  A query runs through a chain of handlers built by
    cmd/vanguard/vanguard.go in the fixed order query log, Kubernetes, view,
    filter, AAAA filter, sort list, hijack, DNS64, cache, resolver, fail
    forwarder; each handler answers, changes the answer of the handlers behind it,
    or passes the query on.  The resolver is itself a chain: local data and
    authoritative zones first, then, one upstream query per question at a time,
    stub zones, forwarders and the recursor, all inside a handler that follows
    aliases.  An HTTP command interface reconfigures the running server.

    ** How the code is modelled

    A Go function becomes a Rocq function; a method takes and returns the state of
    its object.  Code that can panic or block for ever returns an [outcome]
    ([Ret], [Panic], [Hang]).  Objects that are shared by pointer live in stores:
    DNS messages in a heap ([Core.Heap]), because the cache, the alias handler and
    DNS64 hold and change the same message; upstream servers, groups and access
    lists in maps from locations.  Machine integers are integers of [Z] with their
    wrap-around written out where the code can reach it.  Time is a number of
    nanoseconds passed as an argument.  An operation under a lock is one step, but in
    ZoneLock.v, which has the lock of a zone itself and shows what that takes for granted;
    goroutines that change shared state are step relations ([acl_step], [prober_step],
    [render_run], [zone_step], [zstep], [stub_step], [srv_step], [stop_step], [run_step],
    [k8s_step], [rec_step]).  Go's map iteration order is an argument where it can be
    observed.

    The DNS library g53 and the containers of cement are not part of the
    repository: they are the classes [G53Name], [G53Msg], [G53Wire], [DomainTree],
    [NetRadix], [ZoneTree] (the tree of a zone) and [Fsm] (state machines) with the
    laws the code relies on, and Instances.v, Cement.v, Zone.v and Xfr.v give an
    instance of each, on which the witnesses evaluate.  Records of functions stand for
    smaller parts: [StubNet], [LogTexts], [G53Text], [TsigLib], [SerializerLib].  Two more
    classes are interfaces inside the development: [CmdCodec] is what the command protocol
    needs to know of the commands, and [QueryInv] with [FrontInv] what a predicate on the
    whole server must respect to hold through its chain of handlers.  [G53IdLaws] is what
    the ids of messages need of the library, and [Prometheus] what the metrics need of
    theirs.

    ** Files

    - Prelude: outcomes, integers, automation, lists.
    - GoList: container/list and the pair of such a list with a map ([lru_ok]),
      with the abstract LRU store it stands for.
    - GoStd: the parts of strings, strconv, net and time that the code uses.
    - G53, Instances: the DNS library as an interface and an instance.
    - Core: src/core (client, query key, handler chain) and the message heap.
    - HttpCmd: src/httpcmd (errors, tasks, dispatch).
    - Json: the texts of encoding/json; a value is read back from its text.
    - HttpProto: src/httpcmd (protocol, transport, proxy, service).  A remote call does
      what a local one does; what lost messages do to it.
    - Cache: src/cache/messagecache.go and prefetch.go.  The cache refines an LRU
      store ([MessageCache_Add_refines], [MessageCache_get_refines]), a hit answers
      the question asked, lifetimes follow the ttls, and the size limit holds in
      every execution.
    - CacheHandler: src/cache/cache.go and cmdhandler.go.  Repeated queries hit,
      cleaning a domain cleans every view, a reload can block.
    - Cement: the containers as interfaces with instances.
    - Schedule, Acl: src/acl.  Time ranges are arcs of the day, the week and the
      year; what an access check answers in every reachable state.
    - RateLimit: src/filter.  Bounds on admitted queries, which limit a query is
      charged to, and the filter chain.
    - ViewSelector: src/viewselector.  Distinct view identifiers, priorities, the
      weighted choice, signed queries.
    - Util: src/util.  Classification, pools, and the exchange of the UDP sender.
    - Chain: src/resolver/chain and src/resolver/querysource.
    - Forwarder: src/resolver/forwarder.  Choice of a server, when a server is
      down, which zone forwards a name, updates, the prober.
    - Resolver: src/resolver (alias handler, query limit, manager) and
      src/failforwarder.  Following aliases ends after sixteen redirects; shared
      answers answer the client's own question.
    - Recursor: src/resolver/recursor.  The search ends after at most nineteen
      rounds; the servers it asks serve a zone enclosing the name; memory limit;
      round-trip times.
    - RecursorRun: the same package's root hints, reloading and goroutines: in every
      interleaving the searches end and give their contexts back.
    - Dns64: src/dns64 with net.ParseIP.  RFC 6052 embedding, synthesis, and the
      corruption of cached answers by in-place changes.

    - Zone, ZoneInv, ZoneSpec: src/resolver/auth/zone.  Zones in memory: lookups,
      changes, transactions and loading.  Every reachable zone is well formed, what a
      lookup returns is sound, loading never panics.
    - ZoneLock: the operations of a zone under its lock, in every interleaving: what the
      zone becomes is what they do one after the other, they return, and the accesses
      outside the lock meet versions that are being taken apart.
    - Auth, AuthSpec: src/resolver/auth.  Queries, dynamic updates, zone text,
      transfers from masters and commands.  A loaded zone answers every query in one
      of four shapes, updates are atomic, and updates that spoil a zone.
    - Xfr, XfrSpec: src/xfr.  Notifies, the table of transfers and the two state
      machines: an incremental transfer applies the differences of the master; what a
      transfer loses.
    - LocalData, LocalDataSpec: src/localdata and src/resolver/fakeauth.  The policy
      that answers a query, and the store of policies as a map.
    - Stub: src/resolver/stub.  Resolving below a stub zone and the race of views.
    - RespTransfer, RespTransferSpec: src/responsetransfer.  AAAA filter, sort list,
      hijack; the order of the sort list, and the corruption of cached answers.
    - Server, ServerSpec: src/server and src/metrics.  One turn of a handler routine,
      and the goroutines of the server in every interleaving: bounds on the channel,
      the connections and the buffers, and how unanswered connections use them up.
    - ServerStop: stopping the server.  A stop returns and nothing is served after it; two
      at a time panic.
    - MetricsVars: src/metrics, the vectors.  They can be registered, no event misuses one,
      and the samples shown are the counters of Server.v.
    - QueryLog: src/querylog.  The line of a query; no line is lost or moved.
    - Config: src/config, the structures of the configuration file.
    - Transport: src/server/transport.go, the sockets.  What binding the configured
      addresses leaves open when it succeeds and when it fails.
    - Main, MainSpec: src/cmd/vanguard and src/server/cmdhandler.go.  The chain of the
      enabled modules, and a change of configuration that succeeds or fails.
    - K8s, K8sSpec: src/k8s.  The events of a cluster as edits of three zones: each
      event changes the records by its edits, the zones stay well formed in every
      execution, the records of services and pods, and the changes the zones miss.
    - System, SystemSpec, SystemProps: every component in one state and one chain, as
      src/cmd/vanguard puts them together.  What a query can change, what a rate limited
      query cannot reach, and how a signed query spoils the cache.
    - SystemIds: a response has the id of its query, through the whole chain.
    - Commands, VgClient, VgClientSpec: the commands of all components with the dispatcher
      they register with, and src/cmd/vgclient.  A command typed at the client runs in the
      component it belongs to as if it had been called there.
    - Startup, StartupSpec: main of src/cmd/vanguard with the constructors of all
      components, src/logger and src/cmd/trace.  A process that started serves and gives
      its sockets back; a configuration that can never start.
    - ServerRun: the goroutines of the server with the whole chain, from [main] on: every
      message has one turn, every answer goes to its query, and the metrics count them.

    ** Fuel

    [followCNameChain] gets 17 steps, one more than the redirects the code allows;
    [handleQuery] 20, the depth at which the code gives up;
    [NsasCache_selectNameServers] one more than the zones of the store, since each
    retry removes one; [embed_v4] 17, one more than the bytes of an address;
    [sort_Search] and [next_usable] the length they search; [parse_value] one more than the
    length of its text, since every call reads a character; [itoa_digits] 20, more than the
    digits of an int64.  Theorems show that
    the fuel is enough: the results are [Ret], never the [Hang] of lost fuel.

    ** Not modelled

    Reading and writing sockets, the wire format, the HTTP connection, YAML, the files of
    the logs, the page of the metrics, the watch on the API of a cluster, the parsing of
    flags, signals and TSIG cryptography: they are calls of libraries or of the system.  The
    texts of JSON are modelled for ASCII strings.  Helpers of tests (src/testutil, the
    forwarder of dumbfwder.go) and benchmarks are no part of the server.  The locks of the other components are taken
    to make their operations single steps. *)

From stdpp Require Export base gmap strings list sorting option numbers fin_maps.
From Stdlib Require Export ZArith Lia.

(** ** Outcomes of Go code

    Go code that can panic (index out of range, nil dereference, failed type
    assertion, explicit [panic]) or block for ever on a channel returns an
    [outcome]. *)

Inductive outcome (A : Type) : Type :=
  | Ret (a : A)
  | Panic (why : string)
  | Hang (why : string).
Arguments Ret {A} a.
Arguments Panic {A} why.
Arguments Hang {A} why.

#[export] Instance outcome_ret : MRet outcome := @Ret.
#[export] Instance outcome_bind : MBind outcome := λ A B f m,
  match m with Ret a => f a | Panic w => Panic w | Hang w => Hang w end.

#[export] Instance outcome_fmap : FMap outcome := λ A B f m,
  match m with Ret a => Ret (f a) | Panic w => Panic w | Hang w => Hang w end.

Definition is_ret {A} (o : outcome A) : bool :=
  match o with Ret _ => true | _ => false end.

Definition from_option_panic {A} (why : string) (o : option A) : outcome A :=
  match o with Some a => Ret a | None => Panic why end.

Lemma outcome_bind_ret {A B} (f : A → outcome B) (m : outcome A) b :
  (m ≫= f) = Ret b ↔ ∃ a, m = Ret a ∧ f a = Ret b.
Proof. destruct m; cbn; naive_solver. Qed.

Lemma bind_Ret {A B} (f : A → outcome B) (a : A) : (Ret a ≫= f) = f a.
Proof. done. Qed.

(** ** Machine integers

    A [w]-bit unsigned value is a [Z] in [[0, 2^w)]; arithmetic wraps. *)

Definition u8 (x : Z) : Z := x mod 2 ^ 8.
Definition u16 (x : Z) : Z := x mod 2 ^ 16.
Definition u32 (x : Z) : Z := x mod 2 ^ 32.
Definition u64 (x : Z) : Z := x mod 2 ^ 64.
Definition i64 (x : Z) : Z := (x + 2 ^ 63) mod 2 ^ 64 - 2 ^ 63.

Definition is_u8 (x : Z) : Prop := (0 ≤ x < 2 ^ 8)%Z.
Definition is_u16 (x : Z) : Prop := (0 ≤ x < 2 ^ 16)%Z.
Definition is_u32 (x : Z) : Prop := (0 ≤ x < 2 ^ 32)%Z.
Definition is_i64 (x : Z) : Prop := (- 2 ^ 63 ≤ x < 2 ^ 63)%Z.

Lemma u16_small x : is_u16 x → u16 x = x.
Proof. unfold is_u16, u16. intros. by apply Z.mod_small. Qed.
Lemma u32_small x : is_u32 x → u32 x = x.
Proof. unfold is_u32, u32. intros. by apply Z.mod_small. Qed.
Lemma u64_small x : (0 ≤ x < 2 ^ 64)%Z → u64 x = x.
Proof. unfold u64. intros. by apply Z.mod_small. Qed.
Lemma i64_small x : is_i64 x → i64 x = x.
Proof. unfold is_i64, i64. intros. rewrite Z.mod_small; lia. Qed.
Lemma i64_range x : is_i64 (i64 x).
Proof.
  unfold is_i64, i64.
  pose proof (Z.mod_pos_bound (x + 2 ^ 63) (2 ^ 64) ltac:(lia)). lia.
Qed.
Lemma u32_range x : is_u32 (u32 x).
Proof. unfold is_u32, u32. apply Z.mod_pos_bound. lia. Qed.
Lemma u16_range x : is_u16 (u16 x).
Proof. unfold is_u16, u16. apply Z.mod_pos_bound. lia. Qed.

(** Two fields packed side by side with shift and or are a sum, so each field
    can be read back. *)
Lemma lor_shiftl_add (hi lo w : Z) :
  (0 ≤ w)%Z → (0 ≤ lo < 2 ^ w)%Z → Z.lor (Z.shiftl hi w) lo = (hi * 2 ^ w + lo)%Z.
Proof.
  intros Hw Hlo. rewrite <- Z.shiftl_mul_pow2 by done.
  symmetry. apply Z.add_nocarry_lor.
  apply Z.bits_inj'; intros n Hn. rewrite Z.land_spec, Z.bits_0, Z.shiftl_spec by done.
  destruct (decide (n < w)%Z).
  - by rewrite Z.testbit_neg_r by lia.
  - destruct (decide (lo = 0)%Z) as [->|]; [by rewrite Z.bits_0, andb_false_r|].
    rewrite (Z.bits_above_log2 lo n); [by rewrite andb_false_r|lia|].
    apply Z.lt_le_trans with w; [apply Z.log2_lt_pow2; lia|lia].
Qed.

Lemma pack_inj (a b a' b' w : Z) :
  (0 ≤ b < 2 ^ w)%Z → (0 ≤ b' < 2 ^ w)%Z →
  (a * 2 ^ w + b = a' * 2 ^ w + b')%Z → a = a' ∧ b = b'.
Proof.
  intros Hb Hb' E.
  apply (Z.div_mod_unique (2 ^ w) a a' b b'); [left; lia|left; lia|].
  rewrite (Z.mul_comm _ a), (Z.mul_comm _ a'). done.
Qed.

(** ** Proof automation *)

(** Lemmas that close the routine goals of the components. *)
Create HintDb vanguard discriminated.

(** Takes a returned sequence of calls apart. *)
Ltac ret_step H :=
  lazymatch type of H with
  | Ret _ = Ret _ => injection H as H
  | Panic _ = Ret _ => discriminate H
  | Hang _ = Ret _ => discriminate H
  | (_ ≫= _) = Ret _ =>
      let x := fresh "r" in let E := fresh "E" in
      apply outcome_bind_ret in H as (x & E & H)
  end.

(** Case analysis on the innermost scrutinee of a [match] or [if]. *)
Ltac case_match_in H :=
  match type of H with
  | context [match ?x with _ => _ end] =>
      lazymatch x with
      | context [match _ with _ => _ end] => fail
      | _ => let E := fresh "E" in destruct x eqn:E
      end
  end.

(** Splits every [match] of the goal and the named hypothesis, cleaning up. *)
Ltac simp_eqs := simplify_eq/=.
Ltac go := repeat (case_match; simp_eqs); try done.

(** Proves an equation between closed terms by evaluating both sides. *)
Ltac by_eval := lazymatch goal with |- ?a = ?b => exact (@eq_refl _ b <: a = b) end.

(** Turns boolean integer tests in the context into propositions. *)
Ltac zbool :=
  repeat match goal with
  | H : (_ <? _)%Z = true |- _ => apply Z.ltb_lt in H
  | H : (_ <? _)%Z = false |- _ => apply Z.ltb_ge in H
  | H : (_ <=? _)%Z = true |- _ => apply Z.leb_le in H
  | H : (_ <=? _)%Z = false |- _ => apply Z.leb_gt in H
  | H : (_ =? _)%Z = true |- _ => apply Z.eqb_eq in H
  | H : (_ =? _)%Z = false |- _ => apply Z.eqb_neq in H
  | H : negb _ = true |- _ => apply negb_true_iff in H
  | H : negb _ = false |- _ => apply negb_false_iff in H
  | H : andb _ _ = true |- _ => apply andb_true_iff in H as [? ?]
  | H : orb _ _ = false |- _ => apply orb_false_iff in H as [? ?]
  end.

(** ** Lists *)

Section lists.
Context {A : Type}.
Implicit Types (l : list A).

(** [for _, x := range l { if p(x) { return x } }] *)
Fixpoint find_first (p : A → bool) (l : list A) : option A :=
  match l with
  | [] => None
  | x :: l => if p x then Some x else find_first p l
  end.

Lemma find_first_Some p l x :
  find_first p l = Some x →
  ∃ l1 l2, l = l1 ++ x :: l2 ∧ p x = true ∧ Forall (λ y, p y = false) l1.
Proof.
  induction l as [|y l IH]; [done|]. cbn. destruct (p y) eqn:Ep; intros; simplify_eq.
  - by exists [], l.
  - destruct IH as (l1 & l2 & -> & ? & ?); [done|]. exists (y :: l1), l2. auto.
Qed.

Lemma find_first_None p l :
  find_first p l = None ↔ Forall (λ y, p y = false) l.
Proof.
  induction l as [|y l IH]; cbn; [by split; [constructor|]|].
  destruct (p y) eqn:Ep; rewrite Forall_cons; [|rewrite IH]; naive_solver congruence.
Qed.

Lemma existsb_Exists (p : A → bool) l :
  existsb p l = true ↔ ∃ x, x ∈ l ∧ p x = true.
Proof.
  rewrite existsb_exists. setoid_rewrite list_elem_of_In. done.
Qed.

Lemma forallb_Forall (p : A → bool) l :
  forallb p l = true ↔ Forall (λ x, p x = true) l.
Proof. rewrite forallb_forall, Forall_forall. by setoid_rewrite list_elem_of_In. Qed.

(** Go's [l[len(l)-1]], which panics on the empty slice. *)
Definition last_elem (l : list A) : outcome A :=
  from_option_panic "index out of range" (last l).

(** Go's [l[i]]. *)
Definition index (l : list A) (i : nat) : outcome A :=
  from_option_panic "index out of range" (l !! i).
End lists.
