(* ===== verification/GoList.v ===== *)
(** * The doubly linked list of Go's container/list, and LRU indexes over it

    Three components of vanguard (the message cache, the IP access records and
    the name server address store) pair a [container/list] with a map from keys
    to list elements.  This file models the part of the list package they use,
    states the representation invariant of such a pair ([lru_ok]) and gives the
    abstract contents it stands for: the list of values, most recent first. *)

From S2P Require Import Prelude.

(** ** container/list

    An element pointer is an identifier that is never reused; the list holds
    its elements front first with their values. *)

Record golist (V : Type) : Type := GoList {
  gl_next : nat;
  gl_items : list (nat * V);
}.
Arguments GoList {V} _ _.
Arguments gl_next {V} _.
Arguments gl_items {V} _.

Section golist.
Context {V : Type}.
Implicit Types (l : golist V) (id : nat) (v : V).

Definition list_New : golist V := GoList 0 [].
Definition list_Init l : golist V := GoList (gl_next l) [].
Definition list_Len l : nat := length (gl_items l).

(** [elem.Value] *)
Definition list_Value id l : option V :=
  snd <$> find_first (λ x, bool_decide (x.1 = id)) (gl_items l).

Definition list_PushFront v l : nat * golist V :=
  (gl_next l, GoList (S (gl_next l)) ((gl_next l, v) :: gl_items l)).

Definition list_PushBack v l : nat * golist V :=
  (gl_next l, GoList (S (gl_next l)) (gl_items l ++ [(gl_next l, v)])).

Definition list_Remove id l : golist V :=
  GoList (gl_next l) (filter (λ x, x.1 ≠ id) (gl_items l)).

Definition list_MoveToFront id l : golist V :=
  match list_Value id l with
  | Some v => GoList (gl_next l) ((id, v) :: gl_items (list_Remove id l))
  | None => l
  end.

(** [elem.Value = v] *)
Definition list_SetValue id v l : golist V :=
  GoList (gl_next l)
    ((λ x, if bool_decide (x.1 = id) then (id, v) else x) <$> gl_items l).

Definition list_Back l : option (nat * V) := last (gl_items l).
Definition list_Front l : option (nat * V) := head (gl_items l).

(** [elem.Prev()]: the neighbour towards the front. *)
Fixpoint prev_in (id : nat) (before : option (nat * V)) (xs : list (nat * V))
  : option (nat * V) :=
  match xs with
  | [] => None
  | x :: xs => if bool_decide (x.1 = id) then before else prev_in id (Some x) xs
  end.
Definition list_Prev id l : option (nat * V) := prev_in id None (gl_items l).

(** The values, front first. *)
Definition list_values l : list V := (gl_items l).*2.

(** Element identifiers are distinct and below the next fresh one. *)
Definition golist_wf l : Prop :=
  NoDup (gl_items l).*1 ∧ Forall (λ x, x.1 < gl_next l) (gl_items l).

Lemma list_values_Remove_len id l : list_Len (list_Remove id l) ≤ list_Len l.
Proof. unfold list_Len; cbn. apply length_filter. Qed.

Lemma golist_wf_New : golist_wf list_New.
Proof. split; constructor. Qed.

Lemma golist_wf_elem l id v :
  golist_wf l → (id, v) ∈ gl_items l → list_Value id l = Some v.
Proof.
  intros [Hnd _] Hin. unfold list_Value. revert Hnd Hin.
  induction (gl_items l) as [|[i w] xs IH]; cbn; [by intros _ ?%elem_of_nil|].
  rewrite NoDup_cons, elem_of_cons. intros [Hni Hnd] [[=]|Hin]; subst.
  - by rewrite bool_decide_eq_true_2.
  - rewrite bool_decide_eq_false_2; [by apply IH|].
    intros ->. apply Hni. apply list_elem_of_fmap. by exists (id, v).
Qed.

Lemma list_Value_elem l id v : list_Value id l = Some v → (id, v) ∈ gl_items l.
Proof.
  unfold list_Value. intros (x & Hx & E)%fmap_Some. subst.
  apply find_first_Some in Hx as (? & ? & -> & Hid & _).
  apply bool_decide_eq_true in Hid as <-. destruct x. set_solver.
Qed.

(** An element splits the list at its unique position. *)
Lemma golist_split l id v :
  golist_wf l → (id, v) ∈ gl_items l →
  ∃ (xs ys : list (nat * V)), gl_items l = xs ++ (id, v) :: ys ∧ id ∉ xs.*1 ∧ id ∉ ys.*1.
Proof.
  intros [Hnd _] (xs & ys & E)%list_elem_of_split. exists xs, ys.
  rewrite E, fmap_app, fmap_cons, NoDup_app, NoDup_cons in Hnd. cbn in Hnd.
  split; [done|]. destruct Hnd as (_ & Hd & Hn & _). split; [|done].
  intros ?. apply (Hd id); set_solver.
Qed.

Lemma filter_id_notin (xs : list (nat * V)) id :
  id ∉ xs.*1 → filter (λ x, x.1 ≠ id) xs = xs.
Proof.
  induction xs as [|[i w] xs IH]; [done|].
  rewrite fmap_cons, not_elem_of_cons. intros [Hi Hxs].
  rewrite filter_cons_True by (cbn in *; congruence). by rewrite IH.
Qed.

Lemma Remove_split (xs ys : list (nat * V)) id v n :
  id ∉ xs.*1 → id ∉ ys.*1 →
  gl_items (list_Remove id (GoList n (xs ++ (id, v) :: ys))) = xs ++ ys.
Proof.
  intros H1 H2. unfold list_Remove, gl_items.
  rewrite filter_app, filter_cons_False by (cbn in *; congruence).
  by rewrite !filter_id_notin.
Qed.

Lemma SetValue_split (xs ys : list (nat * V)) id v w n :
  id ∉ xs.*1 → id ∉ ys.*1 →
  gl_items (list_SetValue id w (GoList n (xs ++ (id, v) :: ys))) = xs ++ (id, w) :: ys.
Proof.
  intros H1 H2. cbn. rewrite fmap_app, fmap_cons. cbn.
  rewrite bool_decide_eq_true_2 by done.
  assert (∀ zs : list (nat * V), id ∉ zs.*1 →
    (λ x, if bool_decide (x.1 = id) then (id, w) else x) <$> zs = zs) as Hid.
  { intros zs. induction zs as [|[i u] zs IH]; cbn; [done|].
    rewrite not_elem_of_cons. intros [Hi Hzs].
    rewrite bool_decide_eq_false_2 by congruence. by rewrite IH. }
  by rewrite !Hid.
Qed.

Lemma golist_wf_sub l xs :
  golist_wf l → xs `sublist_of` gl_items l → golist_wf (GoList (gl_next l) xs).
Proof.
  intros [Hnd Hlt] Hsub. split; cbn.
  - eapply sublist_NoDup; [exact Hnd|]. by apply fmap_sublist.
  - rewrite Forall_forall in Hlt |- *. intros x Hx.
    apply Hlt. by eapply elem_of_sublist.
Qed.

Lemma MoveToFront_items l id v i w :
  golist_wf l → (id, v) ∈ gl_items l →
  (i, w) ∈ gl_items (list_MoveToFront id l) ↔ (i, w) ∈ gl_items l.
Proof.
  intros Hwf Hin. unfold list_MoveToFront. rewrite (golist_wf_elem l id v) by done.
  unfold list_Remove; cbn. rewrite elem_of_cons, list_elem_of_filter; cbn.
  destruct (decide (i = id)) as [->|Hne]; [|naive_solver].
  split.
  - intros [[=->]|[[] _]]; done.
  - intros Hw. left. apply golist_wf_elem in Hin; [|done].
    apply golist_wf_elem in Hw; [|done]. congruence.
Qed.

Lemma golist_wf_MoveToFront l id : golist_wf l → golist_wf (list_MoveToFront id l).
Proof.
  intros Hwf. unfold list_MoveToFront. destruct (list_Value id l) as [v|] eqn:Ev; [|done].
  apply list_Value_elem in Ev.
  destruct (golist_split l id v Hwf Ev) as (xs & ys & E & Hx & Hy).
  destruct l as [n items]; cbn in E; subst. rewrite Remove_split by done.
  destruct Hwf as [Hnd Hlt]; cbn in *. split; cbn.
  - rewrite fmap_app in *. rewrite fmap_cons in Hnd. cbn in *.
    apply (NoDup_Permutation_proper _ (xs.*1 ++ id :: ys.*1)); [|done].
    by rewrite Permutation_middle.
  - revert Hlt. rewrite Forall_cons, !Forall_app, Forall_cons. tauto.
Qed.

Lemma golist_wf_PushFront l v : golist_wf l → golist_wf (list_PushFront v l).2.
Proof.
  intros [Hnd Hlt]. split; cbn.
  - apply NoDup_cons. split; [|done]. intros (x & E & Hx)%list_elem_of_fmap.
    rewrite Forall_forall in Hlt. specialize (Hlt x Hx). lia.
  - constructor; cbn; [lia|]. eapply Forall_impl; [exact Hlt|]. cbn. lia.
Qed.
End golist.

(** ** A list indexed by a map: the LRU representation *)

Section lru.
Context {K V : Type} `{Countable K}.
Variable key : V → K.
Implicit Types (l : golist V) (m : gmap K nat) (L : list V).

(** The map sends a key to the unique element whose value has that key. *)
Definition lru_ok l m : Prop :=
  golist_wf l ∧ ∀ k id, m !! k = Some id ↔ ∃ v, (id, v) ∈ gl_items l ∧ key v = k.

(** The abstract contents: values by recency, and what the operations of an
    LRU store do to them. *)
Definition spec_find (k : K) L : option V :=
  find_first (λ v, bool_decide (key v = k)) L.
Definition spec_remove (k : K) L : list V := filter (λ v, key v ≠ k) L.
Definition spec_put (v : V) L : list V := v :: spec_remove (key v) L.

(** Dropping the least recently used value. *)
Definition spec_drop_last L : list V := take (length L - 1) L.

Lemma lru_ok_New : lru_ok list_New ∅.
Proof.
  split; [apply golist_wf_New|]. intros k id. rewrite lookup_empty. set_solver.
Qed.

Lemma lru_ok_Init l : lru_ok (list_Init l) ∅.
Proof.
  split; [split; constructor|]. intros k id. rewrite lookup_empty. set_solver.
Qed.

Lemma lru_key_elem l m id id' v v' :
  lru_ok l m → (id, v) ∈ gl_items l → (id', v') ∈ gl_items l →
  key v = key v' → id = id' ∧ v = v'.
Proof.
  intros [Hwf Hm] H1 H2 E.
  assert (m !! key v = Some id) as E1 by (apply Hm; eauto).
  assert (m !! key v = Some id') as E2 by (apply Hm; eauto).
  simplify_eq. split; [done|].
  apply golist_wf_elem in H1; [|done]. apply golist_wf_elem in H2; [|done]. congruence.
Qed.

Lemma lru_lookup l m k id :
  lru_ok l m → m !! k = Some id →
  ∃ v, list_Value id l = Some v ∧ (id, v) ∈ gl_items l ∧ key v = k.
Proof.
  intros [Hwf Hm] (v & Hv & E)%Hm. exists v. split_and!; [|done|done].
  by apply golist_wf_elem.
Qed.

Lemma lru_lookup_None l m k :
  lru_ok l m → m !! k = None → ∀ v, v ∈ list_values l → key v ≠ k.
Proof.
  intros [Hwf Hm] Hk v (x & -> & Hx)%list_elem_of_fmap E.
  assert (m !! k = Some x.1) as ?; [|congruence].
  apply Hm. exists x.2. by destruct x.
Qed.

Lemma filter_all_id {A} (P : A → Prop) `{!∀ x, Decision (P x)} (xs : list A) :
  (∀ x, x ∈ xs → P x) → filter P xs = xs.
Proof.
  induction xs as [|x xs IH]; [done|]. intros HP.
  rewrite filter_cons_True by (apply HP; set_solver).
  rewrite IH; [done|]. intros y Hy. apply HP. set_solver.
Qed.

Lemma spec_remove_absent k L : (∀ v, v ∈ L → key v ≠ k) → spec_remove k L = L.
Proof. intros HL. by apply filter_all_id. Qed.

(** Where an indexed key sits: its element splits the list, and removing the
    key removes that element only. *)
Lemma lru_split l m id v :
  lru_ok l m → (id, v) ∈ gl_items l →
  ∃ (xs ys : list (nat * V)), gl_items l = xs ++ (id, v) :: ys ∧ id ∉ xs.*1 ∧ id ∉ ys.*1 ∧
    spec_remove (key v) (list_values l) = xs.*2 ++ ys.*2.
Proof.
  intros Hok Hin. destruct (golist_split l id v (proj1 Hok) Hin) as (xs & ys & E & Hx & Hy).
  exists xs, ys. split_and!; [done..|].
  unfold list_values. rewrite E, fmap_app, fmap_cons. unfold spec_remove.
  rewrite filter_app, filter_cons_False by (cbn; tauto).
  assert (∀ zs : list (nat * V), (∀ z, z ∈ zs → z ∈ gl_items l) → id ∉ zs.*1 →
    filter (λ w, key w ≠ key v) zs.*2 = zs.*2) as Hz.
  { intros zs Hsub Hni. apply filter_all_id. intros w ([i w'] & -> & Hw)%list_elem_of_fmap E'.
    destruct (lru_key_elem l m i id w' v Hok (Hsub _ Hw) Hin E') as [-> _].
    apply Hni. apply list_elem_of_fmap. by exists (id, w'). }
  rewrite !Hz; [done|try rewrite E; set_solver..].
Qed.

Lemma Remove_values l m id v :
  lru_ok l m → (id, v) ∈ gl_items l →
  list_values (list_Remove id l) = spec_remove (key v) (list_values l).
Proof.
  intros Hok Hin. destruct (lru_split l m id v Hok Hin) as (xs & ys & E & Hx & Hy & ->).
  unfold list_values. destruct l as [n items]; cbn in E. subst.
  by rewrite Remove_split, fmap_app.
Qed.

Lemma MoveToFront_values l m id v :
  lru_ok l m → (id, v) ∈ gl_items l →
  list_values (list_MoveToFront id l) = spec_put v (list_values l).
Proof.
  intros Hok Hin. unfold list_MoveToFront, spec_put.
  rewrite (golist_wf_elem l id v) by (done || apply Hok).
  rewrite <- (Remove_values l m id v) by done. done.
Qed.

Lemma lru_ok_Remove l m id v :
  lru_ok l m → (id, v) ∈ gl_items l → lru_ok (list_Remove id l) (delete (key v) m).
Proof.
  intros Hok Hin. split.
  - apply golist_wf_sub; [apply Hok|]. apply sublist_filter.
  - intros k i. destruct (decide (key v = k)) as [<-|Hk].
    + rewrite lookup_delete_eq. split; [done|]. intros (w & Hw & E). exfalso.
      unfold list_Remove in Hw; cbn in Hw. apply list_elem_of_filter in Hw as [Hne Hw].
      apply Hne. by destruct (lru_key_elem l m i id w v Hok Hw Hin E).
    + rewrite lookup_delete_ne by done. rewrite (proj2 Hok k i).
      unfold list_Remove; cbn. setoid_rewrite list_elem_of_filter. split.
      * intros (w & Hw & E). exists w. split_and!; [|done|done]. cbn. intros ->.
        apply Hk. rewrite <- E. f_equal.
        apply golist_wf_elem in Hin; [|apply Hok].
        apply golist_wf_elem in Hw; [|apply Hok]. congruence.
      * naive_solver.
Qed.

Lemma lru_ok_MoveToFront l m k id :
  lru_ok l m → m !! k = Some id → lru_ok (list_MoveToFront id l) m.
Proof.
  intros Hok Hk. destruct (lru_lookup l m k id Hok Hk) as (v & _ & Hin & _).
  split; [apply golist_wf_MoveToFront, Hok|]. intros k' i. rewrite (proj2 Hok k' i).
  by setoid_rewrite (MoveToFront_items l id v) ; [|apply Hok|].
Qed.

(** Replacing the value of an element by one with the same key. *)
Lemma lru_ok_SetValue l m id v w :
  lru_ok l m → (id, v) ∈ gl_items l → key w = key v → lru_ok (list_SetValue id w l) m.
Proof.
  intros Hok Hin Ekey. pose proof (proj1 Hok) as Hwf.
  destruct (golist_split l id v Hwf Hin) as (xs & ys & E & Hx & Hy).
  destruct l as [n items]; cbn in E; subst. destruct Hok as [_ Hm].
  split.
  - destruct Hwf as [Hnd Hlt]. split; rewrite SetValue_split by done; cbn.
    + cbn in Hnd. rewrite fmap_app, fmap_cons in Hnd |- *. exact Hnd.
    + revert Hlt; cbn. by rewrite !Forall_app, !Forall_cons.
  - intros k i. rewrite (Hm k i). rewrite SetValue_split by done. cbn.
    setoid_rewrite elem_of_app. setoid_rewrite elem_of_cons.
    split; intros (u & [Hu|[[= -> ->]|Hu]] & <-); eauto 10.
Qed.

Lemma MoveSet_values l m id v w :
  lru_ok l m → (id, v) ∈ gl_items l → key w = key v →
  list_values (list_SetValue id w (list_MoveToFront id l)) = spec_put w (list_values l).
Proof.
  intros Hok Hin Ekey. unfold list_MoveToFront, spec_put.
  rewrite (golist_wf_elem l id v) by (done || apply Hok).
  rewrite Ekey, <- (Remove_values l m id v) by done.
  unfold list_values, list_SetValue; cbn. rewrite bool_decide_eq_true_2 by done. f_equal.
  rewrite <- list_fmap_compose. apply list_fmap_ext. intros j [i u] Hj.
  apply list_elem_of_lookup_2, list_elem_of_filter in Hj as [Hne _]. cbn in *.
  by rewrite bool_decide_eq_false_2.
Qed.

Lemma lru_ok_PushFront l m v :
  lru_ok l m → m !! key v = None →
  lru_ok (list_PushFront v l).2 (<[key v := (list_PushFront v l).1]> m).
Proof.
  intros Hok Hk. destruct Hok as [[Hnd Hlt] Hm]. rewrite Forall_forall in Hlt.
  assert (∀ u, (gl_next l, u) ∉ gl_items l) as Hfresh.
  { intros u Hu%Hlt. cbn in Hu. lia. }
  split.
  - split; cbn.
    + rewrite NoDup_cons. split; [|done].
      intros ([i u] & E & Hu)%list_elem_of_fmap. cbn in E. subst. by eapply Hfresh.
    + rewrite Forall_cons. split; [cbn; lia|].
      rewrite Forall_forall. intros x Hx%Hlt. lia.
  - intros k i; cbn. setoid_rewrite elem_of_cons.
    destruct (decide (key v = k)) as [<-|Hne].
    + rewrite lookup_insert_eq. split; [intros [= <-]; eauto|].
      intros (u & [[= -> ->]|Hu] & E); [done|].
      assert (m !! key v = Some i) by (apply Hm; eauto). congruence.
    + rewrite lookup_insert_ne by done. rewrite (Hm k i). naive_solver.
Qed.

Lemma PushFront_values l v : list_values (list_PushFront v l).2 = v :: list_values l.
Proof. done. Qed.

Lemma list_Len_values l : list_Len l = length (list_values l).
Proof. unfold list_Len, list_values. by rewrite length_fmap. Qed.

Lemma Back_elem l id v : list_Back l = Some (id, v) → (id, v) ∈ gl_items l.
Proof. intros E. by apply last_Some_elem_of. Qed.

(** Removing the back element drops the least recently used value. *)
Lemma Back_values l m id v :
  lru_ok l m → list_Back l = Some (id, v) →
  list_values (list_Remove id l) = spec_drop_last (list_values l).
Proof.
  intros Hok Hback. unfold list_Back in Hback. apply last_Some in Hback as [xs E].
  destruct l as [n items]; cbn in E; subst.
  assert (id ∉ xs.*1) as Hni.
  { destruct Hok as [[Hnd _] _]; cbn in Hnd. rewrite fmap_app, NoDup_app in Hnd.
    intros Hx. destruct Hnd as (_ & Hd & _). apply (Hd id Hx). set_solver. }
  unfold list_values at 1. rewrite Remove_split by (done || set_solver).
  unfold spec_drop_last, list_values; cbn. rewrite app_nil_r, fmap_app, length_app; cbn.
  replace (length xs.*2 + 1 - 1) with (length xs.*2) by lia. by rewrite take_app_length.
Qed.
(** The index finds what the abstract contents hold under a key. *)
Lemma lru_find l m k :
  lru_ok l m →
  match m !! k with
  | Some id => ∃ v, list_Value id l = Some v ∧ (id, v) ∈ gl_items l ∧ key v = k ∧
                    spec_find k (list_values l) = Some v
  | None => spec_find k (list_values l) = None
  end.
Proof.
  intros Hok. destruct (m !! k) as [id|] eqn:Hid.
  - destruct (lru_lookup _ _ _ _ Hok Hid) as (v & Hv & Hin & Hk).
    exists v. split_and!; [done..|].
    unfold spec_find. destruct (find_first _ _) as [w|] eqn:Hf.
    + apply find_first_Some in Hf as (xs & ys & Hs & Hk' & _).
      apply bool_decide_eq_true in Hk'.
      assert (w ∈ list_values l) as Hw by (rewrite Hs; set_solver).
      apply list_elem_of_fmap in Hw as ([id' x] & Hx & Hin'). cbn in Hx; subst x.
      destruct (lru_key_elem _ _ id' id w v Hok) as [_ ->]; [done|done|congruence|done].
    + apply find_first_None in Hf. rewrite Forall_forall in Hf.
      assert (v ∈ list_values l) as Hvl by (apply list_elem_of_fmap; by exists (id, v)).
      specialize (Hf v Hvl). by apply bool_decide_eq_false in Hf.
  - apply find_first_None, Forall_forall. intros v Hv. apply bool_decide_eq_false.
    by eapply lru_lookup_None.
Qed.

(** The invariant depends on the key function at the listed values only. *)
Lemma lru_ok_ext (key' : V → K) l m :
  (∀ id v, (id, v) ∈ gl_items l → key v = key' v) →
  lru_ok l m → golist_wf l ∧ ∀ k id, m !! k = Some id ↔ ∃ v, (id, v) ∈ gl_items l ∧ key' v = k.
Proof.
  intros Hk [Hwf Hm]. split; [done|]. intros k id. rewrite Hm.
  split; intros (v & Hv & E); exists v; (split; [done|]); rewrite <- E; [symmetry|]; eauto.
Qed.
End lru.

#[export] Hint Resolve lru_ok_New lru_ok_Init lru_ok_Remove lru_ok_MoveToFront
  lru_ok_SetValue lru_ok_PushFront Back_elem golist_wf_New : vanguard.
