(* ===== verification/GoStd.v ===== *)
(** * The parts of Go's standard library the components use

    Strings ([strings.Split], [strings.HasPrefix], [strings.ToLower],
    [strings.Join]), [strconv.Atoi], [net.IP] and the calendar of [time].
    Strings are byte strings.  [ToLower] maps the ASCII letters, which are all
    the letters configuration names use.  Instants are nanoseconds of the local
    clock since 1970-01-01 00:00 in a location with a constant UTC offset. *)

From S2P Require Import Prelude.
From Stdlib Require Import Ascii.

(** ** strings *)

(** [strings.Split(s, sep)] for a one-byte separator: always at least one
    field. *)
Fixpoint strings_Split (s : string) (sep : ascii) : list string :=
  match s with
  | EmptyString => [EmptyString]
  | String c s' =>
      if Ascii.eqb c sep then EmptyString :: strings_Split s' sep
      else match strings_Split s' sep with
           | f :: fs => String c f :: fs
           | [] => [String c EmptyString]
           end
  end.

Fixpoint strings_Join (fs : list string) (sep : string) : string :=
  match fs with
  | [] => EmptyString
  | [f] => f
  | f :: fs => (f ++ sep ++ strings_Join fs sep)%string
  end.

Definition strings_HasPrefix (s p : string) : bool := String.prefix p s.

(** [s[n:]] *)
Fixpoint str_drop (n : nat) (s : string) : string :=
  match n, s with
  | 0, _ => s
  | S n, String _ s => str_drop n s
  | S _, EmptyString => EmptyString
  end.

Definition ascii_lower (c : ascii) : ascii :=
  let n := nat_of_ascii c in
  if (65 <=? n) && (n <=? 90) then ascii_of_nat (n + 32) else c.
Fixpoint strings_ToLower (s : string) : string :=
  match s with
  | EmptyString => EmptyString
  | String c s => String (ascii_lower c) (strings_ToLower s)
  end.

Lemma ascii_lower_idemp c : ascii_lower (ascii_lower c) = ascii_lower c.
Proof. by destruct c as [[] [] [] [] [] [] [] []]. Qed.

Lemma ToLower_idemp s : strings_ToLower (strings_ToLower s) = strings_ToLower s.
Proof. induction s as [|c s IH]; simpl; [done|]. by rewrite ascii_lower_idemp, IH. Qed.

Lemma strings_Split_nonempty s sep : strings_Split s sep ≠ [].
Proof.
  destruct s as [|c s]; [done|]. simpl.
  destruct (Ascii.eqb c sep); [done|]. by destruct (strings_Split s sep).
Qed.

(** The first field of a string that does not hold the separator. *)
Fixpoint str_has (c : ascii) (s : string) : bool :=
  match s with
  | EmptyString => false
  | String d s => Ascii.eqb d c || str_has c s
  end.

Lemma Split_app_sep s1 s2 sep :
  str_has sep s1 = false →
  strings_Split (s1 ++ String sep s2)%string sep = s1 :: strings_Split s2 sep.
Proof.
  induction s1 as [|c s1 IH]; simpl; intros Hs.
  - by rewrite Ascii.eqb_refl.
  - apply orb_false_iff in Hs as [-> Hs]. by rewrite IH.
Qed.

Lemma Split_no_sep s sep : str_has sep s = false → strings_Split s sep = [s].
Proof.
  induction s as [|c s IH]; simpl; [done|].
  intros [-> Hs]%orb_false_iff. by rewrite IH.
Qed.

(** ** strconv *)

Definition digit_val (c : ascii) : option Z :=
  let n := nat_of_ascii c in
  if (48 <=? n) && (n <=? 57) then Some (Z.of_nat n - 48)%Z else None.

Fixpoint digits_val (acc : Z) (s : string) : option Z :=
  match s with
  | EmptyString => Some acc
  | String c s => d ← digit_val c; digits_val (acc * 10 + d)%Z s
  end.

Definition nat_of_digits (s : string) : option Z :=
  match s with EmptyString => None | _ => digits_val 0 s end.

(** [strconv.Atoi]: an optional sign, decimal digits, in the range of [int]. *)
Definition strconv_Atoi (s : string) : option Z :=
  let signed z := if decide (is_i64 z) then Some z else None in
  match s with
  | String "-" s' => z ← nat_of_digits s'; signed (- z)%Z
  | String "+" s' => z ← nat_of_digits s'; signed z
  | _ => z ← nat_of_digits s; signed z
  end.

(** ** net.IP *)

(** An IP address is its byte slice; the nil address is the empty slice. *)
Abbreviation IP := (list Z).

Definition v4InV6Prefix : list Z := [0;0;0;0;0;0;0;0;0;0;255;255]%Z.

Definition IP_To4 (ip : IP) : option IP :=
  if decide (length ip = 4) then Some ip
  else if decide (length ip = 16 ∧ take 12 ip = v4InV6Prefix) then Some (drop 12 ip)
  else None.

Definition IP_To16 (ip : IP) : option IP :=
  if decide (length ip = 4) then Some (v4InV6Prefix ++ ip)
  else if decide (length ip = 16) then Some ip
  else None.

(** [binary.LittleEndian.Uint32], which panics on fewer than four bytes. *)
Definition le_uint32 (b : list Z) : outcome Z :=
  match b with
  | b0 :: b1 :: b2 :: b3 :: _ =>
      Ret (Z.lor b0 (Z.lor (Z.shiftl b1 8) (Z.lor (Z.shiftl b2 16) (Z.shiftl b3 24))))
  | _ => Panic "index out of range"
  end.

Lemma le_bytes_sum b0 b1 b2 b3 :
  is_u8 b0 → is_u8 b1 → is_u8 b2 → is_u8 b3 →
  Z.lor b0 (Z.lor (Z.shiftl b1 8) (Z.lor (Z.shiftl b2 16) (Z.shiftl b3 24))) =
  (b0 + 2 ^ 8 * b1 + 2 ^ 16 * b2 + 2 ^ 24 * b3)%Z.
Proof.
  unfold is_u8. intros H0 H1 H2 H3.
  assert (Z.shiftl b3 24 = Z.shiftl (Z.shiftl b3 8) 16) as -> by (by rewrite Z.shiftl_shiftl).
  rewrite <- (Z.shiftl_lor b2 (Z.shiftl b3 8) 16).
  assert (Z.shiftl (Z.lor b2 (Z.shiftl b3 8)) 16 =
          Z.shiftl (Z.shiftl (Z.lor b2 (Z.shiftl b3 8)) 8) 8) as ->
    by (by rewrite Z.shiftl_shiftl).
  rewrite <- Z.shiftl_lor. rewrite (Z.lor_comm b0), lor_shiftl_add by lia.
  rewrite (Z.lor_comm b1), lor_shiftl_add by lia.
  rewrite (Z.lor_comm b2), lor_shiftl_add by lia. lia.
Qed.

(** ** time *)

Local Open Scope Z_scope.

Definition Second : Z := 1000000000.
Definition Minute : Z := 60 * Second.
Definition Hour : Z := 3600 * Second.
Definition DayLen : Z := 86400 * Second.

Definition isLeap (y : Z) : bool :=
  (y mod 4 =? 0) && (negb (y mod 100 =? 0) || (y mod 400 =? 0)).

(** Days before the first of each month in a common year. *)
Definition daysBefore (month : Z) : Z :=
  nth (Z.to_nat (month - 1)) [0;31;59;90;120;151;181;212;243;273;304;334] 365.

Definition daysIn (y month : Z) : Z :=
  nth (Z.to_nat (month - 1))
    [31; (if isLeap y then 29 else 28); 31; 30; 31; 30; 31; 31; 30; 31; 30; 31] 0.

(** Days from 1970-01-01 to January 1st of [y]. *)
Definition daysToYear (y : Z) : Z :=
  let p := y - 1 in 365 * (y - 1970) + (p / 4 - p / 100 + p / 400) - 477.

(** Days from January 1st of [y] to the given date; the day may lie outside the
    month and then overflows into the next. *)
Definition yearDay (y month day : Z) : Z :=
  daysBefore month + (if isLeap y && (3 <=? month) then 1 else 0) + (day - 1).

(** [time.Date(y, month, day, hour, min, 0, 0, loc)] *)
Definition time_Date (y month day hour min : Z) : Z :=
  (daysToYear y + yearDay y month day) * DayLen + hour * Hour + min * Minute.

Definition day_number (t : Z) : Z := t / DayLen.
Definition time_of_day (t : Z) : Z := t mod DayLen.

(** The year of a day number, by 400, 100, 4 and 1 year cycles counted from
    January 1st of year 1, as [time.absDate] does. *)
Definition year_of_day (d : Z) : Z * Z :=
  let d := d + 719162 in
  let n400 := d / 146097 in
  let d := d - 146097 * n400 in
  let n100 := d / 36524 in
  let n100 := n100 - n100 / 4 in
  let d := d - 36524 * n100 in
  let n4 := d / 1461 in
  let d := d - 1461 * n4 in
  let n1 := d / 365 in
  let n1 := n1 - n1 / 4 in
  let d := d - 365 * n1 in
  (400 * n400 + 100 * n100 + 4 * n4 + n1 + 1, d).

Fixpoint month_from (y yday month : Z) (fuel : nat) : Z * Z :=
  match fuel with
  | O => (month, yday + 1)
  | S fuel =>
      if yday <? daysIn y month then (month, yday + 1)
      else month_from y (yday - daysIn y month) (month + 1) fuel
  end.

Definition time_Year (t : Z) : Z := (year_of_day (day_number t)).1.
Definition civil_of_day (d : Z) : Z * Z * Z :=
  let '(y, yday) := year_of_day d in
  let '(m, day) := month_from y yday 1 11 in (y, m, day).
Definition time_Month (t : Z) : Z := (civil_of_day (day_number t)).1.2.
Definition time_Day (t : Z) : Z := (civil_of_day (day_number t)).2.

(** Sunday is 0; 1970-01-01 was a Thursday. *)
Definition time_Weekday (t : Z) : Z := (day_number t + 4) mod 7.

Definition time_Before (a b : Z) : bool := a <? b.
Definition time_After (a b : Z) : bool := b <? a.

(** *** Calendar lemmas *)

Lemma isLeap_cycle a b c e :
  0 ≤ b ≤ 3 → 0 ≤ c ≤ 24 → 0 ≤ e ≤ 3 →
  isLeap (400 * a + 100 * b + 4 * c + e + 1) =
    (e =? 3) && (negb (c =? 24) || (b =? 3)).
Proof.
  intros Hb Hc He. unfold isLeap.
  assert ((400 * a + 100 * b + 4 * c + e + 1) mod 4 = (e + 1) mod 4) as ->.
  { replace (400 * a + 100 * b + 4 * c + e + 1)
      with (e + 1 + (100 * a + 25 * b + c) * 4) by lia. apply Z.mod_add. lia. }
  assert ((400 * a + 100 * b + 4 * c + e + 1) mod 100 = (4 * c + e + 1) mod 100) as ->.
  { replace (400 * a + 100 * b + 4 * c + e + 1)
      with (4 * c + e + 1 + (4 * a + b) * 100) by lia. apply Z.mod_add. lia. }
  assert ((400 * a + 100 * b + 4 * c + e + 1) mod 400 = (100 * b + 4 * c + e + 1) mod 400) as ->.
  { replace (400 * a + 100 * b + 4 * c + e + 1)
      with (100 * b + 4 * c + e + 1 + a * 400) by lia. apply Z.mod_add. lia. }
  repeat match goal with |- context [?x =? ?y] => destruct (Z.eqb_spec x y) end;
    cbn; try done; exfalso; Z.to_euclidean_division_equations; lia.
Qed.

Lemma daysToYear_cycle a b c e :
  0 ≤ b ≤ 3 → 0 ≤ c ≤ 24 → 0 ≤ e ≤ 3 →
  daysToYear (400 * a + 100 * b + 4 * c + e + 1) =
    146097 * a + 36524 * b + 1461 * c + 365 * e - 719162.
Proof.
  intros Hb Hc He. unfold daysToYear.
  replace (400 * a + 100 * b + 4 * c + e + 1 - 1) with (400 * a + 100 * b + 4 * c + e) by lia.
  assert ((400 * a + 100 * b + 4 * c + e) / 4 = 100 * a + 25 * b + c) as ->
    by (symmetry; apply (Z.div_unique _ _ _ e); lia).
  assert ((400 * a + 100 * b + 4 * c + e) / 100 = 4 * a + b) as ->
    by (symmetry; apply (Z.div_unique _ _ _ (4 * c + e)); lia).
  assert ((400 * a + 100 * b + 4 * c + e) / 400 = a) as ->
    by (symmetry; apply (Z.div_unique _ _ _ (100 * b + 4 * c + e)); lia).
  lia.
Qed.

Definition yearLen (y : Z) : Z := if isLeap y then 366 else 365.

(** The year computed from a day number is the one whose days include it. *)
Lemma year_of_day_spec d :
  daysToYear (year_of_day d).1 + (year_of_day d).2 = d ∧
  0 ≤ (year_of_day d).2 < yearLen (year_of_day d).1.
Proof.
  unfold year_of_day. cbv zeta. cbn [fst snd].
  set (d0 := d + 719162). set (a := d0 / 146097). set (r := d0 - 146097 * a).
  assert (0 ≤ r < 146097) by (subst r a; Z.to_euclidean_division_equations; lia).
  set (b := r / 36524 - r / 36524 / 4).
  assert (0 ≤ b ≤ 3 ∧ 0 ≤ r - 36524 * b ∧
    (r - 36524 * b < 36524 ∨ (b = 3 ∧ r - 36524 * b = 36524))) as (Hb & Hb1 & Hb2)
    by (subst b; Z.to_euclidean_division_equations; lia).
  set (r2 := r - 36524 * b) in *. set (c := r2 / 1461).
  assert (0 ≤ c ≤ 24 ∧ 0 ≤ r2 - 1461 * c < 1461) as [Hc Hc1]
    by (subst c; Z.to_euclidean_division_equations; lia).
  set (r3 := r2 - 1461 * c) in *. set (e := r3 / 365 - r3 / 365 / 4).
  assert (0 ≤ e ≤ 3 ∧ 0 ≤ r3 - 365 * e ∧
    (r3 - 365 * e < 365 ∨ (e = 3 ∧ r3 - 365 * e = 365))) as (He & He1 & He2)
    by (subst e; Z.to_euclidean_division_equations; lia).
  rewrite daysToYear_cycle by lia. unfold yearLen. rewrite isLeap_cycle by lia.
  split; [subst r3 r2 r d0; lia|].
  destruct (Z.eqb_spec e 3), (Z.eqb_spec c 24), (Z.eqb_spec b 3); cbn; subst r3 r2; lia.
Qed.

Lemma month_from_spec y yday :
  0 ≤ yday < yearLen y →
  let r := month_from y yday 1 11 in
  yearDay y r.1 r.2 = yday ∧ 1 ≤ r.1 ≤ 12 ∧ 1 ≤ r.2 ≤ daysIn y r.1.
Proof.
  unfold yearLen, yearDay. intros Hy. cbv zeta.
  cbn [month_from].
  change (1 + 1) with 2. change (2 + 1) with 3. change (3 + 1) with 4. change (4 + 1) with 5.
  change (5 + 1) with 6. change (6 + 1) with 7. change (7 + 1) with 8. change (8 + 1) with 9.
  change (9 + 1) with 10. change (10 + 1) with 11. change (11 + 1) with 12.
  unfold daysIn, daysBefore; simpl nth.
  destruct (isLeap y);
    repeat match goal with |- context [?a <? ?b] => destruct (Z.ltb_spec a b) end;
    cbn [fst snd];
    repeat match goal with
    | |- context [Z.to_nat ?e] => let n := eval vm_compute in (Z.to_nat e) in change (Z.to_nat e) with n
    end; cbn; lia.
Qed.

(** The calendar date of a day number is a valid date that counts back to it. *)
Lemma civil_of_day_spec d :
  let '(y, m, day) := civil_of_day d in
  daysToYear y + yearDay y m day = d ∧ 1 ≤ m ≤ 12 ∧ 1 ≤ day ≤ daysIn y m ∧
  y = (year_of_day d).1.
Proof.
  unfold civil_of_day. destruct (year_of_day_spec d) as [Hd Hy].
  destruct (year_of_day d) as [y yday]. cbn [fst snd] in *.
  pose proof (month_from_spec y yday Hy) as Hm. cbv zeta in Hm.
  destruct (month_from y yday 1 11) as [m day]. cbn [fst snd] in *. lia.
Qed.

(** A clock time placed on the day of [t] by its calendar date. *)
Lemma time_Date_today t h min :
  time_Date (time_Year t) (time_Month t) (time_Day t) h min =
    day_number t * DayLen + h * Hour + min * Minute.
Proof.
  unfold time_Date, time_Year, time_Month, time_Day.
  pose proof (civil_of_day_spec (day_number t)) as Hc.
  destruct (civil_of_day (day_number t)) as [[y m] d] eqn:E. cbn [fst snd].
  destruct Hc as (Hd & _ & _ & <-). by rewrite Hd.
Qed.

Lemma time_split t : t = day_number t * DayLen + time_of_day t ∧ 0 ≤ time_of_day t < DayLen.
Proof.
  unfold day_number, time_of_day, DayLen, Second.
  Z.to_euclidean_division_equations; lia.
Qed.
