(* ===== verification/G53.v ===== *)
(** * The DNS library vanguard is built on, as an interface

    Domain names, resource records and messages come from the package
    [github.com/zdnscloud/g53], which is not part of this repository.  Names and
    every operation of the package are parameters of the model: the fields of
    the classes [G53Name] and [G53Msg].  What the components rely on is stated
    in the classes [G53NameLaws] and [G53MsgLaws].  The records below list the
    fields of the package's structures that vanguard reads or writes; the
    numeric codes are the IANA assignments of the DNS. *)

From S2P Require Import Prelude GoStd.

(** ** Domain names *)

Class G53Name : Type := {
  Name : Type;
  Name_Equals : Name → Name → bool;
  (** [Hash(false)]: 32 bits, independent of letter case. *)
  Name_Hash : Name → Z;
  (** [a.IsSubDomain(b)]: [a] is [b] or below it. *)
  Name_IsSubDomain : Name → Name → bool;
  Name_IsWildCard : Name → bool;
  (** [Parent(1)] *)
  Name_Parent : Name → option Name;
  (** [NameFromString]; [inl] is the error text. *)
  Name_FromString : string → string + Name;
  (** [String(false)] *)
  Name_String : Name → string;
  Name_Root : Name;
}.

Class G53NameLaws (N : G53Name) : Prop := {
  Equals_refl n : Name_Equals n n = true;
  Equals_sym a b : Name_Equals a b = true → Name_Equals b a = true;
  Equals_trans a b c : Name_Equals a b = true → Name_Equals b c = true → Name_Equals a c = true;
  Hash_range n : is_u32 (Name_Hash n);
  Hash_Equals a b : Name_Equals a b = true → Name_Hash a = Name_Hash b;
  IsSubDomain_refl n : Name_IsSubDomain n n = true;
  IsSubDomain_Equals a a' b b' :
    Name_Equals a a' = true → Name_Equals b b' = true →
    Name_IsSubDomain a b = Name_IsSubDomain a' b';
  IsSubDomain_trans a b c :
    Name_IsSubDomain a b = true → Name_IsSubDomain b c = true → Name_IsSubDomain a c = true;
  IsSubDomain_antisym a b :
    Name_IsSubDomain a b = true → Name_IsSubDomain b a = true → Name_Equals a b = true;
}.

(** Names are used up to [Equals]. *)
Definition name_eq `{G53Name} (a b : Name) : Prop := Name_Equals a b = true.
Infix "≈" := name_eq (at level 70) : stdpp_scope.

Section names.
Context {N : G53Name} {L : G53NameLaws N}.

#[export] Instance name_eq_equivalence : Equivalence name_eq.
Proof.
  split; unfold name_eq.
  - intros n. apply Equals_refl.
  - intros a b. apply Equals_sym.
  - intros a b c. apply Equals_trans.
Qed.

#[export] Instance name_eq_decision : RelDecision name_eq.
Proof. intros a b. unfold name_eq. apply _. Defined.

#[export] Instance Name_Equals_proper : Proper (name_eq ==> name_eq ==> eq) Name_Equals.
Proof.
  intros a a' Ha b b' Hb. apply eq_true_iff_eq. fold (name_eq a b) (name_eq a' b').
  by rewrite Ha, Hb.
Qed.

#[export] Instance Name_Hash_proper : Proper (name_eq ==> eq) Name_Hash.
Proof. intros a a' Ha. by apply Hash_Equals. Qed.

#[export] Instance Name_IsSubDomain_proper :
  Proper (name_eq ==> name_eq ==> eq) Name_IsSubDomain.
Proof. intros a a' Ha b b' Hb. by apply IsSubDomain_Equals. Qed.
End names.

(** ** Codes *)

Abbreviation RRType := Z (only parsing).
Definition RR_A : RRType := 1.
Definition RR_NS : RRType := 2.
Definition RR_CNAME : RRType := 5.
Definition RR_SOA : RRType := 6.
Definition RR_PTR : RRType := 12.
Definition RR_MX : RRType := 15.
Definition RR_TXT : RRType := 16.
Definition RR_AAAA : RRType := 28.
Definition RR_SRV : RRType := 33.
Definition RR_NAPTR : RRType := 35.
Definition RR_DNAME : RRType := 39.
Definition RR_OPT : RRType := 41.
Definition RR_SPF : RRType := 99.
Definition RR_ANY : RRType := 255.

Definition CLASS_IN : Z := 1.
Definition CLASS_NONE : Z := 254.
Definition CLASS_ANY : Z := 255.

Definition R_NOERROR : Z := 0.
Definition R_FORMERR : Z := 1.
Definition R_SERVFAIL : Z := 2.
Definition R_NXDOMAIN : Z := 3.
Definition R_NOTAUTH : Z := 9.
Definition R_BADSIG : Z := 16.
Definition R_BADKEY : Z := 17.

Definition OP_QUERY : Z := 0.
Definition OP_NOTIFY : Z := 4.
Definition OP_UPDATE : Z := 5.

(** ** Records and messages *)

Section data.
Context {N : G53Name}.

Record SOA : Type := mkSOA {
  soa_mname : Name;
  soa_serial : Z;
  soa_minimum : Z;
}.

(** The implementations of the interface [g53.Rdata] that vanguard inspects
    with type assertions; every other one is its text. *)
Inductive Rdata : Type :=
  | RdA (host : IP)
  | RdAAAA (host : IP)
  | RdNS (n : Name)
  | RdCName (n : Name)
  | RdMX (preference : Z) (exchange : Name)
  | RdSRV (priority weight port : Z) (target : Name)
  | RdPTR (n : Name)
  | RdSOA (soa : SOA)
  | RdOther (text : string).

Record RRset : Type := mkRRset {
  rr_name : Name;
  rr_type : RRType;
  rr_class : Z;
  rr_ttl : Z;
  rr_rdatas : list Rdata;
}.

(** [rrset.Ttl = ttl] and [rrset.Rdatas = rds]. *)
Definition set_ttl (ttl : Z) (r : RRset) : RRset :=
  mkRRset (rr_name r) (rr_type r) (rr_class r) ttl (rr_rdatas r).
Definition set_rdatas (rds : list Rdata) (r : RRset) : RRset :=
  mkRRset (rr_name r) (rr_type r) (rr_class r) (rr_ttl r) rds.
Definition set_rr_name (n : Name) (r : RRset) : RRset :=
  mkRRset n (rr_type r) (rr_class r) (rr_ttl r) (rr_rdatas r).

Record Question : Type := mkQuestion {
  q_name : Name;
  q_type : RRType;
  q_class : Z;
}.

Inductive Flag : Type := FLAG_AA | FLAG_RA | FLAG_RD | FLAG_CD.

Record Header : Type := mkHeader {
  h_id : Z;
  h_opcode : Z;
  h_rcode : Z;
  h_aa : bool;
  h_ra : bool;
  h_rd : bool;
  h_cd : bool;
  h_ancount : Z;
  h_nscount : Z;
  h_arcount : Z;
}.

Definition Header_GetFlag (f : Flag) (h : Header) : bool :=
  match f with
  | FLAG_AA => h_aa h | FLAG_RA => h_ra h | FLAG_RD => h_rd h | FLAG_CD => h_cd h
  end.
Definition Header_SetFlag (f : Flag) (b : bool) (h : Header) : Header :=
  let pick g old := match f, g with
    | FLAG_AA, FLAG_AA | FLAG_RA, FLAG_RA | FLAG_RD, FLAG_RD | FLAG_CD, FLAG_CD => b
    | _, _ => old end in
  mkHeader (h_id h) (h_opcode h) (h_rcode h)
    (pick FLAG_AA (h_aa h)) (pick FLAG_RA (h_ra h)) (pick FLAG_RD (h_rd h))
    (pick FLAG_CD (h_cd h)) (h_ancount h) (h_nscount h) (h_arcount h).
Definition Header_set_id (i : Z) (h : Header) : Header :=
  mkHeader i (h_opcode h) (h_rcode h) (h_aa h) (h_ra h) (h_rd h) (h_cd h)
    (h_ancount h) (h_nscount h) (h_arcount h).
Definition Header_set_rcode (r : Z) (h : Header) : Header :=
  mkHeader (h_id h) (h_opcode h) r (h_aa h) (h_ra h) (h_rd h) (h_cd h)
    (h_ancount h) (h_nscount h) (h_arcount h).
Definition Header_set_ancount (n : Z) (h : Header) : Header :=
  mkHeader (h_id h) (h_opcode h) (h_rcode h) (h_aa h) (h_ra h) (h_rd h) (h_cd h)
    n (h_nscount h) (h_arcount h).

Inductive SectionType : Type := AnswerSection | AuthSection | AdditionalSection.

(** The signature of a message; [ts_Name] is [Header.Name.String(true)] of its key. *)
Record TSIG : Type := mkTSIG {
  ts_Name : string;
  ts_Algorithm : string;
  ts_MAC : list Z;
  ts_Error : Z;
}.

(** [Question] and [Tsig] are pointers and may be nil. *)
Record Message : Type := mkMessage {
  m_header : Header;
  m_question : option Question;
  m_answer : list RRset;
  m_auth : list RRset;
  m_additional : list RRset;
  m_tsig : option TSIG;
}.

(** [msg.Sections[s]] and [msg.Sections[s] = rrs]. *)
Definition Sections (m : Message) (s : SectionType) : list RRset :=
  match s with
  | AnswerSection => m_answer m
  | AuthSection => m_auth m
  | AdditionalSection => m_additional m
  end.
Definition set_section (s : SectionType) (rrs : list RRset) (m : Message) : Message :=
  match s with
  | AnswerSection => mkMessage (m_header m) (m_question m) rrs (m_auth m) (m_additional m) (m_tsig m)
  | AuthSection => mkMessage (m_header m) (m_question m) (m_answer m) rrs (m_additional m) (m_tsig m)
  | AdditionalSection => mkMessage (m_header m) (m_question m) (m_answer m) (m_auth m) rrs (m_tsig m)
  end.
Definition set_header (h : Header) (m : Message) : Message :=
  mkMessage h (m_question m) (m_answer m) (m_auth m) (m_additional m) (m_tsig m).
Definition set_question (q : option Question) (m : Message) : Message :=
  mkMessage (m_header m) q (m_answer m) (m_auth m) (m_additional m) (m_tsig m).
Definition set_tsig (t : option TSIG) (m : Message) : Message :=
  mkMessage (m_header m) (m_question m) (m_answer m) (m_auth m) (m_additional m) t.

(** [msg.Question.Name] and the like: a nil question panics. *)
Definition deref_question (m : Message) : outcome Question :=
  from_option_panic "nil pointer dereference: Question" (m_question m).

Lemma deref_question_Some m q : m_question m = Some q → deref_question m = Ret q.
Proof. unfold deref_question. by intros ->. Qed.
End data.

(** ** Operations of the package *)

Class G53Msg (N : G53Name) : Type := {
  (** [msg.MakeResponse()] *)
  MakeResponse : Message → Message;
  (** [msg.ClearSection(s)] *)
  ClearSection : SectionType → Message → Message;
  (** [msg.AddRRset(s, rrset)] *)
  AddRRset : SectionType → RRset → Message → Message;
  (** [msg.RecalculateSectionRRCount()] *)
  RecalculateSectionRRCount : Message → Message;
  (** [rrset.RotateRdata()] *)
  RotateRdata : RRset → RRset;
  (** [rrset.AddRdata(rd)]; [None] is [ErrDuplicateRdata]. *)
  AddRdata : Rdata → RRset → option RRset;
  (** [rrset.RemoveRdata(rd)] *)
  RemoveRdata : Rdata → RRset → RRset;
  (** [rdata.Compare(other)] *)
  Rdata_Compare : Rdata → Rdata → Z;
  (** [rdata.String()] *)
  Rdata_String : Rdata → string;
  (** [question.Equals(other)] *)
  Question_Equals : Question → Question → bool;
  (** [TypeFromString] and [RRType.String()] *)
  TypeFromString : string → option RRType;
  RRType_String : RRType → string;
  (** [RRClass.String()] *)
  RRClass_String : Z → string;
  (** [RdataFromString(typ, s)]; [inl] is the error text. *)
  RdataFromString : RRType → string → string + Rdata;
}.

(** [rrset.RRCount()] *)
Definition RRCount `{G53Name} (r : RRset) : Z := Z.of_nat (length (rr_rdatas r)).

Class G53MsgLaws {N : G53Name} (M : G53Msg N) : Prop := {
  MakeResponse_id m : h_id (m_header (MakeResponse m)) = h_id (m_header m);
  MakeResponse_question m : m_question (MakeResponse m) = m_question m;
  MakeResponse_sections m s : Sections (MakeResponse m) s = [];
  ClearSection_eq s m : ClearSection s m = set_section s [] m;
  (** Adding a record set touches the named section only. *)
  AddRRset_question s r m : m_question (AddRRset s r m) = m_question m;
  AddRRset_rcode s r m : h_rcode (m_header (AddRRset s r m)) = h_rcode (m_header m);
  AddRRset_other s s' r m : s ≠ s' → Sections (AddRRset s r m) s' = Sections m s';
  RotateRdata_frame r :
    rr_name (RotateRdata r) = rr_name r ∧ rr_type (RotateRdata r) = rr_type r ∧
    rr_class (RotateRdata r) = rr_class r ∧ rr_ttl (RotateRdata r) = rr_ttl r;
  RotateRdata_perm r : rr_rdatas (RotateRdata r) ≡ₚ rr_rdatas r;
  AddRdata_frame d r r' :
    AddRdata d r = Some r' →
    rr_name r' = rr_name r ∧ rr_type r' = rr_type r ∧ rr_class r' = rr_class r ∧
    rr_ttl r' = rr_ttl r ∧ rr_rdatas r' ≡ₚ d :: rr_rdatas r;
  RemoveRdata_frame d r :
    rr_name (RemoveRdata d r) = rr_name r ∧ rr_type (RemoveRdata d r) = rr_type r ∧
    rr_class (RemoveRdata d r) = rr_class r ∧ rr_ttl (RemoveRdata d r) = rr_ttl r ∧
    rr_rdatas (RemoveRdata d r) `sublist_of` rr_rdatas r;
}.

#[export] Instance SectionType_eq_dec : EqDecision SectionType.
Proof. solve_decision. Defined.
#[export] Instance Flag_eq_dec : EqDecision Flag.
Proof. solve_decision. Defined.

Lemma Sections_set `{G53Name} s s' rrs m :
  Sections (set_section s rrs m) s' = if decide (s = s') then rrs else Sections m s'.
Proof. by destruct s, s'. Qed.
