(* ===== verification/Instances.v ===== *)
(** * A concrete instance of the DNS library interface

    Names as lists of labels and messages with plain list sections: enough to
    evaluate the models on concrete inputs and to show that the laws the
    theorems assume can hold together. *)

From S2P Require Import Prelude GoStd G53.
From stdpp Require Import pretty.
From Stdlib Require Import Ascii.

(** ** Names *)

Definition lname : Type := list string.

Definition lower_labels (n : lname) : lname := strings_ToLower <$> n.

Fixpoint hash_string (s : string) : Z :=
  match s with
  | EmptyString => 7
  | String c s => Z.of_nat (nat_of_ascii c) + 31 * hash_string s
  end.
Definition hash_labels (n : lname) : Z :=
  u32 (foldr (λ l acc, hash_string l + 131 * acc)%Z 5%Z (lower_labels n)).

Definition labels_of_string (s : string) : string + lname :=
  if bool_decide (s = "." ∨ s = "") then inr []
  else
    let ls := strings_Split s "." in
    let ls := if bool_decide (last ls = Some "") then take (length ls - 1) ls else ls in
    if existsb (λ l, bool_decide (l = "")) ls then inl "empty label" else inr ls.

#[export] Instance label_names : G53Name := {|
  Name := lname;
  Name_Equals a b := bool_decide (lower_labels a = lower_labels b);
  Name_Hash := hash_labels;
  Name_IsSubDomain a b := bool_decide (lower_labels b `suffix_of` lower_labels a);
  Name_IsWildCard n := bool_decide (head n = Some "*");
  Name_Parent n := match n with [] => None | _ :: n => Some n end;
  Name_FromString := labels_of_string;
  Name_String n := match n with [] => "." | _ => strings_Join n "." +:+ "." end;
  Name_Root := [];
|}.

#[export] Instance label_names_laws : G53NameLaws label_names.
Proof.
  split; cbn; intros *; rewrite ?bool_decide_eq_true; try done.
  - congruence.
  - apply u32_range.
  - intros E. unfold hash_labels. by rewrite E.
  - by intros -> ->.
  - intros. by etrans.
  - intros [k E] [k' E']. apply (f_equal length) in E as El. apply (f_equal length) in E' as El'.
    rewrite !length_app in *. destruct k; cbn in *; [done|lia].
Qed.

(** ** Messages *)

Definition section_count (rrs : list RRset) : Z := Z.of_nat (length (mjoin (rr_rdatas <$> rrs))).

Definition plain_Recalculate (m : Message) : Message :=
  let h := m_header m in
  set_header (mkHeader (h_id h) (h_opcode h) (h_rcode h) (h_aa h) (h_ra h) (h_rd h) (h_cd h)
    (section_count (m_answer m)) (section_count (m_auth m)) (section_count (m_additional m))) m.

Definition show_ip (ip : IP) : string := strings_Join (pretty <$> ip) ".".

Definition plain_Rdata_String (r : Rdata) : string :=
  match r with
  | RdA ip | RdAAAA ip => show_ip ip
  | RdNS n | RdCName n | RdPTR n => Name_String n
  | RdMX p n => pretty p +:+ " " +:+ Name_String n
  | RdSRV p w o n => pretty p +:+ " " +:+ pretty w +:+ " " +:+ pretty o +:+ " " +:+ Name_String n
  | RdSOA s => Name_String (soa_mname s) +:+ " " +:+ pretty (soa_serial s)
  | RdOther t => t
  end.

Definition plain_Rdata_Compare (a b : Rdata) : Z :=
  if bool_decide (plain_Rdata_String a = plain_Rdata_String b) then 0 else 1.

Definition parse_ip (s : string) : option IP := mapM strconv_Atoi (strings_Split s ".").

Definition type_names : list (RRType * string) :=
  [(RR_A, "A"); (RR_NS, "NS"); (RR_CNAME, "CNAME"); (RR_SOA, "SOA"); (RR_PTR, "PTR");
   (RR_MX, "MX"); (RR_TXT, "TXT"); (RR_AAAA, "AAAA"); (RR_ANY, "ANY")].

Definition plain_RdataFromString (t : RRType) (s : string) : string + Rdata :=
  if (t =? RR_A)%Z then
    match parse_ip s with Some ip => inr (RdA ip) | None => inl "bad address" end
  else if (t =? RR_CNAME)%Z then
    match Name_FromString s with inr n => inr (RdCName n) | inl e => inl e end
  else if (t =? RR_NS)%Z then
    match Name_FromString s with inr n => inr (RdNS n) | inl e => inl e end
  else inr (RdOther s).

#[export] Instance plain_messages : G53Msg label_names := {|
  MakeResponse m := mkMessage (m_header m) (m_question m) [] [] [] None;
  ClearSection s m := set_section s [] m;
  AddRRset s r m := set_section s (Sections m s ++ [r]) m;
  RecalculateSectionRRCount := plain_Recalculate;
  RotateRdata r :=
    set_rdatas (match rr_rdatas r with [] => [] | x :: xs => xs ++ [x] end) r;
  AddRdata d r :=
    if existsb (λ d', plain_Rdata_Compare d d' =? 0)%Z (rr_rdatas r) then None
    else Some (set_rdatas (rr_rdatas r ++ [d]) r);
  RemoveRdata d r :=
    set_rdatas (base.filter (λ d', plain_Rdata_Compare d d' ≠ 0%Z) (rr_rdatas r)) r;
  Rdata_Compare := plain_Rdata_Compare;
  Rdata_String := plain_Rdata_String;
  Question_Equals a b := Name_Equals (q_name a) (q_name b) &&
    (q_type a =? q_type b)%Z && (q_class a =? q_class b)%Z;
  TypeFromString s := fst <$> find_first (λ p, bool_decide (p.2 = s)) type_names;
  RRType_String t :=
    match find_first (λ p, p.1 =? t)%Z type_names with Some p => p.2 | None => "TYPE" end;
  RRClass_String c := if (c =? CLASS_IN)%Z then "IN" else "CLASS";
  RdataFromString := plain_RdataFromString;
|}.

#[export] Instance plain_messages_laws : G53MsgLaws plain_messages.
Proof.
  split; cbn; try done.
  - intros m s. by destruct s.
  - intros s r m. by destruct s.
  - intros s r m. by destruct s.
  - intros s s' r m Hs. by destruct s, s'.
  - intros r. destruct (rr_rdatas r) as [|x xs]; [done|]. by rewrite Permutation_app_comm.
  - intros d r r' E. destruct (existsb _ _); [done|]. injection E as <-.
    split_and!; [done..|]. cbn. by rewrite Permutation_app_comm.
  - intros d r. split_and!; [done..|]. apply sublist_filter.
Qed.

(** ** Shared inputs of the examples *)

Definition www : Name := ["www"; "example"; "com"].
Definition WWW : Name := ["WWW"; "Example"; "com"].
Definition example_com : Name := ["example"; "com"].
Definition mail : Name := ["mail"; "example"; "com"].

Definition hdr0 : Header := mkHeader 7 OP_QUERY R_NOERROR false false true false 0 0 0.
Definition a_rrset (n : Name) (ttl last : Z) : RRset :=
  mkRRset n RR_A CLASS_IN ttl [RdA [192; 0; 2; last]%Z; RdA [192; 0; 2; last + 1]%Z].
Definition query (n : Name) (t : RRType) : Message :=
  mkMessage hdr0 (Some (mkQuestion n t CLASS_IN)) [] [] [] None.
Definition answer (n : Name) (t : RRType) (rrs : list RRset) : Message :=
  mkMessage hdr0 (Some (mkQuestion n t CLASS_IN)) rrs [] [] None.
Definition soa_rrset (n : Name) (ttl minimum : Z) : RRset :=
  mkRRset n RR_SOA CLASS_IN ttl [RdSOA (mkSOA n 1 minimum)].
