(* ===== verification/Core.v ===== *)
(** * Core: clients, the message heap and the query chain (src/core)

    A query is carried by a [Client] through a chain of handlers.  Requests and
    responses are [*g53.Message] pointers; the cache keeps pointers that other
    handlers also hold, so responses live in a heap of messages and a client
    holds a location. *)

From S2P Require Import Prelude GoStd G53.

Section core.
Context {N : G53Name}.

(** ** The heap of messages *)

Abbreviation Heap := (gmap nat Message).

Definition heap_alloc (m : Message) (h : Heap) : nat * Heap :=
  let l := fresh (dom h) in (l, <[l := m]> h).

(** Dereferencing a [*g53.Message]. *)
Definition deref (l : nat) (h : Heap) : outcome Message :=
  from_option_panic "invalid memory address" (h !! l).

Lemma deref_Some h l m : h !! l = Some m → deref l h = Ret m.
Proof. unfold deref. by intros ->. Qed.

Lemma heap_alloc_fresh m h : h !! (heap_alloc m h).1 = None.
Proof. cbn. apply not_elem_of_dom, is_fresh. Qed.

(** ** core/client.go *)

(** The implementations of [net.Addr] a client can have. *)
Inductive NetAddr : Type :=
  | UDPAddr (ip : IP) (port : Z)
  | TCPAddr (ip : IP) (port : Z).

(** The request pointer is set by the server before the chain runs and its
    message is not shared with the cache: it is held by value. *)
Record Client : Type := mkClient {
  c_addr : option NetAddr;
  c_dest : option NetAddr;
  c_using_tcp : bool;
  c_request : Message;
  c_response : option nat;
  c_view : string;
  c_view_id : Z;
  c_cache_hit : bool;
  c_cache_answer : bool;
  c_create_time : Z;
}.

Definition set_response (r : option nat) (c : Client) : Client :=
  mkClient (c_addr c) (c_dest c) (c_using_tcp c) (c_request c) r (c_view c)
    (c_view_id c) (c_cache_hit c) (c_cache_answer c) (c_create_time c).
Definition set_request (m : Message) (c : Client) : Client :=
  mkClient (c_addr c) (c_dest c) (c_using_tcp c) m (c_response c) (c_view c)
    (c_view_id c) (c_cache_hit c) (c_cache_answer c) (c_create_time c).
Definition set_view (v : string) (id : Z) (c : Client) : Client :=
  mkClient (c_addr c) (c_dest c) (c_using_tcp c) (c_request c) (c_response c) v id
    (c_cache_hit c) (c_cache_answer c) (c_create_time c).
Definition set_cache_hit (b : bool) (c : Client) : Client :=
  mkClient (c_addr c) (c_dest c) (c_using_tcp c) (c_request c) (c_response c) (c_view c)
    (c_view_id c) b (c_cache_answer c) (c_create_time c).
Definition set_cache_answer (b : bool) (c : Client) : Client :=
  mkClient (c_addr c) (c_dest c) (c_using_tcp c) (c_request c) (c_response c) (c_view c)
    (c_view_id c) (c_cache_hit c) b (c_create_time c).

(** [c.QueryKey()]: name hash, view id and type packed into 64 bits. *)
Definition Client_QueryKey (c : Client) : outcome Z :=
  q ← deref_question (c_request c);
  Ret (Z.lor (Z.lor (u64 (Z.shiftl (Name_Hash (q_name q)) 32))
                    (u64 (Z.shiftl (c_view_id c) 16)))
             (q_type q)).

(** [c.clone(other)] copies every field but [UsingTCP], which keeps the
    receiver's value. *)
Definition Client_clone (c other : Client) : Client :=
  mkClient (c_addr other) (c_dest other) (c_using_tcp c) (c_request other)
    (c_response other) (c_view other) (c_view_id other) (c_cache_hit other)
    (c_cache_answer other) (c_create_time other).

(** The type assertion of [addr] to [*net.TCPAddr] or [*net.UDPAddr]. *)
Definition assert_addr (tcp : bool) (a : option NetAddr) : outcome (IP * Z) :=
  match tcp, a with
  | true, Some (TCPAddr ip port) => Ret (ip, port)
  | false, Some (UDPAddr ip port) => Ret (ip, port)
  | _, _ => Panic "interface conversion: net.Addr"
  end.

Definition Client_IP (c : Client) : outcome IP :=
  fst <$> assert_addr (c_using_tcp c) (c_addr c).
Definition Client_DestIP (c : Client) : outcome IP :=
  fst <$> assert_addr (c_using_tcp c) (c_dest c).
Definition Client_Port (c : Client) : outcome Z :=
  snd <$> assert_addr (c_using_tcp c) (c_addr c).

(** ** core/querychain.go

    A handler transforms the state [S] of the process (which holds the heap
    and the handlers' own state) and the client.  [next] is [nil] at the end
    of the chain. *)
Definition Handler (S : Type) : Type := S → Client → outcome (S * Client).

Definition PassToNext {S} (next : option (Handler S)) : Handler S := λ s c,
  match next with
  | Some h => h s c
  | None => Ret (s, c)
  end.

(** [BuildQueryChain(handlers...)]: each handler, given its next one, is
    linked to the one that follows it; the last keeps a nil next. *)
Definition BuildQueryChain {S} (handlers : list (option (Handler S) → Handler S))
  : option (Handler S) :=
  foldr (λ mk next, Some (mk next)) None handlers.
End core.

Abbreviation Heap := (gmap nat Message).
