(* ===== verification/HttpCmd.v ===== *)
(** * Commands: errors, tasks and the dispatcher (src/httpcmd)

    Components register the commands they serve; a task of one command is
    dispatched by the name of the command's type, run under a lock with panics
    recovered into an error, and turned into a task result. *)

From S2P Require Import Prelude.

(** ** httpcmd/errcode.go, generalerror.go, innererror.go *)

Record CmdError : Type := mkError {
  err_Code : Z;
  err_Info : string;
}.

#[export] Instance CmdError_eq_dec : EqDecision CmdError.
Proof. solve_decision. Defined.

Definition NewError (code : Z) (info : string) : CmdError := mkError code info.

Definition Error_AddDetail (e : CmdError) (info : string) : CmdError :=
  NewError (err_Code e) (err_Info e +:+ ":" +:+ info).

Definition InnerErrCodeStart : Z := 0.
Definition GeneralErrCodeStart : Z := 100.
Definition AclErrCodeStart : Z := 400.
Definition ViewSelectorErrCodeStart : Z := 500.
Definition AuthErrCodeStart : Z := 600.
Definition ForwarderErrCodeStart : Z := 800.
Definition RateLimitErrCodeStart : Z := 1000.
Definition StubZoneErrCodeStart : Z := 1100.
Definition DNS64ErrCodeStart : Z := 1200.
Definition LocalDataErrCodeStart : Z := 1300.
Definition SortListErrCodeStart : Z := 1400.
Definition FailForwarderErrCodeStart : Z := 1500.
Definition QuerySourceErrCodeStart : Z := 1600.

Definition ErrUnknownView : CmdError := NewError GeneralErrCodeStart "view doesn't exists".
Definition ErrInvalidName : CmdError := NewError (GeneralErrCodeStart + 1) "domain name isn't valid".
Definition ErrUnknownRRType : CmdError := NewError (GeneralErrCodeStart + 2) "unknown rr type".
Definition ErrInvalidRR : CmdError := NewError (GeneralErrCodeStart + 3) "rr isn't valid".
Definition ErrInvalidNetwork : CmdError := NewError (GeneralErrCodeStart + 4) "network isn't valid".

Definition ErrBatchCmdNotSupport : CmdError := NewError InnerErrCodeStart "batch cmd isn't supported".
Definition ErrUnknownCmd : CmdError := NewError (InnerErrCodeStart + 1) "cmd is unknown".
Definition ErrCmdFormatInvalid : CmdError :=
  NewError (InnerErrCodeStart + 2) "command format isn't valid".
Definition ErrHTTPMethodInvalid : CmdError :=
  NewError (InnerErrCodeStart + 3) "http method shouldbe post".
Definition ErrAssertFailed : CmdError :=
  NewError (InnerErrCodeStart + 4) "assert failed, inner panic".

(** ** httpcmd/task.go, dispatcher.go, server.go *)

Section dispatcher.
(** [C] are the commands, with the name of their type ([reflector.StructName]);
    [W] is the state the handlers act on and [R] what they return.  A handler
    leaves a state behind also when it panics. *)
Context {C W R : Type} (StructName : C → string).

Record Task : Type := mkTask { Cmds : list C }.

Definition NewTask : Task := mkTask [].
Definition Task_ClearCmd (t : Task) : Task := mkTask [].
Definition Task_AddCmd (c : C) (t : Task) : Task := mkTask (Cmds t ++ [c]).

Definition Succeed : Z := 200.
Definition InnerError : Z := 500.

Inductive TaskPayload : Type :=
  | NoResult
  | HasResult (r : R)
  | HasError (e : CmdError).

Record TaskResult : Type := mkTaskResult {
  tr_Code : Z;
  tr_Result : TaskPayload;
}.

Definition Task_FailedWithStatus (e : CmdError) (code : Z) : TaskResult :=
  mkTaskResult code (HasError e).
Definition Task_Failed (e : CmdError) : TaskResult := Task_FailedWithStatus e InnerError.
Definition Task_Succeed : TaskResult := mkTaskResult Succeed NoResult.
Definition Task_SucceedWithResult (r : R) : TaskResult := mkTaskResult Succeed (HasResult r).
Definition TaskResult_IsSucceed (r : TaskResult) : bool := (tr_Code r =? Succeed)%Z.

Definition CmdHandler : Type := C → W → W * outcome (option R + CmdError).

Record CmdDispatcher : Type := mkDispatcher {
  cmdHandlers : gmap string CmdHandler;
  supportedCmds : list C;
}.

Definition newCmdDispatcher : CmdDispatcher := mkDispatcher ∅ [].

Definition CmdDispatcher_getHandler (c : C) (d : CmdDispatcher) : option CmdHandler :=
  cmdHandlers d !! StructName c.

Definition CmdDispatcher_RegisterHandler (h : CmdHandler) (cmds : list C)
  (d : CmdDispatcher) : CmdDispatcher :=
  mkDispatcher
    (foldl (λ m name, <[name := h]> m) (cmdHandlers d) (StructName <$> cmds))
    (supportedCmds d ++ cmds).

Definition CmdDispatcher_ClearHandler (d : CmdDispatcher) : CmdDispatcher :=
  mkDispatcher ∅ (supportedCmds d).

(** [safeRunCommand]: a panic of the handler becomes [ErrAssertFailed]. *)
Definition safeRunCommand (h : CmdHandler) (c : C) (w : W)
  : W * outcome (option R + CmdError) :=
  match h c w with
  | (w, Panic p) => (w, Ret (inr (Error_AddDetail ErrAssertFailed p)))
  | r => r
  end.

Definition HandleTask (d : CmdDispatcher) (t : Task) (w : W) : W * outcome TaskResult :=
  match Cmds t with
  | [c] =>
      match CmdDispatcher_getHandler c d with
      | None => (w, Ret (Task_Failed ErrUnknownCmd))
      | Some h =>
          let '(w, r) := safeRunCommand h c w in
          (w, match r with
              | Ret (inr e) => Ret (Task_Failed e)
              | Ret (inl (Some r)) => Ret (Task_SucceedWithResult r)
              | Ret (inl None) => Ret Task_Succeed
              | Panic p => Panic p
              | Hang p => Hang p
              end)
      end
  | _ => (w, Ret (Task_Failed ErrBatchCmdNotSupport))
  end.

(** [getHandler] after a registration: the registered handler for the listed
    command types, the earlier one for the others. *)
Lemma getHandler_RegisterHandler h cmds d c :
  CmdDispatcher_getHandler c (CmdDispatcher_RegisterHandler h cmds d) =
  if decide (StructName c ∈ (StructName <$> cmds)) then Some h
  else CmdDispatcher_getHandler c d.
Proof.
  unfold CmdDispatcher_getHandler, CmdDispatcher_RegisterHandler; cbn.
  generalize (StructName <$> cmds) as names. intros names.
  generalize (cmdHandlers d) as m. induction names as [|n names IH]; intros m; cbn.
  - rewrite decide_False; [done|set_solver].
  - rewrite IH. repeat case_decide; try set_solver.
    + assert (StructName c = n) as <- by set_solver. by rewrite lookup_insert_eq.
    + apply lookup_insert_ne. set_solver.
Qed.

(** A served command ends with a result: a panic of its handler is reported as
    an error, and an unserved or batched command is refused without running
    anything.  Only a handler that blocks for ever makes the task hang. *)
Lemma HandleTask_total d t w :
  (∀ h c, cmdHandlers d !! StructName c = Some h → ∀ w p, (h c w).2 ≠ Hang p) →
  ∃ r, (HandleTask d t w).2 = Ret r.
Proof.
  intros Hh. unfold HandleTask, safeRunCommand.
  destruct (Cmds t) as [|c [|]]; cbn; eauto.
  destruct (CmdDispatcher_getHandler c d) as [h|] eqn:E; cbn; eauto.
  specialize (Hh h c E w). destruct (h c w) as [w' [[[]|]| |why]]; cbn in *; eauto.
  by destruct (Hh why).
Qed.

Lemma HandleTask_refused d t w r :
  (∀ c, Cmds t = [c] → CmdDispatcher_getHandler c d = None) →
  HandleTask d t w = (w, r) → r = Ret (Task_Failed ErrBatchCmdNotSupport) ∨
                               r = Ret (Task_Failed ErrUnknownCmd).
Proof.
  intros Hc. unfold HandleTask. destruct (Cmds t) as [|c [|]] eqn:Et; try naive_solver.
  rewrite Hc by done. naive_solver.
Qed.
End dispatcher.
