(* ===== verification/Json.v ===== *)
(** * JSON texts (encoding/json as src/httpcmd uses it)

    Values, the texts json.Marshal writes for them and the parser of json.Unmarshal.
    Numbers are their literals, as the decoder sees them.  The bytes of a text outside
    ASCII are copied, which is what the encoder does with valid UTF-8 (apart from the two
    line separators of Unicode that it escapes). *)

From S2P Require Import Prelude GoStd.
From Stdlib Require Import Ascii.

Inductive json : Type :=
  | JNull
  | JBool (b : bool)
  | JNum (literal : string)
  | JStr (s : string)
  | JArr (l : list json)
  | JObj (fields : list (string * json)).

(** Induction through the lists. *)
Section json_ind'.
Context (P : json → Prop) (Hnull : P JNull) (Hbool : ∀ b, P (JBool b)) (Hnum : ∀ n, P (JNum n))
  (Hstr : ∀ s, P (JStr s)) (Harr : ∀ l, Forall P l → P (JArr l))
  (Hobj : ∀ fs, Forall (λ f, P f.2) fs → P (JObj fs)).

Fixpoint json_ind' (j : json) : P j :=
  match j with
  | JNull => Hnull
  | JBool b => Hbool b
  | JNum n => Hnum n
  | JStr s => Hstr s
  | JArr l => Harr l ((fix go l : Forall P l := match l with
      | [] => Forall_nil_2 P
      | x :: l => Forall_cons_2 P x l (json_ind' x) (go l) end) l)
  | JObj fs => Hobj fs ((fix go fs : Forall (λ f, P f.2) fs := match fs with
      | [] => Forall_nil_2 (λ f, P f.2)
      | x :: fs => Forall_cons_2 (λ f, P f.2) x fs (json_ind' x.2) (go fs) end) fs)
  end.
End json_ind'.

(** ** Writing *)

Definition dq : ascii := ascii_of_nat 34.
Definition bslash : ascii := ascii_of_nat 92.

Definition hex_digit (n : nat) : ascii :=
  ascii_of_nat (if (n <? 10)%nat then 48 + n else 87 + n)%nat.

(** [\u00xy] *)
Definition unicode_escape (c : ascii) : string :=
  let n := nat_of_ascii c in
  String bslash (String "u" (String "0" (String "0"
    (String (hex_digit (n / 16)) (String (hex_digit (n mod 16)) ""))))).

(** Quotes, control characters and the characters that mean something to a browser are
    escaped. *)
Definition escape_char (c : ascii) : string :=
  if bool_decide (c = dq ∨ c = bslash) then String bslash (String c "")
  else if bool_decide (c = "010"%char) then String bslash (String "n" "")
  else if bool_decide (c = "013"%char) then String bslash (String "r" "")
  else if bool_decide (c = "009"%char) then String bslash (String "t" "")
  else if (nat_of_ascii c <? 32)%nat || bool_decide (c = "<"%char ∨ c = ">"%char ∨ c = "&"%char)
  then unicode_escape c
  else String c "".

Fixpoint escape (s : string) : string :=
  match s with
  | "" => ""
  | String c s => escape_char c +:+ escape s
  end.

Definition quote (s : string) : string := String dq (escape s +:+ String dq "").

Fixpoint join_comma (ss : list string) : string :=
  match ss with
  | [] => ""
  | [s] => s
  | s :: ss => s +:+ String "," (join_comma ss)
  end.

(** [json.Marshal] *)
Fixpoint marshal (j : json) : string :=
  match j with
  | JNull => "null"
  | JBool b => if b then "true" else "false"
  | JNum n => n
  | JStr s => quote s
  | JArr l => String "[" (join_comma (marshal <$> l) +:+ "]")
  | JObj fs => String "{" (join_comma ((λ f, quote f.1 +:+ String ":" (marshal f.2)) <$> fs) +:+ "}")
  end.

(** ** Reading *)

Definition is_space (c : ascii) : bool :=
  bool_decide (c = " "%char ∨ c = "009"%char ∨ c = "010"%char ∨ c = "013"%char).

Fixpoint skip_ws (s : string) : string :=
  match s with
  | String c s' => if is_space c then skip_ws s' else s
  | "" => ""
  end.

Definition hex_val (c : ascii) : option nat :=
  let n := nat_of_ascii c in
  if (48 <=? n)%nat && (n <=? 57)%nat then Some (n - 48)%nat
  else if (97 <=? n)%nat && (n <=? 102)%nat then Some (n - 87)%nat
  else if (65 <=? n)%nat && (n <=? 70)%nat then Some (n - 55)%nat
  else None.

Definition hex4 (a b c d : ascii) : option nat :=
  a ← hex_val a; b ← hex_val b; c ← hex_val c; d ← hex_val d;
  Some (((a * 16 + b) * 16 + c) * 16 + d)%nat.

(** A rune in UTF-8. *)
Definition utf8 (n : nat) : string :=
  let tail k := ascii_of_nat (128 + (n / k) mod 64) in
  if (n <? 128)%nat then String (ascii_of_nat n) ""
  else if (n <? 2048)%nat then String (ascii_of_nat (192 + n / 64)) (String (tail 1%nat) "")
  else if (n <? 64 * 1024)%nat then
    String (ascii_of_nat (224 + n / (64 * 64))) (String (tail 64%nat) (String (tail 1%nat) ""))
  else String (ascii_of_nat (240 + n / (64 * 64 * 64)))
         (String (tail (64 * 64)%nat) (String (tail 64%nat) (String (tail 1%nat) ""))).

Definition replacement_rune : nat := (256 * 256 - 3)%nat.
Definition surrogate (n : nat) : bool := (55296 <=? n)%nat && (n <? 57344)%nat.

(** What a one-letter escape stands for. *)
Definition simple_escape (e : ascii) : option ascii :=
  if bool_decide (e = dq ∨ e = bslash ∨ e = "/"%char) then Some e
  else if bool_decide (e = "b"%char) then Some "008"%char
  else if bool_decide (e = "f"%char) then Some "012"%char
  else if bool_decide (e = "n"%char) then Some "010"%char
  else if bool_decide (e = "r"%char) then Some "013"%char
  else if bool_decide (e = "t"%char) then Some "009"%char
  else None.

Definition prefixed {A} (p : string) (r : option (string * A)) : option (string * A) :=
  match r with Some (s, rest) => Some (p +:+ s, rest) | None => None end.

(** A string after its opening quote, and the text behind its closing one.  A surrogate
    stands with its other half for one rune, and alone for the replacement character. *)
Fixpoint scan_string (s : string) : option (string * string) :=
  match s with
  | "" => None
  | String c s =>
      if bool_decide (c = dq) then Some ("", s)
      else if bool_decide (c = bslash) then
        match s with
        | String e s =>
            if bool_decide (e = "u"%char) then
              match s with
              | String h1 (String h2 (String h3 (String h4 s))) =>
                  match hex4 h1 h2 h3 h4 with
                  | None => None
                  | Some n =>
                      if surrogate n then
                        match s with
                        | String b (String u (String l1 (String l2 (String l3 (String l4 s'))))) =>
                            match (if bool_decide (b = bslash ∧ u = "u"%char) then hex4 l1 l2 l3 l4 else None) with
                            | Some m =>
                                if (n <? 56320)%nat && (56320 <=? m)%nat && (m <? 57344)%nat
                                then prefixed (utf8 ((n - 55296) * 1024 + (m - 56320) + 64 * 1024)) (scan_string s')
                                else prefixed (utf8 replacement_rune) (scan_string s)
                            | None => prefixed (utf8 replacement_rune) (scan_string s)
                            end
                        | _ => prefixed (utf8 replacement_rune) (scan_string s)
                        end
                      else prefixed (utf8 n) (scan_string s)
                  end
              | _ => None
              end
            else match simple_escape e with
                 | Some c => prefixed (String c "") (scan_string s)
                 | None => None
                 end
        | "" => None
        end
      else if (nat_of_ascii c <? 32)%nat then None
      else prefixed (String c "") (scan_string s)
  end.

Definition is_dig (c : ascii) : bool := (48 <=? nat_of_ascii c)%nat && (nat_of_ascii c <=? 57)%nat.

Fixpoint digits (s : string) : string * string :=
  match s with
  | String c s' => if is_dig c then let '(d, r) := digits s' in (String c d, r) else ("", s)
  | "" => ("", "")
  end.

(** One digit at least. *)
Definition digits1 (s : string) : option (string * string) :=
  match digits s with ("", _) => None | r => Some r end.

(** The parts of a number: sign, integer, fraction, exponent. *)
Definition scan_int (s : string) : option (string * string) :=
  match s with
  | String "0" s => Some ("0", s)
  | _ => digits1 s
  end.

Definition scan_frac (s : string) : option (string * string) :=
  match s with
  | String "." s => prefixed "." (digits1 s)
  | _ => Some ("", s)
  end.

Definition scan_exp (s : string) : option (string * string) :=
  match s with
  | String e s' =>
      if bool_decide (e = "e"%char ∨ e = "E"%char) then
        prefixed (String e "") (match s' with
                                | String "+" s => prefixed "+" (digits1 s)
                                | String "-" s => prefixed "-" (digits1 s)
                                | _ => digits1 s'
                                end)
      else Some ("", s)
  | "" => Some ("", "")
  end.

Definition scan_number (s : string) : option (string * string) :=
  let '(sign, s) := match s with String "-" s => ("-", s) | _ => ("", s) end in
  r ← scan_int s;
  let '(i, s) := r in
  r ← scan_frac s;
  let '(f, s) := r in
  r ← scan_exp s;
  let '(e, s) := r in
  Some (sign +:+ i +:+ f +:+ e, s).

Fixpoint strip_prefix (p s : string) : option string :=
  match p, s with
  | "", _ => Some s
  | String a p, String b s => if bool_decide (a = b) then strip_prefix p s else None
  | _, "" => None
  end.

(** A value and the text behind it.  Every call reads at least one character. *)
Fixpoint parse_value (fuel : nat) (s : string) {struct fuel} : option (json * string) :=
  match fuel with
  | O => None
  | S fuel =>
      match skip_ws s with
      | "" => None
      | String c r =>
          if bool_decide (c = dq) then
            match scan_string r with Some (x, r) => Some (JStr x, r) | None => None end
          else if bool_decide (c = "["%char) then
            match skip_ws r with
            | String "]" r => Some (JArr [], r)
            | _ => match parse_elems fuel r with Some (l, r) => Some (JArr l, r) | None => None end
            end
          else if bool_decide (c = "{"%char) then
            match skip_ws r with
            | String "}" r => Some (JObj [], r)
            | _ => match parse_members fuel r with Some (fs, r) => Some (JObj fs, r) | None => None end
            end
          else match strip_prefix "null" (String c r), strip_prefix "true" (String c r),
                     strip_prefix "false" (String c r) with
               | Some r, _, _ => Some (JNull, r)
               | _, Some r, _ => Some (JBool true, r)
               | _, _, Some r => Some (JBool false, r)
               | _, _, _ =>
                   match scan_number (String c r) with Some (n, r) => Some (JNum n, r) | None => None end
               end
      end
  end
with parse_elems (fuel : nat) (s : string) {struct fuel} : option (list json * string) :=
  match fuel with
  | O => None
  | S fuel =>
      match parse_value fuel s with
      | None => None
      | Some (x, r) =>
          match skip_ws r with
          | String "," r =>
              match parse_elems fuel r with Some (l, r) => Some (x :: l, r) | None => None end
          | String "]" r => Some ([x], r)
          | _ => None
          end
      end
  end
with parse_members (fuel : nat) (s : string) {struct fuel} : option (list (string * json) * string) :=
  match fuel with
  | O => None
  | S fuel =>
      match skip_ws s with
      | String c r =>
          if bool_decide (c = dq) then
            match scan_string r with
            | None => None
            | Some (k, r) =>
                match skip_ws r with
                | String ":" r =>
                    match parse_value fuel r with
                    | None => None
                    | Some (x, r) =>
                        match skip_ws r with
                        | String "," r =>
                            match parse_members fuel r with
                            | Some (fs, r) => Some ((k, x) :: fs, r)
                            | None => None
                            end
                        | String "}" r => Some ([(k, x)], r)
                        | _ => None
                        end
                    end
                | _ => None
                end
            end
          else None
      | "" => None
      end
  end.

(** [json.Unmarshal] up to the value: nothing but space may follow it. *)
Definition unmarshal (s : string) : option json :=
  match parse_value (S (String.length s)) s with
  | Some (j, r) => if bool_decide (skip_ws r = "") then Some j else None
  | None => None
  end.

(** ** Structures *)

(** Keys match fields up to case, where the long s and the kelvin sign count as letters. *)
Fixpoint fold_key (s : string) : string :=
  match s with
  | String c1 s1 =>
      match s1 with
      | String c2 s2 =>
          if bool_decide (c1 = ascii_of_nat 197 ∧ c2 = ascii_of_nat 191) then String "s" (fold_key s2)
          else match s2 with
               | String c3 s3 =>
                   if bool_decide (c1 = ascii_of_nat 226 ∧ c2 = ascii_of_nat 132 ∧ c3 = ascii_of_nat 170)
                   then String "k" (fold_key s3)
                   else String (ascii_lower c1) (fold_key s1)
               | "" => String (ascii_lower c1) (fold_key s1)
               end
      | "" => String (ascii_lower c1) ""
      end
  | "" => ""
  end.

(** Decoding one field of a structure: every member with the field's name is stored over
    what the members before it left; [None] is an error. *)
Definition decode_field {A} (name : string) (dec : json → A → option A) (zero : A)
  (fs : list (string * json)) : option A :=
  foldl (λ acc f, a ← acc; if bool_decide (fold_key f.1 = fold_key name) then dec f.2 a else Some a)
    (Some zero) fs.

(** Storing into a string or an int: null changes nothing. *)
Definition store_string (j : json) (old : string) : option string :=
  match j with JStr s => Some s | JNull => Some old | _ => None end.

Definition store_int (j : json) (old : Z) : option Z :=
  match j with JNum n => strconv_Atoi n | JNull => Some old | _ => None end.

(** [json.RawMessage] takes whatever stands there. *)
Definition store_raw (j : json) (old : option json) : option (option json) := Some (Some j).

(** ** strconv.Itoa *)

Definition digit_char (d : Z) : ascii := ascii_of_nat (48 + Z.to_nat d).

(** Twenty rounds write every int64. *)
Fixpoint itoa_digits (fuel : nat) (n : Z) (acc : string) : string :=
  match fuel with
  | O => acc
  | S fuel =>
      let acc := String (digit_char (n mod 10)) acc in
      if (n <? 10)%Z then acc else itoa_digits fuel (n / 10) acc
  end.

Definition strconv_Itoa (n : Z) : string :=
  if (n <? 0)%Z then String "-" (itoa_digits 20 (- n) "") else itoa_digits 20 n "".

Definition json_int (n : Z) : json := JNum (strconv_Itoa n).

(** * Reading what was written *)

Definition ascii_byte (c : ascii) : bool := (nat_of_ascii c <? 128)%nat.
Fixpoint ascii_string (s : string) : bool :=
  match s with "" => true | String c s => ascii_byte c && ascii_string s end.

Definition valid_literal (n : string) : bool := bool_decide (scan_number n = Some (n, "")).

(** The values that a text stands for: numbers are literals of JSON, strings ASCII. *)
Fixpoint wf_json (j : json) : bool :=
  match j with
  | JNull | JBool _ => true
  | JNum n => valid_literal n
  | JStr s => ascii_string s
  | JArr l => forallb wf_json l
  | JObj fs => forallb (λ f, ascii_string f.1 && wf_json f.2) fs
  end.

(** What may follow a value inside a text. *)
Definition follow (s : string) : bool :=
  match s with
  | "" => true
  | String c _ => bool_decide (c = ","%char ∨ c = "]"%char ∨ c = "}"%char)
  end.

#[local] Arguments String.append !_ _ / : simpl nomatch.

Lemma app_assoc_str (a b c : string) : (a +:+ b) +:+ c = a +:+ (b +:+ c).
Proof. induction a as [|x a IH]; [done|]. cbn in *. by rewrite IH. Qed.

Lemma app_nil_str (a : string) : a +:+ "" = a.
Proof. induction a as [|x a IH]; [done|]. cbn in *. by rewrite IH. Qed.

Lemma length_app_str a b : String.length (a +:+ b) = (String.length a + String.length b)%nat.
Proof. induction a as [|x a IH]; [done|]. cbn in *. by rewrite IH. Qed.

(** *** Strings *)

Lemma scan_escape_char c rest :
  ascii_byte c = true →
  scan_string (escape_char c +:+ rest) = prefixed (String c "") (scan_string rest).
Proof. by destruct c as [[] [] [] [] [] [] [] []]; intros [=]. Qed.

Lemma scan_escape s rest :
  ascii_string s = true → scan_string (escape s +:+ String dq rest) = Some (s, rest).
Proof.
  induction s as [|c s IH]; intros Hs; [done|].
  cbn in Hs. apply andb_true_iff in Hs as [Hc Hs].
  cbn [escape]. by rewrite app_assoc_str, (scan_escape_char _ _ Hc), (IH Hs).
Qed.

Lemma scan_quote s rest :
  ascii_string s = true →
  ∃ r, quote s +:+ rest = String dq r ∧ scan_string r = Some (s, rest).
Proof.
  intros Hs. eexists. split; [cbn; reflexivity|].
  rewrite app_assoc_str. by apply scan_escape.
Qed.

(** *** Numbers *)

Definition no_digit (s : string) : bool :=
  match s with "" => true | String c _ => negb (is_dig c) end.

Lemma follow_no_digit s : follow s = true → no_digit s = true.
Proof.
  destruct s as [|c s]; [done|]. cbn. intros [->|[->| ->]]%bool_decide_eq_true; done.
Qed.

Lemma digits_all s d : digits s = (d, "") → d = s.
Proof.
  revert d. induction s as [|c s IH]; cbn; intros d H; [naive_solver|].
  destruct (is_dig c); [|done]. destruct (digits s) as [d' r]. injection H as <- ->. by rewrite (IH d').
Qed.

Lemma digits_app s rest d r :
  no_digit rest = true → digits s = (d, r) → digits (s +:+ rest) = (d, r +:+ rest).
Proof.
  intros Hr. revert d r. induction s as [|c s IH]; cbn; intros d r H.
  - injection H as <- <-. destruct rest as [|c rest]; [done|]. cbn in *.
    by destruct (is_dig c).
  - destruct (is_dig c); [|naive_solver].
    destruct (digits s) as [d' r'] eqn:E. injection H as <- <-. by rewrite (IH _ _ eq_refl).
Qed.

(** A scanner that stops where the text it was given stops, whatever follows. *)
Definition stable (f : string → option (string * string)) : Prop :=
  ∀ s rest d r, follow rest = true → f s = Some (d, r) → f (s +:+ rest) = Some (d, r +:+ rest).

Lemma stable_prefixed p f : stable f → stable (λ s, prefixed p (f s)).
Proof.
  intros Hf s rest d r Hr H. destruct (f s) as [[d' r']|] eqn:E; [|done].
  injection H as <- <-. by rewrite (Hf _ _ _ _ Hr E).
Qed.

Lemma digits1_stable : stable digits1.
Proof.
  intros s rest d r Hr H. unfold digits1 in *. destruct (digits s) as [d' r'] eqn:E.
  rewrite (digits_app _ _ _ _ (follow_no_digit _ Hr) E). by destruct d'; [|injection H as <- <-].
Qed.

(** The first character decides what the scanner does with the rest. *)
Ltac by_first_char c := destruct c as [[] [] [] [] [] [] [] []].

Lemma scan_int_stable : stable scan_int.
Proof.
  intros s rest d r Hr H. destruct s as [|c s]; [done|].
  assert (digits1 (String c s) = Some (d, r) → digits1 (String c s +:+ rest) = Some (d, r +:+ rest)) as Hd
    by (by apply digits1_stable).
  by_first_char c; cbn in *; try (by apply Hd); by injection H as <- <-.
Qed.

Lemma scan_frac_stable : stable scan_frac.
Proof.
  intros s rest d r Hr H. destruct s as [|c s].
  - injection H as <- <-. destruct rest as [|c rest]; [done|].
    cbn in Hr. apply bool_decide_eq_true in Hr. by destruct Hr as [->|[->| ->]].
  - pose proof (stable_prefixed "." _ digits1_stable s rest d r Hr) as Hd.
    by_first_char c; cbn in *; try (by apply Hd); by injection H as <- <-.
Qed.

Lemma scan_sign_stable :
  stable (λ s, match s with
               | String "+" s => prefixed "+" (digits1 s)
               | String "-" s => prefixed "-" (digits1 s)
               | _ => digits1 s
               end).
Proof.
  intros s rest d r Hr H. destruct s as [|c s]; [done|].
  assert (digits1 (String c s) = Some (d, r) → digits1 (String c s +:+ rest) = Some (d, r +:+ rest)) as H0
    by (by apply digits1_stable).
  pose proof (stable_prefixed "+" _ digits1_stable s rest d r Hr) as H1.
  pose proof (stable_prefixed "-" _ digits1_stable s rest d r Hr) as H2.
  by_first_char c; cbn in *; first [by apply H0|by apply H1|by apply H2].
Qed.

Lemma scan_exp_stable : stable scan_exp.
Proof.
  intros s rest d r Hr H. destruct s as [|c s].
  - injection H as <- <-. destruct rest as [|c rest]; [done|].
    cbn in Hr. apply bool_decide_eq_true in Hr. by destruct Hr as [->|[->| ->]].
  - cbn [scan_exp] in H |- *. change (String c s +:+ rest) with (String c (s +:+ rest)). cbn [scan_exp].
    case_bool_decide; [|by injection H as <- <-].
    by apply (stable_prefixed (String c "") _ scan_sign_stable).
Qed.

Lemma scan_number_app n rest :
  follow rest = true → valid_literal n = true → scan_number (n +:+ rest) = Some (n, rest).
Proof.
  intros Hr Hn%bool_decide_eq_true.
  enough (stable scan_number) as Hs by (by apply (Hs n rest n "" Hr)).
  clear. intros s rest d r Hr H. unfold scan_number in *.
  assert (∀ sign s, (r ← scan_int s; let '(i, s) := r in
            r ← scan_frac s; let '(f, s) := r in
            r ← scan_exp s; let '(e, s) := r in Some (sign +:+ i +:+ f +:+ e, s)) = Some (d, r) →
          (r ← scan_int (s +:+ rest); let '(i, s) := r in
            r ← scan_frac s; let '(f, s) := r in
            r ← scan_exp s; let '(e, s) := r in Some (sign +:+ i +:+ f +:+ e, s)) = Some (d, r +:+ rest)) as Hbody.
  { clear -Hr. intros sign s H. destruct (scan_int s) as [[i s1]|] eqn:E1; [|done].
    rewrite (scan_int_stable _ _ _ _ Hr E1). cbn in *. destruct (scan_frac s1) as [[f s2]|] eqn:E2; [|done].
    rewrite (scan_frac_stable _ _ _ _ Hr E2). cbn in *. destruct (scan_exp s2) as [[e s3]|] eqn:E3; [|done].
    rewrite (scan_exp_stable _ _ _ _ Hr E3). cbn in *. by injection H as <- <-. }
  destruct s as [|c s]; [done|].
  pose proof (Hbody "" (String c s)) as H0. pose proof (Hbody "-" s) as H1.
  by_first_char c; cbn -[scan_int] in H, H0, H1 |- *; first [by apply H0|by apply H1].
Qed.

Lemma number_head n :
  valid_literal n = true → ∃ c s, n = String c s ∧ (c = "-"%char ∨ is_dig c = true).
Proof.
  intros Hn%bool_decide_eq_true. destruct n as [|c s]; [done|]. exists c, s. split; [done|].
  by_first_char c; vm_compute in Hn |- *; solve [done|by left|by right].
Qed.

(** *** Values *)

(** The first character of a value's text. *)
Lemma marshal_head j :
  wf_json j = true → ∃ c s, marshal j = String c s ∧ is_space c = false ∧ c ≠ "]"%char.
Proof.
  destruct j as [|[]|n|s|l|fs]; cbn; intros Hj; try by eexists _, _.
  destruct (number_head _ Hj) as (c & s & -> & Hc). exists c, s. split; [done|].
  by_first_char c; vm_compute in Hc |- *; naive_solver.
Qed.

Lemma skip_ws_head c s : is_space c = false → skip_ws (String c s) = String c s.
Proof. cbn. by intros ->. Qed.

Lemma parse_number fuel n rest :
  valid_literal n = true → follow rest = true →
  parse_value (S fuel) (n +:+ rest) = Some (JNum n, rest).
Proof.
  intros Hn Hr. pose proof (scan_number_app _ _ Hr Hn) as Hs.
  destruct (number_head _ Hn) as (c & s & -> & Hc).
  change (String c s +:+ rest) with (String c (s +:+ rest)) in *.
  revert Hs. generalize (s +:+ rest) as r. intros r Hs.
  by_first_char c; vm_compute in Hc; try (exfalso; naive_solver);
    (cbn [parse_value]; rewrite skip_ws_head by done; cbn -[scan_number]; by rewrite Hs).
Qed.

(** What the induction hypothesis says of a value. *)
Definition parses (j : json) : Prop :=
  wf_json j = true → ∀ fuel rest, follow rest = true →
  (String.length (marshal j) ≤ fuel)%nat → parse_value fuel (marshal j +:+ rest) = Some (j, rest).

Lemma follow_skip rest : follow rest = true → skip_ws rest = rest.
Proof.
  destruct rest as [|c rest]; [done|]. cbn. intros [->|[->| ->]]%bool_decide_eq_true; done.
Qed.

Lemma parse_elems_marshal l rest :
  Forall parses l → forallb wf_json l = true → l ≠ [] →
  ∀ fuel, (String.length (join_comma (marshal <$> l)) < fuel)%nat →
  parse_elems fuel (join_comma (marshal <$> l) +:+ String "]" rest) = Some (l, rest).
Proof.
  induction 1 as [|x l Hx Hl IH]; [done|]. cbn [forallb].
  intros [Hwx Hwl]%andb_true_iff _ [|fuel] Hf; [lia|]. cbn [parse_elems].
  destruct l as [|y l].
  - cbn in Hf |- *. rewrite (Hx Hwx); [done|done|lia].
  - change (join_comma (marshal <$> x :: y :: l))
      with (marshal x +:+ String "," (join_comma (marshal <$> y :: l))) in *.
    rewrite length_app_str in Hf. cbn [String.length] in Hf.
    rewrite app_assoc_str. cbn [String.append].
    rewrite (Hx Hwx) by (done || lia). rewrite skip_ws_head by done. cbn beta iota.
    rewrite (IH Hwl) by (done || lia). done.
Qed.

Definition member (f : string * json) : string := quote f.1 +:+ String ":" (marshal f.2).

Lemma parse_members_marshal fs rest :
  Forall (λ f, parses f.2) fs → forallb (λ f, ascii_string f.1 && wf_json f.2) fs = true → fs ≠ [] →
  ∀ fuel, (String.length (join_comma (member <$> fs)) < fuel)%nat →
  parse_members fuel (join_comma (member <$> fs) +:+ String "}" rest) = Some (fs, rest).
Proof.
  induction 1 as [|[k x] fs Hx Hl IH]; [done|]. cbn [forallb fst snd].
  intros [[Hk Hwx]%andb_true_iff Hwl]%andb_true_iff _ [|fuel] Hf; [lia|].
  assert (∃ tl, join_comma (member <$> (k, x) :: fs) +:+ String "}" rest =
     quote k +:+ String ":" (marshal x +:+ tl) ∧ follow tl = true ∧
     (String.length (marshal x) ≤ fuel)%nat ∧
     ((fs = [] ∧ tl = String "}" rest) ∨
      (fs ≠ [] ∧ tl = String "," (join_comma (member <$> fs) +:+ String "}" rest) ∧
       (String.length (join_comma (member <$> fs)) < fuel)%nat))) as (tl & -> & Htl & Hlen & Hcase).
  { destruct fs as [|f fs].
    - exists (String "}" rest). change (join_comma (member <$> [(k, x)])) with (quote k +:+ String ":" (marshal x)) in *.
      rewrite !length_app_str in Hf. cbn [String.length] in Hf.
      rewrite !app_assoc_str. cbn [String.append]. repeat split; [lia|by left].
    - eexists. change (join_comma (member <$> (k, x) :: f :: fs))
        with (member (k, x) +:+ String "," (join_comma (member <$> f :: fs))) in *.
      rewrite length_app_str in Hf.
      change (member (k, x)) with (quote k +:+ String ":" (marshal x)) in *. rewrite length_app_str in Hf.
      cbn [String.length fst snd] in Hf.
      split; [|split; [|split; [|right; split; [done|split; [reflexivity|lia]]]]].
      + by rewrite !app_assoc_str.
      + done.
      + lia. }
  destruct (scan_quote k (String ":" (marshal x +:+ tl)) Hk) as (r & -> & Hscan).
  cbn [parse_members]. rewrite (skip_ws_head dq r eq_refl).
  rewrite (bool_decide_eq_true_2 (dq = dq)) by done. rewrite Hscan, (skip_ws_head ":"%char _ eq_refl).
  cbn beta iota. rewrite (Hx Hwx) by done.
  destruct Hcase as [[-> ->]|(Hne & -> & Hlt)]; rewrite skip_ws_head by done; cbn beta iota; [done|].
  by rewrite (IH Hwl Hne _ Hlt).
Qed.

Lemma marshal_parses j : parses j.
Proof.
  induction j as [|b|n|s|l Hl|fs Hfs] using json_ind'; intros Hj fuel rest Hr Hf.
  - by destruct fuel; [cbn in Hf; lia|].
  - by destruct fuel, b; try (cbn in Hf; lia).
  - destruct (number_head _ Hj) as (c & s & -> & _). destruct fuel; [cbn in Hf; lia|].
    by apply parse_number.
  - destruct fuel; [cbn in Hf; lia|]. cbn [marshal wf_json] in *.
    destruct (scan_quote s rest Hj) as (r & -> & Hs). cbn [parse_value].
    rewrite (skip_ws_head dq r eq_refl), bool_decide_eq_true_2 by done. by rewrite Hs.
  - destruct fuel as [|fuel]; [cbn in Hf; lia|]. cbn [marshal String.append] in *.
    destruct (decide (l = [])) as [->|Hne]; [done|].
    cbn [String.length] in Hf. rewrite length_app_str in Hf. rewrite app_assoc_str. cbn [String.append].
    cbn [parse_value]. rewrite (skip_ws_head "["%char _ eq_refl).
    rewrite (bool_decide_eq_false_2 ("["%char = dq)), (bool_decide_eq_true_2 ("["%char = "["%char)) by done.
    rewrite (parse_elems_marshal l rest Hl Hj Hne) by (cbn in Hf; lia).
    destruct l as [|x l]; [done|]. cbn in Hj. apply andb_true_iff in Hj as [Hx _].
    destruct (marshal_head _ Hx) as (c & s & Hm & Hsp & Hc).
    assert (∃ s', join_comma (marshal <$> x :: l) +:+ String "]" rest = String c s') as [s' ->].
    { destruct l; cbn [fmap list_fmap join_comma]; rewrite Hm; by eexists. }
    rewrite (skip_ws_head _ _ Hsp). clear -Hc. by_first_char c; congruence.
  - destruct fuel as [|fuel]; [cbn in Hf; lia|]. cbn [marshal String.append] in *.
    destruct (decide (fs = [])) as [->|Hne]; [done|].
    change ((λ f, quote f.1 +:+ String ":" (marshal f.2)) <$> fs) with (member <$> fs) in *.
    cbn [String.length] in Hf. rewrite length_app_str in Hf. rewrite app_assoc_str. cbn [String.append].
    cbn [parse_value]. rewrite (skip_ws_head "{"%char _ eq_refl).
    rewrite (bool_decide_eq_false_2 ("{"%char = dq)), (bool_decide_eq_false_2 ("{"%char = "["%char)),
      (bool_decide_eq_true_2 ("{"%char = "{"%char)) by done.
    rewrite (parse_members_marshal fs rest Hfs Hj Hne) by (cbn in Hf; lia).
    destruct fs as [|f fs]; [done|].
    assert (∃ s', join_comma (member <$> f :: fs) +:+ String "}" rest = String dq s') as [s' ->].
    { destruct fs; by eexists. }
    by rewrite (skip_ws_head dq _ eq_refl).
Qed.

(** A value is read back from its text. *)
Lemma unmarshal_marshal j : wf_json j = true → unmarshal (marshal j) = Some j.
Proof.
  intros Hj. unfold unmarshal. rewrite <- (app_nil_str (marshal j)) at 2.
  by rewrite (marshal_parses j Hj) by (done || lia).
Qed.

(** *** Integers *)

Fixpoint all_digits (s : string) : bool :=
  match s with "" => true | String c s => is_dig c && all_digits s end.

Lemma digit_char_cases d :
  (0 ≤ d < 10)%Z →
  is_dig (digit_char d) = true ∧ digit_val (digit_char d) = Some d ∧
  (digit_char d = "0"%char ↔ d = 0%Z) ∧ digit_char d ≠ "-"%char ∧ digit_char d ≠ "+"%char.
Proof.
  intros Hd. assert (d ∈ seqZ 0 10) as Hin by (apply elem_of_seqZ; lia). clear Hd.
  revert d Hin. apply Forall_forall. repeat constructor; done.
Qed.

Lemma itoa_val fuel n tail :
  (0 ≤ n < 10 ^ Z.of_nat fuel)%Z → digits_val 0 (itoa_digits fuel n tail) = digits_val n tail.
Proof.
  revert n tail. induction fuel as [|fuel IH]; intros n tail Hn; [cbn in *; f_equal; lia|].
  rewrite Nat2Z.inj_succ, Z.pow_succ_r in Hn by lia. cbn [itoa_digits].
  destruct (Z.ltb_spec n 10) as [Hlt|Hge].
  - rewrite Z.mod_small by lia. cbn.
    by destruct (digit_char_cases n) as (_ & -> & _); [lia|].
  - rewrite IH by (split; [apply Z.div_pos|apply Z.div_lt_upper_bound]; lia). cbn.
    destruct (digit_char_cases (n mod 10)) as (_ & -> & _); [apply Z.mod_pos_bound; lia|]. cbn.
    f_equal. pose proof (Z.div_mod n 10). lia.
Qed.

(** The digits of a positive number: the first is not zero. *)
Lemma itoa_head fuel n tail :
  (0 < n < 10 ^ Z.of_nat fuel)%Z → all_digits tail = true →
  ∃ c s, itoa_digits fuel n tail = String c s ∧ is_dig c = true ∧ c ≠ "0"%char ∧
         c ≠ "-"%char ∧ c ≠ "+"%char ∧ all_digits s = true.
Proof.
  revert n tail. induction fuel as [|fuel IH]; intros n tail Hn Ht; [cbn in *; lia|].
  rewrite Nat2Z.inj_succ, Z.pow_succ_r in Hn by lia. cbn [itoa_digits].
  destruct (Z.ltb_spec n 10) as [Hlt|Hge].
  - rewrite Z.mod_small by lia. eexists _, _. split; [done|].
    destruct (digit_char_cases n) as (? & _ & [? ?] & ? & ?); [lia|]. naive_solver lia.
  - apply IH; [split; [apply Z.div_str_pos|apply Z.div_lt_upper_bound]; lia|].
    cbn. destruct (digit_char_cases (n mod 10)) as (-> & _); [apply Z.mod_pos_bound; lia|done].
Qed.

Lemma digits_all_digits s : all_digits s = true → digits s = (s, "").
Proof. induction s as [|c s IH]; cbn; [done|]. intros [-> Hs]%andb_true_iff. by rewrite (IH Hs). Qed.

(** [strconv.Atoi] reads what [strconv.Itoa] wrote. *)
Lemma Atoi_Itoa n : is_i64 n → strconv_Atoi (strconv_Itoa n) = Some n.
Proof.
  intros Hn. assert (- 10 ^ 20 < n < 10 ^ 20)%Z as Hb by (unfold is_i64 in Hn; lia).
  unfold strconv_Itoa. destruct (Z.ltb_spec n 0) as [Hneg|Hpos].
  - destruct (itoa_head 20 (- n) "") as (c & s & E & _); [lia|done|].
    pose proof (itoa_val 20 (- n) "") as Hv. rewrite E in *. cbn in Hv |- *.
    rewrite Hv by lia. cbn. rewrite Z.opp_involutive. by rewrite decide_True.
  - destruct (decide (n = 0%Z)) as [->|]; [done|].
    destruct (itoa_head 20 n "") as (c & s & E & _ & _ & Hm & Hp & _); [lia|done|].
    pose proof (itoa_val 20 n "") as Hv. rewrite E in *.
    assert (strconv_Atoi (String c s) =
      (z ← nat_of_digits (String c s); if decide (is_i64 z) then Some z else None)) as ->
      by (clear -Hm Hp; by_first_char c; first [reflexivity|done]).
    cbn [nat_of_digits]. rewrite Hv by lia. cbn. by rewrite decide_True.
Qed.

Lemma json_int_wf n : is_i64 n → wf_json (json_int n) = true.
Proof.
  intros Hn. assert (- 10 ^ 20 < n < 10 ^ 20)%Z as Hb by (unfold is_i64 in Hn; lia).
  apply bool_decide_eq_true_2. unfold strconv_Itoa.
  assert (∀ c s, is_dig c = true → c ≠ "0"%char → all_digits s = true →
    scan_int (String c s) = Some (String c s, "")) as Hint.
  { intros c s Hc H0 Hs. assert (digits1 (String c s) = Some (String c s, "")) as Hd.
    { unfold digits1. rewrite digits_all_digits; [done|]. cbn. by rewrite Hc. }
    clear -Hd H0. by_first_char c; first [done|exact Hd]. }
  destruct (Z.ltb_spec n 0) as [Hneg|Hpos].
  - destruct (itoa_head 20 (- n) "") as (c & s & -> & Hc & H0 & _ & _ & Hs); [lia|done|].
    cbn -[scan_int]. rewrite (Hint c s) by done. cbn. by rewrite app_nil_str.
  - destruct (decide (n = 0%Z)) as [->|]; [done|].
    destruct (itoa_head 20 n "") as (c & s & -> & Hc & H0 & Hm & _ & Hs); [lia|done|].
    specialize (Hint c s Hc H0 Hs). clear -Hint Hm.
    by_first_char c; first [done|unfold scan_number; cbn beta iota; rewrite Hint; cbn;
      by rewrite app_nil_str].
Qed.

Lemma store_json_int n old : is_i64 n → store_int (json_int n) old = Some n.
Proof. apply Atoi_Itoa. Qed.
