(* ===== verification/HttpProto.v ===== *)
(** * Remote commands: protocol, transport, proxy and service (src/httpcmd)

    A task travels as the JSON text of its command's type and fields in the body of an
    HTTP request, its result as a status code and a JSON body.  The names and the fields
    of command types come from the serializer and reflector packages, the connection from
    the REST client: both are parameters here.  Encoding a task is a function, so the
    request that is built again for the second attempt is the first one. *)

From S2P Require Import Prelude GoStd HttpCmd Json.
From Stdlib Require Import Ascii.

(** ** The packages the protocol uses *)

(** What the serializer, the reflector and encoding/json know of the command types [C] and
    the result types [R]; errors are their texts.  [cmd_typed] says that the fields of a
    command fit their Go types. *)
Class CmdCodec (C R : Type) : Type := {
  StructName : C → string;
  ObjName : C → string;
  Serializer : Type;
  NewSerializer : Serializer;
  Serializer_Register : C → Serializer → Serializer + string;
  DecodeType : Serializer → string → option json → C + string;
  cmd_typed : C → bool;
  cmd_attrs : C → json + string;
  result_json : R → json + string;
  result_store : json → R → R + string;
  zero_result : R;
}.

Definition register_all {C R} {K : CmdCodec C R} (cmds : list C) (s : Serializer)
  : Serializer + string :=
  foldl (λ acc c, match acc with inl s => Serializer_Register c s | inr e => inr e end) (inl s) cmds.

(** A command of a registered type is decoded from its name and fields, one of another
    type is not; the serializer's name of a type stands for its structure's; null is stored
    by leaving the value alone. *)
Class CodecLaws (C R : Type) {K : CmdCodec C R} : Prop := {
  decode_registered : ∀ cmds s c j,
    register_all cmds NewSerializer = inl s → ObjName c ∈ (ObjName <$> cmds) →
    cmd_typed c = true → cmd_attrs c = inl j →
    DecodeType s (ObjName c) (Some j) = inl c;
  decode_unknown : ∀ cmds s c j,
    register_all cmds NewSerializer = inl s → ObjName c ∉ (ObjName <$> cmds) →
    ∃ e, DecodeType s (ObjName c) j = inr e;
  ObjName_StructName : ∀ c d : C, ObjName c = ObjName d ↔ StructName c = StructName d;
  store_null : ∀ x : R, result_store JNull x = inl x;
}.

(** ** httpcmd/protocol.go *)

Record EndPoint : Type := mkEndPoint { ep_Name : string; ep_IP : string; ep_Port : Z }.

Definition EndPoint_GenerateServiceUrl (e : EndPoint) : string :=
  "http://" +:+ ep_IP e +:+ ":" +:+ strconv_Itoa (ep_Port e) +:+ "/" +:+ ep_Name e.

(** The parts of a request and a response the protocol looks at; a body that cannot be
    read is its error. *)
Record Request : Type := mkRequest { rq_Method : string; rq_URL : string; rq_Body : string + string }.
Record Response : Type := mkResponse { rs_StatusCode : Z; rs_Body : string + string }.
Record HttpResult : Type := mkHttpResult { hr_Code : Z; hr_Body : string }.

(** [json.Marshal] and [json.Unmarshal] of an Error; the error of the decoder is a text of
    the parameter [bad]. *)
Definition error_json (e : CmdError) : json :=
  JObj [("code", json_int (err_Code e)); ("info", JStr (err_Info e))].

Definition struct_fields (j : json) : option (list (string * json)) :=
  match j with JObj fs => Some fs | JNull => Some [] | _ => None end.

Definition decode_error (body : string) : option CmdError :=
  j ← unmarshal body; fs ← struct_fields j;
  code ← decode_field "code" store_int 0%Z fs;
  info ← decode_field "info" store_string "" fs;
  Some (mkError code info).

Section protocol.
Context {C W R : Type} {K : CmdCodec C R}.
(** [url.Parse] as far as its error goes, and the texts of decoding errors. *)
Context (url_Parse : string → option string) (bad_json : string).

Abbreviation Tsk := (@Task C).
Abbreviation Res := (@TaskResult R).

Record HttpCmdProtocol : Type := mkProtocol { pr_serializer : Serializer; pr_endPoint : EndPoint }.

Definition NewHttpCmdProtocol (cmds : list C) (e : EndPoint) : HttpCmdProtocol + string :=
  match register_all cmds NewSerializer with
  | inl s => inl (mkProtocol s e)
  | inr err => inr err
  end.

Definition DecodeTask (p : HttpCmdProtocol) (r : Request) : Tsk + CmdError :=
  if negb (bool_decide (rq_Method r = "POST")) then inr ErrHTTPMethodInvalid
  else match rq_Body r with
  | inr e => inr (NewError 0 e)
  | inl body =>
      match (j ← unmarshal body; fs ← struct_fields j;
             cmdType ← decode_field "resource_type" store_string "" fs;
             params ← decode_field "attrs" store_raw None fs;
             Some (cmdType, params)) with
      | None => inr ErrCmdFormatInvalid
      | Some (cmdType, params) =>
          match DecodeType (pr_serializer p) cmdType params with
          | inr _ => inr ErrUnknownCmd
          | inl c => inl (Task_AddCmd c NewTask)
          end
      end
  end.

Definition EncodeTask (p : HttpCmdProtocol) (t : Tsk) : Request + CmdError :=
  let uri := EndPoint_GenerateServiceUrl (pr_endPoint p) in
  match Cmds t with
  | [c] =>
      match cmd_attrs c with
      | inr _ => inr ErrCmdFormatInvalid
      | inl attrs =>
          let body := marshal (JObj [("resource_type", JStr (ObjName c)); ("attrs", attrs)]) in
          match url_Parse uri with
          | Some e => inr (NewError 0 e)
          | None => inl (mkRequest "POST" uri (inl body))
          end
      end
  | _ => inr ErrBatchCmdNotSupport
  end.

Definition payload_json (r : @TaskPayload R) : json + string :=
  match r with
  | NoResult => inl JNull
  | HasResult r => result_json r
  | HasError e => inl (error_json e)
  end.

Definition EncodeTaskResult (r : Res) : HttpResult + CmdError :=
  match payload_json (tr_Result r) with
  | inr e => inr (NewError 0 e)
  | inl j => inl (mkHttpResult (tr_Code r) (marshal j))
  end.

(** [want]: the caller passed a place for the result, which is then part of the answer. *)
Definition DecodeTaskResult (want : bool) (r : Response) : option R + CmdError :=
  match rs_Body r with
  | inr e => inr (NewError 0 e)
  | inl body =>
      if (rs_StatusCode r =? Succeed)%Z then
        if want then
          match unmarshal body with
          | None => inr (NewError 0 bad_json)
          | Some j =>
              match result_store j zero_result with
              | inl x => inl (Some x)
              | inr e => inr (NewError 0 e)
              end
          end
        else inl None
      else match decode_error body with
           | None => inr (NewError 0 bad_json)
           | Some e => inr e
           end
  end.

(** ** httpcmd/transport.go *)

(** The handler of the service's path, which runs the task through the service [serve]. *)
Definition transport_handler (serve : Tsk → W → W * outcome Res) (p : HttpCmdProtocol)
  (req : Request) (w : W) : W * outcome (Z * string) :=
  match DecodeTask p req with
  | inr e => (w, Ret (InnerError, marshal (error_json e)))
  | inl task =>
      let '(w, r) := serve task w in
      (w, r ← r;
          match EncodeTaskResult r with
          | inr e => Ret (InnerError, marshal (error_json e))
          | inl h => Ret (hr_Code h, hr_Body h)
          end)
  end.

Definition healthzHandler (req : Request) : Z * string := (Succeed, "OK").

(** The handlers by path; the metrics handler belongs to the metrics package, and a path
    nobody registered is answered by the server ([None]). *)
Definition HttpTransport_Run (serve : Tsk → W → W * outcome Res) (metrics_Handler : W → Z * string)
  (p : HttpCmdProtocol) (e : EndPoint) (path : string) (req : Request) (w : W)
  : W * outcome (option (Z * string)) :=
  if bool_decide (path = "/" +:+ ep_Name e) then
    let '(w, r) := transport_handler serve p req w in (w, Some <$> r)
  else if bool_decide (path = "/health") then (w, Ret (Some (healthzHandler req)))
  else if bool_decide (path = "/metrics") then (w, Ret (Some (metrics_Handler w)))
  else (w, Ret None).

(** ** httpcmd/proxy.go *)

(** The operations of the REST client, on a state [W] that the server shares. *)
Record RestClient : Type := mkRestClient {
  rc_Connect : W → W * option string;
  rc_ReConnect : W → W * option string;
  rc_Send : Request → W → W * outcome (option Response * option string);
}.

Definition HttpCmdProxy_HandleTask (p : HttpCmdProtocol) (cl : RestClient) (t : Tsk) (want : bool)
  (w : W) : W * outcome (option R + CmdError) :=
  let failed e := Ret (inr (NewError 0 e)) in
  match rc_Connect cl w with
  | (w, Some e) => (w, failed e)
  | (w, None) =>
      match EncodeTask p t with
      | inr e => (w, Ret (inr e))
      | inl req =>
          match rc_Send cl req w with
          | (w, Ret (Some response, _)) => (w, Ret (DecodeTaskResult want response))
          | (w, Ret (None, _)) =>
              match rc_ReConnect cl w with
              | (w, Some e) => (w, failed e)
              | (w, None) =>
                  match rc_Send cl req w with
                  | (w, Ret (Some response, _)) => (w, Ret (DecodeTaskResult want response))
                  | (w, Ret (None, Some e)) => (w, failed e)
                  | (w, Ret (None, None)) => (w, Panic "nil error")
                  | (w, Panic s) => (w, Panic s)
                  | (w, Hang s) => (w, Hang s)
                  end
              end
          | (w, Panic s) => (w, Panic s)
          | (w, Hang s) => (w, Hang s)
          end
      end
  end.

(** The client of an endpoint, or why there is none. *)
Definition GetProxy (NewRestClient : string → RestClient + string) (e : EndPoint) (cmds : list C)
  : (HttpCmdProtocol * RestClient) + string :=
  match NewHttpCmdProtocol cmds e with
  | inr err => inr err
  | inl p =>
      match NewRestClient (EndPoint_GenerateServiceUrl e) with
      | inr err => inr err
      | inl cl => inl (p, cl)
      end
  end.

(** ** httpcmd/server.go, service.go *)

(** The number [strconv.Atoi] returns beside its error: the nearest int for a number out of
    range, zero for what is no number. *)
Definition Atoi_value (s : string) : Z :=
  let clamp z := Z.max (- 2 ^ 63) (Z.min (2 ^ 63 - 1) z) in
  match s with
  | String "-" s' => clamp (- from_option id 0 (nat_of_digits s'))%Z
  | String "+" s' => clamp (from_option id 0 (nat_of_digits s'))%Z
  | _ => clamp (from_option id 0%Z (nat_of_digits s))
  end.

(** The endpoint of an address as the service and its client cut it up. *)
Definition split_addr (addr : string) : outcome (string * string) :=
  let ipAndPort := strings_Split addr ":"%char in
  ip ← index ipAndPort 0; port ← index ipAndPort 1; Ret (ip, port).

Definition cmdService_Run (cmds : list C) (httpCmdAddr : string)
  : outcome ((HttpCmdProtocol * EndPoint) + string) :=
  a ← split_addr httpCmdAddr;
  let e := mkEndPoint "vanguard_cmd" a.1 (Atoi_value a.2) in
  Ret (match NewHttpCmdProtocol cmds e with
       | inl p => inl (p, e)
       | inr err => inr err
       end).

End protocol.
Arguments RestClient : clear implicits.
Arguments HttpCmdProtocol C R {K}.

(** * What a remote call does *)

(** ** The text of an error *)

Definition portable_error (e : CmdError) : Prop :=
  is_i64 (err_Code e) ∧ ascii_string (err_Info e) = true.

Lemma decode_error_json e : portable_error e → decode_error (marshal (error_json e)) = Some e.
Proof.
  intros [Hc Hi]. unfold decode_error, error_json.
  rewrite unmarshal_marshal by (cbn [wf_json forallb fst snd]; rewrite Hi, (json_int_wf _ Hc); done).
  destruct e as [code info]. cbn [err_Code err_Info] in *. unfold decode_field.
  cbn -[store_int json_int fold_key]. rewrite !(bool_decide_eq_true_2 (_ = _)) by done.
  rewrite !bool_decide_eq_false_2 by done. cbn -[store_int json_int].
  by rewrite (store_json_int code 0 Hc).
Qed.

(** ** Handlers and registered commands *)

Section calls.
Context {C W R : Type} {K : CmdCodec C R}.
Implicit Types (d : @CmdDispatcher C W R) (w : W) (c : C).

(** Exactly the commands of the supported types have a handler. *)
Definition dispatcher_ok d : Prop :=
  ∀ c, is_Some (CmdDispatcher_getHandler StructName c d) ↔
       StructName c ∈ (StructName <$> supportedCmds d).

Lemma newCmdDispatcher_ok : dispatcher_ok newCmdDispatcher.
Proof. intros c. cbn. split; [by intros [? ?]|set_solver]. Qed.

Lemma RegisterHandler_ok h cmds d :
  dispatcher_ok d → dispatcher_ok (CmdDispatcher_RegisterHandler StructName h cmds d).
Proof.
  intros Hd c. rewrite getHandler_RegisterHandler. cbn [CmdDispatcher_RegisterHandler supportedCmds].
  rewrite fmap_app, elem_of_app. case_decide; [naive_solver|]. rewrite (Hd c). tauto.
Qed.

(** ** A request and its answer *)

Context {L : CodecLaws C R} (url_Parse : string → option string) (bad_json : string).

(** A command whose fields can be written as JSON, and a result that survives the trip. *)
Definition sendable c : Prop :=
  cmd_typed c = true ∧ ∃ j, cmd_attrs c = inl j ∧ wf_json j = true ∧ ascii_string (ObjName c) = true.

Definition portable_result (r : @TaskResult R) : Prop :=
  match tr_Result r with
  | NoResult => True
  | HasResult x => ∃ j, result_json x = inl j ∧ wf_json j = true ∧ result_store j zero_result = inl x
  | HasError e => portable_error e
  end.

(** What the caller sees of a result. *)
Definition seen (want : bool) (r : @TaskResult R) : option R + CmdError :=
  match tr_Result r with
  | NoResult => inl (if want then Some zero_result else None)
  | HasResult x => inl (if want then Some x else None)
  | HasError e => inr e
  end.

Definition request (uri : string) (attrs : json) c : Request :=
  mkRequest "POST" uri (inl (marshal (JObj [("resource_type", JStr (ObjName c)); ("attrs", attrs)]))).

Lemma EncodeTask_sendable p c attrs :
  cmd_attrs c = inl attrs → url_Parse (EndPoint_GenerateServiceUrl (pr_endPoint p)) = None →
  EncodeTask url_Parse p (mkTask [c]) = inl (request (EndPoint_GenerateServiceUrl (pr_endPoint p)) attrs c).
Proof. intros Ha Hu. unfold EncodeTask. cbn. by rewrite Ha, Hu. Qed.

Lemma DecodeTask_request p uri attrs c :
  wf_json attrs = true → ascii_string (ObjName c) = true →
  DecodeTask p (request uri attrs c) =
  match DecodeType (pr_serializer p) (ObjName c) (Some attrs) with
  | inl c => inl (mkTask [c])
  | inr _ => inr ErrUnknownCmd
  end.
Proof.
  intros Ha Hn. unfold DecodeTask, request. cbn [rq_Method rq_Body].
  rewrite unmarshal_marshal by (cbn; by rewrite Ha, Hn). done.
Qed.

Lemma HandleTask_cases d t w w' r :
  HandleTask StructName d t w = (w', Ret r) →
  (∃ e, r = Task_Failed e) ∨ r = Task_Succeed ∨ ∃ x, r = Task_SucceedWithResult x.
Proof.
  unfold HandleTask. destruct (Cmds t) as [|c [|]]; try naive_solver.
  destruct (CmdDispatcher_getHandler StructName c d); [|naive_solver].
  destruct (safeRunCommand _ _ _) as [w1 [[[]|]| |]]; naive_solver.
Qed.

(** Encoding a result and decoding it. *)
Lemma result_roundtrip want d t w w' r :
  HandleTask StructName d t w = (w', Ret r) → portable_result r →
  ∃ h, EncodeTaskResult r = inl h ∧
       DecodeTaskResult bad_json want (mkResponse (hr_Code h) (inl (hr_Body h))) = seen want r.
Proof.
  intros Hr Hp. unfold EncodeTaskResult, DecodeTaskResult, portable_result, seen in *.
  destruct (HandleTask_cases _ _ _ _ _ Hr) as [[e ->]|[->|[x ->]]];
    cbn [Task_Failed Task_FailedWithStatus Task_Succeed Task_SucceedWithResult tr_Result tr_Code payload_json] in *.
  - eexists. split; [done|]. cbn [hr_Code hr_Body rs_Body rs_StatusCode].
    by rewrite (decode_error_json _ Hp).
  - eexists. split; [done|]. destruct want; [|done].
    cbn [hr_Code hr_Body rs_Body rs_StatusCode Z.eqb Succeed Pos.eqb].
    by rewrite (unmarshal_marshal JNull), store_null.
  - destruct Hp as (j & -> & Hj & Hs). eexists. split; [done|].
    destruct want; [|done]. cbn [hr_Code hr_Body rs_Body rs_StatusCode Z.eqb Succeed Pos.eqb].
    by rewrite (unmarshal_marshal _ Hj), Hs.
Qed.

(** The handler of the service's path answers with what the service does itself. *)
Lemma transport_serves want d p e uri attrs c w w' r :
  dispatcher_ok d → NewHttpCmdProtocol (supportedCmds d) e = inl p →
  cmd_typed c = true → cmd_attrs c = inl attrs → wf_json attrs = true → ascii_string (ObjName c) = true →
  HandleTask StructName d (mkTask [c]) w = (w', Ret r) → portable_result r →
  ∃ code body, transport_handler (HandleTask StructName d) p (request uri attrs c) w = (w', Ret (code, body)) ∧
    DecodeTaskResult bad_json want (mkResponse code (inl body)) = seen want r.
Proof.
  intros Hd Hp Ht Ha Hwf Hn Hr Hport. unfold NewHttpCmdProtocol in Hp.
  destruct (register_all _ _) as [s|] eqn:Hs; [|done]. injection Hp as <-.
  unfold transport_handler. rewrite DecodeTask_request by done. cbn [pr_serializer].
  assert (ObjName c ∈ (ObjName <$> supportedCmds d) ↔ StructName c ∈ (StructName <$> supportedCmds d)) as Hin.
  { rewrite !list_elem_of_fmap. by setoid_rewrite ObjName_StructName. }
  destruct (decide (ObjName c ∈ (ObjName <$> supportedCmds d))) as [Hc|Hc].
  - rewrite (decode_registered _ _ _ _ Hs Hc Ht Ha), Hr. cbn.
    destruct (result_roundtrip want _ _ _ _ _ Hr Hport) as (h & -> & Hdec). eauto.
  - destruct (decode_unknown _ _ _ (Some attrs) Hs Hc) as [err ->].
    rewrite Hin, <- (Hd c), <- eq_None_not_Some in Hc.
    unfold HandleTask in Hr. cbn in Hr. rewrite Hc in Hr. injection Hr as <- <-.
    by eexists _, _.
Qed.

(** ** A connection that may lose messages *)

(** What becomes of an exchange: answered; served with the answer lost; lost before the
    server saw it. *)
Inductive Fate : Type := Delivered | ResponseLost | RequestLost.

Definition link_Send (handler : Request → W → W * outcome (Z * string)) (req : Request)
  (s : W * list Fate) : (W * list Fate) * outcome (option Response * option string) :=
  let '(w, fates) := s in
  match fates with
  | RequestLost :: fates => ((w, fates), Ret (None, Some "connection refused"))
  | ResponseLost :: fates =>
      let '(w, r) := handler req w in
      ((w, fates), _ ← r; Ret (None, Some "EOF"))
  | _ =>
      let '(w, r) := handler req w in
      ((w, tail fates), cb ← r; Ret (Some (mkResponse cb.1 (inl cb.2)), None))
  end.

(** The REST client of such a connection, with the server at its other end. *)
Definition link (handler : Request → W → W * outcome (Z * string)) : RestClient (W * list Fate) :=
  mkRestClient (λ s, (s, None)) (λ s, (s, None)) (link_Send handler).

Definition remote (d : @CmdDispatcher C W R) (srv cli : HttpCmdProtocol C R) (t : Task) (want : bool)
  (w : W) (fates : list Fate) : (W * list Fate) * outcome (option R + CmdError) :=
  HttpCmdProxy_HandleTask url_Parse bad_json cli
    (link (transport_handler (HandleTask StructName d) srv)) t want (w, fates).

(** How often the server runs the command of an unlucky call. *)
Definition executions (f1 f2 : Fate) : nat :=
  (match f1 with
   | Delivered => 1
   | ResponseLost => 1 + match f2 with RequestLost => 0 | _ => 1 end
   | RequestLost => match f2 with RequestLost => 0 | _ => 1 end
   end)%nat.

(** The service and its client, set up for the same commands. *)
Context (d : @CmdDispatcher C W R) (e : EndPoint) (srv cli : HttpCmdProtocol C R).
Hypothesis Hd : dispatcher_ok d.
Hypothesis Hsrv : NewHttpCmdProtocol (supportedCmds d) e = inl srv.
Hypothesis Hurl : url_Parse (EndPoint_GenerateServiceUrl (pr_endPoint cli)) = None.

Lemma remote_call_lemma t want w w' r :
  Forall sendable (Cmds t) →
  HandleTask StructName d t w = (w', Ret r) → portable_result r →
  remote d srv cli t want w [] = ((w', []), Ret (seen want r)).
Proof using Hd Hsrv Hurl L.
  intros Hs Hr Hp. unfold remote, HttpCmdProxy_HandleTask. cbn [rc_Connect link].
  destruct t as [[|c [|c' cs]]]; try (cbn in *; by injection Hr as <- <-).
  apply Forall_singleton in Hs as (Ht & attrs & Ha & Hwf & Hn).
  rewrite (EncodeTask_sendable cli c attrs Ha Hurl). cbn [rc_Send link link_Send].
  destruct (transport_serves want d srv e (EndPoint_GenerateServiceUrl (pr_endPoint cli)) attrs c w w' r)
    as (code & body & -> & Hdec); try done.
  cbn [mbind outcome_bind fst snd tail]. by rewrite Hdec.
Qed.

(** The local runs of a command that is executed [n] times in a row. *)
Fixpoint runs (c : C) (n : nat) (w : W) : W :=
  match n with O => w | S n => runs c n (HandleTask StructName d (mkTask [c]) w).1 end.

(** C38: a call over a connection that loses messages runs the command at least as often as
    the server sees it: the proxy sends again whenever no answer came, so a command whose
    first answer was lost is executed twice, and the caller gets the result of the second
    run.  When both attempts fail the caller sees an error, and the command ran not at all,
    once or twice. *)
Theorem lossy_call c want w f1 f2 fates :
  sendable c →
  (∀ n, (n ≤ 1)%nat → ∃ r, (HandleTask StructName d (mkTask [c]) (runs c n w)).2 = Ret r ∧ portable_result r) →
  ∃ out, remote d srv cli (mkTask [c]) want w (f1 :: f2 :: fates) = out ∧
    out.1.1 = runs c (executions f1 f2) w ∧
    match f1, f2 with
    | Delivered, _ | _, Delivered =>
        ∃ n r, S n = executions f1 f2 ∧ (HandleTask StructName d (mkTask [c]) (runs c n w)).2 = Ret r ∧
               out.2 = Ret (seen want r)
    | _, _ => ∃ why, out.2 = Ret (inr (NewError 0 why))
    end.
Proof using Hd Hsrv Hurl L.
  intros (Ht & attrs & Ha & Hwf & Hn) Htot. eexists. split; [reflexivity|].
  set (uri := EndPoint_GenerateServiceUrl (pr_endPoint cli)).
  assert (∀ n, (n ≤ 1)%nat → ∃ r code body, (HandleTask StructName d (mkTask [c]) (runs c n w)).2 = Ret r ∧
    transport_handler (HandleTask StructName d) srv (request uri attrs c) (runs c n w) =
      ((HandleTask StructName d (mkTask [c]) (runs c n w)).1, Ret (code, body)) ∧
    DecodeTaskResult bad_json want (mkResponse code (inl body)) = seen want r) as Hsend.
  { intros n Hle. destruct (Htot n Hle) as (r & Hr & Hp). revert Hr. generalize (runs c n w) as w1. intros w1 Hr.
    destruct (transport_serves want d srv e uri attrs c w1 (HandleTask StructName d (mkTask [c]) w1).1 r)
      as (code & body & Hh & Hdec); try done; [rewrite <- Hr; apply surjective_pairing|].
    by exists r, code, body. }
  destruct (Hsend 0%nat ltac:(lia)) as (r1 & code1 & body1 & Hr1 & Hh1 & Hd1).
  destruct (Hsend 1%nat ltac:(lia)) as (r2 & code2 & body2 & Hr2 & Hh2 & Hd2).
  cbn [runs] in Hr1, Hh1, Hr2, Hh2.
  unfold remote, HttpCmdProxy_HandleTask. cbn [rc_Connect link].
  rewrite (EncodeTask_sendable cli c attrs Ha Hurl). fold uri.
  destruct f1, f2; cbn [rc_Send rc_ReConnect link link_Send];
    rewrite ?Hh1; cbn [mbind outcome_bind fst snd tail link_Send]; rewrite ?Hh2, ?Hh1;
    cbn [mbind outcome_bind fst snd tail]; (split; [done|]); eauto;
    first [exists 0%nat, r1; split_and!; [done|exact Hr1|by rewrite Hd1]
          |exists 1%nat, r2; split_and!; [done|exact Hr2|by rewrite Hd2]].
Qed.
End calls.
