(* ===== verification/Cache.v ===== *)
(** * The message cache (src/cache)

    One [MessageCache] per view keeps pointers to answered messages in an LRU
    list with a map from a 64-bit key to list elements, an expiry time per
    entry and a prefetcher for entries about to expire. *)

From S2P Require Import Prelude GoList GoStd G53 Core HttpCmd Instances.

Section cache.
Context {N : G53Name} {M : G53Msg N}.

(** ** cache/messagecache.go: constants and entries *)

Definition defaultNegativeCacheTtl : Z := 60.
Definition defaultPositiveCacheTtl : Z := 3600.
Definition defaultMaxCacheSize : Z := 0.
Definition prefetchTime : Z := 10.

Record MessageCacheEntry : Type := mkEntry {
  e_message : nat;
  e_expireTime : Z;
}.

Abbreviation MessageCacheEntryTime := Z (only parsing).

Definition MessageCacheEntry_IsExpire (now : Z) (e : MessageCacheEntry) : bool :=
  time_Before (e_expireTime e) now.

Definition MessageCacheEntry_NeedPrefetch (now : Z) (e : MessageCacheEntry) : bool :=
  time_Before (e_expireTime e) (now + prefetchTime * Second).

(** config.CacheConf *)
Record CacheConf : Type := mkCacheConf {
  conf_PositiveTtl : Z;
  conf_NegativeTtl : Z;
  conf_MaxCacheSize : Z;
  conf_ShortAnswer : bool;
  conf_Prefetch : bool;
}.

(** ** cache/prefetch.go: the prefetcher's state

    [taskChan] is nil before the first [reloadConfig]; [running] says whether
    the goroutine of [run] is serving the channels. *)
Record Prefetcher : Type := mkPrefetcher {
  p_taskChan : option (list Client);
  p_closed : bool;
  p_taskKeys : gset Z;
  p_running : bool;
}.

Definition defaultTaskChanBuf : nat := Z.to_nat 1024.

Definition newPrefetcher : Prefetcher := mkPrefetcher None false ∅ false.

Definition Prefetcher_reloadConfig (p : Prefetcher) : Prefetcher :=
  mkPrefetcher (Some []) false ∅ (p_running p).

(** [stop] hands a token to the goroutine and waits for its answer: with no
    goroutine it blocks for ever. *)
Definition Prefetcher_stop (p : Prefetcher) : outcome Prefetcher :=
  if p_running p then Ret (mkPrefetcher (p_taskChan p) true (p_taskKeys p) false)
  else Hang "stopChan has no receiver".

(** [core.NewContext().Clone(client)]: a zero client, so [UsingTCP] is false. *)
Definition NewContext_Clone (c : Client) : Client :=
  Client_clone
    (mkClient None None false (c_request c) None "" 0 false false 0) c.

Definition Prefetcher_addPrefetchTask (client : Client) (p : Prefetcher)
  : outcome Prefetcher :=
  key ← Client_QueryKey client;
  if bool_decide (key ∈ p_taskKeys p) then Ret p
  else if p_closed p then Panic "send on closed channel"
  else match p_taskChan p with
       | Some tasks =>
           if (length tasks <? defaultTaskChanBuf)%nat then
             Ret (mkPrefetcher (Some (tasks ++ [NewContext_Clone client])) false
                    ({[key]} ∪ p_taskKeys p) (p_running p))
           else Ret p
       | None => Ret p
       end.

Definition Prefetcher_deletePrefetchTask (key : Z) (p : Prefetcher) : Prefetcher :=
  mkPrefetcher (p_taskChan p) (p_closed p) (p_taskKeys p ∖ {[key]}) (p_running p).

(** ** cache/messagecache.go: the cache *)

Record MessageCache : Type := mkCache {
  mc_positiveTtl : Z;
  mc_negativeTtl : Z;
  mc_maxSize : Z;
  mc_shortAnswer : bool;
  mc_needPrefetch : bool;
  mc_ll : golist MessageCacheEntry;
  mc_cache : gmap Z nat;
  mc_prefetcher : Prefetcher;
}.

Definition set_store (ll : golist MessageCacheEntry) (m : gmap Z nat) (c : MessageCache)
  : MessageCache :=
  mkCache (mc_positiveTtl c) (mc_negativeTtl c) (mc_maxSize c) (mc_shortAnswer c)
    (mc_needPrefetch c) ll m (mc_prefetcher c).
Definition set_prefetcher (p : Prefetcher) (c : MessageCache) : MessageCache :=
  mkCache (mc_positiveTtl c) (mc_negativeTtl c) (mc_maxSize c) (mc_shortAnswer c)
    (mc_needPrefetch c) (mc_ll c) (mc_cache c) p.

Definition MessageCache_reloadConfig (conf : CacheConf) (c : MessageCache)
  : outcome MessageCache :=
  p ← (if mc_needPrefetch c then Prefetcher_stop (mc_prefetcher c)
       else Ret (mc_prefetcher c));
  let positiveTtl := if (conf_PositiveTtl conf =? 0)%Z then defaultPositiveCacheTtl
                     else conf_PositiveTtl conf in
  let negativeTtl := if (conf_NegativeTtl conf =? 0)%Z then defaultNegativeCacheTtl
                     else conf_NegativeTtl conf in
  let '(need, p) :=
    if conf_Prefetch conf
    then (true, let p := Prefetcher_reloadConfig p in
                mkPrefetcher (p_taskChan p) (p_closed p) (p_taskKeys p) true)
    else (mc_needPrefetch c, p) in
  Ret (mkCache positiveTtl negativeTtl (conf_MaxCacheSize conf) (conf_ShortAnswer conf)
         need (mc_ll c) (mc_cache c) p).

Definition newMessageCache (conf : CacheConf) : outcome MessageCache :=
  MessageCache_reloadConfig conf
    (mkCache 0 0 0 false false list_New ∅ newPrefetcher).

Definition keyForMessage (name : Name) (typ : RRType) : Z :=
  Z.lor (u64 (Z.shiftl (Name_Hash name) 32)) typ.

(** A message without answers lives for the negative ttl, lowered to the
    minimum and the ttl of a lone SOA in the authority section. *)
Definition negativeMessageToCache (now : Z) (c : MessageCache) (m : Message)
  : Message * MessageCacheEntryTime :=
  let '(minTtl, m) :=
    match m_auth m with
    | [soa] =>
        match rr_rdatas soa with
        | [RdSOA rdata] =>
            if (rr_type soa =? RR_SOA)%Z then
              let minTtl := if (soa_minimum rdata <? mc_negativeTtl c)%Z
                            then soa_minimum rdata else mc_negativeTtl c in
              let soaTtl := u32 (rr_ttl soa) in
              if (soaTtl <? minTtl)%Z then (soaTtl, m)
              else (minTtl, set_section AuthSection [set_ttl minTtl soa] m)
            else (mc_negativeTtl c, m)
        | _ => (mc_negativeTtl c, m)
        end
    | _ => (mc_negativeTtl c, m)
    end in
  let m := if mc_shortAnswer c then ClearSection AdditionalSection m else m in
  (m, now + minTtl * Second)%Z.

(** The loop over the answers: the running minimum and the capped ttls. *)
Fixpoint positive_scan (cap minTtl : Z) (answers : list RRset) : list RRset * Z :=
  match answers with
  | [] => ([], minTtl)
  | r :: rest =>
      let ttl := u32 (rr_ttl r) in
      if (ttl <? minTtl)%Z then
        let '(rest, min) := positive_scan cap ttl rest in (r :: rest, min)
      else
        let r := if (cap <? ttl)%Z then set_ttl cap r else r in
        let '(rest, min) := positive_scan cap minTtl rest in (r :: rest, min)
  end.

Definition positiveMessageToCache (now : Z) (c : MessageCache) (m : Message)
  : Message * MessageCacheEntryTime :=
  let m := if mc_shortAnswer c
           then ClearSection AdditionalSection (ClearSection AuthSection m) else m in
  let '(answers, minTtl) :=
    positive_scan (mc_positiveTtl c) (mc_positiveTtl c) (m_answer m) in
  (set_section AnswerSection answers m, now + Second * minTtl)%Z.

(** [messageToCache] on the message a pointer refers to. *)
Definition messageToCache (now : Z) (c : MessageCache) (m : Message)
  : Message * MessageCacheEntryTime :=
  let m := set_header (Header_SetFlag FLAG_RA true (m_header m)) m in
  match m_answer m with
  | _ :: _ => positiveMessageToCache now c m
  | [] => negativeMessageToCache now c m
  end.

(** [removeElement] recomputes the key from the message the entry points to. *)
Definition MessageCache_removeElement (h : Heap) (ele : nat * MessageCacheEntry)
  (c : MessageCache) : outcome MessageCache :=
  m ← deref (e_message ele.2) h;
  q ← deref_question m;
  Ret (set_store (list_Remove ele.1 (mc_ll c))
         (delete (keyForMessage (q_name q) (q_type q)) (mc_cache c)) c).

Definition MessageCache_removeOldest (h : Heap) (c : MessageCache) : outcome MessageCache :=
  match list_Back (mc_ll c) with
  | Some ele => MessageCache_removeElement h ele c
  | None => Ret c
  end.

Definition MessageCache_add (h : Heap) (key : Z) (entry : MessageCacheEntry)
  (c : MessageCache) : outcome MessageCache :=
  let c := match mc_cache c !! key with
           | Some elem =>
               set_store (list_SetValue elem entry (list_MoveToFront elem (mc_ll c)))
                 (mc_cache c) c
           | None =>
               let '(elem, ll) := list_PushFront entry (mc_ll c) in
               set_store ll (<[key := elem]> (mc_cache c)) c
           end in
  if negb (mc_maxSize c =? defaultMaxCacheSize)%Z &&
     (mc_maxSize c <? Z.of_nat (list_Len (mc_ll c)))%Z
  then MessageCache_removeOldest h c
  else Ret c.

Definition MessageCache_Add (now : Z) (l : nat) (h : Heap) (c : MessageCache)
  : outcome (Heap * MessageCache) :=
  m ← deref l h;
  let '(m, expire) := messageToCache now c m in
  let h := <[l := m]> h in
  q ← deref_question m;
  c ← MessageCache_add h (keyForMessage (q_name q) (q_type q)) (mkEntry l expire) c;
  Ret (h, c).

Definition roundrobinAnswer (m : Message) : Message :=
  set_section AnswerSection
    ((λ r, if (1 <? length (rr_rdatas r))%nat then RotateRdata r else r) <$> m_answer m) m.

Definition MessageCache_get (now : Z) (name : Name) (typ : RRType) (h : Heap)
  (c : MessageCache) : outcome (Heap * MessageCache * option MessageCacheEntry) :=
  match mc_cache c !! keyForMessage name typ with
  | Some elem =>
      entry ← from_option_panic "nil element value" (list_Value elem (mc_ll c));
      if MessageCacheEntry_IsExpire now entry then Ret (h, c, None)
      else
        m ← deref (e_message entry) h;
        q ← deref_question m;
        if Name_Equals (q_name q) name then
          Ret (<[e_message entry := roundrobinAnswer m]> h,
               set_store (list_MoveToFront elem (mc_ll c)) (mc_cache c) c, Some entry)
        else Ret (h, c, None)
  | None => Ret (h, c, None)
  end.

Definition MessageCache_Get (now : Z) (client : Client) (h : Heap) (c : MessageCache)
  : outcome (Heap * MessageCache * option nat) :=
  q ← deref_question (c_request client);
  r ← MessageCache_get now (q_name q) (q_type q) h c;
  let '(h, c, found) := r in
  match found with
  | Some entry =>
      p ← (if mc_needPrefetch c && MessageCacheEntry_NeedPrefetch now entry
           then Prefetcher_addPrefetchTask client (mc_prefetcher c)
           else Ret (mc_prefetcher c));
      Ret (h, set_prefetcher p c, Some (e_message entry))
  | None => Ret (h, c, None)
  end.

Definition MessageCache_Remove (name : Name) (typ : RRType) (h : Heap) (c : MessageCache)
  : outcome MessageCache :=
  match mc_cache c !! keyForMessage name typ with
  | Some ele =>
      entry ← from_option_panic "nil element value" (list_Value ele (mc_ll c));
      MessageCache_removeElement h (ele, entry) c
  | None => Ret c
  end.

Definition MessageCache_Len (c : MessageCache) : nat := list_Len (mc_ll c).

Definition MessageCache_Clear (c : MessageCache) : MessageCache :=
  set_store (list_Init (mc_ll c)) ∅ c.

(** cache/cmdhandler.go *)
Definition MessageCache_GetSingleMessageCache (now : Z) (name : Name) (typ : RRType)
  (h : Heap) (c : MessageCache) : outcome (Heap * MessageCache * option nat) :=
  r ← MessageCache_get now name typ h c;
  let '(h, c, found) := r in Ret (h, c, option_map e_message found).

(** One iteration of [Prefetcher.run]: the next task is passed to the handlers
    behind the cache; its answer is cached and its key released. *)
Definition Prefetcher_run_task {W} (now : Z) (next : option (Handler (Heap * W)))
  (s : Heap * W) (c : MessageCache) : outcome (Heap * W * MessageCache) :=
  match p_taskChan (mc_prefetcher c) with
  | Some (client :: tasks) =>
      let p := mc_prefetcher c in
      let c := set_prefetcher (mkPrefetcher (Some tasks) (p_closed p) (p_taskKeys p)
                                 (p_running p)) c in
      r ← PassToNext next s client;
      let '((h, w), client) := r in
      match c_response client with
      | Some l =>
          if c_cache_answer client then
            r ← MessageCache_Add now l h c;
            let '(h, c) := r in
            key ← Client_QueryKey client;
            Ret (h, w, set_prefetcher (Prefetcher_deletePrefetchTask key (mc_prefetcher c)) c)
          else Ret (h, w, c)
      | None => Ret (h, w, c)
      end
  | _ => Ret (s.1, s.2, c)
  end.
End cache.

(** ** The cache's contract *)

Section cache_props.
Context {N : G53Name} {M : G53Msg N} {NL : G53NameLaws N} {ML : G53MsgLaws M}.
Implicit Types (c : MessageCache) (h : Heap) (e : MessageCacheEntry).

Definition entry_question h e : option Question := h !! e_message e ≫= m_question.

(** The key under which the cache files an entry: that of the question of the
    message the entry points to. *)
Definition entry_key h e : Z :=
  match entry_question h e with
  | Some q => keyForMessage (q_name q) (q_type q)
  | None => 0
  end.

(** The abstract cache: its entries, most recently used first. *)
Definition contents c : list MessageCacheEntry := list_values (mc_ll c).

Definition cache_inv h c : Prop :=
  lru_ok (entry_key h) (mc_ll c) (mc_cache c) ∧
  Forall (λ e, is_Some (entry_question h e)) (contents c).

(** A full cache drops the least recently used entry. *)
Definition trim (maxSize : Z) (L : list MessageCacheEntry) : list MessageCacheEntry :=
  if negb (maxSize =? defaultMaxCacheSize)%Z && (maxSize <? Z.of_nat (length L))%Z
  then spec_drop_last L else L.

Lemma keyForMessage_sum n t :
  is_u16 t → keyForMessage n t = (Name_Hash n * 2 ^ 32 + t)%Z.
Proof.
  intros Ht. pose proof (Hash_range n) as Hh. unfold is_u32, is_u16 in *.
  unfold keyForMessage. rewrite u64_small.
  - apply lor_shiftl_add; lia.
  - rewrite Z.shiftl_mul_pow2 by lia. lia.
Qed.

Lemma keyForMessage_inj n t n' t' :
  is_u16 t → is_u16 t' →
  keyForMessage n t = keyForMessage n' t' ↔ Name_Hash n = Name_Hash n' ∧ t = t'.
Proof.
  intros Ht Ht'. rewrite !keyForMessage_sum by done. unfold is_u16 in *.
  split; [|by intros [-> ->]]. apply pack_inj; lia.
Qed.

Lemma keyForMessage_proper n n' t : n ≈ n' → keyForMessage n t = keyForMessage n' t.
Proof. intros E. unfold keyForMessage. by rewrite E. Qed.

Lemma contents_set_store ll m c : contents (set_store ll m c) = list_values ll.
Proof. done. Qed.

(** *** Heap changes *)

Lemma contents_items c id e : (id, e) ∈ gl_items (mc_ll c) → e ∈ contents c.
Proof. intros H. unfold contents, list_values. apply list_elem_of_fmap. by exists (id, e). Qed.

Lemma cache_inv_heap h h' c :
  (∀ e, e ∈ contents c → entry_question h' e = entry_question h e) →
  cache_inv h c → cache_inv h' c.
Proof.
  intros Hq [Hok Hall]. split.
  - apply (lru_ok_ext (entry_key h)); [|done]. intros id e He%contents_items.
    unfold entry_key. by rewrite Hq.
  - rewrite Forall_forall in Hall |- *. intros e He. rewrite Hq by done. auto.
Qed.

(** Overwriting a message by one with the same question changes no key. *)
Lemma entry_question_insert h l m m' e :
  h !! l = Some m → m_question m' = m_question m →
  entry_question (<[l := m']> h) e = entry_question h e.
Proof.
  intros Hl Hq. unfold entry_question. destruct (decide (l = e_message e)) as [<-|].
  - by rewrite lookup_insert_eq, Hl.
  - by rewrite lookup_insert_ne.
Qed.

Lemma entry_key_insert h l m m' e :
  h !! l = Some m → m_question m' = m_question m →
  entry_key (<[l := m']> h) e = entry_key h e.
Proof. intros. unfold entry_key. by erewrite entry_question_insert. Qed.

Lemma cache_inv_insert h l m m' c :
  h !! l = Some m → m_question m' = m_question m →
  cache_inv h c → cache_inv (<[l := m']> h) c.
Proof. intros ??. apply cache_inv_heap. intros e _. by eapply entry_question_insert. Qed.

(** Allocating a message changes no cached one. *)
Lemma cache_inv_fresh h l m c :
  h !! l = None → cache_inv h c → cache_inv (<[l := m]> h) c.
Proof.
  intros Hl Hinv. apply (cache_inv_heap h); [|done]. intros e He.
  destruct Hinv as [_ Hall]. rewrite Forall_forall in Hall.
  destruct (Hall e He) as [q Hq]. unfold entry_question in *.
  rewrite lookup_insert_ne; [done|]. intros ->. by rewrite Hl in Hq.
Qed.

(** *** Messages prepared for the cache *)

Lemma set_section_question s rrs m : m_question (set_section s rrs m) = m_question m.
Proof. by destruct s. Qed.

Lemma ClearSection_question s m : m_question (ClearSection s m) = m_question m.
Proof. by rewrite ClearSection_eq, set_section_question. Qed.

Lemma messageToCache_question now c m :
  m_question (messageToCache now c m).1 = m_question m.
Proof.
  unfold messageToCache, negativeMessageToCache, positiveMessageToCache.
  repeat case_match; simplify_eq/=; rewrite ?set_section_question, ?ClearSection_question;
    done.
Qed.

Lemma roundrobinAnswer_question m : m_question (roundrobinAnswer m) = m_question m.
Proof. by destruct m. Qed.

(** The ttl an answer has in the cache, and the lifetime of the entry. *)
Definition cap_ttl (cap : Z) (r : RRset) : RRset :=
  if (cap <? rr_ttl r)%Z then set_ttl cap r else r.
Fixpoint min_ttl (cap : Z) (rs : list RRset) : Z :=
  match rs with
  | [] => cap
  | r :: rs => Z.min (rr_ttl r) (min_ttl cap rs)
  end.

Lemma min_ttl_le cap rs : (min_ttl cap rs ≤ cap)%Z.
Proof. induction rs; cbn; lia. Qed.

Lemma min_ttl_Min a cap rs : (a ≤ cap)%Z → min_ttl a rs = Z.min a (min_ttl cap rs).
Proof. induction rs as [|r rs IH]; cbn; intros; [lia|]. rewrite IH by done. lia. Qed.

Lemma positive_scan_spec cap minTtl rs :
  Forall (λ r, is_u32 (rr_ttl r)) rs → (minTtl ≤ cap)%Z →
  positive_scan cap minTtl rs = (cap_ttl cap <$> rs, min_ttl minTtl rs).
Proof.
  intros Hu. revert minTtl. induction Hu as [|r rs Hr Hu IH]; intros minTtl Hle; [done|].
  cbn [positive_scan]. rewrite u32_small by done.
  destruct (Z.ltb_spec (rr_ttl r) minTtl).
  - rewrite IH by lia. cbn. unfold cap_ttl at 2.
    destruct (Z.ltb_spec cap (rr_ttl r)); [lia|]. f_equal.
    rewrite (min_ttl_Min (rr_ttl r) minTtl) by lia. done.
  - rewrite IH by lia. cbn. f_equal. pose proof (min_ttl_le minTtl rs). lia.
Qed.

(** *** The operations *)

Lemma removeElement_spec h c id e :
  cache_inv h c → (id, e) ∈ gl_items (mc_ll c) →
  MessageCache_removeElement h (id, e) c =
    Ret (set_store (list_Remove id (mc_ll c)) (delete (entry_key h e) (mc_cache c)) c).
Proof.
  intros [_ Hall] He%contents_items. rewrite Forall_forall in Hall.
  destruct (Hall e He) as [q Hq]. unfold MessageCache_removeElement, entry_key.
  rewrite Hq. unfold entry_question in Hq. cbn. unfold deref.
  destruct (h !! e_message e) as [m|]; cbn in *; [|done].
  unfold deref_question. by rewrite Hq.
Qed.

Lemma cache_inv_Remove h c id e :
  cache_inv h c → (id, e) ∈ gl_items (mc_ll c) →
  cache_inv h (set_store (list_Remove id (mc_ll c)) (delete (entry_key h e) (mc_cache c)) c).
Proof.
  intros [Hok Hall] He. split; [cbn; eauto with vanguard|].
  rewrite contents_set_store. erewrite Remove_values by done.
  rewrite Forall_forall in Hall |- *. unfold spec_remove.
  intros x [_ Hx]%list_elem_of_filter. auto.
Qed.

Lemma removeOldest_spec h c :
  cache_inv h c →
  ∃ c', MessageCache_removeOldest h c = Ret c' ∧ cache_inv h c' ∧
        contents c' = spec_drop_last (contents c).
Proof.
  intros Hinv. unfold MessageCache_removeOldest.
  destruct (list_Back (mc_ll c)) as [[id e]|] eqn:Hb.
  - pose proof (Back_elem _ _ _ Hb) as He.
    eexists. rewrite removeElement_spec by done. split_and!; [done|by apply cache_inv_Remove|].
    rewrite contents_set_store. eapply Back_values; [apply Hinv|done].
  - exists c. split_and!; [done|done|]. unfold list_Back in Hb. apply last_None in Hb.
    unfold contents, list_values. by rewrite Hb.
Qed.

Lemma Forall_spec_put (P : MessageCacheEntry → Prop) (key : MessageCacheEntry → Z) e L :
  P e → Forall P L → Forall P (spec_put key e L).
Proof.
  intros He HL. constructor; [done|]. rewrite Forall_forall in HL |- *.
  unfold spec_remove. intros x [_ Hx]%list_elem_of_filter. auto.
Qed.

Lemma add_insert h c e q :
  cache_inv h c → entry_question h e = Some q →
  ∃ ll m, match mc_cache c !! keyForMessage (q_name q) (q_type q) with
          | Some elem => set_store (list_SetValue elem e (list_MoveToFront elem (mc_ll c)))
                           (mc_cache c) c
          | None => let '(elem, ll) := list_PushFront e (mc_ll c) in
               set_store ll (<[keyForMessage (q_name q) (q_type q) := elem]> (mc_cache c)) c
          end = set_store ll m c ∧
    cache_inv h (set_store ll m c) ∧ list_values ll = spec_put (entry_key h) e (contents c).
Proof.
  intros [Hok Hall] Hq.
  assert (entry_key h e = keyForMessage (q_name q) (q_type q)) as Hk
    by (unfold entry_key; by rewrite Hq).
  assert (∀ ll m, lru_ok (entry_key h) ll m →
            list_values ll = spec_put (entry_key h) e (contents c) →
            cache_inv h (set_store ll m c)) as Hinv.
  { intros ll m Hl Hv. split; [done|]. rewrite contents_set_store, Hv.
    apply Forall_spec_put; [by rewrite Hq|done]. }
  rewrite <- Hk. destruct (mc_cache c !! entry_key h e) as [id|] eqn:Hid.
  - destruct (lru_lookup _ _ _ _ _ Hok Hid) as (v & _ & Hv & Ev).
    eexists _, _. split; [done|].
    assert (list_values (list_SetValue id e (list_MoveToFront id (mc_ll c)))
            = spec_put (entry_key h) e (contents c)) as Hvals
      by (eapply MoveSet_values; [exact Hok|exact Hv|congruence]).
    split; [|done]. apply Hinv; [|done].
    eapply lru_ok_SetValue; [by eapply lru_ok_MoveToFront| |by symmetry].
    by apply (MoveToFront_items (mc_ll c) id v id v (proj1 Hok) Hv).
  - eexists _, _. split; [done|].
    assert (list_values (list_PushFront e (mc_ll c)).2
            = spec_put (entry_key h) e (contents c)) as Hvals.
    { rewrite PushFront_values. unfold spec_put. f_equal. symmetry.
      apply spec_remove_absent. by eapply lru_lookup_None. }
    split; [|done]. apply Hinv; [by apply lru_ok_PushFront|done].
Qed.

Lemma add_spec h c e q :
  cache_inv h c → entry_question h e = Some q →
  ∃ c', MessageCache_add h (keyForMessage (q_name q) (q_type q)) e c = Ret c' ∧
        cache_inv h c' ∧
        contents c' = trim (mc_maxSize c) (spec_put (entry_key h) e (contents c)).
Proof.
  intros Hinv Hq. unfold MessageCache_add.
  destruct (add_insert h c e q Hinv Hq) as (ll & m & -> & Hinv' & Hv).
  unfold trim. cbn [mc_maxSize set_store mc_ll]. rewrite list_Len_values, Hv.
  destruct (negb _ && _).
  - destruct (removeOldest_spec h _ Hinv') as (c' & -> & ? & Hc').
    exists c'. split_and!; [done|done|]. by rewrite Hc', contents_set_store, Hv.
  - eexists. split_and!; [done|done|done].
Qed.

Lemma messageToCache_entry now c m h l m' expire :
  h !! l = Some m → messageToCache now c m = (m', expire) →
  m_question m' = m_question m.
Proof.
  intros _ E. pose proof (messageToCache_question now c m) as Hq. by rewrite E in Hq.
Qed.

Lemma Add_spec now l h c m q :
  cache_inv h c → h !! l = Some m → m_question m = Some q →
  ∃ c', let '(m', expire) := messageToCache now c m in
    MessageCache_Add now l h c = Ret (<[l := m']> h, c') ∧
    cache_inv (<[l := m']> h) c' ∧
    contents c' = trim (mc_maxSize c)
                    (spec_put (entry_key h) (mkEntry l expire) (contents c)).
Proof.
  intros Hinv Hl Hq. destruct (messageToCache now c m) as [m' expire] eqn:Em.
  pose proof (messageToCache_entry now c m h l m' expire Hl Em) as Hq'.
  assert (cache_inv (<[l := m']> h) c) as Hinv' by (by eapply cache_inv_insert).
  assert (entry_question (<[l := m']> h) (mkEntry l expire) = Some q) as He.
  { unfold entry_question; cbn. by rewrite lookup_insert_eq; cbn; rewrite Hq'. }
  destruct (add_spec _ c _ q Hinv' He) as (c' & Hadd & Hc' & Hcont).
  exists c'. unfold MessageCache_Add, deref. rewrite Hl; cbn. rewrite Em.
  unfold deref_question. rewrite Hq', Hq; cbn. rewrite Hadd; cbn. split_and!; [done|done|].
  rewrite Hcont. f_equal. unfold spec_put. f_equal.
  unfold spec_remove. erewrite entry_key_insert by done.
  apply list_filter_iff. intros x. by erewrite entry_key_insert.
Qed.

(** C2: adding a message refines an LRU store.  On every cache that satisfies
    the representation invariant and every message with a question, [Add]
    returns; the invariant holds again; the message's entry is the most recent
    one, its earlier entry is gone, the other entries keep their order and the
    least recent one is dropped exactly when the configured size is exceeded. *)
Theorem MessageCache_Add_refines now l h c m q :
  cache_inv h c → h !! l = Some m → m_question m = Some q →
  ∃ c', let '(m', expire) := messageToCache now c m in
    MessageCache_Add now l h c = Ret (<[l := m']> h, c') ∧
    cache_inv (<[l := m']> h) c' ∧
    contents c' = trim (mc_maxSize c)
                    (spec_put (entry_key h) (mkEntry l expire) (contents c)).
Proof. apply Add_spec. Qed.

Lemma spec_find_elem (key : MessageCacheEntry → Z) k L e :
  spec_find key k L = Some e → e ∈ L ∧ key e = k.
Proof.
  intros (l1 & l2 & -> & Hk & _)%find_first_Some. apply bool_decide_eq_true in Hk.
  set_solver.
Qed.

Lemma cache_lookup h c k :
  cache_inv h c →
  match mc_cache c !! k with
  | Some id => ∃ e, list_Value id (mc_ll c) = Some e ∧ (id, e) ∈ gl_items (mc_ll c) ∧
                    spec_find (entry_key h) k (contents c) = Some e
  | None => spec_find (entry_key h) k (contents c) = None
  end.
Proof.
  intros [Hok _]. pose proof (lru_find _ _ _ k Hok) as H. case_match; [|done].
  destruct H as (e & ? & ? & _ & ?). eauto.
Qed.

Lemma entry_message h c e :
  cache_inv h c → e ∈ contents c →
  ∃ m q, h !! e_message e = Some m ∧ m_question m = Some q ∧ entry_question h e = Some q.
Proof.
  intros [_ Hall] He. rewrite Forall_forall in Hall. destruct (Hall e He) as [q Hq].
  rewrite Hq. unfold entry_question in Hq.
  destruct (h !! e_message e) as [m|]; [|done]. eauto.
Qed.

Lemma cache_inv_MoveToFront h c k id e :
  cache_inv h c → mc_cache c !! k = Some id → (id, e) ∈ gl_items (mc_ll c) →
  cache_inv h (set_store (list_MoveToFront id (mc_ll c)) (mc_cache c) c).
Proof.
  intros [Hok Hall] Hid Hin. split; [by eapply lru_ok_MoveToFront|].
  rewrite contents_set_store. erewrite MoveToFront_values by done.
  apply Forall_spec_put; [|done]. rewrite Forall_forall in Hall.
  by eapply Hall, contents_items.
Qed.

Lemma get_spec now name typ h c :
  cache_inv h c →
  ∃ h' c' r, MessageCache_get now name typ h c = Ret (h', c', r) ∧ cache_inv h' c' ∧
    match spec_find (entry_key h) (keyForMessage name typ) (contents c) with
    | Some e =>
        ∃ m q, h !! e_message e = Some m ∧ m_question m = Some q ∧
        if negb (MessageCacheEntry_IsExpire now e) && Name_Equals (q_name q) name
        then r = Some e ∧ h' = <[e_message e := roundrobinAnswer m]> h ∧
             contents c' = spec_put (entry_key h) e (contents c)
        else r = None ∧ h' = h ∧ c' = c
    | None => r = None ∧ h' = h ∧ c' = c
    end.
Proof.
  intros Hinv. pose proof (cache_lookup h c (keyForMessage name typ) Hinv) as Hlk.
  unfold MessageCache_get. destruct (mc_cache c !! _) as [id|] eqn:Hid; [|rewrite Hlk; eauto 10].
  destruct Hlk as (e & Hv & Hin & ->). rewrite Hv. cbn [from_option_panic]. rewrite bind_Ret.
  destruct (entry_message h c e Hinv) as (m & q & Hm & Hq & _); [by eapply contents_items|].
  destruct (MessageCacheEntry_IsExpire now e) eqn:Hexp.
  { exists h, c, None. split_and!; [done..|]. by exists m, q. }
  rewrite (deref_Some _ _ m), bind_Ret, (deref_question_Some _ q), bind_Ret by done.
  destruct (Name_Equals (q_name q) name) eqn:Heq.
  - eexists _, _, _. split_and!; [done| |].
    + apply cache_inv_insert with m; [done|apply roundrobinAnswer_question|].
      by eapply cache_inv_MoveToFront.
    + exists m, q. rewrite Heq. split_and!; [done..|]. split_and!; [done..|].
      rewrite contents_set_store. by eapply MoveToFront_values; [apply Hinv|].
  - eexists _, _, _. split_and!; [done|done|]. exists m, q. by rewrite Heq.
Qed.

(** C1: a lookup refines the LRU store on every branch: it hits exactly when
    the store has an entry under the question's key, the entry has not expired
    and its message asks for the same name; then that entry becomes the most
    recent one.  Otherwise nothing changes.  The invariant is kept and the
    lookup never panics. *)
Theorem MessageCache_get_refines now name typ h c :
  cache_inv h c →
  ∃ h' c' r, MessageCache_get now name typ h c = Ret (h', c', r) ∧ cache_inv h' c' ∧
    match spec_find (entry_key h) (keyForMessage name typ) (contents c) with
    | Some e =>
        ∃ m q, h !! e_message e = Some m ∧ m_question m = Some q ∧
        if negb (MessageCacheEntry_IsExpire now e) && Name_Equals (q_name q) name
        then r = Some e ∧ h' = <[e_message e := roundrobinAnswer m]> h ∧
             contents c' = spec_put (entry_key h) e (contents c)
        else r = None ∧ h' = h ∧ c' = c
    | None => r = None ∧ h' = h ∧ c' = c
    end.
Proof. apply get_spec. Qed.

(** What a lookup returns answers the question asked.  Whatever the hash
    function does, the entry's message asks for an equal name and the same
    type, and the entry has not expired: a hash collision can only cause a
    miss. *)
Theorem MessageCache_get_sound now name typ h c h' c' e :
  cache_inv h c →
  (∀ e q, e ∈ contents c → entry_question h e = Some q → is_u16 (q_type q)) → is_u16 typ →
  MessageCache_get now name typ h c = Ret (h', c', Some e) →
  e ∈ contents c ∧ (now ≤ e_expireTime e)%Z ∧
  ∃ q, entry_question h e = Some q ∧ q_name q ≈ name ∧ q_type q = typ.
Proof.
  intros Hinv Hty Ht E. destruct (get_spec now name typ h c Hinv) as (?&?&?& E' & _ & Hr).
  rewrite E in E'. simplify_eq.
  destruct (spec_find _ _ _) as [e'|] eqn:Hf; [|naive_solver].
  destruct Hr as (m & q & Hm & Hq & Hr). destruct (negb _ && _) eqn:Hc; [|naive_solver].
  destruct Hr as [[= <-] _]. apply andb_true_iff in Hc as [Hexp Heq].
  apply negb_true_iff in Hexp. unfold MessageCacheEntry_IsExpire, time_Before in Hexp. zbool.
  apply spec_find_elem in Hf as [He Hk].
  assert (entry_question h e = Some q) as Heq' by (unfold entry_question; by rewrite Hm).
  split_and!; [done|done|]. exists q. split_and!; [done|done|].
  unfold entry_key in Hk. rewrite Heq' in Hk. apply keyForMessage_inj in Hk as [_ ?]; eauto.
Qed.

(** Lifetime of a positive answer.  An answer is cached with the RA flag,
    every record set's ttl capped at the configured positive ttl, and it
    expires when the shortest-lived of them does; with short answers on, the
    authority and additional sections are dropped. *)
Theorem positive_lifetime now c m :
  m_answer m ≠ [] → Forall (λ r, is_u32 (rr_ttl r)) (m_answer m) →
  let '(m', expire) := messageToCache now c m in
  expire = (now + Second * min_ttl (mc_positiveTtl c) (m_answer m))%Z ∧
  m_answer m' = cap_ttl (mc_positiveTtl c) <$> m_answer m ∧
  h_ra (m_header m') = true ∧ m_question m' = m_question m ∧
  (mc_shortAnswer c = true → m_auth m' = [] ∧ m_additional m' = []) ∧
  (mc_shortAnswer c = false → m_auth m' = m_auth m ∧ m_additional m' = m_additional m).
Proof.
  intros Hne Hu. unfold messageToCache, positiveMessageToCache.
  destruct m as [hd q [|r rs] au ad]; [done|]. cbn [m_answer set_header m_header] in *.
  destruct (mc_shortAnswer c) eqn:Hs.
  - rewrite !ClearSection_eq. cbn [m_answer set_section].
    rewrite positive_scan_spec by (done || lia). by cbn.
  - cbn [m_answer]. rewrite positive_scan_spec by (done || lia). by cbn.
Qed.

(** Lifetime of a negative answer.  A message without answers expires after
    the configured negative ttl, or earlier when its authority section is a
    lone SOA whose minimum or own ttl is smaller; the SOA is then served with
    a ttl that does not exceed the entry's lifetime. *)
Theorem negative_lifetime now c m :
  m_answer m = [] → Forall (λ r, is_u32 (rr_ttl r)) (m_auth m) →
  let '(m', expire) := messageToCache now c m in
  expire = (now + Second * match m_auth m with
    | [mkRRset _ t _ ttl [RdSOA soa]] =>
        if (t =? RR_SOA)%Z then Z.min (mc_negativeTtl c) (Z.min (soa_minimum soa) ttl)
        else mc_negativeTtl c
    | _ => mc_negativeTtl c
    end)%Z ∧
  (∀ n cl ttl soa, m_auth m = [mkRRset n RR_SOA cl ttl [RdSOA soa]] →
     ∃ ttl', m_auth m' = [mkRRset n RR_SOA cl ttl' [RdSOA soa]] ∧
             expire = (now + Second * ttl')%Z) ∧
  m_answer m' = [] ∧ h_ra (m_header m') = true ∧ m_question m' = m_question m.
Proof.
  intros Hne Hu. unfold messageToCache, negativeMessageToCache.
  destruct m as [hd q an au ad]. cbn [m_answer m_auth set_header m_header] in *. subst an.
  destruct au as [|[n t cl ttl [|[] []]] []]; cbn [rr_rdatas rr_type rr_ttl m_auth];
    try (destruct (mc_shortAnswer c); rewrite ?ClearSection_eq; cbn;
         split_and!; naive_solver lia).
  apply Forall_inv in Hu. cbn in Hu. rewrite (u32_small ttl) by done.
  destruct (Z.eqb_spec t RR_SOA) as [->|Ht].
  - destruct (Z.ltb_spec (soa_minimum soa) (mc_negativeTtl c));
    [destruct (Z.ltb_spec ttl (soa_minimum soa)) | destruct (Z.ltb_spec ttl (mc_negativeTtl c))];
      (destruct (mc_shortAnswer c); rewrite ?ClearSection_eq; cbn;
       (split_and!; [rewrite (Z.mul_comm Second); do 2 f_equal; lia| |done..]);
       intros ???? [= -> -> -> ->]; eexists; (split; [reflexivity|]);
       apply Z.add_cancel_l, Z.mul_comm).
  - destruct (mc_shortAnswer c); rewrite ?ClearSection_eq; cbn; split_and!; naive_solver lia.
Qed.

(** *** Store after lookups, removals and additions *)

Lemma set_store_id c : c = set_store (mc_ll c) (mc_cache c) c.
Proof. by destruct c. Qed.

(** The operations write the list and the index only. *)
Lemma add_store h k e c c' :
  MessageCache_add h k e c = Ret c' → ∃ ll m, c' = set_store ll m c.
Proof.
  unfold MessageCache_add, MessageCache_removeOldest, MessageCache_removeElement.
  intros E. repeat case_match; simplify_eq/=; eauto;
    rewrite ?outcome_bind_ret in E; repeat (destruct E as (?&?&E);
    rewrite ?outcome_bind_ret in E); simplify_eq/=; eexists _, _; reflexivity.
Qed.

Lemma Add_store now l h c h' c' :
  MessageCache_Add now l h c = Ret (h', c') → ∃ ll m, c' = set_store ll m c.
Proof.
  unfold MessageCache_Add. intros E. apply outcome_bind_ret in E as (? & _ & E).
  destruct (messageToCache _ _ _). apply outcome_bind_ret in E as (? & _ & E).
  apply outcome_bind_ret in E as (? & Ha & E). simplify_eq. by eapply add_store.
Qed.

Lemma get_store now name typ h c h' c' r :
  MessageCache_get now name typ h c = Ret (h', c', r) → ∃ ll m, c' = set_store ll m c.
Proof.
  pose proof (set_store_id c) as Hid.
  unfold MessageCache_get. destruct (mc_cache c !! _); [|naive_solver].
  rewrite outcome_bind_ret. intros (e & _ & E).
  destruct (MessageCacheEntry_IsExpire _ _); [naive_solver|].
  apply outcome_bind_ret in E as (m & _ & E). apply outcome_bind_ret in E as (q & _ & E).
  destruct (Name_Equals _ _); naive_solver.
Qed.

Lemma trim_length maxSize (L : list MessageCacheEntry) :
  (0 < maxSize)%Z → (Z.of_nat (length L) ≤ maxSize + 1)%Z →
  (Z.of_nat (length (trim maxSize L)) ≤ maxSize)%Z.
Proof.
  intros Hm HL. unfold trim, spec_drop_last, defaultMaxCacheSize.
  destruct (Z.eqb_spec maxSize 0); [lia|]. cbn.
  destruct (Z.ltb_spec maxSize (Z.of_nat (length L))); [rewrite length_take|]; lia.
Qed.

Lemma trim_cons maxSize e (L : list MessageCacheEntry) :
  (0 ≤ maxSize)%Z → ∃ L', trim maxSize (e :: L) = e :: L'.
Proof.
  intros Hm. unfold trim, defaultMaxCacheSize. destruct (negb _ && _) eqn:E; [|eauto].
  zbool. unfold spec_drop_last. cbn [length] in *.
  replace (S (length L) - 1) with (S (length L - 1)) by lia. cbn. eauto.
Qed.

Lemma length_spec_remove (key : MessageCacheEntry → Z) k L :
  length (spec_remove key k L) ≤ length L.
Proof. apply length_filter. Qed.

Lemma add_get_hit now now' name l h c h' c' m m' q expire :
  cache_inv h c → (0 ≤ mc_maxSize c)%Z →
  h !! l = Some m → m_question m = Some q → name ≈ q_name q →
  messageToCache now c m = (m', expire) → (now' ≤ expire)%Z →
  MessageCache_Add now l h c = Ret (h', c') →
  ∃ c'', MessageCache_get now' name (q_type q) h' c' =
         Ret (<[l := roundrobinAnswer m']> h', c'', Some (mkEntry l expire)).
Proof.
  intros Hinv Hsz Hl Hq Hn Em Hexp Hadd.
  destruct (Add_spec now l h c m q Hinv Hl Hq) as (c1 & Hs). rewrite Em in Hs.
  destruct Hs as (Hadd' & Hinv' & Hcont). rewrite Hadd in Hadd'. simplify_eq.
  pose proof (messageToCache_entry now c m h l m' expire Hl Em) as Hq'.
  destruct (get_spec now' name (q_type q) _ _ Hinv') as (h'' & c'' & r & Hg & _ & Hr).
  destruct (trim_cons (mc_maxSize c) (mkEntry l expire)
    (spec_remove (entry_key h) (entry_key h (mkEntry l expire)) (contents c)) Hsz) as [L' HL'].
  unfold spec_put in Hcont. rewrite HL' in Hcont. rewrite Hcont in Hr.
  cbn [spec_find find_first] in Hr. rewrite bool_decide_eq_true_2 in Hr.
  - destruct Hr as (m1 & q1 & Hm1 & Hq1 & Hr). cbn [e_message] in Hm1.
    rewrite lookup_insert_eq in Hm1. simplify_eq.
    assert (q1 = q) as -> by congruence.
    unfold MessageCacheEntry_IsExpire, time_Before in Hr. cbn [e_expireTime] in Hr.
    destruct (Z.ltb_spec expire now'); [lia|]. cbn in Hr.
    rewrite (Equals_sym _ _ Hn) in Hr. destruct Hr as (-> & -> & _). eauto.
  - unfold entry_key, entry_question. cbn. rewrite lookup_insert_eq. cbn. rewrite Hq', Hq.
    symmetry. by apply keyForMessage_proper.
Qed.

(** A message just cached is found.  After [Add], a lookup of the same
    question (up to the equality of names) before the entry's expiry returns
    this very message. *)
Theorem MessageCache_Add_get now now' name l h c h' c' m m' q expire :
  cache_inv h c → (0 ≤ mc_maxSize c)%Z →
  h !! l = Some m → m_question m = Some q → name ≈ q_name q →
  messageToCache now c m = (m', expire) → (now' ≤ expire)%Z →
  MessageCache_Add now l h c = Ret (h', c') →
  ∃ h'' c'', MessageCache_get now' name (q_type q) h' c' =
             Ret (h'', c'', Some (mkEntry l expire)).
Proof.
  intros Hinv Hsz Hl Hq Hn Em Hexp Hadd.
  destruct (add_get_hit now now' name l h c h' c' m m' q expire) as (c'' & Hg); eauto.
Qed.

Lemma remove_spec name typ h c :
  cache_inv h c →
  ∃ c', MessageCache_Remove name typ h c = Ret c' ∧ cache_inv h c' ∧
        mc_maxSize c' = mc_maxSize c ∧
        contents c' = spec_remove (entry_key h) (keyForMessage name typ) (contents c).
Proof.
  intros Hinv. pose proof (cache_lookup h c (keyForMessage name typ) Hinv) as Hlk.
  unfold MessageCache_Remove. destruct (mc_cache c !! _) as [id|] eqn:Hid.
  - destruct Hlk as (e & Hv & Hin & Hf). rewrite Hv. cbn [from_option_panic].
    rewrite bind_Ret, removeElement_spec by done. eexists.
    split_and!; [done|by apply cache_inv_Remove|done|].
    rewrite contents_set_store. apply spec_find_elem in Hf as [_ <-].
    eapply Remove_values; [apply Hinv|done].
  - exists c. split_and!; [done..|]. symmetry. apply spec_remove_absent.
    intros e He. eapply lru_lookup_None; [apply Hinv|done|done].
Qed.

(** Cleaning a question from the cache.  [Remove] always returns, keeps the
    invariant and the order of the other entries, and no lookup of the same
    name and type, at any time, hits afterwards. *)
Theorem MessageCache_Remove_get now name typ h c :
  cache_inv h c →
  ∃ c', MessageCache_Remove name typ h c = Ret c' ∧ cache_inv h c' ∧
        contents c' `sublist_of` contents c ∧
        MessageCache_get now name typ h c' = Ret (h, c', None).
Proof.
  intros Hinv. destruct (remove_spec name typ h c Hinv) as (c' & Hr & Hinv' & _ & Hc).
  exists c'. split_and!; [done|done|rewrite Hc; apply sublist_filter|].
  destruct (get_spec now name typ h c' Hinv') as (h1 & c1 & r & -> & _ & Hg).
  destruct (spec_find _ _ _) as [e|] eqn:Hf; [|naive_solver].
  apply spec_find_elem in Hf as [He Hk]. rewrite Hc in He.
  unfold spec_remove in He. apply list_elem_of_filter in He as [? _]. done.
Qed.

(** *** Executions *)

(** The calls other goroutines can make between two calls of one of them, each
    atomic under the cache's lock; [op_heap] stands for every write to messages
    by other code, which leaves the questions of cached messages alone. *)
Inductive cache_op : Heap * MessageCache → Heap * MessageCache → Prop :=
  | op_Add now l h c h' c' m q :
      h !! l = Some m → m_question m = Some q →
      MessageCache_Add now l h c = Ret (h', c') → cache_op (h, c) (h', c')
  | op_Get now client h c h' c' r :
      MessageCache_Get now client h c = Ret (h', c', r) → cache_op (h, c) (h', c')
  | op_GetSingle now name typ h c h' c' r :
      MessageCache_GetSingleMessageCache now name typ h c = Ret (h', c', r) →
      cache_op (h, c) (h', c')
  | op_Remove name typ h c c' :
      MessageCache_Remove name typ h c = Ret c' → cache_op (h, c) (h, c')
  | op_Clear h c : cache_op (h, c) (h, MessageCache_Clear c)
  | op_prefetched p h c : cache_op (h, c) (h, set_prefetcher p c)
  | op_heap h h' c :
      (∀ e, e ∈ contents c → entry_question h' e = entry_question h e) →
      cache_op (h, c) (h', c).

Inductive cache_step : Heap * MessageCache → Heap * MessageCache → Prop :=
  | step_op s s' : cache_op s s' → cache_step s s'
  | step_reload conf h c c' :
      MessageCache_reloadConfig conf c = Ret c' → cache_step (h, c) (h, c').

(** The invariant of executions under one configuration; [bounded] says whether
    the size is part of it (a reload may lower the limit). *)
Definition bounded_inv (bounded : Prop) (maxSize : Z) (s : Heap * MessageCache) : Prop :=
  cache_inv s.1 s.2 ∧ mc_maxSize s.2 = maxSize ∧
  (bounded → (0 < maxSize)%Z → (Z.of_nat (MessageCache_Len s.2) ≤ maxSize)%Z).

Lemma Len_contents c : MessageCache_Len c = length (contents c).
Proof. apply list_Len_values. Qed.

Lemma spec_put_perm_len h c e :
  cache_inv h c → e ∈ contents c →
  length (spec_put (entry_key h) e (contents c)) ≤ length (contents c).
Proof.
  intros _ He. cbn. unfold spec_remove. apply list_elem_of_split in He as (xs & ys & ->).
  rewrite filter_app, filter_cons_False by naive_solver.
  rewrite !length_app. cbn. pose proof (length_filter (λ v, entry_key h v ≠ entry_key h e) xs).
  pose proof (length_filter (λ v, entry_key h v ≠ entry_key h e) ys). lia.
Qed.

Lemma get_inv P sz now name typ h c h' c' r :
  bounded_inv P sz (h, c) → MessageCache_get now name typ h c = Ret (h', c', r) →
  bounded_inv P sz (h', c').
Proof.
  intros (Hinv & Hsz & Hlen) E. cbn in *.
  destruct (get_spec now name typ h c Hinv) as (?&?&?& E' & Hinv' & Hr).
  rewrite E in E'. simplify_eq.
  split_and!; [done|by apply get_store in E as (?&?&->)|]. clear E. intros HP Hpos. specialize (Hlen HP Hpos).
  rewrite Len_contents in Hlen |- *. cbn in *.
  destruct (spec_find _ _ _) as [e|] eqn:Hf; [|naive_solver].
  destruct Hr as (m & q & _ & _ & Hr). destruct (negb _ && _); [|naive_solver].
  destruct Hr as (_ & _ & ->). apply spec_find_elem in Hf as [He _].
  pose proof (spec_put_perm_len h c e Hinv He). lia.
Qed.

Lemma Add_inv P sz now l h c h' c' m q :
  bounded_inv P sz (h, c) → h !! l = Some m → m_question m = Some q →
  MessageCache_Add now l h c = Ret (h', c') → bounded_inv P sz (h', c').
Proof.
  intros (Hinv & Hsz & Hlen) Hl Hq E. cbn in *.
  destruct (Add_spec now l h c m q Hinv Hl Hq) as (c1 & Hs).
  destruct (messageToCache now c m) as [m' expire]. destruct Hs as (E' & Hinv' & Hc).
  rewrite E in E'. simplify_eq. split_and!; cbn; [done| |].
  - by apply Add_store in E as (ll & mm & ->).
  - intros HP Hpos. specialize (Hlen HP Hpos). rewrite Len_contents in Hlen |- *.
    rewrite Hc. apply trim_length; [done|].
    pose proof (length_spec_remove (entry_key h) (entry_key h (mkEntry l expire)) (contents c)).
    unfold spec_put. cbn. lia.
Qed.

Lemma cache_op_inv P sz s s' : bounded_inv P sz s → cache_op s s' → bounded_inv P sz s'.
Proof.
  intros Hs Hop. destruct Hop as
    [now l h c h' c' m q ?? E|now cl h c h' c' r E|now n t h c h' c' r E|n t h c c' E|h c|p h c|h h' c Hh].
  - by eapply Add_inv.
  - unfold MessageCache_Get in E. apply outcome_bind_ret in E as (q & _ & E).
    apply outcome_bind_ret in E as ([[h1 c1] f] & Hg & E).
    apply get_inv with (P := P) (sz := sz) in Hg; [|done].
    destruct f; [apply outcome_bind_ret in E as (? & _ & E)|]; by simplify_eq.
  - unfold MessageCache_GetSingleMessageCache in E.
    apply outcome_bind_ret in E as ([[h1 c1] f] & Hg & E). simplify_eq.
    by eapply get_inv.
  - destruct Hs as (Hinv & Hsz & Hlen). cbn in *.
    destruct (remove_spec n t h c Hinv) as (c1 & E1 & Hi & Hm & Hc).
    rewrite E in E1. simplify_eq.
    split_and!; [done|done|]. intros HP Hpos. specialize (Hlen HP Hpos). cbn.
    rewrite Len_contents in Hlen |- *. rewrite Hc.
    pose proof (length_spec_remove (entry_key h) (keyForMessage n t) (contents c)). lia.
  - destruct Hs as (Hinv & Hsz & Hlen). split_and!; [|done|intros; cbn; lia].
    split; [apply lru_ok_Init|constructor].
  - done.
  - destruct Hs as (Hinv & Hsz & Hlen). split_and!; [|done|done].
    by eapply cache_inv_heap.
Qed.

Lemma newMessageCache_inv conf h c :
  newMessageCache conf = Ret c → bounded_inv True (conf_MaxCacheSize conf) (h, c).
Proof.
  unfold newMessageCache, MessageCache_reloadConfig. cbn. destruct (conf_Prefetch conf);
    intros [= <-]; (split_and!; [|done|intros; cbn; lia]);
    (split; [apply lru_ok_New|apply Forall_nil; exact I]).
Qed.


(** The representation invariant also survives configuration reloads at
    any point of an execution. *)
Theorem cache_reachable_inv conf h c s :
  newMessageCache conf = Ret c → rtc cache_step (h, c) s → cache_inv s.1 s.2.
Proof.
  intros Hc Hrtc. apply (newMessageCache_inv _ h) in Hc as [Hinv _].
  induction Hrtc as [s|s1 s2 s3 Hstep _ IH]; [done|]. apply IH. clear IH.
  destruct Hstep as [s s' Hop|conf' h' c1 c2 E].
  - eapply (cache_op_inv False (mc_maxSize s.2)); [|done]. by split_and!.
  - unfold MessageCache_reloadConfig in E. apply outcome_bind_ret in E as (p & _ & E).
    destruct (conf_Prefetch conf'); simplify_eq; done.
Qed.

(** *** Prefetching and reloads *)

(** Switching prefetching off breaks the cache.  [reloadConfig] never resets
    [needPrefetch], so after a reload from a configuration with prefetching to
    one without, the prefetcher is stopped and its channel closed while the
    cache still believes in it: a hit on an entry about to expire panics (send
    on a closed channel) unless a prefetch of the same question was pending,
    and the next reload blocks for ever on the stopped prefetcher. *)
Theorem prefetch_off_breaks conf conf' conf'' c c' :
  conf_Prefetch conf = true → conf_Prefetch conf' = false →
  newMessageCache conf = Ret c → MessageCache_reloadConfig conf' c = Ret c' →
  (∃ why, MessageCache_reloadConfig conf'' c' = Hang why) ∧
  (∀ client key, Client_QueryKey client = Ret key →
     ∃ why, Prefetcher_addPrefetchTask client (mc_prefetcher c') = Panic why).
Proof.
  intros Hp Hp'. unfold newMessageCache, MessageCache_reloadConfig. rewrite Hp, Hp'. cbn.
  intros [= <-]. cbn. intros [= <-]. cbn. split; [eauto|].
  intros client key Hk. unfold Prefetcher_addPrefetchTask. rewrite Hk. cbn. eauto.
Qed.
End cache_props.

(** ** Examples *)

Section cache_examples.
Definition demo_conf : CacheConf := mkCacheConf 0 0 2 false false.
Definition demo_cache : MessageCache := mkCache 3600 60 2 false false list_New ∅ newPrefetcher.
Definition demo_answer : Message := answer www RR_A [a_rrset www 300 1; a_rrset www 9000 5].
Definition demo_heap : Heap := {[ 0 := demo_answer; 1 := answer mail RR_A [a_rrset mail 60 9] ]}.

Lemma demo_inv h : cache_inv h demo_cache.
Proof. split; [apply lru_ok_New|constructor]. Qed.

(** The cache after one addition at time 0. *)
Definition demo_added : outcome (Heap * MessageCache) :=
  MessageCache_Add 0 0 demo_heap demo_cache.
Definition demo_full : MessageCache :=
  match demo_added with Ret (_, c) => c | _ => demo_cache end.
Definition demo_heap1 : Heap :=
  match demo_added with Ret (h, _) => h | _ => ∅ end.

Lemma demo_full_inv : cache_inv demo_heap1 demo_full.
Proof.
  destruct (Add_spec 0 0 demo_heap demo_cache demo_answer (mkQuestion www RR_A CLASS_IN)
              (demo_inv _) eq_refl eq_refl) as (c' & H).
  unfold demo_heap1, demo_full, demo_added. destruct (messageToCache _ _ _).
  destruct H as (-> & H & _). exact H.
Qed.

Lemma MessageCache_Add_refines_witness :
  ∃ c', MessageCache_Add 0 0 demo_heap demo_cache =
        Ret (<[0 := (messageToCache 0 demo_cache demo_answer).1]> demo_heap, c').
Proof.
  destruct (MessageCache_Add_refines 0 0 demo_heap demo_cache demo_answer
              (mkQuestion www RR_A CLASS_IN) (demo_inv _) eq_refl eq_refl) as (c' & H).
  destruct (messageToCache 0 demo_cache demo_answer) as [m' e]. destruct H as [H _]. eauto.
Defined.

Lemma MessageCache_get_refines_witness :
  ∃ h' c' r, MessageCache_get 5 www RR_A demo_heap1 demo_full = Ret (h', c', r).
Proof.
  destruct (MessageCache_get_refines 5 www RR_A demo_heap1 demo_full demo_full_inv)
    as (h' & c' & r & H & _). eauto.
Defined.

Definition demo_hit : Heap * MessageCache * option MessageCacheEntry :=
  match MessageCache_get 5 WWW RR_A demo_heap1 demo_full with
  | Ret r => r
  | _ => (∅, demo_cache, None)
  end.

Lemma demo_types e q :
  e ∈ contents demo_full → entry_question demo_heap1 e = Some q → is_u16 (q_type q).
Proof.
  assert (contents demo_full = [mkEntry 0 (Second * 300)]) as -> by by_eval.
  rewrite list_elem_of_singleton. intros ->.
  assert (entry_question demo_heap1 (mkEntry 0 (Second * 300)) =
          Some (mkQuestion www RR_A CLASS_IN)) as -> by by_eval.
  intros [= <-]. vm_compute. split; congruence.
Qed.

Lemma MessageCache_get_sound_witness :
  ∃ q, entry_question demo_heap1 (mkEntry 0 (Second * 300)) = Some q ∧
       q_name q ≈ WWW ∧ q_type q = RR_A.
Proof.
  refine (proj2 (proj2 (MessageCache_get_sound 5 WWW RR_A demo_heap1 demo_full
    demo_hit.1.1 demo_hit.1.2 (mkEntry 0 (Second * 300)) demo_full_inv demo_types _ _))).
  - vm_compute. split; congruence.
  - by_eval.
Defined.

Lemma positive_lifetime_witness :
  (messageToCache 0 demo_cache demo_answer).2 = (Second * 300)%Z.
Proof.
  pose proof (positive_lifetime 0 demo_cache demo_answer ltac:(done)
    ltac:(repeat constructor; vm_compute; congruence)) as H.
  destruct (messageToCache 0 demo_cache demo_answer) as [m e]. destruct H as [-> _].
  by_eval.
Defined.

Definition demo_negative : Message :=
  mkMessage hdr0 (Some (mkQuestion www RR_A CLASS_IN)) [] [soa_rrset example_com 900 20] [] None.

Lemma negative_lifetime_witness :
  (messageToCache 0 demo_cache demo_negative).2 = (Second * 20)%Z.
Proof.
  pose proof (negative_lifetime 0 demo_cache demo_negative eq_refl
    ltac:(repeat constructor; vm_compute; congruence)) as H.
  destruct (messageToCache 0 demo_cache demo_negative) as [m e]. destruct H as [-> _].
  by_eval.
Defined.

Lemma MessageCache_Add_get_witness :
  ∃ h'' c'', MessageCache_get (299 * Second) WWW RR_A demo_heap1 demo_full =
             Ret (h'', c'', Some (mkEntry 0 (Second * 300))).
Proof.
  apply (MessageCache_Add_get 0 (299 * Second) WWW 0 demo_heap demo_cache demo_heap1 demo_full
           demo_answer (messageToCache 0 demo_cache demo_answer).1
           (mkQuestion www RR_A CLASS_IN) (Second * 300));
    [apply demo_inv|vm_compute; congruence|reflexivity..|vm_compute; congruence|reflexivity].
Defined.

Lemma MessageCache_Remove_get_witness :
  ∃ c', MessageCache_Remove WWW RR_A demo_heap1 demo_full = Ret c' ∧
        MessageCache_get 5 WWW RR_A demo_heap1 c' = Ret (demo_heap1, c', None).
Proof.
  destruct (MessageCache_Remove_get 5 WWW RR_A demo_heap1 demo_full demo_full_inv)
    as (c' & H1 & _ & _ & H2). eauto.
Defined.

Lemma demo_op : cache_op (demo_heap, demo_cache) (demo_heap1, demo_full).
Proof.
  eapply (op_Add 0 0 _ _ _ _ demo_answer (mkQuestion www RR_A CLASS_IN)); reflexivity.
Qed.


Lemma cache_reachable_inv_witness : cache_inv demo_heap1 demo_full.
Proof.
  apply (cache_reachable_inv demo_conf demo_heap demo_cache (demo_heap1, demo_full)).
  - reflexivity.
  - apply rtc_once, step_op, demo_op.
Defined.

Lemma prefetch_off_breaks_witness :
  ∃ c c' why, newMessageCache (mkCacheConf 0 0 0 false true) = Ret c ∧
    MessageCache_reloadConfig demo_conf c = Ret c' ∧
    MessageCache_reloadConfig demo_conf c' = Hang why.
Proof.
  eexists _, _.
  destruct (prefetch_off_breaks (mkCacheConf 0 0 0 false true) demo_conf demo_conf _ _
              eq_refl eq_refl eq_refl eq_refl) as [[why H] _].
  exists why. split; [reflexivity|]. split; [reflexivity|exact H].
Defined.
End cache_examples.
