(* ===== verification/CacheHandler.v ===== *)
(** * The cache as a query handler and its commands (src/cache/cache.go, cmdhandler.go)

    One [MessageCache] per view.  A query is answered from its view's cache or
    passed on, and the answer of the rest of the chain is cached by reference.
    The commands clean and list the caches. *)

From S2P Require Import Prelude GoList GoStd G53 Instances Core HttpCmd Cache.

Section cache_handler.
Context {N : G53Name} {M : G53Msg N}.

Abbreviation Caches := (gmap string MessageCache).

(** ** cache/cache.go *)

Definition DefaultView : string := "default".

Definition reload_view (conf : CacheConf) (c : Caches) (acc : Caches) (view : string)
  : outcome Caches :=
  mc ← match c !! view with
       | Some mc => MessageCache_reloadConfig conf mc
       | None => newMessageCache conf
       end;
  Ret (<[view := mc]> acc).

Fixpoint reload_views (conf : CacheConf) (c : Caches) (views : list string) (acc : Caches)
  : outcome Caches :=
  match views with
  | [] => Ret acc
  | view :: views => acc ← reload_view conf c acc view; reload_views conf c views acc
  end.

(** [views] lists the configured views in the order Go's map iteration visits
    them. *)
Definition Cache_ReloadConfig (conf : CacheConf) (views : list string) (c : Caches)
  : outcome Caches :=
  cache ← reload_views conf c views ∅;
  mc ← match cache !! DefaultView with
       | None => newMessageCache conf
       | Some defaultCache => MessageCache_reloadConfig conf defaultCache
       end;
  Ret (<[DefaultView := mc]> cache).

Definition Cache_get (now : Z) (client : Client) (h : Heap) (c : Caches)
  : outcome (Heap * Caches * option nat) :=
  match c !! c_view client with
  | Some mc =>
      r ← MessageCache_Get now client h mc;
      let '(h, mc, found) := r in Ret (h, <[c_view client := mc]> c, found)
  | None => Ret (h, c, None)
  end.

Definition Cache_AddMessage (now : Z) (view : string) (l : nat) (h : Heap) (c : Caches)
  : outcome (Heap * Caches) :=
  match c !! view with
  | Some mc =>
      r ← MessageCache_Add now l h mc;
      let '(h, mc) := r in Ret (h, <[view := mc]> c)
  | None => Ret (h, c)
  end.

(** The reply made from a cached message: a copy with the request's id and
    question and the authoritative flag cleared. *)
Definition cached_reply (request m : Message) : Message :=
  set_question (m_question request)
    (set_header (Header_SetFlag FLAG_AA false
       (Header_set_id (h_id (m_header request)) (m_header m))) m).

(** [W] is the state of the handlers behind the cache. *)
Definition Cache_HandleQuery {W} (now : Z) (next : option (Handler (Caches * Heap * W)))
  : Handler (Caches * Heap * W) := λ s client,
  let '(c, h, w) := s in
  r ← Cache_get now client h c;
  let '(h, c, found) := r in
  match found with
  | Some l =>
      m ← deref l h;
      let '(l', h) := heap_alloc (cached_reply (c_request client) m) h in
      Ret (c, h, w, set_response (Some l') (set_cache_hit true client))
  | None =>
      r ← PassToNext next (c, h, w) (set_cache_hit false client);
      let '((c, h, w), client) := r in
      match c_response client with
      | Some l =>
          if c_cache_answer client then
            r ← Cache_AddMessage now (c_view client) l h c;
            let '(h, c) := r in Ret (c, h, w, client)
          else Ret (c, h, w, client)
      | None => Ret (c, h, w, client)
      end
  end.

(** ** cache/cmdhandler.go *)

Definition SupportRRTypes : list RRType :=
  [RR_SOA; RR_NS; RR_A; RR_AAAA; RR_MX; RR_SRV; RR_SPF; RR_PTR; RR_TXT; RR_CNAME; RR_NAPTR;
   RR_OPT; RR_DNAME].

Inductive CacheCmd : Type :=
  | CleanCache
  | CleanViewCache (view : string)
  | CleanRRsetsCache (view name : string)
  | CleanDomainCache (name : string)
  | GetDomainCache (name typ : string)
  | GetMessageCache (view name typ : string).

Record RRInCache : Type := mkRRInCache {
  ric_Name : string;
  ric_Type : string;
  ric_Class : string;
  ric_Ttl : Z;
  ric_Rdata : string;
}.

Definition Cache_cleanAll (c : Caches) : Caches := MessageCache_Clear <$> c.

Definition Cache_cleanInView (view : string) (c : Caches) : Caches * option CmdError :=
  match c !! view with
  | Some mc => (<[view := MessageCache_Clear mc]> c, None)
  | None => (c, Some (Error_AddDetail ErrUnknownView view))
  end.

Fixpoint remove_types (name : Name) (types : list RRType) (h : Heap) (mc : MessageCache)
  : outcome MessageCache :=
  match types with
  | [] => Ret mc
  | typ :: types => mc ← MessageCache_Remove name typ h mc; remove_types name types h mc
  end.

Definition Cache_cleanRRsetsCache (view name : string) (types : list RRType) (h : Heap)
  (c : Caches) : outcome (Caches * option CmdError) :=
  match Name_FromString name with
  | inl err => Ret (c, Some (Error_AddDetail ErrInvalidName err))
  | inr rrsetName =>
      match c !! view with
      | Some mc =>
          mc ← remove_types rrsetName types h mc;
          Ret (<[view := mc]> c, None)
      | None => Ret (c, Some (Error_AddDetail ErrUnknownView view))
      end
  end.

Definition Cache_cleanDomainInView (view name : string) (h : Heap) (c : Caches)
  : outcome (Caches * option CmdError) :=
  Cache_cleanRRsetsCache view name SupportRRTypes h c.

(** [order] is the order in which the map iteration visits the views. *)
Fixpoint Cache_cleanDomain (order : list string) (name : string) (h : Heap) (c : Caches)
  : outcome (Caches * option CmdError) :=
  match order with
  | [] => Ret (c, None)
  | view :: order =>
      r ← Cache_cleanRRsetsCache view name SupportRRTypes h c;
      let '(c, err) := r in
      match err with
      | Some e => Ret (c, Some e)
      | None => Cache_cleanDomain order name h c
      end
  end.

Definition list_message (qname : Name) (m : Message) : list RRInCache :=
  mjoin ((λ rrset, (λ rdata, mkRRInCache (Name_String qname) (RRType_String (rr_type rrset))
                      (RRClass_String (rr_class rrset)) (rr_ttl rrset) (Rdata_String rdata))
                   <$> rr_rdatas rrset) <$> m_answer m).

Definition Cache_getSingleMessageCache (now : Z) (view : string) (qname : Name)
  (qtype : RRType) (s : Heap * Caches) : outcome (Heap * Caches * list RRInCache) :=
  let '(h, c) := s in
  match c !! view with
  | None => Ret (h, c, [])
  | Some mc =>
      r ← MessageCache_GetSingleMessageCache now qname qtype h mc;
      let '(h, mc, found) := r in
      match found with
      | None => Ret (h, <[view := mc]> c, [])
      | Some l => m ← deref l h; Ret (h, <[view := mc]> c, list_message qname m)
      end
  end.

Fixpoint get_types (now : Z) (view : string) (qname : Name) (types : list RRType)
  (s : Heap * Caches) (acc : list RRInCache) : outcome (Heap * Caches * list RRInCache) :=
  match types with
  | [] => Ret (s, acc)
  | t :: types =>
      r ← Cache_getSingleMessageCache now view qname t s;
      let '(s, rrs) := r in get_types now view qname types s (acc ++ rrs)
  end.

Definition Cache_getMessageCacheInView (now : Z) (view name typ : string) (s : Heap * Caches)
  : outcome (Heap * Caches * (list RRInCache + CmdError)) :=
  match TypeFromString typ with
  | None => Ret (s, inr (Error_AddDetail ErrUnknownRRType typ))
  | Some qtype =>
      match Name_FromString name with
      | inl err => Ret (s, inr (Error_AddDetail ErrInvalidName err))
      | inr qname =>
          if (qtype =? RR_ANY)%Z then
            r ← get_types now view qname SupportRRTypes s [];
            let '(s, rrs) := r in Ret (s, inl rrs)
          else
            r ← Cache_getSingleMessageCache now view qname qtype s;
            let '(s, rrs) := r in Ret (s, inl rrs)
      end
  end.

Fixpoint get_domain_loop (now : Z) (name : string) (todo : list (string * RRType))
  (s : Heap * Caches) (acc : list RRInCache) : outcome (Heap * Caches * list RRInCache) :=
  match todo with
  | [] => Ret (s, acc)
  | (view, qtype) :: todo =>
      r ← Cache_getMessageCacheInView now view name (RRType_String qtype) s;
      let '(s, rrs) := r in
      get_domain_loop now name todo s
        (match rrs with inl rrs => acc ++ rrs | inr _ => acc end)
  end.

Definition Cache_getDomainCache (now : Z) (order : list string) (name typ : string)
  (s : Heap * Caches) : outcome (Heap * Caches * (list RRInCache + CmdError)) :=
  match TypeFromString typ with
  | None => Ret (s, inr (Error_AddDetail ErrUnknownRRType typ))
  | Some qtype =>
      let types := if (qtype =? RR_ANY)%Z then SupportRRTypes else [qtype] in
      r ← get_domain_loop now name (view ← order; pair view <$> types) s [];
      let '(s, all) := r in Ret (s, inl all)
  end.

(** The result of a command: an error, nothing, or a listing. *)
Definition Cache_HandleCmd (now : Z) (order : list string) (cmd : CacheCmd)
  (s : Heap * Caches) : outcome (Heap * Caches * (option (list RRInCache) + CmdError)) :=
  let '(h, c) := s in
  let done (r : Caches * option CmdError) :=
    Ret (h, r.1, match r.2 with None => inl None | Some e => inr e end) in
  let listing (r : Heap * Caches * (list RRInCache + CmdError)) :=
    Ret (r.1, match r.2 with inl rrs => inl (Some rrs) | inr e => inr e end) in
  match cmd with
  | CleanCache => Ret (h, Cache_cleanAll c, inl None)
  | CleanViewCache view => done (Cache_cleanInView view c)
  | CleanRRsetsCache view name => Cache_cleanDomainInView view name h c ≫= done
  | CleanDomainCache name => Cache_cleanDomain order name h c ≫= done
  | GetDomainCache name typ => Cache_getDomainCache now order name typ s ≫= listing
  | GetMessageCache view name typ => Cache_getMessageCacheInView now view name typ s ≫= listing
  end.
End cache_handler.

Abbreviation Caches := (gmap string MessageCache).

(** ** Properties *)

Section cache_handler_props.
Context {N : G53Name} {M : G53Msg N} {NL : G53NameLaws N} {ML : G53MsgLaws M}.
Implicit Types (c : Caches) (h : Heap).

(** Every view's cache satisfies its invariant in the shared heap. *)
Definition caches_inv h c : Prop := map_Forall (λ _ mc, cache_inv h mc) c.

Lemma caches_inv_insert h c view mc :
  caches_inv h c → cache_inv h mc → caches_inv h (<[view := mc]> c).
Proof. intros. by apply map_Forall_insert_2. Qed.

Lemma caches_inv_write h c l m m' :
  h !! l = Some m → m_question m' = m_question m →
  caches_inv h c → caches_inv (<[l := m']> h) c.
Proof. intros ?? Hc view mc Hv. eapply cache_inv_insert; eauto. Qed.

Lemma AddMessage_spec now view l h c mc m q :
  caches_inv h c → c !! view = Some mc → h !! l = Some m → m_question m = Some q →
  ∃ mc', let h' := <[l := (messageToCache now mc m).1]> h in
    MessageCache_Add now l h mc = Ret (h', mc') ∧
    Cache_AddMessage now view l h c = Ret (h', <[view := mc']> c) ∧
    caches_inv h' (<[view := mc']> c) ∧ cache_inv h' mc'.
Proof.
  intros Hc Hv Hl Hq. pose proof (Hc view mc Hv) as Hmc. cbn in Hmc.
  destruct (Add_spec now l h mc m q Hmc Hl Hq) as (mc' & Ha).
  pose proof (messageToCache_question now mc m) as Hq'.
  destruct (messageToCache now mc m) as [m' expire]. destruct Ha as (Ha & Hi & _).
  exists mc'. cbn. split_and!; [done| | |done].
  - unfold Cache_AddMessage. rewrite Hv, Ha. done.
  - apply caches_inv_insert; [|done]. by eapply caches_inv_write.
Qed.


(** *** Cleaning *)

(** No entry of the cache is filed under the name and one of the types. *)
Definition clean_of (h : Heap) (n : Name) (types : list RRType) (mc : MessageCache) : Prop :=
  ∀ typ e, typ ∈ types → e ∈ contents mc → entry_key h e ≠ keyForMessage n typ.

Lemma remove_types_spec n types h mc :
  cache_inv h mc →
  ∃ mc', remove_types n types h mc = Ret mc' ∧ cache_inv h mc' ∧ clean_of h n types mc' ∧
         contents mc' `sublist_of` contents mc.
Proof.
  revert mc. induction types as [|t types IH]; intros mc Hinv; cbn.
  { exists mc. split_and!; [done|done|by intros ??[]%elem_of_nil|done]. }
  destruct (remove_spec n t h mc Hinv) as (mc1 & E1 & Hinv1 & _ & Hc1).
  destruct (IH mc1 Hinv1) as (mc' & E' & Hinv' & Hcl & Hsub). rewrite E1, bind_Ret.
  assert (contents mc1 `sublist_of` contents mc) as Hsub1 by (rewrite Hc1; apply sublist_filter).
  exists mc'. split_and!; [done|done| |by etrans].
  intros typ e [->|Ht]%elem_of_cons He; [|by apply Hcl].
  apply (elem_of_sublist _ _ _ He) in Hsub. rewrite Hc1 in Hsub.
  unfold spec_remove in Hsub. by apply list_elem_of_filter in Hsub as [? _].
Qed.

Lemma clean_of_misses now h n types mc typ :
  cache_inv h mc → clean_of h n types mc → typ ∈ types →
  MessageCache_get now n typ h mc = Ret (h, mc, None).
Proof.
  intros Hinv Hcl Ht. destruct (get_spec now n typ h mc Hinv) as (h1 & c1 & r & -> & _ & Hr).
  destruct (spec_find _ _ _) as [e|] eqn:Hf; [|naive_solver].
  apply spec_find_elem in Hf as [He Hk]. by destruct (Hcl typ e Ht He).
Qed.

Lemma cleanDomain_spec order name n h c :
  caches_inv h c → Name_FromString name = inr n → (∀ v, v ∈ order → is_Some (c !! v)) →
  ∃ c', Cache_cleanDomain order name h c = Ret (c', None) ∧ caches_inv h c' ∧
        dom c' = dom c ∧
        ∀ v mc', c' !! v = Some mc' →
          ∃ mc, c !! v = Some mc ∧ contents mc' `sublist_of` contents mc ∧
                (v ∈ order → clean_of h n SupportRRTypes mc').
Proof.
  intros Hc Hn. revert c Hc. induction order as [|v order IH]; intros c Hc Hdom; cbn.
  { exists c. split_and!; [done..|]. intros v mc Hv. exists mc.
    split_and!; [done|done|by intros ?%elem_of_nil]. }
  destruct (Hdom v) as [mc Hv]; [set_solver|]. pose proof (Hc v mc Hv) as Hmc.
  unfold Cache_cleanRRsetsCache. rewrite Hn, Hv.
  destruct (remove_types_spec n SupportRRTypes h mc Hmc) as (mc1 & -> & Hi1 & Hcl1 & Hs1).
  rewrite !bind_Ret.
  destruct (IH (<[v := mc1]> c)) as (c' & -> & Hc' & Hd & Hall).
  { by apply caches_inv_insert. }
  { intros u Hu. destruct (decide (u = v)) as [->|].
    - rewrite lookup_insert_eq. eauto.
    - rewrite lookup_insert_ne by done. apply Hdom. set_solver. }
  exists c'. split_and!; [done|done| |].
  { rewrite Hd, dom_insert_L. apply elem_of_dom_2 in Hv. set_solver. }
  intros u mcu Hu. destruct (Hall u mcu Hu) as (mc2 & H2 & Hs2 & Hcl2).
  destruct (decide (u = v)) as [->|Huv].
  - rewrite lookup_insert_eq in H2. simplify_eq. exists mc. split_and!; [done|by etrans|].
    intros _ typ e Ht He. apply (Hcl1 typ e Ht). by eapply elem_of_sublist.
  - rewrite lookup_insert_ne in H2 by done. exists mc2. split_and!; [done|done|].
    intros [->|Ho]%elem_of_cons; [done|auto].
Qed.

(** Cleaning a domain cleans it everywhere.  On a well-formed name the
      command returns without error whatever order Go visits the views in; it
      adds no entry to any cache, and afterwards no view's cache has an answer for
      that name and any of the supported record types. *)
Theorem cleanDomain_everywhere order name n h c :
  caches_inv h c → Name_FromString name = inr n → (∀ v, v ∈ order ↔ v ∈ dom c) →
  ∃ c', Cache_cleanDomain order name h c = Ret (c', None) ∧ caches_inv h c' ∧
        dom c' = dom c ∧
        ∀ v mc', c' !! v = Some mc' →
          (∃ mc, c !! v = Some mc ∧ contents mc' `sublist_of` contents mc) ∧
          ∀ now typ, typ ∈ SupportRRTypes →
            MessageCache_get now n typ h mc' = Ret (h, mc', None).
Proof.
  intros Hc Hn Ho. destruct (cleanDomain_spec order name n h c) as (c' & E & Hc' & Hd & Hall);
    [done|done|by intros v ?%Ho%elem_of_dom|].
  exists c'. split_and!; [done..|]. intros v mc' Hv. destruct (Hall v mc' Hv) as (mc & ?&?&Hcl).
  split; [eauto|]. intros now typ. apply clean_of_misses; [by eapply Hc'|].
  apply Hcl, Ho. rewrite <- Hd. by apply elem_of_dom_2 in Hv.
Qed.

(** A reconfiguration that switches prefetching off blocks for ever.  The
      default view is always among the configured views, and [ReloadConfig]
      reloads its cache twice: the first reload stops the prefetcher without
      clearing [needPrefetch], the second waits for the stopped prefetcher. *)
Theorem reload_prefetch_off_hangs conf conf' c0 :
  conf_Prefetch conf = true → conf_Prefetch conf' = false →
  Cache_ReloadConfig conf [DefaultView] ∅ = Ret c0 →
  ∃ why, Cache_ReloadConfig conf' [DefaultView] c0 = Hang why.
Proof.
  intros Hp Hp'. unfold Cache_ReloadConfig. cbn.
  unfold reload_view, newMessageCache, MessageCache_reloadConfig.
  rewrite lookup_empty. cbn. rewrite Hp. cbn. rewrite lookup_insert_eq. cbn.
  intros [= <-]. rewrite lookup_insert_eq. cbn. rewrite Hp'. cbn.
  rewrite lookup_insert_eq. cbn. eauto.
Qed.
End cache_handler_props.

(** ** Examples *)

Section cache_handler_examples.

Definition demo_caches : Caches := {[ "default" := demo_cache ]}.
Definition demo_client : Client :=
  mkClient None None false (query WWW RR_A) None "default" 0 false true 0.

Lemma demo_caches_inv h : caches_inv h demo_caches.
Proof. apply map_Forall_singleton, demo_inv. Qed.

Lemma demo_lookup : demo_caches !! "default" = Some demo_cache.
Proof. done. Qed.


Lemma cleanDomain_everywhere_witness :
  ∃ c', Cache_cleanDomain ["default"] "www.example.com" demo_heap1
          (<["default" := demo_full]> demo_caches) = Ret (c', None).
Proof.
  destruct (cleanDomain_everywhere ["default"] "www.example.com" www demo_heap1
    (<["default" := demo_full]> demo_caches)) as (c' & H & _).
  - apply caches_inv_insert; [apply demo_caches_inv|apply demo_full_inv].
  - reflexivity.
  - intros v. unfold demo_caches. rewrite dom_insert_L, dom_singleton_L. set_solver.
  - eauto.
Defined.

Lemma reload_prefetch_off_hangs_witness :
  ∃ c0 why, Cache_ReloadConfig (mkCacheConf 0 0 0 false true) [DefaultView] ∅ = Ret c0 ∧
            Cache_ReloadConfig demo_conf [DefaultView] c0 = Hang why.
Proof.
  eexists. destruct (reload_prefetch_off_hangs (mkCacheConf 0 0 0 false true) demo_conf _
                       eq_refl eq_refl eq_refl) as [why H].
  exists why. split; [reflexivity|exact H].
Defined.
End cache_handler_examples.
