(* ===== verification/Cement.v ===== *)
(** * The containers of the package cement, as interfaces

    Vanguard looks up domain names in [cement/domaintree] and addresses in
    [cement/netradix], which are not part of this repository.  Their operations
    are the fields of two classes and what vanguard relies on are their laws;
    the end of the file has an instance of each over lists. *)

From S2P Require Import Prelude GoStd G53 Instances.

(** ** domaintree: a map from names with search for the closest enclosing name *)

Inductive SearchResult : Type := ExactMatch | ClosestEncloser | NotFound.

#[export] Instance SearchResult_eq_dec : EqDecision SearchResult.
Proof. solve_decision. Defined.

Class DomainTree (N : G53Name) : Type := {
  dtree : Type → Type;
  (** [NewDomainTree()] *)
  dt_New {V} : dtree V;
  (** [Insert(name, data)]; [inl] is the error text. *)
  dt_Insert {V} : Name → V → dtree V → string + dtree V;
  (** [Delete(name)] *)
  dt_Delete {V} : Name → dtree V → dtree V;
  (** [SearchParents(name)]: the chain of nodes on the way to the name that hold
      data, deepest first, and the kind of match. *)
  dt_SearchParents {V} : Name → dtree V → list (Name * V) * SearchResult;
  (** The data stored at a name itself. *)
  dt_get {V} : Name → dtree V → option V;
}.

(** [Search(name)]: the data of the deepest node on the way to the name. *)
Definition dt_Search {N : G53Name} {T : DomainTree N} {V} (n : Name) (t : dtree V) : option V * SearchResult :=
  let '(chain, r) := dt_SearchParents n t in (snd <$> head chain, r).

Class DomainTreeLaws {N : G53Name} (T : DomainTree N) : Prop := {
  dt_get_Equals {V} (t : dtree V) a b : a ≈ b → dt_get a t = dt_get b t;
  dt_get_New {V} n : dt_get n (dt_New (V := V)) = None;
  dt_Insert_new {V} n (v : V) t :
    dt_get n t = None →
    ∃ t', dt_Insert n v t = inr t' ∧
          ∀ n', dt_get n' t' = if Name_Equals n n' then Some v else dt_get n' t;
  dt_Insert_dup {V} n (v : V) t :
    is_Some (dt_get n t) → ∃ err, dt_Insert n v t = inl err;
  dt_get_Delete {V} n n' (t : dtree V) :
    dt_get n' (dt_Delete n t) = if Name_Equals n n' then None else dt_get n' t;
  (** The chain lists exactly the stored names that enclose the name. *)
  dt_SearchParents_sound {V} n (t : dtree V) m v :
    (m, v) ∈ (dt_SearchParents n t).1 → dt_get m t = Some v ∧ Name_IsSubDomain n m = true;
  dt_SearchParents_complete {V} n (t : dtree V) m v :
    dt_get m t = Some v → Name_IsSubDomain n m = true →
    ∃ m', (m', v) ∈ (dt_SearchParents n t).1 ∧ m ≈ m';
  dt_SearchParents_sorted {V} n (t : dtree V) :
    StronglySorted (λ x y, Name_IsSubDomain x.1 y.1 = true) (dt_SearchParents n t).1;
  dt_SearchParents_result {V} n (t : dtree V) :
    (dt_SearchParents n t).2 =
      match (dt_SearchParents n t).1 with
      | [] => NotFound
      | (m, _) :: _ => if Name_Equals m n then ExactMatch else ClosestEncloser
      end;
}.

Section searches.
Context {N : G53Name} {T : DomainTree N} {NL : G53NameLaws N} {TL : DomainTreeLaws T}.

(** A stored name is found itself, at the top of the chain. *)
Lemma SearchParents_exact {V} n (t : dtree V) v :
  dt_get n t = Some v →
  ∃ m chain, dt_SearchParents n t = ((m, v) :: chain, ExactMatch) ∧ m ≈ n.
Proof.
  intros Hg. destruct (dt_SearchParents_complete n t n v Hg (IsSubDomain_refl n)) as (m' & Hin & He).
  pose proof (dt_SearchParents_result n t) as Hres.
  pose proof (dt_SearchParents_sound n t) as Hsound.
  pose proof (dt_SearchParents_sorted n t) as Hsort.
  destruct (dt_SearchParents n t) as [[|[m v0] chain] r]; cbn [fst snd] in *;
    [by apply elem_of_nil in Hin|].
  destruct (Hsound m v0) as [Hg0 Hs0]; [set_solver|].
  assert (m ≈ n) as Hm.
  { apply elem_of_cons in Hin as [[= -> ->]|Hin]; [by symmetry|].
    apply StronglySorted_inv in Hsort as [_ Hall]. rewrite Forall_forall in Hall.
    apply IsSubDomain_antisym; [|done]. rewrite He. apply (Hall _ Hin). }
  exists m, chain. rewrite (dt_get_Equals t m n Hm), Hg in Hg0. injection Hg0 as <-.
  by rewrite Hres, Hm.
Qed.

(** For a name that is not stored the chain is that of its proper parents. *)
Lemma SearchParents_other {V} n (t : dtree V) :
  dt_get n t = None →
  (dt_SearchParents n t).2 = match (dt_SearchParents n t).1 with [] => NotFound | _ => ClosestEncloser end.
Proof.
  intros Hg. rewrite dt_SearchParents_result.
  destruct (dt_SearchParents n t).1 as [|[m v] chain] eqn:E; [done|].
  destruct (dt_SearchParents_sound n t m v) as [Hg0 _]; [rewrite E; left|].
  destruct (Name_Equals m n) eqn:He; [|done]. rewrite (dt_get_Equals t m n He) in Hg0. congruence.
Qed.

(** The first entry of the chain with a property is the deepest stored one. *)
Lemma chain_first {V} n (t : dtree V) (P : V → Prop) pre m v post :
  (dt_SearchParents n t).1 = pre ++ (m, v) :: post → Forall (λ x, ~ P x.2) pre →
  ∀ m' v', dt_get m' t = Some v' → Name_IsSubDomain n m' = true → P v' → Name_IsSubDomain m m' = true.
Proof.
  intros E Hpre m' v' Hg' Hs' Hp. pose proof (dt_SearchParents_sorted n t) as Hsort.
  destruct (dt_SearchParents_complete n t m' v' Hg' Hs') as (m1 & Hin & ->). rewrite E in *.
  apply elem_of_app in Hin as [Hin|[[= -> ->]|Hin]%elem_of_cons]; [|apply IsSubDomain_refl|].
  - rewrite Forall_forall in Hpre. by destruct (Hpre _ Hin).
  - apply StronglySorted_app_1_r, StronglySorted_inv in Hsort as [_ Hall].
    rewrite Forall_forall in Hall. apply (Hall _ Hin).
Qed.

Lemma chain_none {V} n (t : dtree V) (P : V → Prop) :
  Forall (λ x, ~ P x.2) (dt_SearchParents n t).1 →
  ∀ m' v', dt_get m' t = Some v' → Name_IsSubDomain n m' = true → ~ P v'.
Proof.
  intros Hall m' v' Hg' Hs'. rewrite Forall_forall in Hall.
  destruct (dt_SearchParents_complete n t m' v' Hg' Hs') as (m1 & Hin & _). apply (Hall _ Hin).
Qed.
End searches.

(** ** netradix: longest prefix match over networks *)

Class NetRadix : Type := {
  nrtree : Type → Type;
  nr_New {V} : nrtree V;
  (** [Add(network, data)] and [Delete(network)]; [inl] is the error text. *)
  nr_Add {V} : string → V → nrtree V → string + nrtree V;
  nr_Delete {V} : string → nrtree V → string + nrtree V;
  (** [SearchBest(ip)] *)
  nr_SearchBest {V} : IP → nrtree V → option V;
  (** The network a string denotes, whether it holds an address, and the
      networks of a tree with their data. *)
  Network : Type;
  Network_eq_dec :: EqDecision Network;
  net_parse : string → string + Network;
  net_contains : Network → IP → bool;
  nr_nets {V} : nrtree V → list (Network * V);
}.

Class NetRadixLaws (R : NetRadix) : Prop := {
  nr_nets_New {V} : nr_nets (nr_New (V := V)) = [];
  nr_Add_ok {V} s net (v : V) t :
    net_parse s = inr net →
    ∃ t', nr_Add s v t = inr t' ∧
          ∀ x, x ∈ nr_nets t' ↔ x = (net, v) ∨ (x ∈ nr_nets t ∧ x.1 ≠ net);
  nr_Add_err {V} s err (v : V) t :
    net_parse s = inl err → nr_Add s v t = inl err;
  nr_Delete_ok {V} s net (t t' : nrtree V) :
    net_parse s = inr net → nr_Delete s t = inr t' →
    ∀ x, x ∈ nr_nets t' ↔ x ∈ nr_nets t ∧ x.1 ≠ net;
  nr_Delete_err {V} s err (t : nrtree V) :
    net_parse s = inl err → nr_Delete s t = inl err;
  nr_SearchBest_sound {V} ip (t : nrtree V) v :
    nr_SearchBest ip t = Some v →
    ∃ net, (net, v) ∈ nr_nets t ∧ net_contains net ip = true;
  nr_SearchBest_complete {V} ip (t : nrtree V) net v :
    (net, v) ∈ nr_nets t → net_contains net ip = true → is_Some (nr_SearchBest ip t);
}.

(** ** An instance over label lists *)

Section list_tree.

Abbreviation ltree V := (list (lname * V)).

Definition lt_get {V} (n : lname) (t : ltree V) : option V :=
  snd <$> find_first (λ x, bool_decide (lower_labels x.1 = lower_labels n)) t.

Definition lt_remove {V} (n : lname) (t : ltree V) : ltree V :=
  filter (λ x, lower_labels x.1 ≠ lower_labels n) t.

Fixpoint suffixes (n : lname) : list lname :=
  match n with
  | [] => [[]]
  | _ :: n' => n :: suffixes n'
  end.

Definition lt_parents {V} (n : lname) (t : ltree V) : list (lname * V) :=
  omap (λ m, pair m <$> lt_get m t) (suffixes n).

Lemma lt_get_Equals {V} (t : ltree V) a b :
  lower_labels a = lower_labels b → lt_get a t = lt_get b t.
Proof. unfold lt_get. by intros ->. Qed.

Lemma lt_get_cons {V} n v (t : ltree V) m :
  lt_get m ((n, v) :: t) =
  if bool_decide (lower_labels n = lower_labels m) then Some v else lt_get m t.
Proof. unfold lt_get. cbn [find_first fst]. by case_bool_decide. Qed.

Lemma lt_get_remove {V} n m (t : ltree V) :
  lt_get m (lt_remove n t) =
  if bool_decide (lower_labels n = lower_labels m) then None else lt_get m t.
Proof.
  induction t as [|[k v] t IH]; [by case_bool_decide|]. unfold lt_remove in *.
  destruct (decide (lower_labels k = lower_labels n)).
  - rewrite filter_cons_False by (cbn; naive_solver). rewrite IH, lt_get_cons.
    repeat case_bool_decide; naive_solver congruence.
  - rewrite filter_cons_True by done. rewrite !lt_get_cons, IH.
    repeat case_bool_decide; congruence.
Qed.

Lemma suffixes_spec n m : m ∈ suffixes n ↔ m `suffix_of` n.
Proof.
  induction n as [|x n IH]; cbn.
  - rewrite list_elem_of_singleton. split; [by intros ->|apply suffix_nil_inv].
  - rewrite elem_of_cons, IH. split.
    + intros [->|?]; [done|by apply suffix_cons_r].
    + destruct m as [|y m]; [intros _; right; apply suffix_nil|].
      intros [?|?]%suffix_cons_inv; auto.
Qed.

Lemma suffixes_sorted n : StronglySorted (λ a b, b `suffix_of` a) (suffixes n).
Proof.
  induction n as [|x n IH]; cbn; repeat constructor; [done|].
  rewrite Forall_forall. intros m Hm%suffixes_spec. by apply suffix_cons_r.
Qed.

Lemma lower_suffix a b : a `suffix_of` b → lower_labels a `suffix_of` lower_labels b.
Proof. intros [k ->]. exists (lower_labels k). apply fmap_app. Qed.

Lemma suffix_lower n l :
  l `suffix_of` lower_labels n → ∃ m, m `suffix_of` n ∧ lower_labels m = l.
Proof.
  intros [k E]. unfold lower_labels in E. apply fmap_app_inv in E as (k' & m & -> & -> & ->).
  exists m. split; [by exists k'|done].
Qed.

Lemma lt_parents_elem {V} n (t : ltree V) m v :
  (m, v) ∈ lt_parents n t ↔ m `suffix_of` n ∧ lt_get m t = Some v.
Proof.
  unfold lt_parents. rewrite list_elem_of_omap. setoid_rewrite suffixes_spec. split.
  - intros (m' & Hs & E). apply fmap_Some in E as (v' & Hv & [= -> ->]). done.
  - intros [Hs Hv]. exists m. split; [done|]. by rewrite Hv.
Qed.

Lemma lt_parents_sorted {V} n (t : ltree V) :
  StronglySorted (λ x y, bool_decide (lower_labels y.1 `suffix_of` lower_labels x.1) = true)
    (lt_parents n t).
Proof.
  unfold lt_parents. pose proof (suffixes_sorted n) as Hs.
  induction Hs as [|m ms Hs IH Hall]; cbn; [constructor|].
  destruct (lt_get m t) as [v|]; cbn; [|done]. constructor; [done|].
  rewrite Forall_forall in Hall. apply Forall_forall. intros [m' v'] Hin.
  apply list_elem_of_omap in Hin as (m1 & Hm1 & E). apply fmap_Some in E as (? & _ & [= -> _]).
  apply bool_decide_eq_true. cbn. by apply lower_suffix, Hall.
Qed.
End list_tree.

#[export] Instance list_domaintree : DomainTree label_names := {|
  dtree V := list (lname * V);
  dt_New V := [];
  dt_Insert V n v t :=
    match lt_get n t with Some _ => inl "already exist" | None => inr ((n, v) :: t) end;
  dt_Delete V := lt_remove;
  dt_SearchParents V n t :=
    (lt_parents n t,
     match lt_parents n t with
     | [] => NotFound
     | (m, _) :: _ => if Name_Equals m n then ExactMatch else ClosestEncloser
     end);
  dt_get V := lt_get;
|}.

#[export] Instance list_domaintree_laws : DomainTreeLaws list_domaintree.
Proof.
  split; cbn; intros V.
  - intros t a b E%bool_decide_eq_true. by apply lt_get_Equals.
  - done.
  - intros n v t ->. eexists. split; [done|]. intros n'. apply lt_get_cons.
  - intros n v t [w ->]. eauto.
  - intros n n' t. apply lt_get_remove.
  - intros n t m v [Hs Hv]%lt_parents_elem. split; [done|].
    by apply bool_decide_eq_true, lower_suffix.
  - intros n t m v Hv Hs%bool_decide_eq_true.
    apply suffix_lower in Hs as (m' & Hs & E). exists m'. split.
    + apply lt_parents_elem. split; [done|]. by rewrite (lt_get_Equals t m' m).
    + by apply bool_decide_eq_true.
  - intros n t. apply lt_parents_sorted.
  - done.
Qed.

(** ** An instance of networks: dotted prefixes *)

Section prefix_nets.

(** [192.0.2] stands for the addresses that begin with these bytes. *)
Definition pnet_parse (s : string) : string + list Z :=
  match parse_ip s with Some ip => inr ip | None => inl "invalid network" end.
Definition pnet_contains (net ip : list Z) : bool := bool_decide (net `prefix_of` ip).

Definition shorter {V} (x y : list Z * V) : Prop := length x.1 ≤ length y.1.
#[export] Instance shorter_dec {V} : RelDecision (@shorter V).
Proof. intros x y. unfold shorter. apply _. Defined.
End prefix_nets.

#[export] Instance prefix_netradix : NetRadix := {|
  nrtree V := list (list Z * V);
  nr_New V := [];
  nr_Add V s v t := match pnet_parse s with
    | inl e => inl e
    | inr net => inr ((net, v) :: base.filter (λ x, x.1 ≠ net) t)
    end;
  nr_Delete V s t := match pnet_parse s with
    | inl e => inl e
    | inr net =>
        if existsb (λ x, bool_decide (x.1 = net)) t then inr (base.filter (λ x, x.1 ≠ net) t)
        else inl "not found"
    end;
  nr_SearchBest V ip t :=
    snd <$> last (merge_sort shorter
                    (base.filter (λ x, pnet_contains x.1 ip = true) t));
  Network := list Z;
  Network_eq_dec := _;
  net_parse := pnet_parse;
  net_contains := pnet_contains;
  nr_nets V t := t;
|}.

#[export] Instance prefix_netradix_laws : NetRadixLaws prefix_netradix.
Proof.
  split; cbn; intros V.
  - done.
  - intros s net v t ->. eexists. split; [done|]. intros x.
    rewrite elem_of_cons, list_elem_of_filter. naive_solver.
  - by intros s err v t ->.
  - intros s net t t' ->. destruct (existsb _ t); [|done]. intros [= <-] x.
    rewrite list_elem_of_filter. naive_solver.
  - by intros s err t ->.
  - intros ip t v ([net w] & E & ->)%fmap_Some. apply last_Some_elem_of in E.
    rewrite merge_sort_Permutation, list_elem_of_filter in E. exists net. naive_solver.
  - intros ip t net v Hin Hc. rewrite fmap_is_Some. apply not_eq_None_Some. intros E.
    apply last_None in E.
    assert ((net, v) ∈ @nil (list Z * V)) as []%elem_of_nil.
    rewrite <- E, merge_sort_Permutation, list_elem_of_filter. done.
Qed.
