(* ===== verification/Schedule.v ===== *)
(** * Time schedules of access lists (src/acl/schedule.go)

    A schedule is a list of periodic ranges: hours of a day, times of a week or
    times of a year.  The parser turns configuration strings into ranges; the
    theorems say which instants a range includes, in terms of the position of
    the instant in its day, week or year. *)

From S2P Require Import Prelude GoStd.
From Stdlib Require Import Ascii.

Local Open Scope Z_scope.

(** ** Errors *)

Definition ErrTimeRangeInvalid : string := "time range isn't valid".
Definition ErrHourMinuteInvalid : string := "hour minute format invalid".
Definition ErrWeekDayInvalid : string := "weekday format invalid".
Definition ErrDayInvalid : string := "day format invalid".
Definition ErrMonthInvalid : string := "month format invalid".
Definition ErrDateInvalid : string := "date format invalid".

Definition secondsOneDay : Z := 24 * 3600 * Second.

(** [if err != nil { return nil, err }] *)
Definition sum_bind {A B} (f : A → string + B) (m : string + A) : string + B :=
  match m with inl e => inl e | inr a => f a end.
Notation "x <~ m ; k" := (sum_bind (λ x, k) m)
  (at level 20, m at level 100, k at level 200, only parsing).
Notation "' p <~ m ; k" := (sum_bind (λ x, let p := x in k) m)
  (at level 20, p pattern, m at level 100, k at level 200, only parsing).

Lemma sum_bind_inr {A B} (f : A → string + B) (m : string + A) b :
  sum_bind f m = inr b ↔ ∃ a, m = inr a ∧ f a = inr b.
Proof. destruct m; cbn; naive_solver. Qed.

(** ** Parsing *)

Definition hourMinFromString (hm : string) : string + Z * Z :=
  match strings_Split hm ":" with
  | [hs; ms] =>
      match strconv_Atoi hs with
      | Some h =>
          if (h <? 0) || (23 <? h) then inl ErrHourMinuteInvalid
          else match strconv_Atoi ms with
               | Some m => if (m <? 0) || (59 <? m) then inl ErrHourMinuteInvalid else inr (h, m)
               | None => inl ErrHourMinuteInvalid
               end
      | None => inl ErrHourMinuteInvalid
      end
  | _ => inl ErrHourMinuteInvalid
  end.

Definition weekDayFromString (day : string) : string + Z :=
  match strconv_Atoi day with
  | None => inl ErrWeekDayInvalid
  | Some d => if (d <? 0) || (6 <? d) then inl ErrWeekDayInvalid else inr d
  end.

Definition dayFromString (day : string) : string + Z :=
  match strconv_Atoi day with
  | None => inl ErrDayInvalid
  | Some d => if (d <? 1) || (31 <? d) then inl ErrWeekDayInvalid else inr d
  end.

Definition monthFromString (monthString : string) : string + Z :=
  match strconv_Atoi monthString with
  | None => inl ErrWeekDayInvalid
  | Some m => if (m <? 1) || (12 <? m) then inl ErrMonthInvalid else inr m
  end.

(** ** Ranges *)

Record PeriodicInHour : Type := mkPeriodicInHour {
  ph_startHour : Z; ph_endHour : Z;
  ph_startMinute : Z; ph_endMinute : Z;
  ph_expandDay : bool;
}.

Definition newPeriodicInHour (from to : string) : string + PeriodicInHour :=
  '(startHour, startMinute) <~ hourMinFromString from;
  '(endHour, endMinute) <~ hourMinFromString to;
  if (startHour =? endHour) && (endMinute <? startMinute) then inl ErrHourMinuteInvalid
  else inr (mkPeriodicInHour startHour endHour startMinute endMinute (endHour <? startHour)).

Definition PeriodicInHour_IncludeTime (p : PeriodicInHour) (t : Z) : bool :=
  let year := time_Year t in let month := time_Month t in let day := time_Day t in
  let start := time_Date year month day (ph_startHour p) (ph_startMinute p) in
  let end_ := time_Date year month day (ph_endHour p) (ph_endMinute p) in
  if ph_expandDay p then time_After t start || time_Before t end_
  else time_After t start && time_Before t end_.

Record PeriodicInWeekDay : Type := mkPeriodicInWeekDay {
  pw_startWeekDay : Z; pw_endWeekDay : Z;
  pw_startHour : Z; pw_endHour : Z;
  pw_startMinute : Z; pw_endMinute : Z;
  pw_expandWeek : bool;
}.

Definition newPeriodicInWeekDay (fromDay fromHourMinute toDay toHourMinute : string)
  : string + PeriodicInWeekDay :=
  '(startHour, startMinute) <~ hourMinFromString fromHourMinute;
  '(endHour, endMinute) <~ hourMinFromString toHourMinute;
  startWeekDay <~ weekDayFromString fromDay;
  endWeekDay <~ weekDayFromString toDay;
  if (startWeekDay =? endWeekDay) &&
     ((endHour <? startHour) || ((startHour =? endHour) && (endMinute <? startMinute)))
  then inl ErrWeekDayInvalid
  else inr (mkPeriodicInWeekDay startWeekDay endWeekDay startHour endHour startMinute endMinute
              (endWeekDay <? startWeekDay)).

Definition PeriodicInWeekDay_IncludeTime (p : PeriodicInWeekDay) (t : Z) : bool :=
  let weekDay := time_Weekday t in
  let year := time_Year t in let month := time_Month t in let day := time_Day t in
  let start_ := time_Date year month day (pw_startHour p) (pw_startMinute p) in
  let end__ := time_Date year month day (pw_endHour p) (pw_endMinute p) in
  let start := start_ + (pw_startWeekDay p - weekDay) * secondsOneDay in
  let end_ := end__ + (pw_endWeekDay p - weekDay) * secondsOneDay in
  if pw_expandWeek p then time_After t start || time_Before t end_
  else time_After t start && time_Before t end_.

Record PeriodicInDate : Type := mkPeriodicInDate {
  pd_startMonth : Z; pd_endMonth : Z;
  pd_startDay : Z; pd_endDay : Z;
  pd_startHour : Z; pd_endHour : Z;
  pd_startMinute : Z; pd_endMinute : Z;
  pd_expandYear : bool;
}.

(** [now] is the instant of the call, whose year the order check uses. *)
Definition newPeriodicInDate (now : Z)
  (fromMonth fromDay fromHourMinute toMonth toDay toHourMinute : string)
  : string + PeriodicInDate :=
  startMonth <~ monthFromString fromMonth;
  endMonth <~ monthFromString toMonth;
  '(startHour, startMinute) <~ hourMinFromString fromHourMinute;
  '(endHour, endMinute) <~ hourMinFromString toHourMinute;
  startDay <~ dayFromString fromDay;
  endDay <~ dayFromString toDay;
  let year := time_Year now in
  if (startMonth <=? endMonth) &&
     time_Before (time_Date year endMonth endDay endHour endMinute)
                 (time_Date year startMonth startDay startHour startMinute)
  then inl ErrDateInvalid
  else inr (mkPeriodicInDate startMonth endMonth startDay endDay startHour endHour
              startMinute endMinute (endMonth <? startMonth)).

Definition PeriodicInDate_IncludeTime (p : PeriodicInDate) (t : Z) : bool :=
  let year := time_Year t in
  let start := time_Date year (pd_startMonth p) (pd_startDay p) (pd_startHour p) (pd_startMinute p) in
  let end_ := time_Date year (pd_endMonth p) (pd_endDay p) (pd_endHour p) (pd_endMinute p) in
  if pd_expandYear p then time_After t start || time_Before t end_
  else time_After t start && time_Before t end_.

(** The implementations of the interface [TimeRange]. *)
Inductive TimeRange : Type :=
  | InHour (p : PeriodicInHour)
  | InWeekDay (p : PeriodicInWeekDay)
  | InDate (p : PeriodicInDate).

Definition TimeRange_IncludeTime (r : TimeRange) (t : Z) : bool :=
  match r with
  | InHour p => PeriodicInHour_IncludeTime p t
  | InWeekDay p => PeriodicInWeekDay_IncludeTime p t
  | InDate p => PeriodicInDate_IncludeTime p t
  end.

Definition rangeBuilder (now : Z) (from to : string) : string + TimeRange :=
  let fromRange := strings_Split from " " in
  let toRange := strings_Split to " " in
  if negb (length fromRange =? length toRange)%nat then inl ErrTimeRangeInvalid
  else
    match fromRange, toRange with
    | [f0], [t0] => p <~ newPeriodicInHour f0 t0; inr (InHour p)
    | [f0; f1], [t0; t1] => p <~ newPeriodicInWeekDay f0 f1 t0 t1; inr (InWeekDay p)
    | [f0; f1; f2], [t0; t1; t2] =>
        p <~ newPeriodicInDate now f0 f1 f2 t0 t1 t2; inr (InDate p)
    | _, _ => inl ErrTimeRangeInvalid
    end.

(** config.TimeRange: begin and end. *)
Fixpoint newSchedule (now : Z) (timeRanges : list (string * string)) : string + list TimeRange :=
  match timeRanges with
  | [] => inr []
  | (begin, end_) :: rest =>
      r <~ rangeBuilder now begin end_;
      rs <~ newSchedule now rest;
      inr (r :: rs)
  end.

Definition Schedule_IncludeTime (ranges : list TimeRange) (t : Z) : bool :=
  existsb (λ r, TimeRange_IncludeTime r t) ranges.

(** ** Which instants a range includes *)

(** The open arc from [s] to [e] on a circle: past [e] when [e] comes first. *)
Definition in_arc (s e x : Z) : bool :=
  if s <=? e then (s <? x) && (x <? e) else (s <? x) || (x <? e).

Definition clock (hour minute : Z) : Z := hour * Hour + minute * Minute.

(** The position of an instant in its week, from Sunday 00:00. *)
Definition time_of_week (t : Z) : Z := time_Weekday t * DayLen + time_of_day t.

Lemma hourMin_range hm h m :
  hourMinFromString hm = inr (h, m) → 0 ≤ h ≤ 23 ∧ 0 ≤ m ≤ 59.
Proof.
  unfold hourMinFromString. repeat case_match; try done. intros [= -> ->]. zbool. lia.
Qed.

Lemma weekDay_range s d : weekDayFromString s = inr d → 0 ≤ d ≤ 6.
Proof. unfold weekDayFromString. repeat case_match; try done. intros [= ->]. zbool. lia. Qed.

Lemma day_range s d : dayFromString s = inr d → 1 ≤ d ≤ 31.
Proof. unfold dayFromString. repeat case_match; try done. intros [= ->]. zbool. lia. Qed.

Lemma month_range s m : monthFromString s = inr m → 1 ≤ m ≤ 12.
Proof. unfold monthFromString. repeat case_match; try done. intros [= ->]. zbool. lia. Qed.

(** Clock times of a day are ordered by hour, then minute. *)
Lemma clock_lt h m h' m' :
  0 ≤ m ≤ 59 → 0 ≤ m' ≤ 59 →
  clock h m < clock h' m' ↔ h < h' ∨ (h = h' ∧ m < m').
Proof. unfold clock, Hour, Minute, Second. lia. Qed.

(** Two tests that agree with the order of the ends are the arc test. *)
Lemma arc_at (expand : bool) (o s e x t start end_ : Z) :
  t = o + x → start = o + s → end_ = o + e → (expand = true ↔ e < s) →
  (if expand then time_After t start || time_Before t end_
   else time_After t start && time_Before t end_) = in_arc s e x.
Proof.
  intros -> -> -> He. unfold in_arc, time_After, time_Before.
  assert ((o + s <? o + x) = (s <? x)) as -> by (apply eq_true_iff_eq; rewrite !Z.ltb_lt; lia).
  assert ((o + x <? o + e) = (x <? e)) as -> by (apply eq_true_iff_eq; rewrite !Z.ltb_lt; lia).
  destruct expand, (Z.leb_spec s e); try done; naive_solver lia.
Qed.

(** Daily ranges.  A range that the parser accepts includes exactly the
    instants whose time of day lies strictly between its ends, around midnight
    when the end is earlier than the start, on every day of the calendar. *)
Theorem PeriodicInHour_arc from to p t :
  newPeriodicInHour from to = inr p →
  PeriodicInHour_IncludeTime p t =
    in_arc (clock (ph_startHour p) (ph_startMinute p))
           (clock (ph_endHour p) (ph_endMinute p)) (time_of_day t).
Proof.
  unfold newPeriodicInHour. intros H. apply sum_bind_inr in H as ([sh sm] & Hs & H).
  apply sum_bind_inr in H as ([eh em] & He & H). case_match eqn:E; [done|].
  injection H as <-. apply hourMin_range in Hs, He.
  unfold PeriodicInHour_IncludeTime. cbv zeta.
  cbn [ph_startHour ph_endHour ph_startMinute ph_endMinute ph_expandDay]. rewrite !time_Date_today.
  destruct (time_split t) as [Ht _].
  apply (arc_at _ (day_number t * DayLen)); [done|unfold clock; lia..|].
  rewrite clock_lt by lia. rewrite Z.ltb_lt. apply andb_false_iff in E as [?|?]; zbool; lia.
Qed.

Lemma week_shift t d c :
  day_number t * DayLen + c + (d - time_Weekday t) * secondsOneDay =
  (day_number t - time_Weekday t) * DayLen + (d * DayLen + c).
Proof. unfold secondsOneDay, DayLen, Second. lia. Qed.

(** Weekly ranges.  A range that the parser accepts includes exactly the
    instants whose position in the week lies strictly between its ends, around
    Saturday midnight when the end day is earlier than the start day. *)
Theorem PeriodicInWeekDay_arc fd fh td th p t :
  newPeriodicInWeekDay fd fh td th = inr p →
  PeriodicInWeekDay_IncludeTime p t =
    in_arc (pw_startWeekDay p * DayLen + clock (pw_startHour p) (pw_startMinute p))
           (pw_endWeekDay p * DayLen + clock (pw_endHour p) (pw_endMinute p)) (time_of_week t).
Proof.
  unfold newPeriodicInWeekDay. intros H. apply sum_bind_inr in H as ([sh sm] & Hs & H).
  apply sum_bind_inr in H as ([eh em] & He & H). apply sum_bind_inr in H as (sd & Hsd & H).
  apply sum_bind_inr in H as (ed & Hed & H). case_match eqn:E; [done|].
  injection H as <-. apply hourMin_range in Hs, He. apply weekDay_range in Hsd, Hed.
  unfold PeriodicInWeekDay_IncludeTime. cbv zeta.
  cbn [pw_startWeekDay pw_endWeekDay pw_startHour pw_endHour pw_startMinute pw_endMinute
       pw_expandWeek]. rewrite !time_Date_today.
  apply (arc_at _ ((day_number t - time_Weekday t) * DayLen)).
  { destruct (time_split t) as [Ht _]. unfold time_of_week. lia. }
  { rewrite <- week_shift. unfold clock. lia. }
  { rewrite <- week_shift. unfold clock. lia. }
  assert (0 ≤ clock sh sm < DayLen ∧ 0 ≤ clock eh em < DayLen) as [? ?]
    by (unfold clock, DayLen, Hour, Minute, Second; lia).
  pose proof (clock_lt eh em sh sm ltac:(lia) ltac:(lia)) as Hlt. rewrite Z.ltb_lt.
  unfold DayLen, Second in *.
  apply andb_false_iff in E as [E|E]; zbool; [lia|].
  match goal with H : _ && _ = false |- _ => apply andb_false_iff in H as [?|?] end; zbool; lia.
Qed.

(** *** Yearly ranges *)

(** Days before a month of a year. *)
Definition monthStart (y m : Z) : Z := yearDay y m 1.

Lemma monthStart_next y m :
  1 ≤ m ≤ 11 → monthStart y (m + 1) = monthStart y m + daysIn y m.
Proof.
  intros Hm. unfold monthStart, yearDay, daysBefore, daysIn.
  assert (m = 1 ∨ m = 2 ∨ m = 3 ∨ m = 4 ∨ m = 5 ∨ m = 6 ∨ m = 7 ∨ m = 8 ∨ m = 9 ∨ m = 10 ∨ m = 11)
    as Hc by lia.
  destruct (isLeap y); repeat destruct Hc as [->|Hc]; try subst m; reflexivity.
Qed.

Lemma daysIn_pos y m : 1 ≤ m ≤ 12 → 28 ≤ daysIn y m.
Proof.
  intros Hm. unfold daysIn.
  assert (m = 1 ∨ m = 2 ∨ m = 3 ∨ m = 4 ∨ m = 5 ∨ m = 6 ∨ m = 7 ∨ m = 8 ∨ m = 9 ∨ m = 10 ∨ m = 11
          ∨ m = 12) as Hc by lia.
  destruct (isLeap y); repeat destruct Hc as [->|Hc]; try subst m; vm_compute; congruence.
Qed.

Lemma monthStart_mono y m m' :
  1 ≤ m < m' → m' ≤ 12 → monthStart y m + daysIn y m ≤ monthStart y m'.
Proof.
  intros Hm Hm'. remember (Z.to_nat (m' - m - 1)) as k eqn:Hk.
  revert m' Hm Hm' Hk. induction k as [|k IH]; intros m' Hm Hm' Hk.
  - replace m' with (m + 1) by lia. rewrite monthStart_next by lia. lia.
  - specialize (IH (m' - 1) ltac:(lia) ltac:(lia) ltac:(lia)).
    replace m' with (m' - 1 + 1) by lia. rewrite monthStart_next by lia.
    pose proof (daysIn_pos y (m' - 1)). lia.
Qed.

(** Dates in calendar order: month, day, time of day. *)
Definition date_lt (a b : Z * Z * Z) : bool :=
  let '(m, d, c) := a in let '(m', d', c') := b in
  (m <? m') || ((m =? m') && ((d <? d') || ((d =? d') && (c <? c')))).

Definition date_of (t : Z) : Z * Z * Z := (time_Month t, time_Day t, time_of_day t).

Lemma yearDay_lt y m d m' d' :
  1 ≤ m ≤ 12 → 1 ≤ m' ≤ 12 → 1 ≤ d ≤ daysIn y m → 1 ≤ d' ≤ daysIn y m' →
  yearDay y m d < yearDay y m' d' ↔ m < m' ∨ (m = m' ∧ d < d').
Proof.
  intros Hm Hm' Hd Hd'.
  assert (∀ a b, yearDay y a b = monthStart y a + (b - 1)) as E
    by (intros; unfold monthStart, yearDay; lia).
  rewrite !E. destruct (Z.lt_trichotomy m m') as [Hlt|[->|Hlt]]; [|lia|].
  - pose proof (monthStart_mono y m m'). lia.
  - pose proof (monthStart_mono y m' m). lia.
Qed.

Lemma yearDay_inj y m d m' d' :
  1 ≤ m ≤ 12 → 1 ≤ m' ≤ 12 → 1 ≤ d ≤ daysIn y m → 1 ≤ d' ≤ daysIn y m' →
  yearDay y m d = yearDay y m' d' ↔ m = m' ∧ d = d'.
Proof.
  intros. split; [|by intros [-> ->]]. intros E.
  pose proof (yearDay_lt y m d m' d'). pose proof (yearDay_lt y m' d' m d). lia.
Qed.

(** Two instants of one year are in the order of their dates. *)
Lemma time_Date_lt y m d c m' d' c' :
  1 ≤ m ≤ 12 → 1 ≤ m' ≤ 12 → 1 ≤ d ≤ daysIn y m → 1 ≤ d' ≤ daysIn y m' →
  0 ≤ c < DayLen → 0 ≤ c' < DayLen →
  ((daysToYear y + yearDay y m d) * DayLen + c <? (daysToYear y + yearDay y m' d') * DayLen + c')
  = date_lt (m, d, c) (m', d', c').
Proof.
  intros Hm Hm' Hd Hd' Hc Hc'. apply eq_true_iff_eq. unfold date_lt.
  rewrite !orb_true_iff, !andb_true_iff, !orb_true_iff, !andb_true_iff, !Z.ltb_lt, !Z.eqb_eq.
  pose proof (yearDay_lt y m d m' d' Hm Hm' Hd Hd') as H1.
  pose proof (yearDay_inj y m d m' d' Hm Hm' Hd Hd') as H2.
  pose proof (yearDay_lt y m' d' m d Hm' Hm Hd' Hd) as H3.
  destruct (Z.lt_trichotomy (yearDay y m d) (yearDay y m' d')) as [Hlt|[Heq|Hgt]].
  - split; [intros _; tauto|intros _; nia].
  - destruct (proj1 H2 Heq) as [-> ->]. lia.
  - split; [nia|]. intros Hx. lia.
Qed.

Lemma date_of_spec t :
  1 ≤ time_Month t ≤ 12 ∧ 1 ≤ time_Day t ≤ daysIn (time_Year t) (time_Month t) ∧
  t = (daysToYear (time_Year t) + yearDay (time_Year t) (time_Month t) (time_Day t)) * DayLen
      + time_of_day t.
Proof.
  unfold time_Year, time_Month, time_Day.
  pose proof (civil_of_day_spec (day_number t)) as Hc.
  destruct (civil_of_day (day_number t)) as [[y m] d]. cbn [fst snd].
  destruct Hc as (Hd & Hm & Hday & <-). split_and!; try lia. rewrite Hd. apply time_split.
Qed.

(** Yearly ranges.  A range that the parser accepts, whose days exist in the
    year of the instant, includes the instant exactly when its calendar date and
    time come strictly after the start and before the end in the order of month,
    day and time; a range from a later to an earlier month runs over New Year. *)
Theorem PeriodicInDate_order now fm fd fh tm td th p t :
  newPeriodicInDate now fm fd fh tm td th = inr p →
  pd_startDay p ≤ daysIn (time_Year t) (pd_startMonth p) →
  pd_endDay p ≤ daysIn (time_Year t) (pd_endMonth p) →
  let start := (pd_startMonth p, pd_startDay p, clock (pd_startHour p) (pd_startMinute p)) in
  let end_ := (pd_endMonth p, pd_endDay p, clock (pd_endHour p) (pd_endMinute p)) in
  PeriodicInDate_IncludeTime p t =
    if pd_startMonth p <=? pd_endMonth p
    then date_lt start (date_of t) && date_lt (date_of t) end_
    else date_lt start (date_of t) || date_lt (date_of t) end_.
Proof.
  unfold newPeriodicInDate. intros H. apply sum_bind_inr in H as (sm & Hsm & H).
  apply sum_bind_inr in H as (em & Hem & H). apply sum_bind_inr in H as ([sh smin] & Hs & H).
  apply sum_bind_inr in H as ([eh emin] & He & H). apply sum_bind_inr in H as (sd & Hsd & H).
  apply sum_bind_inr in H as (ed & Hed & H). case_match; [done|]. injection H as <-.
  apply hourMin_range in Hs, He. apply month_range in Hsm, Hem. apply day_range in Hsd, Hed.
  cbn [pd_startMonth pd_endMonth pd_startDay pd_endDay pd_startHour pd_endHour pd_startMinute
       pd_endMinute]. intros Hd1 Hd2. cbv zeta.
  unfold PeriodicInDate_IncludeTime. cbv zeta.
  cbn [pd_startMonth pd_endMonth pd_startDay pd_endDay pd_startHour pd_endHour pd_startMinute
       pd_endMinute pd_expandYear].
  destruct (date_of_spec t) as (Hm & Hday & Ht). destruct (time_split t) as [_ Htod].
  unfold date_of, time_After, time_Before, time_Date.
  assert (∀ h mi, 0 ≤ h ≤ 23 → 0 ≤ mi ≤ 59 → 0 ≤ clock h mi < DayLen) as Hclk
    by (intros; unfold clock, Hour, Minute, DayLen, Second; lia).
  assert (∀ x h mi, x + h * Hour + mi * Minute = x + clock h mi) as E
    by (intros; unfold clock; lia).
  rewrite <- (time_Date_lt (time_Year t) sm sd (clock sh smin)) by (lia || (apply Hclk; lia)).
  rewrite <- (time_Date_lt (time_Year t) _ _ _ em ed (clock eh emin)) by (lia || (apply Hclk; lia)).
  rewrite <- Ht, !E. by destruct (Z.ltb_spec em sm), (Z.leb_spec sm em); try lia.
Qed.

(** ** Examples *)

Definition night : PeriodicInHour := mkPeriodicInHour 22 6 30 0 true.
Definition weekend : PeriodicInWeekDay := mkPeriodicInWeekDay 5 1 18 8 0 0 true.
Definition winter : PeriodicInDate := mkPeriodicInDate 12 2 20 28 0 12 0 0 true.

(** 2024-02-29 23:15, a Thursday. *)
Definition leap_night : Z := time_Date 2024 2 29 23 15.

Lemma PeriodicInHour_arc_witness :
  newPeriodicInHour "22:30" "06:00" = inr night ∧
  PeriodicInHour_IncludeTime night leap_night =
    in_arc (clock 22 30) (clock 6 0) (time_of_day leap_night).
Proof.
  split; [reflexivity|]. apply (PeriodicInHour_arc "22:30" "06:00" night leap_night).
  reflexivity.
Defined.

Lemma PeriodicInWeekDay_arc_witness :
  PeriodicInWeekDay_IncludeTime weekend leap_night =
    in_arc (5 * DayLen + clock 18 0) (1 * DayLen + clock 8 0) (time_of_week leap_night).
Proof.
  apply (PeriodicInWeekDay_arc "5" "18:00" "1" "8:00" weekend leap_night). reflexivity.
Defined.

Lemma PeriodicInDate_order_witness :
  PeriodicInDate_IncludeTime winter leap_night =
    date_lt (12, 20, clock 0 0) (date_of leap_night) || date_lt (date_of leap_night) (2, 28, clock 12 0).
Proof.
  apply (PeriodicInDate_order 0 "12" "20" "00:00" "2" "28" "12:00" winter leap_night);
    [reflexivity|vm_compute; congruence..].
Defined.
