(* ===== verification/Acl.v ===== *)
(** * Access lists (src/acl)

    An access list is a set of networks that takes effect in the periods its
    schedules allow.  The manager maps names to lists; a scheduler goroutine
    re-evaluates the schedules of the lists it was given once a minute.  Lists
    are shared between the two by pointer, so they live in a store. *)

From S2P Require Import Prelude GoStd G53 Instances HttpCmd Cement Schedule.

Section acl.
Context {R : NetRadix}.

(** ** acl/errcode.go *)

Definition ErrAnyNonAcl : CmdError :=
  NewError AclErrCodeStart "any or none or all acl is read only".
Definition ErrAclExists : CmdError := NewError (AclErrCodeStart + 1) "acl already exists".
Definition ErrNonExistAcl : CmdError := NewError (AclErrCodeStart + 2) "operate non-exist acl".
Definition ErrBadAclName : CmdError := NewError (AclErrCodeStart + 7) "acl can't named with acl".

(** ** acl/acl.go *)

Record Acl : Type := mkAcl {
  acl_tree : nrtree unit;
  acl_take_effect : Z;
  acl_valid_time : option (list TimeRange);
  acl_invalid_time : option (list TimeRange);
}.

(** The compare-and-swap pair: 1 when valid, 0 when not. *)
Definition Acl_SetValid (valid : bool) (a : Acl) : Acl :=
  let take_effect :=
    if valid then (if acl_take_effect a =? 0 then 1 else acl_take_effect a)%Z
    else (if acl_take_effect a =? 1 then 0 else acl_take_effect a)%Z in
  mkAcl (acl_tree a) take_effect (acl_valid_time a) (acl_invalid_time a).

Definition Acl_CheckValid (now : Z) (a : Acl) : Acl :=
  match acl_invalid_time a, acl_valid_time a with
  | None, None => a
  | invalid, valid =>
      if match invalid with Some s => Schedule_IncludeTime s now | None => false end
         || match valid with Some s => negb (Schedule_IncludeTime s now) | None => false end
      then Acl_SetValid false a
      else Acl_SetValid true a
  end.

Definition Acl_Include (ip : IP) (a : Acl) : bool :=
  if (acl_take_effect a =? 0)%Z then false
  else match nr_SearchBest ip (acl_tree a) with Some _ => true | None => false end.

Fixpoint add_networks (ips : list string) (t : nrtree unit) : string + nrtree unit :=
  match ips with
  | [] => inr t
  | ip :: ips =>
      match nr_Add ip tt t with
      | inl err => inl ("address " +:+ ip +:+ " isn't valid: " +:+ err)
      | inr t => add_networks ips t
      end
  end.

Definition optional_schedule (now : Z) (l : list (string * string))
  : string + option (list TimeRange) :=
  match l with
  | [] => inr None
  | _ => s <~ newSchedule now l; inr (Some s)
  end.

Definition NewAcl (now : Z) (ips : list string)
  (validInterval invalidInterval : list (string * string)) : string + Acl :=
  tree <~ add_networks ips nr_New;
  valid <~ optional_schedule now validInterval;
  invalid <~ optional_schedule now invalidInterval;
  inr (Acl_CheckValid now (mkAcl tree 1 valid invalid)).

(** ** acl/aclmanager.go and acl_scheduler.go *)

Definition AnyAcl : string := "any".
Definition NoneAcl : string := "none".
Definition AllAcl : string := "all".
Definition BadName : string := "acl".

(** The store of lists, the manager's map, and the scheduler goroutine's slice;
    a stopped scheduler no longer receives. *)
Record AclManager : Type := mkAclManager {
  am_store : gmap nat Acl;
  am_acls : gmap string nat;
  am_scheduled : list nat;
  am_running : bool;
}.

Definition AclScheduler_Add (l : nat) (m : AclManager) : outcome AclManager :=
  if am_running m
  then Ret (mkAclManager (am_store m) (am_acls m) (am_scheduled m ++ [l]) true)
  else Hang "addAclChan has no receiver".

Fixpoint delete_first (l : nat) (ls : list nat) : list nat :=
  match ls with
  | [] => []
  | x :: ls => if bool_decide (x = l) then ls else x :: delete_first l ls
  end.

Definition AclScheduler_Delete (l : nat) (m : AclManager) : outcome AclManager :=
  if am_running m
  then Ret (mkAclManager (am_store m) (am_acls m) (delete_first l (am_scheduled m)) true)
  else Hang "deleteAclChan has no receiver".

Definition AclScheduler_Stop (m : AclManager) : outcome AclManager :=
  if am_running m then Ret (mkAclManager (am_store m) (am_acls m) [] false)
  else Hang "stopChan has no receiver".

(** The scheduler's timer fires. *)
Definition AclScheduler_tick (now : Z) (m : AclManager) : AclManager :=
  mkAclManager
    (foldl (λ st l, alter (Acl_CheckValid now) l st) (am_store m) (am_scheduled m))
    (am_acls m) (am_scheduled m) (am_running m).

Definition new_object (a : Acl) (m : AclManager) : nat * AclManager :=
  let l := fresh (dom (am_store m)) in
  (l, mkAclManager (<[l := a]> (am_store m)) (am_acls m) (am_scheduled m) (am_running m)).

Definition set_acls (acls : gmap string nat) (m : AclManager) : AclManager :=
  mkAclManager (am_store m) acls (am_scheduled m) (am_running m).

(** One configured list: name, networks, valid and invalid intervals. *)
Record AclConf : Type := mkAclConf {
  ac_Name : string;
  ac_IPs : list string;
  ac_ValidInterval : list (string * string);
  ac_InvalidInterval : list (string * string);
}.

Fixpoint reload_acls (now : Z) (confs : list AclConf) (aclMap : gmap string nat)
  (m : AclManager) : outcome AclManager :=
  match confs with
  | [] => Ret (set_acls aclMap m)
  | c :: confs =>
      match NewAcl now (ac_IPs c) (ac_ValidInterval c) (ac_InvalidInterval c) with
      | inl err => Panic ("load acl " +:+ ac_Name c +:+ " failed " +:+ err)
      | inr a =>
          let '(l, m) := new_object a m in
          m ← AclScheduler_Add l m;
          reload_acls now confs (<[ac_Name c := l]> aclMap) m
      end
  end.

(** A reload starts a new scheduler with an empty slice. *)
Definition AclManager_ReloadConfig (now : Z) (confs : list AclConf) (m : AclManager)
  : outcome AclManager :=
  reload_acls now confs ∅ (mkAclManager (am_store m) (am_acls m) [] true).

Definition AclManager_Find (aclName : string) (ip : IP) (m : AclManager) : bool :=
  let lowerAcl := strings_ToLower aclName in
  if bool_decide (lowerAcl = AnyAcl) then true
  else if bool_decide (lowerAcl = NoneAcl) then false
  else match am_acls m !! aclName with
       | Some l => match am_store m !! l with Some a => Acl_Include ip a | None => false end
       | None => false
       end.

Definition AclManager_add (now : Z) (aclName : string) (ips : list string) (m : AclManager)
  : outcome (AclManager * option CmdError) :=
  match NewAcl now ips [] [] with
  | inl err => Ret (m, Some (Error_AddDetail ErrInvalidNetwork err))
  | inr a =>
      let '(l, m) := new_object a m in
      m ← AclScheduler_Add l (set_acls (<[aclName := l]> (am_acls m)) m);
      Ret (m, None)
  end.

Definition AclManager_remove (aclName : string) (m : AclManager)
  : outcome (AclManager * option CmdError) :=
  match am_acls m !! aclName with
  | None => Ret (m, Some ErrNonExistAcl)
  | Some l =>
      m ← AclScheduler_Delete l (set_acls (delete aclName (am_acls m)) m);
      Ret (m, None)
  end.

Definition AclManager_update (now : Z) (aclName : string) (ips : list string)
  (m : AclManager) : outcome (AclManager * option CmdError) :=
  r ← AclManager_remove aclName m;
  let '(m, err) := r in
  match err with
  | Some e => Ret (m, Some e)
  | None => AclManager_add now aclName ips m
  end.

Definition AclManager_hasAcl (aclName : string) (m : AclManager) : bool :=
  bool_decide (is_Some (am_acls m !! aclName)).

(** ** acl/cmdhandler.go *)

Definition isReadOnly (name : string) : bool :=
  bool_decide (strings_ToLower name ∈ [AnyAcl; NoneAcl; AllAcl]).

Definition checkNameValid (name : string) : option CmdError :=
  let n := strings_ToLower name in
  if bool_decide (n = BadName) then Some ErrBadAclName
  else if isReadOnly n then Some ErrAnyNonAcl
  else None.

Definition AclManager_addAcl (now : Z) (name : string) (networks : list string)
  (m : AclManager) : outcome (AclManager * option CmdError) :=
  match checkNameValid name with
  | Some err => Ret (m, Some err)
  | None =>
      if AclManager_hasAcl name m then Ret (m, Some ErrAclExists)
      else AclManager_add now name networks m
  end.

Definition AclManager_deleteAcl (name : string) (m : AclManager)
  : outcome (AclManager * option CmdError) :=
  if isReadOnly name then Ret (m, Some ErrAnyNonAcl) else AclManager_remove name m.

Definition AclManager_updateAcl (now : Z) (name : string) (networks : list string)
  (m : AclManager) : outcome (AclManager * option CmdError) :=
  if isReadOnly name then Ret (m, Some ErrAnyNonAcl)
  else AclManager_update now name networks m.

Inductive AclCmd : Type :=
  | AddAcl (name : string) (networks : list string)
  | DeleteAcl (name : string)
  | UpdateAcl (name : string) (networks : list string).

Definition AclManager_HandleCmd (now : Z) (cmd : AclCmd) (m : AclManager)
  : outcome (AclManager * option CmdError) :=
  match cmd with
  | AddAcl name networks => AclManager_addAcl now name networks m
  | DeleteAcl name => AclManager_deleteAcl name m
  | UpdateAcl name networks => AclManager_updateAcl now name networks m
  end.
End acl.

(** ** Properties *)

Section acl_props.
Context {R : NetRadix} {RL : NetRadixLaws R}.
Implicit Types (m : AclManager) (a : Acl).

(** Whether a list's schedules let it take effect at an instant. *)
Definition schedule_allows a (now : Z) : bool :=
  match acl_invalid_time a with Some s => negb (Schedule_IncludeTime s now) | None => true end
  && match acl_valid_time a with Some s => Schedule_IncludeTime s now | None => true end.

(** Whether a network of the list holds the address. *)
Definition holds_ip a (ip : IP) : Prop :=
  ∃ net, (net, tt) ∈ nr_nets (acl_tree a) ∧ net_contains net ip = true.

Definition effect_ok a : Prop := acl_take_effect a = 0%Z ∨ acl_take_effect a = 1%Z.

(** A list without schedules is always in effect. *)
Definition unscheduled_on a : Prop :=
  acl_invalid_time a = None → acl_valid_time a = None → acl_take_effect a = 1%Z.

Definition acl_ok a : Prop := effect_ok a ∧ unscheduled_on a.

Lemma CheckValid_effect now a :
  acl_ok a →
  acl_take_effect (Acl_CheckValid now a) = (if schedule_allows a now then 1 else 0)%Z.
Proof.
  intros [He Hu]. unfold Acl_CheckValid, schedule_allows, Acl_SetValid.
  destruct (acl_invalid_time a) as [si|] eqn:Ei, (acl_valid_time a) as [sv|] eqn:Ev; cbn;
    try (rewrite Hu by done; done);
    repeat match goal with |- context [Schedule_IncludeTime ?s ?n] =>
      destruct (Schedule_IncludeTime s n) end; cbn;
    destruct He as [->| ->]; done.
Qed.

Lemma CheckValid_frame now a :
  acl_tree (Acl_CheckValid now a) = acl_tree a ∧
  acl_valid_time (Acl_CheckValid now a) = acl_valid_time a ∧
  acl_invalid_time (Acl_CheckValid now a) = acl_invalid_time a.
Proof. unfold Acl_CheckValid, Acl_SetValid. repeat case_match; simpl; auto. Qed.

Lemma schedule_allows_CheckValid now a t :
  schedule_allows (Acl_CheckValid now a) t = schedule_allows a t.
Proof.
  unfold schedule_allows. destruct (CheckValid_frame now a) as (_ & -> & ->). done.
Qed.

Lemma CheckValid_ok now a : acl_ok a → acl_ok (Acl_CheckValid now a).
Proof.
  intros Ha. pose proof (CheckValid_effect now a Ha) as E. split.
  - unfold effect_ok. rewrite E. case_match; auto.
  - unfold unscheduled_on. destruct (CheckValid_frame now a) as (_ & -> & ->).
    intros Hi Hv. rewrite E. unfold schedule_allows. by rewrite Hi, Hv.
Qed.

(** A list whose schedules were checked at [now] includes the addresses of its
    networks when the schedules allow it, and nothing otherwise. *)
Lemma Include_checked now a ip :
  acl_ok a →
  Acl_Include ip (Acl_CheckValid now a) = true ↔ schedule_allows a now = true ∧ holds_ip a ip.
Proof.
  intros Ha. unfold Acl_Include. rewrite CheckValid_effect by done.
  destruct (CheckValid_frame now a) as (-> & _).
  destruct (schedule_allows a now); cbn; [|naive_solver].
  destruct (nr_SearchBest ip (acl_tree a)) as [[]|] eqn:E.
  - apply nr_SearchBest_sound in E as (net & ? & ?). split; [|done]. intros _. split; [done|].
    by exists net.
  - split; [done|]. intros [_ (net & Hn & Hc)].
    destruct (nr_SearchBest_complete ip (acl_tree a) net tt Hn Hc). congruence.
Qed.

Lemma add_networks_nets ips t t' :
  add_networks ips t = inr t' →
  (∀ net, (net, tt) ∈ nr_nets t' ↔
     (net, tt) ∈ nr_nets t ∨ ∃ s, s ∈ ips ∧ net_parse s = inr net).
Proof.
  revert t. induction ips as [|s ips IH]; cbn; intros t E net.
  { injection E as <-. split; [auto|]. intros [?|(s & []%elem_of_nil & _)]. done. }
  destruct (nr_Add s tt t) as [err|t1] eqn:Ea; [done|].
  destruct (net_parse s) as [err|net0] eqn:Ep; [by rewrite (nr_Add_err _ _ _ _ Ep) in Ea|].
  destruct (nr_Add_ok s net0 tt t Ep) as (t2 & Et2 & Hn). rewrite Ea in Et2. simplify_eq.
  rewrite (IH _ E net), Hn. setoid_rewrite elem_of_cons. split.
  - intros [[[= ->]|[? _]]|(s' & ? & ?)]; [right; eauto|by left|right; eauto].
  - intros [?|(s' & [->|?] & ?)]; [|left; left; congruence|by right; eauto].
    destruct (decide (net = net0)) as [->|]; auto.
Qed.

(** *** The manager *)

Record mgr_inv m : Prop := {
  mi_running : am_running m = true;
  mi_nodup : NoDup (am_scheduled m);
  mi_stored l : l ∈ am_scheduled m → is_Some (am_store m !! l);
  mi_ok l a : am_store m !! l = Some a → acl_ok a;
  mi_named n l : am_acls m !! n = Some l → l ∈ am_scheduled m;
  mi_inj n n' l : am_acls m !! n = Some l → am_acls m !! n' = Some l → n = n';
}.

Lemma tick_lookup now ls (st : gmap nat Acl) l :
  NoDup ls →
  foldl (λ st l, alter (Acl_CheckValid now) l st) st ls !! l =
  if decide (l ∈ ls) then Acl_CheckValid now <$> st !! l else st !! l.
Proof.
  revert st. induction ls as [|x ls IH]; intros st Hnd; cbn.
  { rewrite decide_False; [done|set_solver]. }
  apply NoDup_cons in Hnd as [Hx Hnd]. rewrite IH by done.
  destruct (decide (l = x)) as [->|Hne].
  - rewrite decide_False by done. rewrite decide_True by set_solver.
    apply lookup_alter_eq.
  - rewrite lookup_alter_ne by done. do 2 case_decide; set_solver.
Qed.

Lemma delete_first_elem l ls x : NoDup ls → x ∈ delete_first l ls ↔ x ∈ ls ∧ x ≠ l.
Proof.
  induction ls as [|y ls IH]; cbn; [set_solver|]. rewrite NoDup_cons. intros [Hy Hnd].
  case_bool_decide; subst; [set_solver|]. rewrite !elem_of_cons, IH by done. set_solver.
Qed.

Lemma delete_first_NoDup l ls : NoDup ls → NoDup (delete_first l ls).
Proof.
  induction ls as [|y ls IH]; cbn; [done|]. intros Hnd. pose proof Hnd as [Hy Hl]%NoDup_cons.
  case_bool_decide; [done|]. apply NoDup_cons. split; [|auto].
  rewrite delete_first_elem by done. tauto.
Qed.

Lemma tick_inv now m : mgr_inv m → mgr_inv (AclScheduler_tick now m).
Proof.
  intros []. split; cbn; try done.
  - intros l Hl. rewrite tick_lookup by done. case_decide; [|by auto]. rewrite fmap_is_Some. auto.
  - intros l a. rewrite tick_lookup by done. case_decide; [|by eauto].
    intros (a' & Ha & ->)%fmap_Some. eauto using CheckValid_ok.
Qed.

Lemma remove_inv name m m' err :
  mgr_inv m → AclManager_remove name m = Ret (m', err) → mgr_inv m'.
Proof.
  intros Hm. unfold AclManager_remove. destruct (am_acls m !! name) as [l|] eqn:El.
  2: { by intros [= <- _]. }
  unfold AclScheduler_Delete. cbn. rewrite (mi_running m) by done. intros [= <- _].
  destruct Hm. split; cbn; try done.
  - by apply delete_first_NoDup.
  - intros x Hx. apply delete_first_elem in Hx; naive_solver.
  - intros n x Hn. apply lookup_delete_Some in Hn as [Hne Hn].
    apply delete_first_elem; [done|]. split; [eauto|]. intros ->. naive_solver.
  - intros n n' x H1 H2. apply lookup_delete_Some in H1 as [_ H1].
    apply lookup_delete_Some in H2 as [_ H2]. eauto.
Qed.

Lemma NewAcl_ok now ips v i a : NewAcl now ips v i = inr a → acl_ok a.
Proof.
  unfold NewAcl. intros (t & _ & H)%sum_bind_inr. apply sum_bind_inr in H as (v' & _ & H).
  apply sum_bind_inr in H as (i' & _ & H). injection H as <-.
  apply CheckValid_ok. split; [by right|done].
Qed.

Lemma register_inv name a m m1 l :
  mgr_inv m → acl_ok a → new_object a m = (l, m1) →
  mgr_inv (mkAclManager (am_store m1) (<[name := l]> (am_acls m)) (am_scheduled m ++ [l]) true)
  ∧ l ∉ am_scheduled m ∧ am_store m1 = <[l := a]> (am_store m) ∧ am_store m !! l = None ∧
  am_acls m1 = am_acls m ∧ am_scheduled m1 = am_scheduled m ∧ am_running m1 = am_running m.
Proof.
  intros [] Ha. unfold new_object. intros [= <- <-]. cbn.
  set (l := fresh (dom (am_store m))).
  assert (am_store m !! l = None) as Hl by (apply not_elem_of_dom, is_fresh).
  assert (l ∉ am_scheduled m) as Hns.
  { intros Hin. destruct (mi_stored0 l Hin). congruence. }
  split; [|by split_and!]. split; cbn; try done.
  - apply NoDup_app. split_and!; [done|set_solver|apply NoDup_singleton].
  - intros x [Hx|Hx%list_elem_of_singleton]%elem_of_app.
    + apply lookup_insert_is_Some'. auto.
    + subst. rewrite lookup_insert_eq. eauto.
  - intros x b [[<- <-]|[_ Hb]]%lookup_insert_Some; eauto.
  - intros n x [[_ <-]|[_ Hx]]%lookup_insert_Some; set_solver.
  - intros n n' x [[<- <-]|[Hn Hx]]%lookup_insert_Some [[<- E]|[Hn' Hx']]%lookup_insert_Some;
      eauto; exfalso; subst; eauto.
Qed.

Lemma add_inv now name ips m m' err :
  mgr_inv m → AclManager_add now name ips m = Ret (m', err) → mgr_inv m'.
Proof.
  intros Hm. unfold AclManager_add. destruct (NewAcl now ips [] []) as [e|a] eqn:Ea.
  { by intros [= <- _]. }
  apply NewAcl_ok in Ea. destruct (new_object a m) as [l m1] eqn:En.
  destruct (register_inv name a m m1 l Hm Ea En) as (Hi & _ & Hst & _ & Hac & Hsc & Hr).
  unfold AclScheduler_Add; cbn. rewrite Hr, (mi_running m), Hac, Hsc by done.
  by intros [= <- _].
Qed.

(** What can happen to the manager while its scheduler runs. *)
Inductive acl_step : AclManager → AclManager → Prop :=
  | acl_cmd now cmd m m' err :
      AclManager_HandleCmd now cmd m = Ret (m', err) → acl_step m m'
  | acl_tick now m : acl_step m (AclScheduler_tick now m).

Lemma reload_acls_inv now confs aclMap m m' :
  mgr_inv (set_acls aclMap m) → reload_acls now confs aclMap m = Ret m' → mgr_inv m'.
Proof.
  revert aclMap m. induction confs as [|c confs IH]; cbn [reload_acls]; intros aclMap m Hm.
  { by intros [= <-]. }
  destruct (NewAcl _ _ _ _) as [e|a] eqn:Ea; [done|]. apply NewAcl_ok in Ea.
  destruct (new_object a m) as [l m1] eqn:En.
  assert (new_object a (set_acls aclMap m) = (l, set_acls aclMap m1)) as En'.
  { unfold new_object in *. cbn in *. injection En as <- <-. done. }
  destruct (register_inv (ac_Name c) a _ _ l Hm Ea En') as (Hi & _ & _ & _ & _ & Hsc & Hr).
  pose proof (mi_running _ Hm) as Hrun. cbn in Hi, Hsc, Hr, Hrun.
  unfold AclScheduler_Add. rewrite Hr, Hrun, Hsc, bind_Ret.
  apply IH. exact Hi.
Qed.

Lemma ReloadConfig_inv now confs m m' :
  mgr_inv m → AclManager_ReloadConfig now confs m = Ret m' → mgr_inv m'.
Proof.
  intros []. apply reload_acls_inv. split; cbn; try done.
  - constructor.
  - by intros l ?%elem_of_nil.
Qed.

Lemma acl_step_inv m m' : mgr_inv m → acl_step m m' → mgr_inv m'.
Proof.
  intros Hm Hs. destruct Hs as [now cmd m0 m1 err E|now m0]; [|by apply tick_inv].
  destruct cmd; cbn in E; unfold AclManager_addAcl, AclManager_deleteAcl,
    AclManager_updateAcl, AclManager_update in E; repeat case_match; simplify_eq; try done;
    eauto using add_inv, remove_inv.
  apply outcome_bind_ret in E as ([m2 e2] & E2 & E). apply remove_inv in E2; [|done].
  destruct e2; simplify_eq; eauto using add_inv.
Qed.

(** C21: what a query's access check answers.  In every state the manager reaches
    from a reload through commands and timer ticks, right after a tick at [now]
    the list [any] matches every address, [none] no address, an unknown name no
    address, and a known list exactly the addresses of its networks while its
    schedules allow it at [now]. *)
Theorem Find_after_tick now0 confs m0 m1 m now name ip :
  mgr_inv m0 → AclManager_ReloadConfig now0 confs m0 = Ret m1 → rtc acl_step m1 m →
  AclManager_Find name ip (AclScheduler_tick now m) = true ↔
    strings_ToLower name = AnyAcl ∨
    (strings_ToLower name ≠ NoneAcl ∧
     ∃ l a, am_acls m !! name = Some l ∧ am_store m !! l = Some a ∧
            schedule_allows a now = true ∧ holds_ip a ip).
Proof.
  intros H0 E Hrtc. apply ReloadConfig_inv in E; [|done].
  assert (mgr_inv m) as Hm by (induction Hrtc; eauto using acl_step_inv). clear Hrtc E H0.
  unfold AclManager_Find. case_bool_decide as Hany; [naive_solver|].
  case_bool_decide as Hnone; [naive_solver|]. cbn.
  destruct (am_acls m !! name) as [l|] eqn:El; [|naive_solver].
  pose proof (mi_named m Hm name l El) as Hs.
  rewrite tick_lookup by apply Hm. rewrite decide_True by done.
  destruct (mi_stored m Hm l Hs) as [a Ha]. rewrite Ha; cbn.
  rewrite Include_checked by (by eapply mi_ok). naive_solver.
Qed.

Lemma NewAcl_plain now ips a :
  NewAcl now ips [] [] = inr a →
  acl_take_effect a = 1%Z ∧ (∀ ip, holds_ip a ip ↔
    ∃ s net, s ∈ ips ∧ net_parse s = inr net ∧ net_contains net ip = true).
Proof.
  unfold NewAcl. intros (t & Ht & H)%sum_bind_inr. cbn in H. injection H as <-. cbn.
  split; [done|]. intros ip. unfold holds_ip. cbn.
  setoid_rewrite (add_networks_nets ips nr_New t Ht). rewrite nr_nets_New. split.
  - intros (net & [[]%elem_of_nil|(s & ? & ?)] & ?). eauto.
  - intros (s & net & ? & ? & ?). eauto 6.
Qed.

(** Adding a list.  A successful add command makes the new name match exactly
    the addresses of the given networks, leaves every other name's answer as it
    was, and never touches the read-only names. *)
Theorem addAcl_find now name networks m m' :
  mgr_inv m → AclManager_addAcl now name networks m = Ret (m', None) →
  isReadOnly name = false ∧ am_acls m !! name = None ∧
  (∀ ip, AclManager_Find name ip m' = true ↔
     ∃ s net, s ∈ networks ∧ net_parse s = inr net ∧ net_contains net ip = true) ∧
  (∀ name' ip, name' ≠ name → AclManager_Find name' ip m' = AclManager_Find name' ip m).
Proof.
  intros Hm. unfold AclManager_addAcl. destruct (checkNameValid name) eqn:Ec; [done|].
  destruct (AclManager_hasAcl name m) eqn:Eh; [done|]. intros E.
  assert (strings_ToLower name ≠ AnyAcl ∧ strings_ToLower name ≠ NoneAcl ∧
          isReadOnly name = false) as (Hany & Hnone & Hro).
  { unfold checkNameValid in Ec. case_bool_decide; [done|].
    destruct (isReadOnly (strings_ToLower name)) eqn:Er; [done|].
    unfold isReadOnly in *. rewrite ToLower_idemp in Er.
    apply bool_decide_eq_false in Er. split_and!; [set_solver..|]. by apply bool_decide_eq_false. }
  unfold AclManager_hasAcl in Eh. apply bool_decide_eq_false in Eh. rewrite <- eq_None_not_Some in Eh.
  split_and!; [done|done| |]; unfold AclManager_add in E;
    destruct (NewAcl now networks [] []) as [e|a] eqn:Ea; try done;
    pose proof (NewAcl_ok _ _ _ _ _ Ea) as Hok; destruct (new_object a m) as [l m1] eqn:En;
    destruct (register_inv name a m m1 l Hm Hok En) as (_ & Hns & Hst & _ & Hac & Hsc & Hr);
    unfold AclScheduler_Add in E; cbn in E; rewrite Hr, (mi_running m) in E by done;
    injection E as <-; cbn; rewrite Hst, Hac.
  - intros ip. unfold AclManager_Find. rewrite !bool_decide_eq_false_2 by done. cbn.
    rewrite !lookup_insert_eq. destruct (NewAcl_plain _ _ _ Ea) as [He Hh].
    rewrite <- Hh. unfold Acl_Include. rewrite He. cbn.
    destruct (nr_SearchBest ip (acl_tree a)) as [[]|] eqn:Es.
    + apply nr_SearchBest_sound in Es as (net & ? & ?). split; [|done]. intros _. by exists net.
    + split; [done|]. intros (net & Hn & Hc).
      destruct (nr_SearchBest_complete ip (acl_tree a) net tt Hn Hc). congruence.
  - intros name' ip Hne. unfold AclManager_Find. cbn. rewrite lookup_insert_ne by done.
    destruct (am_acls m !! name') as [l'|] eqn:El'; [|done].
    rewrite lookup_insert_ne; [done|]. intros ->. by apply Hns, (mi_named m Hm name').
Qed.

(** An update with a malformed network loses the list.  [update] removes the
    old list before it looks at the new networks, so the command reports the bad
    network and the name, which existed, is gone: it now matches no address. *)
Theorem updateAcl_bad_network now name networks err m l ip :
  mgr_inv m → isReadOnly name = false → am_acls m !! name = Some l →
  add_networks networks nr_New = inl err →
  ∃ m', AclManager_updateAcl now name networks m =
          Ret (m', Some (Error_AddDetail ErrInvalidNetwork err)) ∧
        am_acls m' !! name = None ∧ AclManager_Find name ip m' = false.
Proof.
  intros Hm Hro Hl Hbad. unfold AclManager_updateAcl, AclManager_update, AclManager_remove.
  rewrite Hro, Hl. unfold AclScheduler_Delete. cbn. rewrite (mi_running m Hm). cbn.
  unfold AclManager_add, NewAcl. rewrite Hbad. cbn. eexists. split; [done|]. cbn.
  rewrite lookup_delete_eq. split; [done|]. unfold AclManager_Find. cbn.
  rewrite lookup_delete_eq. unfold isReadOnly in Hro. apply bool_decide_eq_false in Hro.
  rewrite bool_decide_eq_false_2 by set_solver. by case_bool_decide.
Qed.
End acl_props.

(** ** Examples *)

Section acl_examples.

Definition mgr0 : AclManager := mkAclManager ∅ ∅ [] true.

Lemma mgr0_inv : mgr_inv mgr0.
Proof.
  split; cbn; try done; [constructor|by intros l ?%elem_of_nil].
Qed.

Definition mgr_of (o : outcome AclManager) : AclManager :=
  match o with Ret m => m | _ => mgr0 end.

Definition night_conf : AclConf := mkAclConf "lab" ["192.0.2"] [("22:30", "06:00")] [].
Definition mgr1 : AclManager := mgr_of (AclManager_ReloadConfig 0 [night_conf] mgr0).

Lemma mgr1_reload : AclManager_ReloadConfig 0 [night_conf] mgr0 = Ret mgr1.
Proof. by_eval. Qed.

Lemma Find_after_tick_witness :
  AclManager_Find "lab" [192; 0; 2; 7]%Z (AclScheduler_tick leap_night mgr1) = true ↔
    strings_ToLower "lab" = AnyAcl ∨
    (strings_ToLower "lab" ≠ NoneAcl ∧
     ∃ l a, am_acls mgr1 !! "lab" = Some l ∧ am_store mgr1 !! l = Some a ∧
            schedule_allows a leap_night = true ∧ holds_ip a [192; 0; 2; 7]%Z).
Proof.
  apply (Find_after_tick 0 [night_conf] mgr0 mgr1 mgr1 leap_night "lab" [192; 0; 2; 7]%Z).
  - apply mgr0_inv.
  - apply mgr1_reload.
  - apply rtc_refl.
Defined.

Definition mgr2 : AclManager :=
  match AclManager_addAcl 0 "office" ["10.1"; "10.2"] mgr1 with Ret (m, _) => m | _ => mgr0 end.

Lemma addAcl_find_witness :
  AclManager_Find "office" [10; 2; 0; 1]%Z mgr2 = true ↔
  ∃ s net, s ∈ ["10.1"; "10.2"] ∧ net_parse s = inr net ∧
           net_contains net [10; 2; 0; 1]%Z = true.
Proof.
  refine (proj1 (proj2 (proj2 (addAcl_find 0 "office" ["10.1"; "10.2"] mgr1 mgr2 _ _)))
            [10; 2; 0; 1]%Z).
  - exact (ReloadConfig_inv _ _ _ _ mgr0_inv mgr1_reload).
  - by_eval.
Defined.

Lemma updateAcl_bad_network_witness :
  ∃ m' e, AclManager_updateAcl 0 "lab" ["10.x"] mgr1 = Ret (m', Some e) ∧
          am_acls m' !! "lab" = None.
Proof.
  destruct (updateAcl_bad_network 0 "lab" ["10.x"] "address 10.x isn't valid: invalid network"
              mgr1 0 [10; 1; 0; 1]%Z) as (m' & E & H & _).
  - exact (ReloadConfig_inv _ _ _ _ mgr0_inv mgr1_reload).
  - by_eval.
  - by_eval.
  - by_eval.
  - eauto.
Defined.
End acl_examples.
