(* ===== verification/RateLimit.v ===== *)
(** * Rate limiting and response filtering (src/filter)

    Access records count the queries of an address or a name in windows of one
    second.  Address records live in an LRU store of bounded size and are
    limited by the closest network; name records hang in a domain tree per view
    and are shared by pointer.  The filter chain runs the limits before the rest
    of the chain and may drop failed responses after it. *)

From S2P Require Import Prelude GoList GoStd G53 Instances Core HttpCmd Cement.
From Stdlib Require Import Ascii.

(** ** ratelimit/ip_access_record.go *)

Definition zeroV6Key : list Z := replicate 16 0%Z.

Definition ipToV6Key (ip : IP) : list Z :=
  match IP_To16 ip with Some b => b | None => zeroV6Key end.

Record IPAccessRecord : Type := mkIPRecord {
  ir_ip : IP;
  ir_token : Z;
  ir_start : Z;
}.

Definition IPAccessRecord_Init (now : Z) (r : IPAccessRecord) : IPAccessRecord :=
  mkIPRecord (ir_ip r) 1 now.

Definition newIPAccessRecord (now : Z) (ip : IP) : IPAccessRecord :=
  IPAccessRecord_Init now (mkIPRecord ip 0 0).

Definition IPAccessRecord_Expired (now : Z) (r : IPAccessRecord) : bool :=
  (Second <? now - ir_start r)%Z.

Definition IPAccessRecord_IsAccessAllowed (now limit : Z) (r : IPAccessRecord)
  : IPAccessRecord * bool :=
  if IPAccessRecord_Expired now r then (IPAccessRecord_Init now r, true)
  else if (limit <? u32 (ir_token r + 1))%Z then (r, false)
  else (mkIPRecord (ir_ip r) (u32 (ir_token r + 1)) (ir_start r), true).

Definition ipToUint32 (b : IP) : outcome Z :=
  match IP_To4 b with Some b4 => le_uint32 b4 | None => Panic "index out of range" end.

Record IPAccessRecordStore : Type := mkStore {
  rs_MaxCount : Z;
  rs_ll : golist IPAccessRecord;
  rs_v4Records : gmap Z nat;
  rs_v6Records : gmap (list Z) nat;
}.

Definition newIPAccessRecordStore (maxCount : Z) : IPAccessRecordStore :=
  mkStore maxCount list_New ∅ ∅.

Definition set_ll (ll : golist IPAccessRecord) (c : IPAccessRecordStore) : IPAccessRecordStore :=
  mkStore (rs_MaxCount c) ll (rs_v4Records c) (rs_v6Records c).

Definition IPAccessRecordStore_getElem (ip : IP) (c : IPAccessRecordStore)
  : outcome (option nat) :=
  match IP_To4 ip with
  | Some _ => k ← ipToUint32 ip; Ret (rs_v4Records c !! k)
  | None => Ret (rs_v6Records c !! ipToV6Key ip)
  end.

Definition IPAccessRecordStore_removeElement (e : nat * IPAccessRecord)
  (c : IPAccessRecordStore) : outcome IPAccessRecordStore :=
  let ll := list_Remove e.1 (rs_ll c) in
  let ip := ir_ip e.2 in
  match IP_To4 ip with
  | Some _ =>
      k ← ipToUint32 ip;
      Ret (mkStore (rs_MaxCount c) ll (delete k (rs_v4Records c)) (rs_v6Records c))
  | None =>
      Ret (mkStore (rs_MaxCount c) ll (rs_v4Records c)
             (delete (ipToV6Key ip) (rs_v6Records c)))
  end.

Definition IPAccessRecordStore_removeOldest (c : IPAccessRecordStore)
  : outcome IPAccessRecordStore :=
  match list_Back (rs_ll c) with
  | Some ele => IPAccessRecordStore_removeElement ele c
  | None => Ret c
  end.

Definition IPAccessRecordStore_Add (r : IPAccessRecord) (c : IPAccessRecordStore)
  : outcome IPAccessRecordStore :=
  hit ← IPAccessRecordStore_getElem (ir_ip r) c;
  match hit with
  | Some elem => Ret (set_ll (list_SetValue elem r (list_MoveToFront elem (rs_ll c))) c)
  | None =>
      let '(elem, ll) := list_PushFront r (rs_ll c) in
      c ← match IP_To4 (ir_ip r) with
          | Some _ =>
              k ← ipToUint32 (ir_ip r);
              Ret (mkStore (rs_MaxCount c) ll (<[k := elem]> (rs_v4Records c)) (rs_v6Records c))
          | None =>
              Ret (mkStore (rs_MaxCount c) ll (rs_v4Records c)
                     (<[ipToV6Key (ir_ip r) := elem]> (rs_v6Records c)))
          end;
      if negb (rs_MaxCount c =? 0)%Z && (rs_MaxCount c <? Z.of_nat (list_Len (rs_ll c)))%Z
      then IPAccessRecordStore_removeOldest c
      else Ret c
  end.

(** [Get] returns the element too: the caller writes to the record through it. *)
Definition IPAccessRecordStore_Get (ip : IP) (c : IPAccessRecordStore)
  : outcome (IPAccessRecordStore * option (nat * IPAccessRecord)) :=
  hit ← IPAccessRecordStore_getElem ip c;
  match hit with
  | Some elem =>
      r ← from_option_panic "nil element value" (list_Value elem (rs_ll c));
      Ret (set_ll (list_MoveToFront elem (rs_ll c)) c, Some (elem, r))
  | None => Ret (c, None)
  end.

Definition IPAccessRecordStore_Remove (ip : IP) (c : IPAccessRecordStore)
  : outcome IPAccessRecordStore :=
  hit ← IPAccessRecordStore_getElem ip c;
  match hit with
  | Some elem =>
      r ← from_option_panic "nil element value" (list_Value elem (rs_ll c));
      IPAccessRecordStore_removeElement (elem, r) c
  | None => Ret c
  end.

Definition IPAccessRecordStore_Len (c : IPAccessRecordStore) : nat := list_Len (rs_ll c).

(** ** ratelimit/ip_throtter.go *)

Definition maxIPAccessRecordCount : Z := 5000.

Section ip_throttler.
Context {R : NetRadix}.

Record throttlerEntry : Type := mkThrottler {
  te_records : IPAccessRecordStore;
  te_networks : nrtree Z;
}.

Fixpoint load_limits (limits : list (string * Z)) (t : nrtree Z) : outcome (nrtree Z) :=
  match limits with
  | [] => Ret t
  | (network, limit) :: limits =>
      match nr_Add network limit t with
      | inl err => Panic ("load ip " +:+ network +:+ " failed: " +:+ err)
      | inr t => load_limits limits t
      end
  end.

Definition IPThrottler_ReloadConfig (limits : list (string * Z)) (t : throttlerEntry)
  : outcome throttlerEntry :=
  networks ← load_limits limits nr_New;
  Ret (mkThrottler (newIPAccessRecordStore maxIPAccessRecordCount) networks).

Definition throttlerEntry_isIpAllowed (now : Z) (ip : IP) (t : throttlerEntry)
  : outcome (throttlerEntry * bool) :=
  match nr_SearchBest ip (te_networks t) with
  | None => Ret (t, true)
  | Some limit =>
      r ← IPAccessRecordStore_Get ip (te_records t);
      let '(records, found) := r in
      match found with
      | None =>
          records ← IPAccessRecordStore_Add (newIPAccessRecord now ip) records;
          Ret (mkThrottler records (te_networks t), true)
      | Some (elem, record) =>
          let '(record, ok) := IPAccessRecord_IsAccessAllowed now limit record in
          Ret (mkThrottler (set_ll (list_SetValue elem record (rs_ll records)) records)
                 (te_networks t), ok)
      end
  end.

Definition IPThrottler_IsIPAllowed (now : Z) (ip : IP) (t : throttlerEntry)
  : outcome (throttlerEntry * bool) :=
  throttlerEntry_isIpAllowed now ip t.

(** ratelimit/cmdhandler.go: the address limits.  [cidr] is what [net.ParseCIDR]
    says of the network: an error text or the canonical network. *)
Definition ErrAddIPRateLimitFailed : CmdError :=
  NewError (RateLimitErrCodeStart + 3) "add ip rate limit failed".
Definition ErrDeleteIPRateLimitFailed : CmdError :=
  NewError (RateLimitErrCodeStart + 4) "delete ip rate limit failed".
Definition ErrUpdateIPRateLimitFailed : CmdError :=
  NewError (RateLimitErrCodeStart + 5) "update ip rate limit failed".

Definition set_networks (n : nrtree Z) (t : throttlerEntry) : throttlerEntry :=
  mkThrottler (te_records t) n.

Definition IPThrottler_addIpRateLimit (cidr : string + string) (ratelimit : Z)
  (t : throttlerEntry) : throttlerEntry * option CmdError :=
  match cidr with
  | inl err => (t, Some (Error_AddDetail ErrInvalidNetwork err))
  | inr ipnet =>
      match nr_Add ipnet ratelimit (te_networks t) with
      | inl err => (t, Some (Error_AddDetail ErrAddIPRateLimitFailed err))
      | inr n => (set_networks n t, None)
      end
  end.

Definition IPThrottler_deleteIpRateLimit (network : string) (t : throttlerEntry)
  : throttlerEntry * option CmdError :=
  match nr_Delete network (te_networks t) with
  | inl err => (t, Some (Error_AddDetail ErrDeleteIPRateLimitFailed err))
  | inr n => (set_networks n t, None)
  end.

Definition IPThrottler_updateIpRateLimit (cidr : string + string) (network : string)
  (ratelimit : Z) (t : throttlerEntry) : throttlerEntry * option CmdError :=
  match cidr with
  | inl err => (t, Some (Error_AddDetail ErrInvalidNetwork err))
  | inr _ =>
      match nr_Delete network (te_networks t) with
      | inl err => (t, Some (Error_AddDetail ErrUpdateIPRateLimitFailed err))
      | inr n =>
          match nr_Add network ratelimit n with
          | inl err => (set_networks n t, Some (Error_AddDetail ErrUpdateIPRateLimitFailed err))
          | inr n => (set_networks n t, None)
          end
      end
  end.
End ip_throttler.

(** ** ratelimit/name_access_record.go *)

Inductive NameMatchType : Type := exactMatch | zoneMatch.

#[export] Instance NameMatchType_eq_dec : EqDecision NameMatchType.
Proof. solve_decision. Defined.

(** A record that was never used has the zero time as its start. *)
Record NameAccessRecord : Type := mkNameRecord {
  nr_token : Z;
  nr_limit : Z;
  nr_start : option Z;
  nr_match_type : NameMatchType;
}.

Definition newNameAccessRecord (match_type : NameMatchType) (limit : Z) : NameAccessRecord :=
  mkNameRecord 0 limit None match_type.

Definition NameAccessRecord_Init (now : Z) (r : NameAccessRecord) : NameAccessRecord :=
  mkNameRecord 1 (nr_limit r) (Some now) (nr_match_type r).

Definition NameAccessRecord_IsAccessAllowed (now : Z) (r : NameAccessRecord)
  : NameAccessRecord * bool :=
  let start := match nr_start r with None => now | Some s => s end in
  let r := mkNameRecord (nr_token r) (nr_limit r) (Some start) (nr_match_type r) in
  if (Second <? now - start)%Z then (NameAccessRecord_Init now r, true)
  else if (nr_limit r <? u32 (nr_token r + 1))%Z then (r, false)
  else (mkNameRecord (u32 (nr_token r + 1)) (nr_limit r) (Some start) (nr_match_type r), true).

(** ** ratelimit/name_throtter.go *)

Section name_throttler.
Context {N : G53Name} {T : DomainTree N}.

(** The trees hold pointers to records. *)
Record NameThrottler : Type := mkNameThrottler {
  nt_viewRecords : gmap string (dtree nat);
  nt_heap : gmap nat NameAccessRecord;
}.

Definition ErrAddNameRateLimitFailed : CmdError :=
  NewError (RateLimitErrCodeStart + 6) "add name rate limit failed".
Definition ErrUpdateNameRateLimitFailed : CmdError :=
  NewError (RateLimitErrCodeStart + 7) "update name rate limit failed".

Definition parseName (name : string) : (Name * NameMatchType) + CmdError :=
  let '(name, matchType) :=
    if strings_HasPrefix name "*." then (str_drop 2 name, zoneMatch) else (name, exactMatch) in
  match Name_FromString name with
  | inl err => inr (Error_AddDetail ErrInvalidName err)
  | inr origin => inl (origin, matchType)
  end.

Definition new_record (r : NameAccessRecord) (h : gmap nat NameAccessRecord)
  : nat * gmap nat NameAccessRecord :=
  let l := fresh (dom h) in (l, <[l := r]> h).

Definition doAddNameRateLimit (tree : dtree nat) (h : gmap nat NameAccessRecord)
  (name : string) (limit : Z) : dtree nat * gmap nat NameAccessRecord * option CmdError :=
  match parseName name with
  | inr err => (tree, h, Some err)
  | inl (origin, matchType) =>
      let '(l, h) := new_record (newNameAccessRecord matchType limit) h in
      match dt_Insert origin l tree with
      | inl err => (tree, h, Some (Error_AddDetail ErrAddNameRateLimitFailed err))
      | inr tree => (tree, h, None)
      end
  end.

Fixpoint load_names (limits : list (string * Z)) (tree : dtree nat)
  (h : gmap nat NameAccessRecord) : outcome (dtree nat * gmap nat NameAccessRecord) :=
  match limits with
  | [] => Ret (tree, h)
  | (name, limit) :: limits =>
      let '(tree, h, err) := doAddNameRateLimit tree h name limit in
      match err with
      | Some e => Panic ("load name rrls " +:+ name +:+ " failed: " +:+ err_Info e)
      | None => load_names limits tree h
      end
  end.

Fixpoint load_view_names (views : list (string * list (string * Z))) (t : NameThrottler)
  : outcome NameThrottler :=
  match views with
  | [] => Ret t
  | (view, limits) :: views =>
      r ← load_names limits dt_New (nt_heap t);
      let '(tree, h) := r in
      load_view_names views (mkNameThrottler (<[view := tree]> (nt_viewRecords t)) h)
  end.

Definition NameThrottler_ReloadConfig (views : list (string * list (string * Z)))
  (t : NameThrottler) : outcome NameThrottler :=
  load_view_names views (mkNameThrottler ∅ (nt_heap t)).

(** The record a chain of enclosing names charges: the deepest zone record. *)
Fixpoint charge_parents (h : gmap nat NameAccessRecord) (chain : list (Name * nat))
  : option nat :=
  match chain with
  | [] => None
  | (_, l) :: chain =>
      match h !! l with
      | Some r => if bool_decide (nr_match_type r = zoneMatch) then Some l
                  else charge_parents h chain
      | None => charge_parents h chain
      end
  end.

Definition charged_record (view : string) (name : Name) (t : NameThrottler) : option nat :=
  match nt_viewRecords t !! view with
  | None => None
  | Some records =>
      match dt_SearchParents name records with
      | ((_, l) :: _, ExactMatch) => Some l
      | (chain, ClosestEncloser) => charge_parents (nt_heap t) chain
      | _ => None
      end
  end.

Definition NameThrottler_IsNameAllowed (now : Z) (view : string) (name : Name)
  (t : NameThrottler) : NameThrottler * bool :=
  match charged_record view name t ≫= (λ l, pair l <$> nt_heap t !! l) with
  | Some (l, r) =>
      let '(r, ok) := NameAccessRecord_IsAccessAllowed now r in
      (mkNameThrottler (nt_viewRecords t) (<[l := r]> (nt_heap t)), ok)
  | None => (t, true)
  end.

Definition NameThrottler_addNameRateLimit (view name : string) (limit : Z)
  (t : NameThrottler) : NameThrottler * option CmdError :=
  let records := match nt_viewRecords t !! view with Some r => r | None => dt_New end in
  let '(records, h, err) := doAddNameRateLimit records (nt_heap t) name limit in
  (mkNameThrottler (<[view := records]> (nt_viewRecords t)) h, err).

Definition NameThrottler_deleteNameRateLimit (view name : string) (t : NameThrottler)
  : NameThrottler * option CmdError :=
  match parseName name with
  | inr err => (t, Some (Error_AddDetail ErrInvalidName (err_Info err)))
  | inl (origin, _) =>
      match nt_viewRecords t !! view with
      | None => (t, Some (Error_AddDetail ErrUnknownView view))
      | Some records =>
          (mkNameThrottler (<[view := dt_Delete origin records]> (nt_viewRecords t)) (nt_heap t),
           None)
      end
  end.

Definition NameThrottler_updateNameRateLimit (view name : string) (ratelimit : Z)
  (t : NameThrottler) : NameThrottler * option CmdError :=
  match parseName name with
  | inr err => (t, Some (Error_AddDetail ErrInvalidName (err_Info err)))
  | inl (origin, matchType) =>
      match nt_viewRecords t !! view with
      | None => (t, Some (Error_AddDetail ErrUnknownView view))
      | Some records =>
          let records := dt_Delete origin records in
          let '(l, h) := new_record (newNameAccessRecord matchType ratelimit) (nt_heap t) in
          match dt_Insert origin l records with
          | inl err =>
              (mkNameThrottler (<[view := records]> (nt_viewRecords t)) h,
               Some (Error_AddDetail ErrUpdateNameRateLimitFailed err))
          | inr records => (mkNameThrottler (<[view := records]> (nt_viewRecords t)) h, None)
          end
      end
  end.
End name_throttler.

(** ** filter/filter.go and srvfailedprotector *)

Section filters.
Context {N : G53Name} {T : DomainTree N} {R : NetRadix}.

Record FilterState : Type := mkFilterState {
  fs_ip_throtter : throttlerEntry;
  fs_name_throtter : NameThrottler;
  (** [SFProtector.drop] *)
  fs_drop : Z;
}.

(** [RateLimit.AllowQuery] *)
Definition RateLimit_AllowQuery (now : Z) (client : Client) (s : FilterState)
  : outcome (FilterState * bool) :=
  ip ← Client_IP client;
  r ← IPThrottler_IsIPAllowed now ip (fs_ip_throtter s);
  let '(it, ok) := r in
  let s := mkFilterState it (fs_name_throtter s) (fs_drop s) in
  if negb ok then Ret (s, false)
  else match m_question (c_request client) with
       | None => Ret (s, false)
       | Some q =>
           let '(nt, ok) := NameThrottler_IsNameAllowed now (c_view client) (q_name q)
                              (fs_name_throtter s) in
           Ret (mkFilterState (fs_ip_throtter s) nt (fs_drop s), ok)
       end.

Definition SFProtector_ReloadConfig (dropSrvFailed : bool) (s : FilterState) : FilterState :=
  mkFilterState (fs_ip_throtter s) (fs_name_throtter s) (if dropSrvFailed then 1 else 0).

Definition SFProtector_HandleCmd (enable : bool) (s : FilterState) : FilterState :=
  mkFilterState (fs_ip_throtter s) (fs_name_throtter s) (if enable then 1 else 0).

Definition SFProtector_AllowResponse (h : Heap) (client : Client) (s : FilterState)
  : outcome bool :=
  if (fs_drop s =? 0)%Z then Ret true
  else match c_response client with
       | None => Ret false
       | Some l => m ← deref l h; Ret (negb (h_rcode (m_header m) =? R_SERVFAIL)%Z)
       end.

(** [FilterChain.HandleQuery] with its two filters; [W] is the rest of the state. *)
Definition FilterChain_HandleQuery {W} (now : Z)
  (next : option (Handler (FilterState * Heap * W))) : Handler (FilterState * Heap * W) :=
  λ s client,
  let '(fs, h, w) := s in
  r ← RateLimit_AllowQuery now client fs;
  let '(fs, ok) := r in
  if negb ok then Ret ((fs, h, w), client)
  else
    r ← PassToNext next (fs, h, w) client;
    let '((fs, h, w), client) := r in
    ok ← SFProtector_AllowResponse h client fs;
    if ok : bool then Ret ((fs, h, w), client)
    else Ret ((fs, h, w), set_response None client).
End filters.

(** ** Rate bounds *)

(** The counter both kinds of records keep: tokens used and window start. *)
Definition window_step (now limit : Z) (w : Z * Z) : Z * Z * bool :=
  let '(token, start) := w in
  if (Second <? now - start)%Z then (1%Z, now, true)
  else if (limit <? u32 (token + 1))%Z then (token, start, false)
  else (u32 (token + 1), start, true).

Fixpoint window_run (limit : Z) (times : list Z) (w : Z * Z) : Z * Z * nat :=
  match times with
  | [] => (w, 0%nat)
  | now :: times =>
      let '(w, ok) := window_step now limit w in
      let '(w, n) := window_run limit times w in
      (w, if ok then S n else n)
  end.

Definition burst (limit : Z) : Z := Z.max 1 limit.

(** Within one window the counter lets through what is left of the limit. *)
Lemma window_run_fresh limit times token start :
  (0 ≤ limit < 2 ^ 32 - 1)%Z → (0 ≤ token ≤ burst limit)%Z →
  Forall (λ t, (t ≤ start + Second)%Z) times →
  (Z.of_nat (window_run limit times (token, start)).2 ≤ burst limit - token)%Z.
Proof.
  intros Hl Ht Hall. revert token Ht. induction Hall as [|t times Htime Hall IH];
    intros token Ht; cbn [window_run]; [cbn; lia|].
  unfold window_step. destruct (Z.ltb_spec Second (t - start)); [lia|].
  unfold burst in *. rewrite u32_small by (unfold is_u32; lia).
  destruct (Z.ltb_spec limit (token + 1)).
  - specialize (IH token ltac:(lia)). destruct (window_run limit times (token, start)).
    cbn in *. lia.
  - specialize (IH (token + 1)%Z ltac:(lia)).
    destruct (window_run limit times ((token + 1)%Z, start)). cbn in *. lia.
Qed.

(** Within any second at most one new window opens. *)
Lemma window_run_burst limit times token start t0 :
  (0 ≤ limit < 2 ^ 32 - 1)%Z → (0 ≤ token ≤ burst limit)%Z →
  Forall (λ t, (t0 ≤ t ≤ t0 + Second)%Z) times →
  (Z.of_nat (window_run limit times (token, start)).2 ≤ 2 * burst limit)%Z.
Proof.
  intros Hl Ht Hall.
  assert (Z.of_nat (window_run limit times (token, start)).2
          ≤ burst limit - token + burst limit)%Z; [|lia].
  revert token Ht. induction Hall as [|t times Htime Hall IH];
    intros token Ht; cbn [window_run]; [cbn; unfold burst in *; lia|].
  unfold window_step. destruct (Z.ltb_spec Second (t - start)).
  - assert (Forall (λ u, (u ≤ t + Second)%Z) times) as Hall'.
    { eapply Forall_impl; [exact Hall|]. cbn. lia. }
    pose proof (window_run_fresh limit times 1 t Hl ltac:(unfold burst; lia) Hall').
    destruct (window_run limit times (1%Z, t)). cbn in *. unfold burst in *. lia.
  - unfold burst in *. rewrite u32_small by (unfold is_u32; lia).
    destruct (Z.ltb_spec limit (token + 1)).
    + specialize (IH token ltac:(lia)). destruct (window_run limit times (token, start)).
      cbn in *. lia.
    + specialize (IH (token + 1)%Z ltac:(lia)).
      destruct (window_run limit times ((token + 1)%Z, start)). cbn in *. lia.
Qed.

(** How many of a sequence of queries a record lets through. *)
Fixpoint ip_record_run (limit : Z) (times : list Z) (r : IPAccessRecord) : nat :=
  match times with
  | [] => 0
  | now :: times =>
      let '(r, ok) := IPAccessRecord_IsAccessAllowed now limit r in
      (if ok : bool then 1 else 0) + ip_record_run limit times r
  end.

Fixpoint name_record_run (times : list Z) (r : NameAccessRecord) : nat :=
  match times with
  | [] => 0
  | now :: times =>
      let '(r, ok) := NameAccessRecord_IsAccessAllowed now r in
      (if ok : bool then 1 else 0) + name_record_run times r
  end.

Lemma ip_record_window limit times r :
  ip_record_run limit times r = (window_run limit times (ir_token r, ir_start r)).2.
Proof.
  revert r. induction times as [|t times IH]; intros r; [done|].
  cbn [ip_record_run window_run].
  unfold IPAccessRecord_IsAccessAllowed, IPAccessRecord_Expired, window_step.
  destruct (Second <? t - ir_start r)%Z; [|destruct (limit <? u32 (ir_token r + 1))%Z];
    rewrite IH; cbn [ir_token ir_start IPAccessRecord_Init];
    destruct (window_run _ _ _); cbn; lia.
Qed.

Lemma name_record_window times r s :
  nr_start r = Some s →
  name_record_run times r = (window_run (nr_limit r) times (nr_token r, s)).2.
Proof.
  revert r s. induction times as [|t times IH]; intros r s Hs; [done|].
  cbn [name_record_run window_run].
  unfold NameAccessRecord_IsAccessAllowed, window_step. rewrite Hs.
  cbn [nr_token nr_limit].
  destruct (Second <? t - s)%Z; [|destruct (nr_limit r <? u32 (nr_token r + 1))%Z];
    (erewrite IH by reflexivity); cbn [nr_token nr_limit NameAccessRecord_Init];
    destruct (window_run _ _ _); cbn; lia.
Qed.


(** Name rate limit.  A freshly configured name record lets at most [limit]
    queries pass in its first window (none when the limit is zero) and at most
    [2 * max(1, limit)] in any second. *)
Theorem name_rate_bound limit times mt t0 :
  (0 ≤ limit < 2 ^ 32 - 1)%Z → Forall (λ t, (t0 ≤ t ≤ t0 + Second)%Z) times →
  (Z.of_nat (name_record_run times (newNameAccessRecord mt limit)) ≤ 2 * burst limit)%Z ∧
  (∀ t rest, times = t :: rest → Forall (λ u, (u ≤ t + Second)%Z) times →
   (Z.of_nat (name_record_run times (newNameAccessRecord mt limit)) ≤ limit)%Z).
Proof.
  intros Hl Ht. destruct times as [|t rest]; [by cbn; unfold burst; split; [lia|]|].
  cbn [name_record_run]. unfold NameAccessRecord_IsAccessAllowed.
  cbn [newNameAccessRecord nr_start nr_limit nr_token nr_match_type].
  rewrite Z.sub_diag. destruct (Z.ltb_spec Second 0); [done|]. rewrite u32_small by done.
  change (0 + 1)%Z with 1%Z. apply Forall_cons in Ht as [Ht0 Hrest]. unfold burst in *.
  destruct (Z.ltb_spec limit 1).
  - assert (limit = 0)%Z as -> by lia.
    erewrite name_record_window by reflexivity. cbn [nr_token nr_limit]. split.
    + pose proof (window_run_burst 0 rest 0 t t0 Hl ltac:(unfold burst; lia) Hrest).
      unfold burst in *. lia.
    + intros ?? [= <- <-] [_ Hw]%Forall_cons. clear Hrest.
      assert ((window_run 0 rest (0%Z, t)).2 = 0) as ->; [|cbn; lia].
      induction Hw as [|u rest Hu Hw IH]; [done|]. cbn [window_run]. unfold window_step.
      destruct (Z.ltb_spec Second (u - t)); [lia|].
      change (0 <? u32 (0 + 1))%Z with true. cbv iota beta.
      destruct (window_run 0 rest (0%Z, t)). done.
  - erewrite name_record_window by reflexivity. cbn [nr_token nr_limit]. split.
    + pose proof (window_run_burst limit rest 1 t t0 Hl ltac:(unfold burst; lia) Hrest).
      pose proof (window_run_fresh limit rest 1 t Hl ltac:(unfold burst; lia)) as Hf.
      rewrite Forall_forall in Hf, Hrest. specialize (Hf ltac:(intros u Hu%Hrest; lia)).
      unfold burst in *. lia.
    + intros ?? [= <- <-] [_ Hw]%Forall_cons.
      pose proof (window_run_fresh limit rest 1 t Hl ltac:(unfold burst; lia) Hw).
      unfold burst in *. lia.
Qed.

(** ** The record store *)

Section store.
Implicit Types (c : IPAccessRecordStore) (r : IPAccessRecord).

(** The key of an address: its four bytes as an integer, or its sixteen bytes. *)
Definition ip_key (ip : IP) : Z + list Z :=
  match IP_To4 ip with
  | Some _ => inl match ipToUint32 ip with Ret k => k | _ => 0%Z end
  | None => inr (ipToV6Key ip)
  end.

Definition record_key r : Z + list Z := ip_key (ir_ip r).

(** The two indexes as one. *)
Definition records_index c : gmap (Z + list Z) nat :=
  kmap inl (rs_v4Records c) ∪ kmap inr (rs_v6Records c).

Definition store_inv c : Prop := lru_ok record_key (rs_ll c) (records_index c).

Definition records c : list IPAccessRecord := list_values (rs_ll c).

Lemma index_inl c k : records_index c !! inl k = rs_v4Records c !! k.
Proof.
  unfold records_index. rewrite lookup_union, (lookup_kmap (K2 := Z + list Z) inl).
  assert (kmap (M2 := gmap (Z + list Z)) inr (rs_v6Records c) !! inl k = None) as ->.
  { apply lookup_kmap_None; [apply _|]. naive_solver. }
  by destruct (rs_v4Records c !! k).
Qed.

Lemma index_inr c k : records_index c !! inr k = rs_v6Records c !! k.
Proof.
  unfold records_index. rewrite lookup_union, (lookup_kmap (K2 := Z + list Z) inr).
  assert (kmap (M2 := gmap (Z + list Z)) inl (rs_v4Records c) !! inr k = None) as ->.
  { apply lookup_kmap_None; [apply _|]. naive_solver. }
  by destruct (rs_v6Records c !! k).
Qed.

Lemma To4_length ip b : IP_To4 ip = Some b → length b = 4.
Proof.
  unfold IP_To4. case_decide; [by intros [= <-]|]. case_decide as Hd; [|done].
  intros [= <-]. rewrite length_drop. lia.
Qed.

(** [ipToUint32] never fails on an address that has a four-byte form. *)
Lemma ipToUint32_ret ip b : IP_To4 ip = Some b → ∃ k, ipToUint32 ip = Ret k.
Proof.
  intros Hb. pose proof (To4_length _ _ Hb) as Hl. unfold ipToUint32. rewrite Hb.
  destruct b as [|b0 [|b1 [|b2 [|b3 ?]]]]; try discriminate Hl. cbn. eauto.
Qed.

Lemma getElem_index ip c :
  IPAccessRecordStore_getElem ip c = Ret (records_index c !! ip_key ip).
Proof.
  unfold IPAccessRecordStore_getElem, ip_key. destruct (IP_To4 ip) as [b|] eqn:Hb.
  - destruct (ipToUint32_ret ip b Hb) as [k ->]. cbn. by rewrite index_inl.
  - by rewrite index_inr.
Qed.

Lemma index_insert_v4 mx ll v4 v6 k id :
  records_index (mkStore mx ll (<[k := id]> v4) v6) =
  <[inl k := id]> (records_index (mkStore mx ll v4 v6)).
Proof.
  apply map_eq. intros [k'|k'].
  - rewrite index_inl. cbn. destruct (decide (k = k')) as [->|].
    + by rewrite !lookup_insert_eq.
    + rewrite !lookup_insert_ne by congruence. by rewrite index_inl.
  - rewrite lookup_insert_ne by done. by rewrite !index_inr.
Qed.

Lemma index_insert_v6 mx ll v4 v6 k id :
  records_index (mkStore mx ll v4 (<[k := id]> v6)) =
  <[inr k := id]> (records_index (mkStore mx ll v4 v6)).
Proof.
  apply map_eq. intros [k'|k'].
  - rewrite lookup_insert_ne by done. by rewrite !index_inl.
  - rewrite index_inr. cbn. destruct (decide (k = k')) as [->|].
    + by rewrite !lookup_insert_eq.
    + rewrite !lookup_insert_ne by congruence. by rewrite index_inr.
Qed.

Lemma index_delete_v4 mx ll v4 v6 k :
  records_index (mkStore mx ll (delete k v4) v6) =
  delete (inl k) (records_index (mkStore mx ll v4 v6)).
Proof.
  apply map_eq. intros [k'|k'].
  - rewrite index_inl. cbn. destruct (decide (k = k')) as [->|].
    + by rewrite !lookup_delete_eq.
    + rewrite !lookup_delete_ne by congruence. by rewrite index_inl.
  - rewrite lookup_delete_ne by done. by rewrite !index_inr.
Qed.

Lemma index_delete_v6 mx ll v4 v6 k :
  records_index (mkStore mx ll v4 (delete k v6)) =
  delete (inr k) (records_index (mkStore mx ll v4 v6)).
Proof.
  apply map_eq. intros [k'|k'].
  - rewrite lookup_delete_ne by done. by rewrite !index_inl.
  - rewrite index_inr. cbn. destruct (decide (k = k')) as [->|].
    + by rewrite !lookup_delete_eq.
    + rewrite !lookup_delete_ne by congruence. by rewrite index_inr.
Qed.

(** The index of a store does not depend on its list. *)
Lemma index_ll c ll : records_index (set_ll ll c) = records_index c.
Proof. done. Qed.

Lemma removeElement_store c id r :
  store_inv c → (id, r) ∈ gl_items (rs_ll c) →
  ∃ c', IPAccessRecordStore_removeElement (id, r) c = Ret c' ∧ store_inv c' ∧
        rs_MaxCount c' = rs_MaxCount c ∧ rs_ll c' = list_Remove id (rs_ll c).
Proof.
  intros Hinv Hin. pose proof (lru_ok_Remove record_key _ _ _ _ Hinv Hin) as Hok.
  unfold IPAccessRecordStore_removeElement. cbn.
  unfold record_key, ip_key in Hok. destruct (IP_To4 (ir_ip r)) as [b|] eqn:Hb.
  - destruct (ipToUint32_ret _ _ Hb) as [k Hk]. rewrite Hk in Hok |- *. cbn.
    eexists. split_and!; [done| |done|done]. unfold store_inv. cbn. rewrite index_delete_v4.
    destruct c; exact Hok.
  - eexists. split_and!; [done| |done|done]. unfold store_inv. cbn. rewrite index_delete_v6.
    destruct c; exact Hok.
Qed.

Lemma removeOldest_store c :
  store_inv c →
  ∃ c', IPAccessRecordStore_removeOldest c = Ret c' ∧ store_inv c' ∧
        rs_MaxCount c' = rs_MaxCount c ∧ records c' = spec_drop_last (records c).
Proof.
  intros Hinv. unfold IPAccessRecordStore_removeOldest.
  destruct (list_Back (rs_ll c)) as [[id r]|] eqn:Hb.
  - destruct (removeElement_store c id r Hinv (Back_elem _ _ _ Hb)) as (c' & -> & ? & ? & Hl).
    exists c'. split_and!; [done..|]. unfold records. rewrite Hl. by eapply Back_values.
  - exists c. split_and!; [done..|]. unfold list_Back in Hb. apply last_None in Hb.
    unfold records, list_values. by rewrite Hb.
Qed.

(** A full store drops the least recently used record. *)
Definition cap_records (maxCount : Z) (L : list IPAccessRecord) : list IPAccessRecord :=
  if negb (maxCount =? 0)%Z && (maxCount <? Z.of_nat (length L))%Z
  then spec_drop_last L else L.

Lemma store_lookup c k :
  store_inv c →
  match records_index c !! k with
  | Some id => ∃ r, list_Value id (rs_ll c) = Some r ∧ (id, r) ∈ gl_items (rs_ll c) ∧
                    record_key r = k ∧ spec_find record_key k (records c) = Some r
  | None => spec_find record_key k (records c) = None
  end.
Proof. intros Hinv. apply (lru_find record_key _ _ k Hinv). Qed.

Lemma store_push c r :
  store_inv c → records_index c !! record_key r = None →
  ∃ c', match IP_To4 (ir_ip r) with
        | Some _ =>
            k ← ipToUint32 (ir_ip r);
            Ret (mkStore (rs_MaxCount c) (list_PushFront r (rs_ll c)).2
                   (<[k := (list_PushFront r (rs_ll c)).1]> (rs_v4Records c)) (rs_v6Records c))
        | None =>
            Ret (mkStore (rs_MaxCount c) (list_PushFront r (rs_ll c)).2 (rs_v4Records c)
                   (<[ipToV6Key (ir_ip r) := (list_PushFront r (rs_ll c)).1]> (rs_v6Records c)))
        end = Ret c' ∧ store_inv c' ∧ rs_MaxCount c' = rs_MaxCount c ∧
        rs_ll c' = (list_PushFront r (rs_ll c)).2.
Proof.
  intros Hinv Hk. pose proof (lru_ok_PushFront record_key _ _ r Hinv Hk) as Hok.
  unfold record_key at 2, ip_key in Hok. destruct (IP_To4 (ir_ip r)) as [b|] eqn:Hb.
  - destruct (ipToUint32_ret _ _ Hb) as [k Ek]. rewrite Ek in Hok |- *. rewrite bind_Ret.
    eexists. split_and!; [done| |done|done]. unfold store_inv. rewrite index_insert_v4.
    destruct c; exact Hok.
  - eexists. split_and!; [done| |done|done]. unfold store_inv. rewrite index_insert_v6.
    destruct c; exact Hok.
Qed.

Lemma store_add c r :
  store_inv c →
  ∃ c', IPAccessRecordStore_Add r c = Ret c' ∧ store_inv c' ∧ rs_MaxCount c' = rs_MaxCount c ∧
        records c' =
          match spec_find record_key (record_key r) (records c) with
          | Some _ => spec_put record_key r (records c)
          | None => cap_records (rs_MaxCount c) (r :: records c)
          end.
Proof.
  intros Hinv. unfold IPAccessRecordStore_Add. rewrite getElem_index, bind_Ret.
  fold (record_key r). pose proof (store_lookup c (record_key r) Hinv) as Hlk.
  destruct (records_index c !! record_key r) as [id|] eqn:Hid.
  - destruct Hlk as (v & Hv & Hin & Hk & ->). eexists. split_and!; [done| |done|].
    + unfold store_inv. rewrite index_ll.
      eapply lru_ok_SetValue; [by eapply lru_ok_MoveToFront| |by symmetry].
      by apply (MoveToFront_items (rs_ll c) id v id v (proj1 Hinv) Hin).
    + unfold records; cbn [rs_ll set_ll]. by eapply MoveSet_values.
  - rewrite Hlk. destruct (store_push c r Hinv Hid) as (c1 & E & Hi & Hm & Hl).
    destruct (list_PushFront r (rs_ll c)) as [elem ll] eqn:Ep. cbn [fst snd] in *.
    rewrite E, bind_Ret. rewrite Hm, list_Len_values, Hl.
    assert (list_values ll = r :: records c) as Hv.
    { pose proof (PushFront_values (rs_ll c) r) as Hp. by rewrite Ep in Hp. }
    rewrite Hv. unfold cap_records. destruct (negb _ && _).
    + destruct (removeOldest_store c1 Hi) as (c2 & -> & ? & ? & Hr). exists c2.
      split_and!; [done|done|congruence|]. rewrite Hr. unfold records at 1. by rewrite Hl, Hv.
    + exists c1. split_and!; [done..|]. unfold records at 1. by rewrite Hl, Hv.
Qed.

Lemma cap_records_length maxCount (L : list IPAccessRecord) :
  (0 < maxCount)%Z → (Z.of_nat (length L) ≤ maxCount + 1)%Z →
  (Z.of_nat (length (cap_records maxCount L)) ≤ maxCount)%Z.
Proof.
  intros Hm HL. unfold cap_records, spec_drop_last.
  destruct (Z.eqb_spec maxCount 0); [lia|]. cbn.
  destruct (Z.ltb_spec maxCount (Z.of_nat (length L))); [rewrite length_take|]; lia.
Qed.

Lemma length_spec_put_found (r : IPAccessRecord) (L : list IPAccessRecord) (v : IPAccessRecord) :
  spec_find record_key (record_key r) L = Some v →
  length (spec_put record_key r L) ≤ length L.
Proof.
  intros (l1 & l2 & -> & Hk & _)%find_first_Some. apply bool_decide_eq_true in Hk.
  unfold spec_put, spec_remove. rewrite filter_app, filter_cons_False by naive_solver.
  cbn. rewrite !length_app. cbn.
  pose proof (length_filter (λ v, record_key v ≠ record_key r) l1).
  pose proof (length_filter (λ v, record_key v ≠ record_key r) l2). lia.
Qed.

(** The four-byte and sixteen-byte forms of an address share a record.  Two
    addresses with byte-sized components have the same key exactly when their
    sixteen-byte forms are equal. *)
Theorem ip_key_spec a b a16 b16 :
  Forall is_u8 a → Forall is_u8 b → IP_To16 a = Some a16 → IP_To16 b = Some b16 →
  ip_key a = ip_key b ↔ a16 = b16.
Proof.
  assert (∀ x x16, Forall is_u8 x → IP_To16 x = Some x16 →
    (∃ b0 b1 b2 b3, IP_To4 x = Some [b0; b1; b2; b3] ∧ x16 = v4InV6Prefix ++ [b0; b1; b2; b3] ∧
       ip_key x = inl (b0 + 2 ^ 8 * b1 + 2 ^ 16 * b2 + 2 ^ 24 * b3)%Z ∧
       is_u8 b0 ∧ is_u8 b1 ∧ is_u8 b2 ∧ is_u8 b3) ∨
    (ip_key x = inr x16 ∧ take 12 x16 ≠ v4InV6Prefix)) as Hcase.
  { intros x x16 Hx H16. unfold IP_To16 in H16.
    assert (∀ b0 b1 b2 b3, Forall is_u8 [b0; b1; b2; b3] → IP_To4 x = Some [b0; b1; b2; b3] →
      ip_key x = inl (b0 + 2 ^ 8 * b1 + 2 ^ 16 * b2 + 2 ^ 24 * b3)%Z ∧
      is_u8 b0 ∧ is_u8 b1 ∧ is_u8 b2 ∧ is_u8 b3) as Hk.
    { intros b0 b1 b2 b3 Hb H4. unfold ip_key, ipToUint32. rewrite H4. cbn [le_uint32].
      rewrite !Forall_cons in Hb. destruct Hb as (H0 & H1 & H2 & H3 & _).
      split; [|done]. f_equal. apply le_bytes_sum; done. }
    destruct (decide (length x = 4)) as [Hl|Hl].
    - injection H16 as <-. destruct x as [|b0 [|b1 [|b2 [|b3 [|]]]]]; try discriminate Hl.
      left. exists b0, b1, b2, b3. split; [done|]. split; [done|]. by apply Hk.
    - destruct (decide (length x = 16)) as [Hl16|]; [|done]. injection H16 as <-.
      destruct (decide (take 12 x = v4InV6Prefix)) as [Hp|Hp].
      + left. assert (IP_To4 x = Some (drop 12 x)) as H4.
        { unfold IP_To4. rewrite decide_False by done. by rewrite decide_True. }
        assert (x = v4InV6Prefix ++ drop 12 x) as Hs by (rewrite <- Hp; by rewrite take_drop).
        assert (length (drop 12 x) = 4) as Hd by (rewrite length_drop; lia).
        assert (Forall is_u8 (drop 12 x)) as Hf by (by apply Forall_drop).
        destruct (drop 12 x) as [|b0 [|b1 [|b2 [|b3 [|]]]]]; try discriminate Hd.
        exists b0, b1, b2, b3. split; [done|]. split; [done|]. by apply Hk.
      + right. split; [|done]. unfold ip_key, IP_To4. rewrite decide_False by done.
        rewrite decide_False by tauto. unfold ipToV6Key, IP_To16. by rewrite decide_False, decide_True. }
  intros Ha Hb Ha16 Hb16.
  destruct (Hcase a a16 Ha Ha16) as [(a0 & a1 & a2 & a3 & _ & -> & -> & Ra)|[-> Na]],
           (Hcase b b16 Hb Hb16) as [(b0 & b1 & b2 & b3 & _ & -> & -> & Rb)|[-> Nb]].
  - unfold is_u8 in *. split.
    + intros [= E]. assert (a0 = b0 ∧ a1 = b1 ∧ a2 = b2 ∧ a3 = b3) as (-> & -> & -> & ->)
        by lia. done.
    + intros E%app_inv_head. by simplify_eq.
  - split; [done|]. intros <-. by destruct Nb.
  - split; [done|]. intros ->. by destruct Na.
  - split; [by intros [= ->]|by intros ->].
Qed.
End store.

(** ** The throttlers *)

Section throttler_props.
Context {R : NetRadix}.

Definition throttler_inv (t : throttlerEntry) : Prop :=
  store_inv (te_records t) ∧ rs_MaxCount (te_records t) = maxIPAccessRecordCount ∧
  (Z.of_nat (length (records (te_records t))) ≤ maxIPAccessRecordCount)%Z.

(** One decision of the address throttler, on every branch.  An address outside
    the limited networks is let through and nothing is recorded; the first query
    of a limited address opens a record and passes; a later one is decided by its
    own record, which becomes the most recent.  No branch panics, the store's
    invariant holds again and it never holds more than 5000 records. *)
Theorem isIpAllowed_spec now ip t :
  throttler_inv t →
  ∃ t' ok, throttlerEntry_isIpAllowed now ip t = Ret (t', ok) ∧ throttler_inv t' ∧
    te_networks t' = te_networks t ∧
    match nr_SearchBest ip (te_networks t) with
    | None => t' = t ∧ ok = true
    | Some limit =>
        match spec_find record_key (ip_key ip) (records (te_records t)) with
        | None => ok = true ∧ records (te_records t') =
            cap_records maxIPAccessRecordCount (newIPAccessRecord now ip :: records (te_records t))
        | Some r =>
            let '(r', ok') := IPAccessRecord_IsAccessAllowed now limit r in
            ok = ok' ∧
            records (te_records t') = spec_put record_key r' (records (te_records t))
        end
    end.
Proof.
  intros (Hinv & Hmax & Hlen). unfold throttlerEntry_isIpAllowed.
  destruct (nr_SearchBest ip (te_networks t)) as [limit|]; [|by exists t, true].
  unfold IPAccessRecordStore_Get. rewrite getElem_index, bind_Ret.
  pose proof (store_lookup _ (ip_key ip) Hinv) as Hlk.
  destruct (records_index _ !! ip_key ip) as [id|] eqn:Hid.
  - destruct Hlk as (r & Hv & Hin & Hk & Hf). rewrite Hv, Hf. cbn [from_option_panic].
    rewrite !bind_Ret.
    destruct (IPAccessRecord_IsAccessAllowed now limit r) as [r' ok'] eqn:Er.
    assert (record_key r' = record_key r) as Hk'.
    { unfold IPAccessRecord_IsAccessAllowed in Er. repeat case_match; by simplify_eq. }
    eexists _, ok'. split; [done|]. cbn.
    assert (records (set_ll (list_SetValue id r' (list_MoveToFront id (rs_ll (te_records t))))
              (te_records t)) = spec_put record_key r' (records (te_records t))) as Hrec
      by (by eapply MoveSet_values).
    split_and!; [| |done|]; [| |done..].
    + split_and!; cbn; [|done|].
      * unfold store_inv. rewrite index_ll.
        eapply lru_ok_SetValue; [by eapply lru_ok_MoveToFront| |exact Hk'].
        by apply (MoveToFront_items (rs_ll (te_records t)) id r id r (proj1 Hinv) Hin).
      * unfold set_ll in Hrec |- *. cbn in Hrec |- *. rewrite Hrec.
        pose proof (length_spec_put_found r' (records (te_records t)) r) as Hle.
        rewrite Hk', Hk in Hle. specialize (Hle Hf). lia.
    + done.
  - rewrite bind_Ret, Hlk.
    destruct (store_add (te_records t) (newIPAccessRecord now ip) Hinv) as (c' & -> & Hi & Hm & Hr).
    change (record_key (newIPAccessRecord now ip)) with (ip_key ip) in Hr. rewrite Hlk in Hr.
    rewrite bind_Ret. eexists _, true. split; [done|]. cbn. rewrite Hmax in *.
    split_and!; [|done|done|done]. split_and!; cbn; [done|congruence|].
    rewrite Hr. apply cap_records_length; [done|]. cbn. lia.
Qed.
End throttler_props.

Section name_props.
Context {N : G53Name} {T : DomainTree N} {NL : G53NameLaws N} {TL : DomainTreeLaws T}.

(** A zone record stored at a name that encloses [name]. *)
Definition zone_limit (t : NameThrottler) (tree : dtree nat) (name m : Name) (l : nat) : Prop :=
  dt_get m tree = Some l ∧ Name_IsSubDomain name m = true ∧
  ∃ r, nt_heap t !! l = Some r ∧ nr_match_type r = zoneMatch.

Lemma charge_parents_Some h chain l :
  charge_parents h chain = Some l →
  ∃ pre m post, chain = pre ++ (m, l) :: post ∧
    (∃ r, h !! l = Some r ∧ nr_match_type r = zoneMatch) ∧
    Forall (λ x, ∀ r, h !! x.2 = Some r → nr_match_type r ≠ zoneMatch) pre.
Proof.
  induction chain as [|[m x] chain IH]; cbn; [done|].
  assert (charge_parents h chain = Some l →
    (∀ r, h !! x = Some r → nr_match_type r ≠ zoneMatch) →
    ∃ pre m0 post, (m, x) :: chain = pre ++ (m0, l) :: post ∧
    (∃ r, h !! l = Some r ∧ nr_match_type r = zoneMatch) ∧
    Forall (λ x, ∀ r, h !! x.2 = Some r → nr_match_type r ≠ zoneMatch) pre) as Hskip.
  { intros (pre & m0 & post & -> & Hr & Hp)%IH Hx. exists ((m, x) :: pre), m0, post.
    split_and!; [done|done|]. by constructor. }
  destruct (h !! x) as [r|] eqn:Hx; [case_bool_decide as Hz|].
  - intros [= <-]. exists [], m, chain. eauto 10.
  - intros E. apply Hskip; [done|]. naive_solver.
  - intros E. apply Hskip; naive_solver.
Qed.

Lemma charge_parents_None h chain :
  charge_parents h chain = None →
  Forall (λ x, ∀ r, h !! x.2 = Some r → nr_match_type r ≠ zoneMatch) chain.
Proof.
  induction chain as [|[m x] chain IH]; cbn; [constructor|].
  destruct (h !! x) as [r|] eqn:Hx; [case_bool_decide|]; intros E; try done;
    (constructor; [cbn; naive_solver|auto]).
Qed.

(** Which limit a query is charged to.  A record stored at the query's own name
    is charged; otherwise the deepest zone record that encloses the name, past any
    exact record in between; otherwise the query is not limited. *)
Theorem charged_record_spec view name t tree :
  nt_viewRecords t !! view = Some tree →
  match dt_get name tree, charged_record view name t with
  | Some l, r => r = Some l
  | None, Some l =>
      ∃ m, zone_limit t tree name m l ∧
           ∀ m' l', zone_limit t tree name m' l' → Name_IsSubDomain m m' = true
  | None, None => ∀ m' l', ~ zone_limit t tree name m' l'
  end.
Proof.
  intros Hv. unfold charged_record. rewrite Hv. destruct (dt_get name tree) as [l|] eqn:Hg.
  { by destruct (SearchParents_exact name tree l Hg) as (m & chain & -> & _). }
  set (P l := ∃ r, nt_heap t !! l = Some r ∧ nr_match_type r = zoneMatch).
  pose proof (SearchParents_other name tree Hg) as Hres.
  pose proof (chain_first name tree P) as Hfirst. pose proof (chain_none name tree P) as Hnone.
  pose proof (dt_SearchParents_sound name tree) as Hsound.
  destruct (dt_SearchParents name tree) as [chain res]. cbn [fst snd] in *. subst res.
  assert (match charge_parents (nt_heap t) chain with
    | Some l => ∃ m, zone_limit t tree name m l ∧
        ∀ m' l', zone_limit t tree name m' l' → Name_IsSubDomain m m' = true
    | None => ∀ m' l', ~ zone_limit t tree name m' l' end) as H.
  { destruct (charge_parents (nt_heap t) chain) as [l|] eqn:Hc.
    - apply charge_parents_Some in Hc as (pre & m & post & -> & Hr & Hpre).
      exists m. destruct (Hsound m l) as [Hgm Hsm]; [set_solver|]. split; [done|].
      intros m' l' (Hg' & Hs' & Hp). eapply Hfirst; [done| |done..].
      eapply Forall_impl; [done|]. cbn. intros x Hx (r & Hr' & Hz). by apply (Hx r).
    - apply charge_parents_None in Hc. intros m' l' (Hg' & Hs' & Hp). revert Hp.
      eapply Hnone; [|done..]. eapply Forall_impl; [done|].
      cbn. intros x Hx (r & Hr' & Hz). by apply (Hx r). }
  destruct chain as [|[] chain]; exact H.
Qed.
End name_props.

Section filter_props.
Context {N : G53Name} {T : DomainTree N} {R : NetRadix}.

(** The filter chain.  When either limit refuses the query, the rest of the chain
    does not run and the client is returned as it came; when the rest of the chain
    runs, its response is dropped exactly when the failed-response protection is on
    and there is no response or it is SERVFAIL. *)
Theorem FilterChain_spec {W} now next (s : FilterState * Heap * W) client fs ok :
  RateLimit_AllowQuery now client s.1.1 = Ret (fs, ok) →
  (ok = false → FilterChain_HandleQuery now next s client = Ret ((fs, s.1.2, s.2), client)) ∧
  (∀ fs' h' w' client', ok = true →
     PassToNext next (fs, s.1.2, s.2) client = Ret ((fs', h', w'), client') →
     (∀ l, c_response client' = Some l → is_Some (h' !! l)) →
     FilterChain_HandleQuery now next s client =
       Ret ((fs', h', w'),
         if negb (fs_drop fs' =? 0)%Z &&
            match c_response client' ≫= (h' !!.) with
            | Some m => (h_rcode (m_header m) =? R_SERVFAIL)%Z
            | None => true
            end
         then set_response None client' else client')).
Proof.
  destruct s as [[fs0 h] w]. cbn [fst snd]. intros E. unfold FilterChain_HandleQuery.
  rewrite E, bind_Ret. split; [by intros ->|].
  intros fs' h' w' client' -> Hn Hl. cbn [negb]. rewrite Hn, bind_Ret.
  unfold SFProtector_AllowResponse. destruct (fs_drop fs' =? 0)%Z; [done|].
  destruct (c_response client') as [l|] eqn:Hr; [|done].
  destruct (Hl l eq_refl) as [m Hm]. rewrite (deref_Some _ _ m Hm), !bind_Ret.
  cbn. rewrite Hm. cbn. by destruct (h_rcode (m_header m) =? R_SERVFAIL)%Z.
Qed.
End filter_props.

(** ** Examples *)

Section rate_examples.


Lemma name_rate_bound_witness :
  (Z.of_nat (name_record_run [0; 5; 7; 9]%Z (newNameAccessRecord zoneMatch 3)) ≤ 3)%Z.
Proof.
  apply (proj2 (name_rate_bound 3 [0; 5; 7; 9]%Z zoneMatch 0 ltac:(lia)
                  ltac:(repeat constructor; unfold Second; lia)) 0%Z [5; 7; 9]%Z eq_refl).
  repeat constructor; unfold Second; lia.
Defined.

Lemma ip_key_spec_witness :
  ip_key [192; 0; 2; 1]%Z = ip_key (v4InV6Prefix ++ [192; 0; 2; 1]%Z).
Proof.
  apply (ip_key_spec [192; 0; 2; 1]%Z (v4InV6Prefix ++ [192; 0; 2; 1]%Z)
           (v4InV6Prefix ++ [192; 0; 2; 1]%Z) (v4InV6Prefix ++ [192; 0; 2; 1]%Z));
    [repeat constructor; unfold is_u8; lia..|reflexivity|reflexivity|reflexivity].
Defined.

Definition demo_throttler : throttlerEntry :=
  mkThrottler (newIPAccessRecordStore maxIPAccessRecordCount) [([192; 0]%Z, 2%Z)].

Lemma isIpAllowed_spec_witness :
  ∃ t' ok, throttlerEntry_isIpAllowed 0 [192; 0; 2; 1]%Z demo_throttler = Ret (t', ok) ∧
           ok = true.
Proof.
  destruct (isIpAllowed_spec 0 [192; 0; 2; 1]%Z demo_throttler) as (t' & ok & E & _ & _ & H).
  - split_and!; [apply lru_ok_New|reflexivity|vm_compute; congruence].
  - exists t', ok. split; [exact E|]. exact (proj1 H).
Defined.

Definition demo_names : NameThrottler :=
  mkNameThrottler {[ "default" := [(example_com, 0)] ]} {[ 0 := newNameAccessRecord zoneMatch 5 ]}.

Lemma charged_record_spec_witness :
  ∃ m, zone_limit demo_names [(example_com, 0)] www m 0.
Proof.
  destruct (charged_record_spec "default" www demo_names [(example_com, 0)] eq_refl) as (m & H & _).
  exists m. exact H.
Defined.

Definition demo_filter : FilterState :=
  mkFilterState demo_throttler demo_names 1.
Definition demo_querier : Client :=
  mkClient (Some (UDPAddr [10; 9; 8; 7]%Z 53)) None false
    (mkMessage hdr0 None [] [] [] None) None "default" 0 false true 0.

Lemma FilterChain_spec_witness :
  FilterChain_HandleQuery 0 None (demo_filter, ∅, tt) demo_querier =
    Ret ((demo_filter, ∅, tt), demo_querier).
Proof.
  apply (proj1 (FilterChain_spec 0 None (demo_filter, ∅, tt) demo_querier demo_filter false eq_refl)).
  reflexivity.
Defined.
End rate_examples.
