(* ===== verification/ViewSelector.v ===== *)
(** * View selection (src/viewselector)

    A query is assigned a view by the first selector that recognises it: by the
    client's address through access lists, or by another key.  Views get numeric
    identifiers that go into query keys; priorities order the address rules. *)

From S2P Require Import Prelude GoStd G53 Instances Core HttpCmd Cement Schedule Acl CacheHandler.

Definition AnyView : string := "any".

(** ** viewselector/addrbasedview.go and cmdhandler.go *)

Record ViewAcls : Type := mkViewAcls {
  va_name : string;
  va_acls : list string;
  va_priority : Z;
}.

Definition ErrModifyInnerView : CmdError :=
  NewError (ViewSelectorErrCodeStart + 2) "update inner view".

(** One configured view: its name, its access lists and its TSIG key. *)
Record ViewConf : Type := mkViewConf {
  vc_View : string;
  vc_Acls : list string;
  vc_KeyName : string;
  vc_KeySecret : string;
  vc_KeyAlgorithm : string;
}.

Definition AddrBasedView_ReloadConfig (confs : list ViewConf) : list ViewAcls :=
  imap (λ i c, mkViewAcls (vc_View c) (vc_Acls c) (Z.of_nat i)) confs.

Section addr_based.
Context {N : G53Name} {R : NetRadix}.

Definition AddrBasedView_ViewForQuery (am : AclManager) (client : Client) (v : list ViewAcls)
  : outcome (option string) :=
  clientIP ← Client_IP client;
  Ret (va_name <$> find_first (λ va, existsb (λ acl, AclManager_Find acl clientIP am) (va_acls va)) v).

Definition AddrBasedView_GetViews (v : list ViewAcls) : list string := va_name <$> v.

(** The loop of [updateView] stops at the first view of that name. *)
Fixpoint set_view_acls (name : string) (acls : list string) (v : list ViewAcls) : list ViewAcls :=
  match v with
  | [] => []
  | va :: v =>
      if bool_decide (va_name va = name) then mkViewAcls (va_name va) acls (va_priority va) :: v
      else va :: set_view_acls name acls v
  end.

Definition AddrBasedView_updateView (name : string) (acls : list string) (v : list ViewAcls)
  : list ViewAcls * option CmdError :=
  let name := strings_ToLower name in
  if bool_decide (name = AnyView) then (v, Some ErrModifyInnerView)
  else (set_view_acls name acls v, None).

(** [viewPriorities[view] = i] for each listed view: the last position wins. *)
Definition view_priorities (orders : list string) : gmap string Z :=
  foldl (λ m iv, <[iv.2 := Z.of_nat iv.1]> m) ∅ (imap pair orders).

(** The loop writes priorities in place and stops at the first unlisted view,
    which is left with the zero priority of the missing map entry. *)
Fixpoint assign_priorities (m : gmap string Z) (v : list ViewAcls)
  : list ViewAcls * option CmdError :=
  match v with
  | [] => ([], None)
  | va :: v =>
      match m !! va_name va with
      | None => (mkViewAcls (va_name va) (va_acls va) 0 :: v,
                 Some (Error_AddDetail ErrUnknownView (va_name va)))
      | Some p =>
          let '(v, err) := assign_priorities m v in
          (mkViewAcls (va_name va) (va_acls va) p :: v, err)
      end
  end.

(** [ViewByPriority] *)
Definition priority_le (a b : ViewAcls) : Prop := (va_priority a ≤ va_priority b)%Z.
#[export] Instance priority_le_dec : RelDecision priority_le.
Proof. intros a b. unfold priority_le. apply _. Defined.
#[export] Instance priority_le_total : Total priority_le.
Proof. intros a b. unfold priority_le. lia. Qed.
#[export] Instance priority_le_trans : Transitive priority_le.
Proof. intros a b c. unfold priority_le. lia. Qed.

Definition AddrBasedView_updateViewPriority (orders : list string) (v : list ViewAcls)
  : list ViewAcls * option CmdError :=
  let '(newViews, err) := assign_priorities (view_priorities orders) v in
  match err with
  | Some e => (newViews, Some e)
  | None => (merge_sort priority_le newViews, None)
  end.
End addr_based.

(** ** viewselector/tsigbasedview.go: the configured keys *)

Record TSIGKey : Type := mkTSIGKey {
  tk_View : string;
  tk_Name : string;
  tk_Secret : string;
  tk_Algorithm : string;
}.

Fixpoint TSIGKeyBasedView_load (confs : list ViewConf) (keys : gmap string TSIGKey)
  : outcome (gmap string TSIGKey) :=
  match confs with
  | [] => Ret keys
  | key :: confs =>
      if bool_decide (vc_KeyName key = "") then TSIGKeyBasedView_load confs keys
      else
        match keys !! vc_KeyName key with
        | Some _ => Panic "duplicate key"
        | None =>
            TSIGKeyBasedView_load confs
              (<[vc_KeyName key := mkTSIGKey (vc_View key) (vc_KeyName key) (vc_KeySecret key)
                                     (vc_KeyAlgorithm key)]> keys)
        end
  end.

Definition TSIGKeyBasedView_ReloadConfig (confs : list ViewConf)
  : outcome (gmap string TSIGKey) := TSIGKeyBasedView_load confs ∅.

Section tsig_view.
Context {N : G53Name} {M : G53Msg N}.

(** The signatures of the library: [VerifyTsig], where [Some] is the error, [NewTSIG] and
    [SetTSIG]. *)
Record TsigLib : Type := mkTsigLib {
  tl_VerifyTsig : TSIG → Message → string → option string;
  tl_NewTSIG : string → string → string → string + TSIG;
  tl_SetTSIG : TSIG → Message → Message;
}.

Definition set_tsig_MAC (mac : list Z) (t : TSIG) : TSIG :=
  mkTSIG (ts_Name t) (ts_Algorithm t) mac (ts_Error t).
Definition set_tsig_Error (e : Z) (t : TSIG) : TSIG :=
  mkTSIG (ts_Name t) (ts_Algorithm t) (ts_MAC t) e.

(** The response of the client, made first when it has none. *)
Definition prepare_response (h : Heap) (client : Client) : Heap * Client * nat :=
  match c_response client with
  | Some l => (h, client, l)
  | None =>
      let '(l, h) := heap_alloc (MakeResponse (c_request client)) h in
      (h, set_response (Some l) client, l)
  end.

(** A query with a bad signature is "found" with the empty view. *)
Definition TSIGKeyBasedView_ViewForQuery (tl : TsigLib) (keys : gmap string TSIGKey)
  (h : Heap) (client : Client) : outcome (Heap * Client * option string) :=
  let req := c_request client in
  match m_tsig req with
  | None => Ret (h, client, None)
  | Some tsig =>
      let '(h, client, l) := prepare_response h client in
      resp ← deref l h;
      let refused e :=
        let t := set_tsig_Error e (set_tsig_MAC [] tsig) in
        Ret (<[l := set_tsig (Some t) resp]> h, client, Some "") in
      match keys !! ts_Name tsig with
      | None => refused R_BADKEY
      | Some key =>
          if negb (bool_decide (tk_Algorithm key = ts_Algorithm tsig)) then refused R_BADKEY
          else if tl_VerifyTsig tl tsig req (tk_Secret key) is Some _ then refused R_BADSIG
          else
            match tl_NewTSIG tl (tk_Name key) (tk_Secret key) (tk_Algorithm key) with
            | inl _ => Panic "configure key invalid"
            | inr newTSIG =>
                let resp := set_tsig (Some (set_tsig_MAC [] tsig)) resp in
                Ret (<[l := tl_SetTSIG tl (set_tsig_MAC (ts_MAC tsig) newTSIG) resp]> h, client,
                     Some (tk_View key))
            end
      end
  end.

(** [order] is the order in which the map iteration visits the keys. *)
Definition TSIGKeyBasedView_KeyForView (order : list string) (view : string)
  (keys : gmap string TSIGKey) : option TSIGKey :=
  find_first (λ key, bool_decide (tk_View key = view)) (omap (keys !!.) order).

Definition TSIGKeyBasedView_GetViews (order : list string) (keys : gmap string TSIGKey)
  : list string := tk_View <$> omap (keys !!.) order.
End tsig_view.

(** ** viewselector/viewselector.go *)

(** [allocateIdForView] over the views of the selectors in order. *)
Fixpoint allocate_ids (views : list string) (id : Z) (m : gmap string Z) : gmap string Z :=
  match views with
  | [] => m
  | view :: views =>
      match m !! view with
      | Some _ => allocate_ids views id m
      | None => allocate_ids views (u16 (id + 1)) (<[view := id]> m)
      end
  end.

Definition allocateIdForView (views : list string) : gmap string Z :=
  allocate_ids views 1 {[ DefaultView := 0%Z ]}.

(** For tests: identifiers by position. *)
Definition InitViews (views : list string) : gmap string Z :=
  foldl (λ m iv, <[iv.2 := u16 (Z.of_nat iv.1)]> m) ∅ (imap pair views).

Section selector_mgr.
Context {N : G53Name}.

(** A selector may change the client and messages (the TSIG selector prepares a
    response); a found view can be the empty string. *)
Definition ViewSelector : Type := Heap → Client → outcome (Heap * Client * option string).

Fixpoint first_view (selectors : list ViewSelector) (h : Heap) (client : Client)
  : outcome (Heap * Client * string) :=
  match selectors with
  | [] => Ret (h, client, "")
  | vs :: selectors =>
      r ← vs h client;
      let '(h, client, found) := r in
      match found with
      | Some v => Ret (h, client, v)
      | None => first_view selectors h client
      end
  end.

Definition SelectorMgr_SelectView (viewAndIds : gmap string Z) (selectors : list ViewSelector)
  (h : Heap) (client : Client) : outcome (Heap * Client * bool) :=
  r ← first_view selectors h client;
  let '(h, client, view) := r in
  if bool_decide (view ≠ "")
  then Ret (h, set_view view (default 0%Z (viewAndIds !! view)) client, true)
  else Ret (h, client, false).

Definition SelectorMgr_HandleQuery {W} (viewAndIds : gmap string Z) (selectors : W → list ViewSelector)
  (next : option (Handler (Heap * W))) : Handler (Heap * W) := λ s client,
  let '(h, w) := s in
  r ← SelectorMgr_SelectView viewAndIds (selectors w) h client;
  let '(h, client, _) := r in
  PassToNext next (h, w) client.
End selector_mgr.

Section selectors.
Context {N : G53Name} {M : G53Msg N} {R : NetRadix}.

(** The manager with its two selectors, and the package's [viewAndIds]. *)
Record SelectorMgr : Type := mkSelectorMgr {
  sm_addr : list ViewAcls;
  sm_tsig : gmap string TSIGKey;
  sm_viewAndIds : gmap string Z;
}.

(** The selectors in the order [NewSelectorMgr] adds them. *)
Definition SelectorMgr_selectors (tl : TsigLib) (am : AclManager) (mgr : SelectorMgr)
  : list ViewSelector :=
  [ (λ h client, v ← AddrBasedView_ViewForQuery am client (sm_addr mgr); Ret (h, client, v));
    TSIGKeyBasedView_ViewForQuery tl (sm_tsig mgr) ].

(** Each selector reloads in turn; duplicate keys leave the new address rules with the
    old keys and identifiers.  [order] is that of the iteration over the keys. *)
Definition SelectorMgr_ReloadConfig (order : list string) (confs : list ViewConf)
  (mgr : SelectorMgr) : SelectorMgr * outcome unit :=
  let addr := AddrBasedView_ReloadConfig confs in
  match TSIGKeyBasedView_ReloadConfig confs with
  | Ret keys =>
      (mkSelectorMgr addr keys
         (allocateIdForView (AddrBasedView_GetViews addr ++ TSIGKeyBasedView_GetViews order keys)),
       Ret tt)
  | Panic why => (mkSelectorMgr addr (sm_tsig mgr) (sm_viewAndIds mgr), Panic why)
  | Hang why => (mkSelectorMgr addr (sm_tsig mgr) (sm_viewAndIds mgr), Hang why)
  end.

Definition NewSelectorMgr (order : list string) (confs : list ViewConf) : outcome SelectorMgr :=
  let '(mgr, r) := SelectorMgr_ReloadConfig order confs (mkSelectorMgr [] ∅ ∅) in
  _ ← r; Ret mgr.

(** ** viewselector/zonebaseview.go *)

Definition ZoneBaseView_reload {T : DomainTree N} : dtree string * list string := (dt_New, []).

Definition ZoneBaseView_ViewForQuery {T : DomainTree N} (zoneBaseView : dtree string)
  (client : Client) : outcome (option string) :=
  q ← deref_question (c_request client);
  Ret (dt_Search (q_name q) zoneBaseView).1.

(** ** The commands *)

Inductive ViewCmd : Type :=
  | UpdateView (name : string) (acls : list string)
  | UpdateViewPriority (orders : list string).

Definition AddrBasedView_HandleCmd (cmd : ViewCmd) (mgr : SelectorMgr)
  : SelectorMgr * option CmdError :=
  let '(v, err) :=
    match cmd with
    | UpdateView name acls => AddrBasedView_updateView name acls (sm_addr mgr)
    | UpdateViewPriority orders => AddrBasedView_updateViewPriority orders (sm_addr mgr)
    end in
  (mkSelectorMgr v (sm_tsig mgr) (sm_viewAndIds mgr), err).
End selectors.

(** ** viewselector/prioritybaseview.go: weighted random choice *)

(** The views in the order the map iteration visited them, with their running
    sums of weights. *)
Fixpoint calculateViewMarks (weights : list (string * Z)) (mark : Z) : list (string * Z) :=
  match weights with
  | [] => []
  | (v, p) :: weights => (v, mark + p)%Z :: calculateViewMarks weights (mark + p)%Z
  end.

(** [sort.Search(n, f)]: bisection for the least index where [f] holds. *)
Fixpoint sort_Search_loop (fuel : nat) (f : nat → bool) (i j : nat) : nat :=
  match fuel with
  | O => i
  | S fuel =>
      if (i <? j)%nat then
        let h := ((i + j) / 2)%nat in
        if f h then sort_Search_loop fuel f i h else sort_Search_loop fuel f (S h) j
      else i
  end.
Definition sort_Search (n : nat) (f : nat → bool) : nat := sort_Search_loop n f 0 n.

(** [rnd] is what [rand.Intn] returns for the total weight. *)
Definition PriorityBaseView_ViewForQuery (rnd : Z) (marks : list (string * Z))
  : outcome (option string) :=
  match last marks with
  | None => Ret None
  | Some (_, total) =>
      if (total <=? 0)%Z then Panic "invalid argument to Intn"
      else
        let idx := (rnd + 1)%Z in
        let pos := sort_Search (length marks)
                     (λ i, match marks !! i with Some (_, mk) => (idx <=? mk)%Z | None => false end) in
        vm ← index marks pos;
        Ret (Some vm.1)
  end.

(** ** Properties *)

Section view_props.
Context {N : G53Name} {R : NetRadix}.
Implicit Types (v : list ViewAcls).

(** *** Identifiers *)

Lemma allocate_ids_inv views id m :
  (1 ≤ id)%Z → (id + Z.of_nat (length views) < 2 ^ 16)%Z →
  (∀ a i, m !! a = Some i → (0 ≤ i < id)%Z) →
  (∀ a b i, m !! a = Some i → m !! b = Some i → a = b) →
  let m' := allocate_ids views id m in
  m ⊆ m' ∧ (∀ a, a ∈ views → is_Some (m' !! a)) ∧
  (∀ a i, m' !! a = Some i → (0 ≤ i < 2 ^ 16)%Z) ∧
  (∀ a b i, m' !! a = Some i → m' !! b = Some i → a = b).
Proof.
  revert id m. induction views as [|w views IH]; intros id m Hid Hlen Hr Hinj; cbn.
  { split_and!; [done|by intros a ?%elem_of_nil| |done]. intros a i Ha.
    specialize (Hr a i Ha). cbn in Hlen. lia. }
  cbn [length] in Hlen. destruct (m !! w) as [i|] eqn:Hw.
  - destruct (IH id m) as (Hsub & Hall & Hrng & Hin); [done|lia|done|done|].
    split_and!; [done| |done|done]. intros a [->|Ha]%elem_of_cons; [|auto].
    exists i. by eapply lookup_weaken.
  - rewrite u16_small by (unfold is_u16; lia).
    destruct (IH (id + 1)%Z (<[w := id]> m)) as (Hsub & Hall & Hrng & Hin); [lia|lia| | |].
    + intros a i [[<- <-]|[_ Ha]]%lookup_insert_Some; [lia|]. specialize (Hr a i Ha). lia.
    + intros a b i [[<- <-]|[_ Ha]]%lookup_insert_Some [[<- E]|[_ Hb]]%lookup_insert_Some;
        try done; [|subst|by eauto]; exfalso;
        [specialize (Hr b _ Hb)|specialize (Hr a _ Ha)]; lia.
    + split_and!; [| |done|done].
      * etrans; [apply insert_subseteq, Hw|done].
      * intros a [->|Ha]%elem_of_cons; [|auto]. exists id.
        eapply lookup_weaken; [apply lookup_insert_eq|done].
Qed.

(** View identifiers.  With fewer than 65535 configured views every view gets an
    identifier, the default view's is zero, and different views get different
    identifiers, each of which fits the sixteen bits it has in a query key. *)
Theorem view_ids_distinct views :
  (Z.of_nat (length views) < 2 ^ 16 - 1)%Z →
  let m := allocateIdForView views in
  m !! DefaultView = Some 0%Z ∧ (∀ a, a ∈ views → is_Some (m !! a)) ∧
  (∀ a i, m !! a = Some i → is_u16 i) ∧
  (∀ a b i, m !! a = Some i → m !! b = Some i → a = b).
Proof.
  intros Hlen. unfold allocateIdForView.
  destruct (allocate_ids_inv views 1 {[ DefaultView := 0%Z ]}) as (Hsub & Hall & Hrng & Hinj).
  - done.
  - lia.
  - intros a i [_ <-]%lookup_singleton_Some. lia.
  - intros a b i [<- _]%lookup_singleton_Some [<- _]%lookup_singleton_Some. done.
  - split_and!; [|done..]. eapply lookup_weaken; [|done]. apply lookup_singleton_eq.
Qed.

(** *** Priorities *)

Lemma assign_frame m v v' err :
  assign_priorities m v = (v', err) → (va_name <$> v' = va_name <$> v) ∧ (va_acls <$> v' = va_acls <$> v).
Proof.
  revert v' err. induction v as [|a v IH]; cbn; intros v' err; [by intros [= <- _]|].
  destruct (m !! va_name a); [|by intros [= <- _]].
  destruct (assign_priorities m v) as [v1 e1]. intros [= <- _].
  destruct (IH v1 e1 eq_refl) as [E1 E2]. cbn. by rewrite E1, E2.
Qed.

Lemma assign_ok m v v' :
  assign_priorities m v = (v', None) →
  Forall (λ a, m !! va_name a = Some (va_priority a)) v'.
Proof.
  revert v'. induction v as [|a v IH]; cbn; intros v'; [by intros [= <-]|].
  destruct (m !! va_name a) eqn:E; [|done].
  destruct (assign_priorities m v) as [v1 e1]. intros [= <- ->]. constructor; [done|auto].
Qed.

Lemma views_fmap_eq v v' :
  va_name <$> v' = va_name <$> v → va_acls <$> v' = va_acls <$> v →
  (λ a, (va_name a, va_acls a)) <$> v' = (λ a, (va_name a, va_acls a)) <$> v.
Proof.
  revert v'. induction v as [|a v IH]; intros [|a' v']; try done. cbn.
  intros [= E1 E2] [= E3 E4]. rewrite E1, E3. f_equal. auto.
Qed.

Lemma find_first_names (am : AclManager) ip v v' :
  va_name <$> v' = va_name <$> v → va_acls <$> v' = va_acls <$> v →
  va_name <$> find_first (λ va, existsb (λ acl, AclManager_Find acl ip am) (va_acls va)) v' =
  va_name <$> find_first (λ va, existsb (λ acl, AclManager_Find acl ip am) (va_acls va)) v.
Proof.
  revert v'. induction v as [|a v IH]; intros [|a' v']; try done. cbn [find_first].
  intros [= E1 E2] [= E3 E4]. rewrite E3. destruct (existsb _ _); cbn; [by rewrite E1|auto].
Qed.

(** A refused priority update changes no answer.  [updateViewPriority] writes the
    priorities of the live views before it finds an unlisted one and returns an
    error; the views, their order and their access lists are nevertheless as
    before, so every query still gets the view it got. *)
Theorem updateViewPriority_refused (am : AclManager) orders v v' e client :
  AddrBasedView_updateViewPriority orders v = (v', Some e) →
  va_name <$> v' = va_name <$> v ∧ va_acls <$> v' = va_acls <$> v ∧
  AddrBasedView_ViewForQuery am client v' = AddrBasedView_ViewForQuery am client v.
Proof.
  unfold AddrBasedView_updateViewPriority.
  destruct (assign_priorities (view_priorities orders) v) as [v1 [e1|]] eqn:Ea; [|done].
  intros [= <- _]. apply assign_frame in Ea as [E1 E2]. split_and!; [done..|].
  unfold AddrBasedView_ViewForQuery. destruct (Client_IP client) as [ip| |]; [|done..]. cbn [mbind outcome_bind].
  by rewrite (find_first_names am ip v v1).
Qed.

Lemma view_priorities_gen (orders : list string) (k : nat) (m : gmap string Z) (n : string) :
  foldl (λ m iv, <[iv.2 := Z.of_nat iv.1]> m) m (imap (λ i x, (k + i, x)) orders) !! n =
  match last (filter (λ ix, ix.2 = n) (imap (λ i x, (k + i, x)) orders)) with
  | Some ix => Some (Z.of_nat ix.1)
  | None => m !! n
  end.
Proof.
  revert k m. induction orders as [|o orders IH]; intros k m; [done|].
  rewrite imap_cons. cbn [foldl].
  rewrite (imap_ext _ (λ i x, (S k + i, x))) by (intros; cbn; f_equal; lia).
  rewrite IH. destruct (decide (o = n)) as [->|Hne].
  - rewrite filter_cons_True by done. rewrite last_cons.
    destruct (last (filter _ _)) as [ix|]; [done|]. cbn. by rewrite lookup_insert_eq.
  - rewrite filter_cons_False by done. destruct (last (filter _ _)); [done|].
    by rewrite lookup_insert_ne.
Qed.

(** The priority of a view is its last position in the order. *)
Lemma view_priorities_lookup orders n p :
  view_priorities orders !! n = Some p →
  ∃ i, p = Z.of_nat i ∧ orders !! i = Some n.
Proof.
  unfold view_priorities. change (imap pair orders) with (imap (λ i x, (0 + i, x)) orders).
  rewrite view_priorities_gen. destruct (last _) as [[i x]|] eqn:E; [|done]. intros [= <-].
  apply last_Some_elem_of, list_elem_of_filter in E as [Hx Hin]. cbn in Hx; subst.
  apply elem_of_lookup_imap in Hin as (j & y & [= -> ->] & Hy). eauto.
Qed.

(** An accepted priority update reorders the views.  The new list is a permutation
    of the old views with their access lists, and it follows the requested order:
    if one view comes before another in the new list, some position the request
    gives to the first is not after one it gives to the second. *)
Theorem updateViewPriority_order orders v v' :
  AddrBasedView_updateViewPriority orders v = (v', None) →
  (λ a, (va_name a, va_acls a)) <$> v' ≡ₚ (λ a, (va_name a, va_acls a)) <$> v ∧
  StronglySorted (λ a b, ∃ i j, orders !! i = Some (va_name a) ∧ orders !! j = Some (va_name b) ∧
                                i ≤ j) v'.
Proof.
  unfold AddrBasedView_updateViewPriority.
  destruct (assign_priorities (view_priorities orders) v) as [v1 [e1|]] eqn:Ea; [done|].
  intros [= <-]. pose proof (assign_frame _ _ _ _ Ea) as [E1 E2]. apply assign_ok in Ea. split.
  - rewrite merge_sort_Permutation. by rewrite (views_fmap_eq v v1).
  - pose proof (StronglySorted_merge_sort priority_le v1) as Hs.
    assert (Forall (λ a, view_priorities orders !! va_name a = Some (va_priority a))
              (merge_sort priority_le v1)) as Hall by (by rewrite merge_sort_Permutation).
    induction Hs as [|a l Hs IH Ha]; [constructor|]. apply Forall_cons in Hall as [Hpa Hl].
    constructor; [auto|]. rewrite Forall_forall in Ha, Hl |- *. intros b Hb.
    apply view_priorities_lookup in Hpa as (i & Ei & Hi).
    specialize (Hl b Hb). apply view_priorities_lookup in Hl as (j & Ej & Hj).
    exists i, j. specialize (Ha b Hb). unfold priority_le in Ha. split_and!; [done|done|lia].
Qed.
End view_props.

(** *** Bisection and weighted choice *)

Lemma sort_Search_loop_spec fuel f n i j :
  j - i ≤ fuel → i ≤ j ≤ n → (∀ k, k < i → f k = false) → (j < n → f j = true) →
  (∀ a b, a ≤ b < n → f a = true → f b = true) →
  let r := sort_Search_loop fuel f i j in
  r ≤ n ∧ (∀ k, k < r → f k = false) ∧ (r < n → f r = true).
Proof.
  revert i j. induction fuel as [|fuel IH]; intros i j Hf Hij Hlo Hhi Hmono;
    cbn [sort_Search_loop]; cbv zeta.
  { assert (i = j) as -> by lia. split_and!; [lia|done|done]. }
  destruct (Nat.ltb_spec i j); [|assert (i = j) as -> by lia; split_and!; [lia|done|done]].
  pose proof (Nat.div_mod_eq (i + j) 2) as Hd.
  pose proof (Nat.mod_upper_bound (i + j) 2 ltac:(lia)) as Hm.
  set (h := (i + j) / 2) in *. destruct (f h) eqn:Hh.
  - apply IH; [lia|lia|done|done|done].
  - apply IH; [lia|lia| |done|done]. intros k Hk. destruct (f k) eqn:Hfk; [|done].
    rewrite <- Hh. symmetry. apply (Hmono k h); [lia|done].
Qed.

Lemma sort_Search_spec n f :
  (∀ a b, a ≤ b < n → f a = true → f b = true) →
  let r := sort_Search n f in
  r ≤ n ∧ (∀ k, k < r → f k = false) ∧ (r < n → f r = true).
Proof.
  intros Hmono. apply sort_Search_loop_spec; [lia|lia|intros k Hk; lia|lia|done].
Qed.

(** The total weight of the first [i] views. *)
Definition weight_before (weights : list (string * Z)) (i : nat) : Z :=
  foldr (λ x acc, x.2 + acc)%Z 0%Z (take i weights).

Lemma weight_before_S weights i v p :
  weights !! i = Some (v, p) → weight_before weights (S i) = (weight_before weights i + p)%Z.
Proof.
  intros Hi. unfold weight_before. rewrite (take_S_r _ _ _ Hi), foldr_app. cbn.
  generalize (take i weights). induction l; cbn; lia.
Qed.

Lemma marks_lookup weights m i :
  calculateViewMarks weights m !! i =
  (λ x, (x.1, m + weight_before weights (S i))%Z) <$> weights !! i.
Proof.
  revert m i. induction weights as [|[v p] weights IH]; intros m [|i]; try done.
  - cbn. do 2 f_equal. unfold weight_before. cbn. rewrite take_0. cbn. lia.
  - cbn [calculateViewMarks lookup list_lookup]. rewrite IH. destruct (weights !! i); [|done].
    cbn. do 2 f_equal. unfold weight_before. cbn. lia.
Qed.

Lemma marks_length weights m : length (calculateViewMarks weights m) = length weights.
Proof. revert m. induction weights as [|[v p] ws IH]; intros m; cbn; [done|]. by rewrite IH. Qed.

Lemma weight_before_mono weights i j :
  Forall (λ x, 0 < x.2)%Z weights → i ≤ j → (weight_before weights i ≤ weight_before weights j)%Z.
Proof.
  intros Hw Hij. unfold weight_before. replace j with (i + (j - i)) by lia.
  revert Hw. generalize (j - i) as k. clear.
  revert i. induction weights as [|[v p] ws IH]; intros i k Hw.
  { by rewrite !take_nil. }
  apply Forall_cons in Hw as [Hp Hw]. destruct i as [|i]; cbn.
  - assert (∀ l, Forall (λ x : string * Z, 0 < x.2)%Z l → (0 ≤ foldr (λ x acc, x.2 + acc) 0 l)%Z) as Hpos.
    { clear. induction 1; cbn in *; lia. }
    destruct k; cbn; [lia|]. specialize (Hpos (take k ws) (Forall_take _ _ _ Hw)). cbn in Hp. lia.
  - specialize (IH i k Hw). lia.
Qed.

(** Weighted choice of a view.  With positive weights and a random number below
    their sum, the bisection returns a view, and it is the view in whose weight
    interval the number lies: out of the equally likely numbers, each view is
    chosen by exactly as many as its weight. *)
Theorem PriorityBaseView_weighted weights rnd :
  weights ≠ [] → Forall (λ x, 0 < x.2)%Z weights →
  (0 ≤ rnd < weight_before weights (length weights))%Z →
  ∃ i v p, weights !! i = Some (v, p) ∧
    PriorityBaseView_ViewForQuery rnd (calculateViewMarks weights 0) = Ret (Some v) ∧
    (weight_before weights i ≤ rnd < weight_before weights i + p)%Z.
Proof.
  intros Hne Hw Hr. set (marks := calculateViewMarks weights 0).
  assert (∀ i, marks !! i = (λ x, (x.1, weight_before weights (S i))) <$> weights !! i) as Hm.
  { intros i. unfold marks. rewrite marks_lookup. done. }
  assert (length marks = length weights) as Hl by apply marks_length.
  assert (length weights ≠ 0) as Hlen by (by destruct weights).
  assert (∃ v, last marks = Some (v, weight_before weights (length weights))) as [v0 Hlast].
  { rewrite last_lookup, Hl, Hm.
    destruct (lookup_lt_is_Some_2 weights (pred (length weights)) ltac:(lia)) as [x Hx].
    rewrite Hx. cbn. exists x.1. by replace (S (pred (length weights))) with (length weights) by lia. }
  unfold PriorityBaseView_ViewForQuery. rewrite Hlast.
  destruct (Z.leb_spec (weight_before weights (length weights)) 0); [lia|].
  set (f := λ i, match marks !! i with Some (_, mk) => (rnd + 1 <=? mk)%Z | None => false end).
  assert (∀ i, i < length weights → f i = (rnd + 1 <=? weight_before weights (S i))%Z) as Hf.
  { intros i Hi. unfold f. rewrite Hm. by destruct (lookup_lt_is_Some_2 weights i Hi) as [x ->]. }
  destruct (sort_Search_spec (length marks) f) as (Hle & Hbefore & Hat).
  { rewrite Hl. intros a b Hab. rewrite !Hf by lia. rewrite !Z.leb_le.
    pose proof (weight_before_mono weights (S a) (S b) Hw ltac:(lia)). lia. }
  set (r := sort_Search (length marks) f) in *. rewrite Hl in *.
  assert (r < length weights) as Hrl.
  { destruct (decide (r = length weights)) as [E|]; [|lia].
    specialize (Hbefore (pred (length weights)) ltac:(lia)). rewrite Hf in Hbefore by lia.
    replace (S (pred (length weights))) with (length weights) in Hbefore by lia. zbool. lia. }
  destruct (lookup_lt_is_Some_2 weights r Hrl) as [[v p] Hv]. exists r, v, p.
  split; [done|]. split.
  - cbv zeta. fold f. unfold index. rewrite Hm, Hv. done.
  - specialize (Hat Hrl). rewrite Hf in Hat by done. zbool.
    rewrite (weight_before_S _ _ _ _ Hv) in Hat. split; [|lia].
    destruct r as [|k]; [unfold weight_before; rewrite take_0; cbn; lia|].
    specialize (Hbefore k ltac:(lia)). rewrite Hf in Hbefore by lia. zbool. lia.
Qed.

(** ** Examples *)

Section view_examples.

Lemma view_ids_distinct_witness :
  allocateIdForView ["lan"; "wan"; "lan"] !! "wan" = Some 2%Z ∧
  ∀ a b i, allocateIdForView ["lan"; "wan"; "lan"] !! a = Some i →
           allocateIdForView ["lan"; "wan"; "lan"] !! b = Some i → a = b.
Proof.
  split; [reflexivity|].
  apply (view_ids_distinct ["lan"; "wan"; "lan"]). cbn. lia.
Defined.

Definition demo_views : list ViewAcls :=
  [mkViewAcls "lan" ["office"] 0; mkViewAcls "wan" ["any"] 1].

Lemma updateViewPriority_refused_witness :
  ∃ v' e, AddrBasedView_updateViewPriority ["lan"] demo_views = (v', Some e) ∧
          va_name <$> v' = ["lan"; "wan"].
Proof.
  eexists _, _. split; [reflexivity|].
  apply (updateViewPriority_refused mgr1 ["lan"] demo_views _ _ demo_client eq_refl).
Defined.

Lemma updateViewPriority_order_witness :
  (λ a, (va_name a, va_acls a)) <$> [mkViewAcls "wan" ["any"] 0; mkViewAcls "lan" ["office"] 1]
  ≡ₚ [("lan", ["office"]); ("wan", ["any"])].
Proof.
  apply (updateViewPriority_order ["wan"; "lan"] demo_views). by_eval.
Defined.

Lemma PriorityBaseView_weighted_witness :
  ∃ i v p, [("lan", 3%Z); ("wan", 1%Z)] !! i = Some (v, p) ∧
    PriorityBaseView_ViewForQuery 2 (calculateViewMarks [("lan", 3%Z); ("wan", 1%Z)] 0) =
      Ret (Some v).
Proof.
  destruct (PriorityBaseView_weighted [("lan", 3%Z); ("wan", 1%Z)] 2) as (i & v & p & H1 & H2 & _).
  - done.
  - repeat constructor; cbn; lia.
  - unfold weight_before. cbn. lia.
  - eauto.
Defined.
End view_examples.
