(* ===== verification/Util.v ===== *)
(** * Shared helpers (src/util)

    Classification of responses, sets of names, byte and render pools, and the
    UDP sender every upstream query goes through.  The wire decoder belongs to
    the DNS library and is a parameter. *)

From S2P Require Import Prelude GoStd G53 Instances Core.

Local Open Scope Z_scope.

Section dnshelper.
Context {N : G53Name}.

(** ** util/dnshelper.go *)

Inductive AnswerType : Type := EMPTY | ANSWER | REFERRAL | NXDOMAIN | NXRRSET | UNKNOWN.

#[export] Instance AnswerType_eq_dec : EqDecision AnswerType.
Proof. solve_decision. Defined.

(** The section counts are the header's: a header that promises records the
    message does not have makes the indexing panic. *)
Definition ClassifyResponse (response : Message) : outcome AnswerType :=
  let h := m_header response in
  if h_rcode h =? R_NXDOMAIN then Ret NXDOMAIN
  else if negb (h_rcode h =? R_NOERROR) then Ret UNKNOWN
  else if 0 <? h_ancount h then
    first ← index (m_answer response) 0;
    q ← deref_question response;
    Ret (if Name_Equals (rr_name first) (q_name q) &&
            ((rr_type first =? q_type q) || (rr_type first =? RR_CNAME))
         then ANSWER else UNKNOWN)
  else if 0 <? h_nscount h then
    auth ← index (m_auth response) 0;
    if rr_type auth =? RR_NS then
      q ← deref_question response;
      Ret (if Name_IsSubDomain (q_name q) (rr_name auth) then REFERRAL else UNKNOWN)
    else if rr_type auth =? RR_SOA then Ret NXRRSET
    else Ret UNKNOWN
  else Ret UNKNOWN.

Definition NameStripFirstWildcard (name : string) : bool * (string + Name) :=
  if strings_HasPrefix name "*." then (true, Name_FromString (str_drop 2 name))
  else (false, Name_FromString name).

(** ** util/domainset.go *)

Abbreviation DomainSet := (gmap Z (list Name)).

Definition NewDomainSet : DomainSet := ∅.

Definition DomainSet_Include (name : Name) (set : DomainSet) : bool :=
  match set !! Name_Hash name with
  | None => false
  | Some names => existsb (Name_Equals name) names
  end.

Definition DomainSet_Add (name : Name) (set : DomainSet) : DomainSet :=
  if DomainSet_Include name set then set
  else
    let hash := Name_Hash name in
    <[hash := match set !! hash with Some names => names ++ [name] | None => [name] end]> set.

(** [strings.TrimRight]: the characters at the end that are in [cutset] go. *)
Fixpoint strings_TrimRight (s cutset : string) : string :=
  match s with
  | EmptyString => EmptyString
  | String c s =>
      match strings_TrimRight s cutset with
      | EmptyString => if existsb (Ascii.eqb c) (String.list_ascii_of_string cutset) then EmptyString
                       else String c EmptyString
      | r => String c r
      end
  end.

Definition nameSpliter : string := ", ".

(** The text of a set; [buckets] are its entries in the order the loop meets them. *)
Definition DomainSet_String (buckets : list (list Name)) : string :=
  strings_TrimRight (foldr (λ n text, Name_String n +:+ nameSpliter +:+ text)%string EmptyString (concat buckets))
    nameSpliter.
End dnshelper.

(** ** util/bytepool.go *)

(** The buffered channel of [size] buffers of width [bp_w]. *)
Record BytePool : Type := mkBytePool {
  bp_c : list (list Z);
  bp_size : nat;
  bp_w : nat;
}.

Definition NewBytePool (maxSize width : nat) : BytePool := mkBytePool [] maxSize width.

Definition BytePool_Get (bp : BytePool) : BytePool * list Z :=
  match bp_c bp with
  | b :: c => (mkBytePool c (bp_size bp) (bp_w bp), b)
  | [] => (bp, replicate (bp_w bp) 0)
  end.

Definition BytePool_Put (b : list Z) (bp : BytePool) : BytePool :=
  if (length (bp_c bp) <? bp_size bp)%nat then mkBytePool (bp_c bp ++ [b]) (bp_size bp) (bp_w bp)
  else bp.

(** ** util/safesender.go: the pool of renderers *)

(** Renderers are named by the order they were made in: [rp_made] of them so
    far.  A slot of [rp_renders] is nil while its renderer is lent. *)
Record RenderPool : Type := mkRenderPool {
  rp_renders : list (option nat);
  rp_made : nat;
}.

Definition NewRenderPool : RenderPool := mkRenderPool [] 0.

Fixpoint take_render (renders : list (option nat)) : option (nat * list (option nat)) :=
  match renders with
  | [] => None
  | Some r :: renders => Some (r, None :: renders)
  | None :: renders =>
      match take_render renders with
      | Some (r, renders) => Some (r, None :: renders)
      | None => None
      end
  end.

Definition getRender (p : RenderPool) : RenderPool * nat :=
  match take_render (rp_renders p) with
  | Some (r, renders) => (mkRenderPool renders (rp_made p), r)
  | None => (mkRenderPool (rp_renders p) (S (rp_made p)), rp_made p)
  end.

Fixpoint put_render (render : nat) (renders : list (option nat)) : list (option nat) :=
  match renders with
  | [] => [Some render]
  | None :: renders => Some render :: renders
  | Some r :: renders => Some r :: put_render render renders
  end.

Definition releaseRender (render : nat) (p : RenderPool) : RenderPool :=
  mkRenderPool (put_render render (rp_renders p)) (rp_made p).

(** ** util/sender.go *)

(** [MessageFromWire], the decoder of the DNS library. *)
Class G53Wire (N : G53Name) : Type := MessageFromWire : list Z → string + Message.

(** A message needs its header, so nothing is decoded from no bytes. *)
Class G53WireLaws {N : G53Name} (D : G53Wire N) : Prop :=
  MessageFromWire_empty : ∃ e, MessageFromWire [] = inl e.

Section sender.
Context {N : G53Name} {M : G53Msg N} {D : G53Wire N}.

(** A datagram the socket receives before the read deadline, and the time since
    the query was sent. *)
Record Datagram : Type := mkDatagram {
  dg_data : list Z;
  dg_elapsed : Z;
}.

Definition errMalformedResponse : string := "response format error".
Definition errTimeout : string := "i/o timeout".

(** The [net.Dialer]'s local address; [resolve] is [net.ResolveUDPAddr], which
    gives the error text for a source it refuses. *)
Definition setQuerySource (resolve : string → option string) (source : string)
  : string + option string :=
  if bool_decide (source = "") then inr None
  else match resolve source with Some err => inl err | None => inr (Some source) end.

Record UDPSender : Type := mkUDPSender {
  us_LocalAddr : option string;
  us_timeout : Z;
}.

Definition NewUDPSender (resolve : string → option string) (querySource : string) (timeout : Z)
  : string + UDPSender :=
  match setQuerySource resolve querySource with
  | inl err => inl err
  | inr local => inr (mkUDPSender local timeout)
  end.

Definition isResponseValid (req resp : Message) : outcome (option string) :=
  if h_rcode (m_header resp) =? R_FORMERR then Ret None
  else match m_question resp with
       | None => Ret (Some errMalformedResponse)
       | Some q =>
           rq ← deref_question req;
           Ret (if Question_Equals q rq then None else Some errMalformedResponse)
       end.

(** The read loop.  [buflen] is the length of the buffer: 1024 at first, and 0
    once [buf = buf[:0]] was run before the retry.  [ReadFromUDP] takes one
    datagram and keeps what fits in the buffer; with no datagram left it fails at
    the read deadline. *)
Fixpoint Query_read (timeout : Z) (query : Message) (buflen : nat) (dgs : list Datagram)
  : outcome (option Message * Z * option string) :=
  match dgs with
  | [] => Ret (None, timeout, Some errTimeout)
  | d :: dgs =>
      match MessageFromWire (take buflen (dg_data d)) with
      | inl err => Ret (None, timeout, Some err)
      | inr msg =>
          if h_id (m_header msg) =? h_id (m_header query) then
            valid ← isResponseValid query msg;
            match valid with
            | Some err => Ret (None, dg_elapsed d, Some err)
            | None => Ret (Some msg, dg_elapsed d, None)
            end
          else Query_read timeout query 0 dgs
      end
  end.

(** [dial] is the error of [Dial], if any. *)
Definition UDPSender_Query (f : UDPSender) (dial : option string) (dgs : list Datagram)
  (query : Message) : outcome (option Message * Z * option string) :=
  match dial with
  | Some err => Ret (None, us_timeout f, Some err)
  | None => Query_read (us_timeout f) query 1024 dgs
  end.
End sender.

(** ** Properties *)

Section domainset_props.
Context {N : G53Name} {L : G53NameLaws N}.

Lemma DomainSet_Include_spec n set :
  DomainSet_Include n set = true ↔ ∃ names, set !! Name_Hash n = Some names ∧ Exists (name_eq n) names.
Proof.
  unfold DomainSet_Include. destruct (set !! Name_Hash n) as [names|]; [|naive_solver].
  rewrite existsb_Exists. setoid_rewrite Exists_exists. naive_solver.
Qed.

Lemma DomainSet_Add_spec n m set :
  DomainSet_Include m (DomainSet_Add n set) = true ↔ m ≈ n ∨ DomainSet_Include m set = true.
Proof.
  unfold DomainSet_Add. destruct (DomainSet_Include n set) eqn:En.
  - split; [by right|]. intros [E|?]; [|done].
    apply DomainSet_Include_spec in En as (ns & Hns & He). apply DomainSet_Include_spec.
    exists ns. rewrite (Hash_Equals _ _ E). split; [done|].
    eapply Exists_impl; [done|]. intros x ?. by transitivity n.
  - rewrite !DomainSet_Include_spec.
    destruct (decide (Name_Hash n = Name_Hash m)) as [Eh|Hne].
    + rewrite Eh, lookup_insert_eq. destruct (set !! Name_Hash m) as [ns|].
      * split; [intros (? & [= <-] & [?|?%Exists_cons]%Exists_app)|].
        -- right. by exists ns.
        -- rewrite Exists_nil in *. naive_solver.
        -- intros [?|(? & [= <-] & ?)]; eexists; (split; [done|]); apply Exists_app;
             [right; by constructor|by left].
      * split; [intros (? & [= <-] & [?|[]%Exists_nil]%Exists_cons); by left|].
        intros [?|(? & ? & ?)]; [|done]. eexists; split; [done|by constructor].
    + rewrite lookup_insert_ne by done. split; [by right|]. intros [E|?]; [|done].
      destruct Hne. by rewrite (Hash_Equals _ _ E).
Qed.

(** The set of names is a set up to [Equals].  A name is in the set built by
    adding [names] exactly when it equals one of them, whatever names share a
    hash. *)
Theorem DomainSet_spec (names : list Name) (m : Name) :
  DomainSet_Include m (foldl (λ set n, DomainSet_Add n set) NewDomainSet names) = true ↔
  ∃ n, n ∈ names ∧ m ≈ n.
Proof.
  induction names as [|n names IH] using rev_ind; cbn.
  - unfold DomainSet_Include, NewDomainSet. rewrite lookup_empty. set_solver.
  - rewrite foldl_app. cbn. rewrite DomainSet_Add_spec, IH. set_solver.
Qed.

Lemma TrimRight_app a b cutset :
  strings_TrimRight (a +:+ b) cutset =
  match strings_TrimRight b cutset with EmptyString => strings_TrimRight a cutset | r => (a +:+ r)%string end.
Proof.
  induction a as [|c a IH].
  - change ("" +:+ b)%string with b. by destruct (strings_TrimRight b cutset).
  - change (String c a +:+ b)%string with (String c (a +:+ b)). cbn [strings_TrimRight]. rewrite IH.
    destruct (strings_TrimRight b cutset); [done|]. by destruct a.
Qed.

(** The text of a set is the texts of its names with a comma and a space between them, when
    none of them ends in a comma or a space. *)
Lemma DomainSet_String_spec (buckets : list (list Name)) :
  Forall (λ n, Name_String n ≠ "" ∧ strings_TrimRight (Name_String n) nameSpliter = Name_String n) (concat buckets) →
  DomainSet_String buckets = strings_Join (Name_String <$> concat buckets) nameSpliter.
Proof.
  unfold DomainSet_String. induction 1 as [|n names [Hne Hn] Hns IH]; [done|]. cbn [foldr].
  rewrite TrimRight_app. set (text := foldr _ _ names) in *.
  destruct names as [|m names]; [by cbn; rewrite Hn|]. apply Forall_cons in Hns as [[Hm _] _].
  change (Name_String <$> n :: m :: names) with (Name_String n :: (Name_String <$> m :: names)).
  assert (∃ c r, strings_Join (Name_String <$> m :: names) nameSpliter = String c r) as (c & r & E).
  { cbn. destruct (Name_String m) as [|c r]; [done|]. destruct (Name_String <$> names); eauto. }
  rewrite TrimRight_app, IH, E. transitivity (Name_String n +:+ nameSpliter +:+ String c r)%string; [done|].
  by rewrite <- E.
Qed.
End domainset_props.

(** *** Pools *)

Lemma BytePool_Put_bounded b bp :
  (length (bp_c bp) ≤ bp_size bp)%nat →
  (length (bp_c (BytePool_Put b bp)) ≤ bp_size (BytePool_Put b bp))%nat.
Proof.
  unfold BytePool_Put. destruct (Nat.ltb_spec (length (bp_c bp)) (bp_size bp)); cbn; [|done].
  rewrite length_app. cbn. lia.
Qed.

Section render_props.
Abbreviation idle p := (omap id (rp_renders p)) (only parsing).

Lemma take_render_None rs : take_render rs = None ↔ omap id rs = [].
Proof. induction rs as [|[r|] rs IH]; cbn; [done|done|]. rewrite <- IH. go. Qed.

Lemma take_render_Some rs r rs' :
  take_render rs = Some (r, rs') → omap id rs = r :: omap id rs'.
Proof.
  revert r rs'. induction rs as [|[x|] rs IH]; intros r rs'; cbn; [done|naive_solver|].
  destruct (take_render rs) as [[y ys]|]; [|done]. intros [= <- <-]. cbn. by apply IH.
Qed.

Lemma put_render_perm r rs : omap id (put_render r rs) ≡ₚ r :: omap id rs.
Proof.
  induction rs as [|[x|] rs IH]; cbn; [done| |done]. rewrite IH. by constructor 3.
Qed.

(** The pool, the renderers lent to queries in flight, and the most queries that
    were in flight at once. *)
Inductive render_run : RenderPool → list nat → nat → Prop :=
  | run_start : render_run NewRenderPool [] 0
  | run_get p used peak :
      render_run p used peak →
      render_run (getRender p).1 ((getRender p).2 :: used) (peak `max` S (length used))
  | run_release p used1 r used2 peak :
      render_run p (used1 ++ r :: used2) peak →
      render_run (releaseRender r p) (used1 ++ used2) peak.

Definition render_inv (p : RenderPool) (used : list nat) (peak : nat) : Prop :=
  used ++ idle p ≡ₚ seq 0 (rp_made p) ∧ (rp_made p ≤ peak)%nat.

Lemma render_run_inv p used peak : render_run p used peak → render_inv p used peak.
Proof.
  induction 1 as [|p used peak _ [Hp Hm]|p u1 r u2 peak _ [Hp Hm]]; [done| |].
  - unfold render_inv, getRender.
    destruct (take_render (rp_renders p)) as [[r rs]|] eqn:E; cbn [fst snd rp_renders rp_made].
    + apply take_render_Some in E. rewrite E in Hp. split; [|lia].
      rewrite <- Hp. by rewrite <- Permutation_middle.
    + apply take_render_None in E. rewrite E in Hp |- *. rewrite app_nil_r in *.
      apply Permutation_length in Hp as Hl. rewrite length_seq in Hl. split; [|lia].
      rewrite seq_S, Hp. by rewrite Permutation_app_comm.
  - unfold render_inv, releaseRender. cbn. split; [|done].
    rewrite put_render_perm, <- Hp, <- !(assoc_L (++)). cbn. by rewrite <- !Permutation_middle.
Qed.

(** Renderers are never shared.  In every interleaving of queries, the
    renderers lent to the queries in flight are distinct and none of them is also
    idle in the pool, and no more renderers are ever made than queries were in
    flight at once. *)
Theorem render_exclusive p used peak :
  render_run p used peak →
  NoDup (used ++ idle p) ∧ (rp_made p ≤ peak)%nat.
Proof.
  intros [Hp Hm]%render_run_inv. split; [|done].
  rewrite Hp. apply NoDup_ListNoDup, seq_NoDup.
Qed.

Lemma render_exclusive_witness :
  NoDup ([0%nat] ++ [1%nat]) ∧ (2 ≤ 2)%nat.
Proof.
  pose proof (run_release _ [] 1 [0%nat] _ (run_get _ _ _ (run_get _ _ _ run_start))) as H.
  exact (render_exclusive _ _ _ H).
Defined.
End render_props.

Section sender_props.
Context {N : G53Name} {M : G53Msg N} {D : G53Wire N} {LD : G53WireLaws D}.

Lemma Query_read_0 timeout query dgs :
  ∃ err, Query_read timeout query 0 dgs = Ret (None, timeout, Some err).
Proof.
  destruct dgs as [|d dgs]; cbn [Query_read]; [by eexists|].
  rewrite take_0. destruct MessageFromWire_empty as [e ->]. by eexists.
Qed.

(** The sender looks at one datagram.  With a connection, the query succeeds
    exactly when the first datagram decodes (from at most 1024 bytes) to a message
    with the query's id that is a format error or echoes the question; a datagram
    with another id makes the query fail with the timeout as its time, even when
    the right answer follows it, because the retry reads into an empty buffer. *)
Theorem UDPSender_Query_spec f query q dgs :
  m_question query = Some q →
  match dgs with
  | [] => UDPSender_Query f None dgs query = Ret (None, us_timeout f, Some errTimeout)
  | d :: _ =>
      match MessageFromWire (take 1024 (dg_data d)) with
      | inl err => UDPSender_Query f None dgs query = Ret (None, us_timeout f, Some err)
      | inr msg =>
          if h_id (m_header msg) =? h_id (m_header query) then
            UDPSender_Query f None dgs query =
            if (h_rcode (m_header msg) =? R_FORMERR) ||
               from_option (λ q', Question_Equals q' q) false (m_question msg)
            then Ret (Some msg, dg_elapsed d, None)
            else Ret (None, dg_elapsed d, Some errMalformedResponse)
          else ∃ err, UDPSender_Query f None dgs query = Ret (None, us_timeout f, Some err)
      end
  end.
Proof.
  intros Hq. unfold UDPSender_Query. destruct dgs as [|d dgs]; [done|]. cbn [Query_read].
  destruct (MessageFromWire _) as [err|msg] eqn:E; [done|].
  destruct (_ =? _); [|apply Query_read_0].
  unfold isResponseValid. destruct (h_rcode (m_header msg) =? R_FORMERR); [done|].
  destruct (m_question msg) as [q'|]; [|done]. rewrite (deref_question_Some _ _ Hq), bind_Ret. cbn.
  by destruct (Question_Equals q' q).
Qed.
End sender_props.

(** ** Witnesses *)

(** A decoder for the examples: the first byte is the message id. *)
#[export] Instance demo_wire : G53Wire label_names := λ bytes,
  match bytes with
  | [] => inl "short header"
  | i :: _ => inr (set_header (Header_set_id i hdr0) (query www RR_A))
  end.
#[export] Instance demo_wire_laws : G53WireLaws demo_wire.
Proof. by exists "short header". Qed.

Definition demo_sender : UDPSender := mkUDPSender None 2.

(** The right answer (id 7) comes after a stray one (id 9) and is not used. *)
Lemma UDPSender_Query_spec_witness :
  ∃ err, UDPSender_Query demo_sender None [mkDatagram [9] 1; mkDatagram [7] 2] (query www RR_A) =
         Ret (None, 2, Some err).
Proof.
  exact (UDPSender_Query_spec demo_sender (query www RR_A) (mkQuestion www RR_A CLASS_IN)
           [mkDatagram [9] 1; mkDatagram [7] 2] eq_refl).
Defined.

(** *** Examples *)

Example demo_query_ok :
  is_ret (UDPSender_Query demo_sender None [mkDatagram [7] 1] (query www RR_A)) = true.
Proof. by_eval. Qed.
