(* ===== verification/Chain.v ===== *)
(** * Resolver chains and query sources (src/resolver/chain, src/resolver/querysource)

    A resolver answers a client or hands it to the next resolver of its chain.
    Resolvers are handlers of the shared state, so the chain is built and walked
    like the query chain; each also reloads its own part of the state.  Views may
    set the source address of their upstream queries. *)

From S2P Require Import Prelude GoStd G53 Core HttpCmd.

(** ** chain/resolverchain.go *)

Section chain.
Context {N : G53Name} {Conf S : Type}.

(** The interface [Resolver]: [Resolve] given the next resolver, and
    [ReloadConfig]. *)
Record Resolver : Type := mkResolver {
  r_Resolve : option (Handler S) → Handler S;
  r_ReloadConfig : Conf → S → outcome S;
}.

(** [BuildResolverChain]: the first resolver of the list with the others linked
    behind it; nil for no resolver. *)
Definition BuildResolverChain (resolvers : list Resolver) : option (Handler S) :=
  foldr (λ r next, Some (r_Resolve r next)) None resolvers.

Definition Resolver_PassToNext (next : option (Handler S)) : Handler S := λ s client,
  match next with
  | Some r => r s client
  | None => Ret (s, client)
  end.

(** [ReconfigChain] from the first resolver of the chain on. *)
Fixpoint ReconfigChain (resolvers : list Resolver) (conf : Conf) (s : S) : outcome S :=
  match resolvers with
  | [] => Ret s
  | r :: resolvers => s ← r_ReloadConfig r conf s; ReconfigChain resolvers conf s
  end.
End chain.

Arguments Resolver {N} Conf S.

(** ** querysource/querysource.go and cmdhandler.go *)

Abbreviation QuerySources := (gmap string string).

Definition DefaultViewForQuery : string := "*".

Definition ErrDuplicateQuerySource : CmdError :=
  NewError QuerySourceErrCodeStart "duplicate query source".
Definition ErrNotExistQuerySource : CmdError :=
  NewError (QuerySourceErrCodeStart + 1) "unknown query source".

(** The configured (view, address) pairs; a later one for the same view wins. *)
Definition QuerySource_ReloadConfig (conf : list (string * string)) : QuerySources :=
  foldl (λ m c, <[c.1 := c.2]> m) ∅ conf.

Definition GetQuerySource (view : string) (q : QuerySources) : string :=
  match q !! view with
  | Some addr => addr
  | None => match q !! DefaultViewForQuery with Some addr => addr | None => "" end
  end.

Definition addQuerySource (view addr : string) (q : QuerySources)
  : QuerySources * option CmdError :=
  match q !! view with
  | Some _ => (q, Some ErrDuplicateQuerySource)
  | None => (<[view := addr]> q, None)
  end.

Definition deleteQuerySource (view : string) (q : QuerySources)
  : QuerySources * option CmdError :=
  match q !! view with
  | None => (q, Some ErrNotExistQuerySource)
  | Some _ => (delete view q, None)
  end.

Definition updateQuerySource (view addr : string) (q : QuerySources)
  : QuerySources * option CmdError :=
  match q !! view with
  | None => (q, Some ErrNotExistQuerySource)
  | Some _ => (<[view := addr]> q, None)
  end.

Inductive QuerySourceCmd : Type :=
  | AddQuerySource (view addr : string)
  | DeleteQuerySource (view : string)
  | UpdateQuerySource (view addr : string).

Definition QuerySourceManager_HandleCmd (cmd : QuerySourceCmd) (q : QuerySources)
  : QuerySources * option CmdError :=
  match cmd with
  | AddQuerySource view addr => addQuerySource view addr q
  | DeleteQuerySource view => deleteQuerySource view q
  | UpdateQuerySource view addr => updateQuerySource view addr q
  end.

(** The abstract contract: a source command acts on its view's entry only, and a
    refused command changes nothing. *)
Lemma QuerySource_cmd_frame cmd q view' :
  let view := match cmd with
    | AddQuerySource v _ | DeleteQuerySource v | UpdateQuerySource v _ => v end in
  let '(q', err) := QuerySourceManager_HandleCmd cmd q in
  (err ≠ None → q' = q) ∧ (view' ≠ view → q' !! view' = q !! view').
Proof.
  destruct cmd as [v a|v|v a]; cbn; unfold addQuerySource, deleteQuerySource, updateQuerySource;
    destruct (q !! v) eqn:E; (split; [done || intros []; done|]); intros; simplify_map_eq; done.
Qed.
