(* ===== verification/Forwarder.v ===== *)
(** * Forwarding (src/resolver/forwarder)

    A zone of a view is forwarded to one upstream server or to a group of them.
    Upstream servers are shared by address; a server that keeps failing is taken
    down and handed to a prober until it answers again.  Groups choose a server
    in fixed order, by turns or by round-trip time, and retry once. *)

From S2P Require Import Prelude GoList GoStd G53 Instances Core HttpCmd Cement CacheHandler Util Chain.

Local Open Scope Z_scope.

(** ** forwarder/interface.go

    What a group needs of an upstream server.  Servers are objects in the state
    [W], named by a location; answers come from the network, which is part of
    the state. *)

Section interface.
Context {N : G53Name}.

(** Response, round-trip time and error. *)
Definition fwd_result : Type := option Message * Z * option string.

Class SafeFwder (W : Type) : Type := {
  sf_Forward : nat → Message → W → outcome (W * fwd_result);
  sf_IsDown : nat → W → bool;
  sf_GetLastRtt : nat → W → Z;
  sf_RemoteAddr : nat → W → string;
  sf_SetQuerySource : nat → string → W → W * option string;
}.
End interface.

(** ** forwarder/safefwderselector.go and selectorfactory.go *)

Inductive FwderSelector : Type :=
  | FixOrderSelector (fwders : list nat)
  | RoundRobinSelector (fwders : list nat) (next : Z)
  | RttBasedSelector (fwders : list nat).

Definition Selector_GetFwders (s : FwderSelector) : list nat :=
  match s with
  | FixOrderSelector fs | RoundRobinSelector fs _ | RttBasedSelector fs => fs
  end.

(** The loop over [fwderCount] candidates from [fromIndex], wrapping around. *)
Fixpoint next_usable (isDown : nat → bool) (fwders : list nat) (fuel : nat) (fromIndex : Z)
  : outcome (option nat * Z) :=
  match fuel with
  | O => Ret (None, -1)
  | S fuel =>
      f ← (if fromIndex <? 0 then Panic "index out of range"
           else index fwders (Z.to_nat fromIndex));
      if negb (isDown f) then Ret (Some f, fromIndex)
      else next_usable isDown fwders fuel
             (Z.rem (fromIndex + 1) (Z.of_nat (length fwders)))
  end.

Definition selectNextUsableFwder (isDown : nat → bool) (fwders : list nat) (fromIndex : Z)
  : outcome (option nat * Z) := next_usable isDown fwders (length fwders) fromIndex.

Definition SelectorBase_HasUpFwder (isDown : nat → bool) (fwders : list nat) : bool :=
  existsb (λ f, negb (isDown f)) fwders.

(** [sort.Sort] by the snapshot of round-trip times. *)
Definition rtt_le (rtt : nat → Z) (a b : nat) : Prop := rtt a ≤ rtt b.
#[export] Instance rtt_le_dec rtt : RelDecision (rtt_le rtt).
Proof. intros a b. unfold rtt_le. apply _. Defined.
#[export] Instance rtt_le_total rtt : Total (rtt_le rtt).
Proof. intros a b. unfold rtt_le. lia. Qed.
#[export] Instance rtt_le_trans rtt : Transitive (rtt_le rtt).
Proof. intros a b c. unfold rtt_le. lia. Qed.

Definition sortForwarders (rtt : nat → Z) (fwders : list nat) : list nat :=
  merge_sort (rtt_le rtt) fwders.

(** [x % n] panics for a zero divisor. *)
Definition go_rem (a b : Z) : outcome Z :=
  if b =? 0 then Panic "integer divide by zero" else Ret (Z.rem a b).

Definition SelectFwder (isDown : nat → bool) (rtt : nat → Z) (s : FwderSelector)
  : outcome (FwderSelector * option nat) :=
  match s with
  | FixOrderSelector fs =>
      r ← selectNextUsableFwder isDown fs 0; Ret (s, r.1)
  | RoundRobinSelector fs next =>
      r ← selectNextUsableFwder isDown fs next;
      next ← go_rem (r.2 + 1) (Z.of_nat (length fs));
      Ret (RoundRobinSelector fs next, r.1)
  | RttBasedSelector fs =>
      let fs := sortForwarders rtt fs in
      r ← selectNextUsableFwder isDown fs 0; Ret (RttBasedSelector fs, r.1)
  end.

Inductive FwdSelectPolicy : Type := fixedOrder | rttBased | roundRobin.

Definition CreateSelector (policy : FwdSelectPolicy) (fwders : list nat) : FwderSelector :=
  match policy with
  | fixedOrder => FixOrderSelector fwders
  | rttBased => RttBasedSelector fwders
  | roundRobin => RoundRobinSelector fwders 0
  end.

(** ** forwarder/fwdergroup.go *)

Definition ErrAllFwderIsDown : string := "no available forwarder left".
Definition maxRetryCount : nat := 2.

Record FwderGroup : Type := mkGroup {
  fg_selector : FwderSelector;
  fg_lastFwder : option nat;
}.

Definition NewFwderGroup (s : FwderSelector) : FwderGroup := mkGroup s None.

Section group.
Context {N : G53Name} {W : Type} {F : SafeFwder W}.

Definition FwderGroup_forwardOnce (query : Message) (s : W * FwderGroup)
  : outcome (W * FwderGroup * fwd_result) :=
  let '(w, g) := s in
  r ← SelectFwder (λ f, sf_IsDown f w) (λ f, sf_GetLastRtt f w) (fg_selector g);
  let '(sel, fwder) := r in
  let g := mkGroup sel fwder in
  match fwder with
  | None => Ret (w, g, (None, 0, Some ErrAllFwderIsDown))
  | Some f => r ← sf_Forward f query w; Ret (r.1, g, r.2)
  end.

Fixpoint group_retry (count : nat) (query : Message) (s : W * FwderGroup) (last : fwd_result)
  : outcome (W * FwderGroup * fwd_result) :=
  match count with
  | O => Ret (s, last)
  | S count =>
      r ← FwderGroup_forwardOnce query s;
      let '(s, res) := r in
      match res.2 with
      | None => Ret (s, res)
      | Some _ => group_retry count query s res
      end
  end.

Definition FwderGroup_Forward (query : Message) (s : W * FwderGroup)
  : outcome (W * FwderGroup * fwd_result) :=
  group_retry maxRetryCount query s (None, 0, None).

Fixpoint set_sources (ip : string) (fwders : list nat) (w : W) : W * option string :=
  match fwders with
  | [] => (w, None)
  | f :: fwders =>
      if negb (sf_IsDown f w) then
        let '(w, err) := sf_SetQuerySource f ip w in
        match err with Some e => (w, Some e) | None => set_sources ip fwders w end
      else set_sources ip fwders w
  end.

Definition FwderGroup_SetQuerySource (ip : string) (g : FwderGroup) (w : W) : W * option string :=
  set_sources ip (Selector_GetFwders (fg_selector g)) w.

Definition FwderGroup_GetLastRtt (g : FwderGroup) (w : W) : Z :=
  match fg_lastFwder g with Some f => sf_GetLastRtt f w | None => 0 end.

Definition FwderGroup_IsDown (g : FwderGroup) (w : W) : bool :=
  negb (SelectorBase_HasUpFwder (λ f, sf_IsDown f w) (Selector_GetFwders (fg_selector g))).

Definition FwderGroup_RemoteAddr (g : FwderGroup) (w : W) : outcome string :=
  match fg_lastFwder g with
  | Some f => Ret (sf_RemoteAddr f w)
  | None => f ← index (Selector_GetFwders (fg_selector g)) 0; Ret (sf_RemoteAddr f w)
  end.
End group.

(** ** forwarder/safeudpfwder.go, recoverablefwd.go, prober.go *)

Record SafeUDPFwder : Type := mkUDPFwder {
  (** nil until [SetQuerySource] made one. *)
  uf_sender : option UDPSender;
  uf_remoteAddr : string;
  uf_lastRtt : Z;
  uf_fwderTimeout : Z;
  uf_bearableFailInterval : Z;
  uf_lastFailTime : Z;
  uf_isDown : bool;
}.

(** [timeout] and [interval] are durations in nanoseconds. *)
Definition NewSafeUDPFwder (addr : string) (fwderTimeout bearableFailInterval : Z)
  : SafeUDPFwder :=
  mkUDPFwder None addr 0 fwderTimeout (Z.quot bearableFailInterval Second) 0 false.

Definition set_status (failTime : Z) (down : bool) (f : SafeUDPFwder) : SafeUDPFwder :=
  mkUDPFwder (uf_sender f) (uf_remoteAddr f) (uf_lastRtt f) (uf_fwderTimeout f)
    (uf_bearableFailInterval f) failTime down.
Definition set_rtt (rtt : Z) (f : SafeUDPFwder) : SafeUDPFwder :=
  mkUDPFwder (uf_sender f) (uf_remoteAddr f) rtt (uf_fwderTimeout f)
    (uf_bearableFailInterval f) (uf_lastFailTime f) (uf_isDown f).

(** [unix] is [time.Now().Unix()]; [failed] says whether the error is non-nil. *)
Definition SafeUDPFwder_checkStatus (unix : Z) (failed : bool) (f : SafeUDPFwder)
  : SafeUDPFwder :=
  if negb failed then set_status 0 false f
  else if uf_lastFailTime f =? 0 then set_status unix false f
  else set_status (uf_lastFailTime f) (uf_bearableFailInterval f <=? unix - uf_lastFailTime f) f.

Section udp_world.
Context {N : G53Name}.

Record Target : Type := mkTarget { tg_fwder : nat; tg_request : Message }.

(** The prober's queue and set, and the targets handed to its worker pool. *)
Record Prober : Type := mkProber {
  pr_targets : list Target;
  pr_targetFwders : gset nat;
  pr_probing : list Target;
}.

Definition NewProber : Prober := mkProber [] ∅ [].

Definition Prober_AddProbe (f : nat) (request : Message) (p : Prober) : Prober :=
  if bool_decide (f ∈ pr_targetFwders p) then p
  else mkProber (pr_targets p ++ [mkTarget f request]) ({[f]} ∪ pr_targetFwders p) (pr_probing p).

Definition probeRoutineCount : nat := 10.

(** A tick of the prober's timer: up to ten targets are sent to the pool;
    [accepted] says for each whether the pool took it or was too busy. *)
Fixpoint send_targets (ts : list Target) (accepted : list bool) (p : Prober) : Prober :=
  match ts with
  | [] => p
  | t :: ts =>
      let p := if head accepted is Some true
               then mkProber (pr_targets p) (pr_targetFwders p) (pr_probing p ++ [t])
               else mkProber (pr_targets p ++ [t]) (pr_targetFwders p) (pr_probing p) in
      send_targets ts (tail accepted) p
  end.

Definition Prober_tick (accepted : list bool) (p : Prober) : Prober :=
  send_targets (take probeRoutineCount (pr_targets p)) accepted
    (mkProber (drop probeRoutineCount (pr_targets p)) (pr_targetFwders p) (pr_probing p)).

(** A worker finished the [i]-th of the targets being probed. *)
Definition Prober_done (i : nat) (failed : bool) (p : Prober) : Prober :=
  match pr_probing p !! i with
  | None => p
  | Some t =>
      let rest := delete i (pr_probing p) in
      if failed then mkProber (pr_targets p ++ [t]) (pr_targetFwders p) rest
      else mkProber (pr_targets p) (pr_targetFwders p ∖ {[tg_fwder t]}) rest
  end.

(** What the sockets will answer, in order: a response, a round-trip time, an
    error, and the Unix time at which the exchange ends. *)
Record NetAnswer : Type := mkNetAnswer {
  na_resp : option Message;
  na_rtt : Z;
  na_err : option string;
  na_unix : Z;
}.

Record FwdWorld : Type := mkFwdWorld {
  fw_fwders : gmap nat SafeUDPFwder;
  fw_prober : Prober;
  fw_net : list NetAnswer;
  (** [net.ResolveUDPAddr]: the error text for a source address it refuses. *)
  fw_resolve : string → option string;
}.

(** [SafeUDPFwder.Forward]: the exchange uses a fresh query id, and the response
    gets the client's id back. *)
Definition SafeUDPFwder_Forward (l : nat) (query : Message) (w : FwdWorld)
  : outcome (FwdWorld * fwd_result) :=
  f ← from_option_panic "nil forwarder" (fw_fwders w !! l);
  match uf_sender f, fw_net w with
  | None, _ => Panic "nil pointer dereference: sender"
  | Some _, [] => Hang "no answer and no timeout"
  | Some _, a :: net =>
      let f := SafeUDPFwder_checkStatus (na_unix a)
                 (if na_err a is Some _ then true else false) (set_rtt (na_rtt a) f) in
      let resp := (λ m, set_header (Header_set_id (h_id (m_header query)) (m_header m)) m)
                    <$> na_resp a in
      Ret (mkFwdWorld (<[l := f]> (fw_fwders w)) (fw_prober w) net (fw_resolve w),
           (resp, na_rtt a, na_err a))
  end.

Definition SafeUDPFwder_SetQuerySource (l : nat) (ip : string) (w : FwdWorld)
  : FwdWorld * option string :=
  match fw_fwders w !! l with
  | None => (w, None)
  | Some f =>
      match NewUDPSender (fw_resolve w) ip (uf_fwderTimeout f) with
      | inl err => (w, Some err)
      | inr sender =>
          (mkFwdWorld (<[l := mkUDPFwder (Some sender) (uf_remoteAddr f) (uf_lastRtt f)
             (uf_fwderTimeout f) (uf_bearableFailInterval f) (uf_lastFailTime f) (uf_isDown f)]>
             (fw_fwders w)) (fw_prober w) (fw_net w) (fw_resolve w), None)
      end
  end.

Definition world_IsDown (l : nat) (w : FwdWorld) : bool :=
  match fw_fwders w !! l with Some f => uf_isDown f | None => false end.

(** [RecoverableFwder.Forward]: a server found down goes to the prober. *)
Definition RecoverableFwder_Forward (l : nat) (query : Message) (w : FwdWorld)
  : outcome (FwdWorld * fwd_result) :=
  r ← SafeUDPFwder_Forward l query w;
  let '(w, res) := r in
  Ret (if world_IsDown l w
       then mkFwdWorld (fw_fwders w) (Prober_AddProbe l query (fw_prober w)) (fw_net w)
              (fw_resolve w)
       else w,
       res).

#[export] Instance recoverable_fwders : SafeFwder FwdWorld := {|
  sf_Forward := RecoverableFwder_Forward;
  sf_IsDown := world_IsDown;
  sf_GetLastRtt l w := match fw_fwders w !! l with Some f => uf_lastRtt f | None => 0 end;
  sf_RemoteAddr l w := match fw_fwders w !! l with Some f => uf_remoteAddr f | None => "" end;
  sf_SetQuerySource := SafeUDPFwder_SetQuerySource;
|}.
End udp_world.

(** ** forwarder/safefwderrepo.go *)

Definition defaultProbeInterval : Z := 60.
Definition defaultFwderTimeout : Z := 2.
Definition defaultTimeoutLasting : Z := 5.

Record SafeFwderRepo : Type := mkRepo {
  sr_probeInterval : Z;
  sr_fwderTimeout : Z;
  sr_timeoutLasting : Z;
  sr_fwders : gmap string nat;
}.

(** The three configured seconds. *)
Definition SafeFwderRepo_ReloadConf (probeInterval timeout timeoutLasting : Z) : SafeFwderRepo :=
  let or_default x d := if x =? 0 then d else x in
  mkRepo (or_default probeInterval defaultProbeInterval * Second)
         (or_default timeout defaultFwderTimeout * Second)
         (or_default timeoutLasting defaultTimeoutLasting * Second) ∅.

Section repo.
Context {N : G53Name}.

Definition GetOrCreateFwder (addr : string) (repo : SafeFwderRepo) (w : FwdWorld)
  : SafeFwderRepo * FwdWorld * nat :=
  match sr_fwders repo !! addr with
  | Some l => (repo, w, l)
  | None =>
      let l := fresh (dom (fw_fwders w)) in
      (mkRepo (sr_probeInterval repo) (sr_fwderTimeout repo) (sr_timeoutLasting repo)
         (<[addr := l]> (sr_fwders repo)),
       mkFwdWorld (<[l := NewSafeUDPFwder addr (sr_fwderTimeout repo) (sr_timeoutLasting repo)]>
                     (fw_fwders w)) (fw_prober w) (fw_net w) (fw_resolve w), l)
  end.

Fixpoint create_fwders (addrs : list string) (repo : SafeFwderRepo) (w : FwdWorld)
  : SafeFwderRepo * FwdWorld * list nat :=
  match addrs with
  | [] => (repo, w, [])
  | addr :: addrs =>
      let '(repo, w, l) := GetOrCreateFwder addr repo w in
      let '(repo, w, ls) := create_fwders addrs repo w in
      (repo, w, l :: ls)
  end.
End repo.

(** ** forwarder/viewforwarder.go *)

Inductive ZoneMatchType : Type := matchSubdomain | matchExact | matchException.

(** A zone is forwarded to one server or to a group; groups are objects too. *)
Inductive ZoneTarget : Type := ToFwder (l : nat) | ToGroup (g : nat).

Record ZoneFwder : Type := mkZoneFwder {
  zf_matchType : ZoneMatchType;
  zf_fwderGroup : ZoneTarget;
}.

Section view_fwder.
Context {N : G53Name} {T : DomainTree N}.

Fixpoint walk_parents (exact : bool) (chain : list (Name * ZoneFwder)) : option ZoneTarget :=
  match chain with
  | [] => None
  | (_, z) :: chain =>
      match zf_matchType z with
      | matchException => None
      | matchSubdomain => Some (zf_fwderGroup z)
      | matchExact => if exact then Some (zf_fwderGroup z) else walk_parents exact chain
      end
  end.

Definition ViewFwder_getFwder (name : Name) (t : dtree ZoneFwder) : option ZoneTarget :=
  match dt_SearchParents name t with
  | (_, NotFound) => None
  | (parents, m) => walk_parents (bool_decide (m = ExactMatch)) parents
  end.

Definition ErrDuplicateForwardZone : CmdError :=
  NewError (ForwarderErrCodeStart + 4) "duplicate forward zone".

Definition ViewFwder_addZoneFwder (name : string) (z : ZoneFwder) (t : dtree ZoneFwder)
  : string + dtree ZoneFwder :=
  match Name_FromString name with
  | inl err => inl err
  | inr dname =>
      match dt_Insert dname z t with
      | inl _ => inl (err_Info ErrDuplicateForwardZone)
      | inr t => inr t
      end
  end.

Definition ViewFwder_deleteZoneFwder (name : string) (t : dtree ZoneFwder)
  : string + dtree ZoneFwder :=
  match Name_FromString name with
  | inl err => inl err
  | inr dname => inr (dt_Delete dname t)
  end.

(** ** forwarder/viewforwardermgr.go and cmdhandler.go *)

Record ViewFwderMgr : Type := mkViewFwderMgr {
  vm_fwders : gmap string (dtree ZoneFwder);
  vm_repo : SafeFwderRepo;
  vm_groups : gmap nat FwderGroup;
  vm_world : FwdWorld;
}.

Definition strToFwdSelectPolicy (style : string) : FwdSelectPolicy :=
  if bool_decide (style = "fixed_order") then fixedOrder
  else if bool_decide (style = "rtt") then rttBased
  else if bool_decide (style = "round_robin") then roundRobin
  else fixedOrder.

Definition newZoneForwarder (style : string) (forwarders : list string) (m : ViewFwderMgr)
  : ViewFwderMgr * ZoneFwder :=
  let '(matchType, policy) :=
    if bool_decide (style = "no") then (matchException, roundRobin)
    else (matchSubdomain, strToFwdSelectPolicy style) in
  let '(repo, w, fwders) := create_fwders forwarders (vm_repo m) (vm_world m) in
  match fwders with
  | [l] => (mkViewFwderMgr (vm_fwders m) repo (vm_groups m) w, mkZoneFwder matchType (ToFwder l))
  | _ =>
      let g := fresh (dom (vm_groups m)) in
      (mkViewFwderMgr (vm_fwders m) repo
         (<[g := NewFwderGroup (CreateSelector policy fwders)]> (vm_groups m)) w,
       mkZoneFwder matchType (ToGroup g))
  end.

Definition set_view_fwder (view : string) (t : dtree ZoneFwder) (m : ViewFwderMgr)
  : ViewFwderMgr :=
  mkViewFwderMgr (<[view := t]> (vm_fwders m)) (vm_repo m) (vm_groups m) (vm_world m).

Definition ViewFwderMgr_GetFwder (view : string) (name : Name) (m : ViewFwderMgr)
  : option ZoneTarget :=
  match vm_fwders m !! view with
  | Some vf => ViewFwder_getFwder name vf
  | None => None
  end.

Record ForwardZoneParam : Type := mkForwardZone {
  fz_View : string;
  fz_Name : string;
  fz_Forwarders : list string;
  fz_ForwardStyle : string;
}.

Definition ErrAddForwardZoneFailed : CmdError :=
  NewError (ForwarderErrCodeStart + 8) "add forward zone failed".
Definition ErrDeleteForwardZoneFailed : CmdError :=
  NewError (ForwarderErrCodeStart + 9) "delete forward zone failed".
Definition ErrUpdateForwardZoneFailed : CmdError :=
  NewError (ForwarderErrCodeStart + 10) "update forward zone failed".

Fixpoint addForwardZone (zones : list ForwardZoneParam) (m : ViewFwderMgr)
  : ViewFwderMgr * option CmdError :=
  match zones with
  | [] => (m, None)
  | z :: zones =>
      match vm_fwders m !! fz_View z with
      | None => (m, Some (Error_AddDetail ErrUnknownView (fz_View z)))
      | Some viewFwder =>
          let '(m, zoneFwder) := newZoneForwarder (fz_ForwardStyle z) (fz_Forwarders z) m in
          match ViewFwder_addZoneFwder (fz_Name z) zoneFwder viewFwder with
          | inl err => (m, Some (Error_AddDetail ErrAddForwardZoneFailed err))
          | inr t => addForwardZone zones (set_view_fwder (fz_View z) t m)
          end
      end
  end.

Definition deleteForwardZone (view name : string) (m : ViewFwderMgr)
  : ViewFwderMgr * option CmdError :=
  match vm_fwders m !! view with
  | None => (m, Some (Error_AddDetail ErrUnknownView view))
  | Some viewFwder =>
      match ViewFwder_deleteZoneFwder name viewFwder with
      | inl err => (m, Some (Error_AddDetail ErrDeleteForwardZoneFailed err))
      | inr t => (set_view_fwder view t m, None)
      end
  end.

Definition updateForwardZone (view name style : string) (forwarders : list string)
  (m : ViewFwderMgr) : ViewFwderMgr * option CmdError :=
  match vm_fwders m !! view with
  | None => (m, Some (Error_AddDetail ErrUnknownView view))
  | Some viewFwder =>
      let '(m, zoneFwder) := newZoneForwarder style forwarders m in
      match ViewFwder_deleteZoneFwder name viewFwder with
      | inl err => (m, Some (Error_AddDetail ErrUpdateForwardZoneFailed err))
      | inr t =>
          match ViewFwder_addZoneFwder name zoneFwder t with
          | inl err => (set_view_fwder view t m,
                        Some (Error_AddDetail ErrUpdateForwardZoneFailed err))
          | inr t => (set_view_fwder view t m, None)
          end
      end
  end.
(** [ViewFwderMgr.ReloadConfig]: [views] are the configured views, [zones] the
    configured zones in order; a zone that cannot be loaded panics. *)
Fixpoint load_forward_zones (zones : list ForwardZoneParam) (fwders : gmap string (dtree ZoneFwder))
  (m : ViewFwderMgr) : outcome (gmap string (dtree ZoneFwder) * ViewFwderMgr) :=
  match zones with
  | [] => Ret (fwders, m)
  | z :: zones =>
      let '(m, zoneFwder) := newZoneForwarder (fz_ForwardStyle z) (fz_Forwarders z) m in
      match fwders !! fz_View z with
      | None => Panic "nil pointer dereference: view forwarder"
      | Some viewFwder =>
          match ViewFwder_addZoneFwder (fz_Name z) zoneFwder viewFwder with
          | inl err => Panic ("load forward zone " +:+ fz_Name z +:+ " failed:" +:+ err)
          | inr t => load_forward_zones zones (<[fz_View z := t]> fwders) m
          end
      end
  end.

Definition ViewFwderMgr_ReloadConfig (views : list string) (prober : Z * Z * Z)
  (zones : list ForwardZoneParam) (m : ViewFwderMgr) : outcome ViewFwderMgr :=
  let '(probeInterval, timeout, timeoutLasting) := prober in
  let w := vm_world m in
  let m := mkViewFwderMgr (vm_fwders m)
             (SafeFwderRepo_ReloadConf probeInterval timeout timeoutLasting) (vm_groups m)
             (mkFwdWorld (fw_fwders w) NewProber (fw_net w) (fw_resolve w)) in
  r ← load_forward_zones zones (foldr (λ v t, <[v := dt_New]> t) ∅ views) m;
  let '(fwders, m) := r in
  Ret (mkViewFwderMgr fwders (vm_repo m) (vm_groups m) (vm_world m)).

(** ** forwarder/forwarder.go *)

Definition set_world (w : FwdWorld) (m : ViewFwderMgr) : ViewFwderMgr :=
  mkViewFwderMgr (vm_fwders m) (vm_repo m) (vm_groups m) w.

(** The methods of a zone's forwarder, one server or a group. *)
Definition Target_SetQuerySource (t : ZoneTarget) (ip : string) (m : ViewFwderMgr)
  : outcome (ViewFwderMgr * option string) :=
  match t with
  | ToFwder l => let '(w, err) := sf_SetQuerySource l ip (vm_world m) in Ret (set_world w m, err)
  | ToGroup g =>
      grp ← from_option_panic "nil group" (vm_groups m !! g);
      let '(w, err) := FwderGroup_SetQuerySource ip grp (vm_world m) in Ret (set_world w m, err)
  end.

Definition Target_Forward (t : ZoneTarget) (query : Message) (m : ViewFwderMgr)
  : outcome (ViewFwderMgr * fwd_result) :=
  match t with
  | ToFwder l => r ← sf_Forward l query (vm_world m); Ret (set_world r.1 m, r.2)
  | ToGroup g =>
      grp ← from_option_panic "nil group" (vm_groups m !! g);
      r ← FwderGroup_Forward query (vm_world m, grp);
      let '((w, grp), res) := r in
      Ret (mkViewFwderMgr (vm_fwders m) (vm_repo m) (<[g := grp]> (vm_groups m)) w, res)
  end.

Definition Target_RemoteAddr (t : ZoneTarget) (m : ViewFwderMgr) : outcome string :=
  match t with
  | ToFwder l => Ret (sf_RemoteAddr l (vm_world m))
  | ToGroup g =>
      grp ← from_option_panic "nil group" (vm_groups m !! g);
      FwderGroup_RemoteAddr grp (vm_world m)
  end.

(** The state of the process behind a forwarder. *)
Abbreviation FwdState W := (ViewFwderMgr * QuerySources * Heap * W)%type.

(** Both log lines after an exchange print the forwarder's address, which panics
    for a group with no server. *)
Definition Forwarder_processRequest {W} : Handler (FwdState W) := λ s client,
  let '(m, qs, h, w) := s in
  q ← deref_question (c_request client);
  match ViewFwderMgr_GetFwder (c_view client) (q_name q) m with
  | None => Ret ((m, qs, h, w), client)
  | Some f =>
      r ← Target_SetQuerySource f (GetQuerySource (c_view client) qs) m;
      let '(m, err) := r in
      match err with
      | Some _ => Ret ((m, qs, h, w), client)
      | None =>
          r ← Target_Forward f (c_request client) m;
          let '(m, (resp, _, err)) := r in
          _ ← Target_RemoteAddr f m;
          match err, resp with
          | None, Some resp =>
              let '(l, h) := heap_alloc resp h in
              Ret ((m, qs, h, w), set_response (Some l) client)
          | None, None => Ret ((m, qs, h, w), set_response None client)
          | Some _, _ => Ret ((m, qs, h, w), client)
          end
      end
  end.

Definition Forwarder_Resolve {W} (next : option (Handler (FwdState W))) : Handler (FwdState W) :=
  λ s client,
  let '(_, _, h, _) := s in
  referral ← (match c_response client with
              | None => Ret false
              | Some l =>
                  resp ← deref l h; t ← ClassifyResponse resp;
                  Ret (bool_decide (t = REFERRAL))
              end);
  if referral : bool then Ret (s, client)
  else
    r ← Forwarder_processRequest s client;
    let '((m, qs, h, w), client) := r in
    match c_response client with
    | Some l =>
        resp ← deref l h;
        let hd := Header_SetFlag FLAG_AA false
                    (Header_set_id (h_id (m_header (c_request client))) (m_header resp)) in
        Ret ((m, qs, <[l := set_header hd resp]> h, w), set_cache_answer true client)
    | None => Resolver_PassToNext next (m, qs, h, w) client
    end.
End view_fwder.

(** ** Properties of the selectors *)

Section selector_props.
Context (isDown : nat → bool).
Implicit Types (fs : list nat).

(** The server [j] places after index [i], going around. *)
Definition around fs (i : Z) (j : nat) : option nat :=
  fs !! Z.to_nat ((i + Z.of_nat j) mod Z.of_nat (length fs)).

Lemma next_usable_spec fs k i :
  0 ≤ i < Z.of_nat (length fs) →
  (∃ j f, (j < k)%nat ∧ around fs i j = Some f ∧ isDown f = false ∧
     next_usable isDown fs k i = Ret (Some f, (i + Z.of_nat j) mod Z.of_nat (length fs)) ∧
     ∀ j' f', (j' < j)%nat → around fs i j' = Some f' → isDown f' = true) ∨
  (next_usable isDown fs k i = Ret (None, -1) ∧
   ∀ j f, (j < k)%nat → around fs i j = Some f → isDown f = true).
Proof.
  set (n := Z.of_nat (length fs)). revert i. induction k as [|k IH]; intros i Hi.
  { right. split; [done|]. intros; lia. }
  assert (around fs i 0 = fs !! Z.to_nat i) as H0.
  { unfold around. fold n. by rewrite Z.add_0_r, Z.mod_small. }
  destruct (lookup_lt_is_Some_2 fs (Z.to_nat i) ltac:(lia)) as [f Hf].
  cbn [next_usable]. destruct (Z.ltb_spec i 0); [lia|]. unfold index. rewrite Hf. cbn.
  destruct (isDown f) eqn:Hd; cbn.
  2:{ left. exists 0%nat, f. rewrite Z.add_0_r, Z.mod_small by lia.
      split_and!; [lia|congruence|done|done|intros; lia]. }
  fold n. rewrite Z.rem_mod_nonneg by lia.
  assert (∀ j, around fs ((i + 1) mod n) j = around fs i (S j)) as Hsh.
  { intros j. unfold around. fold n. rewrite Zplus_mod_idemp_l.
    by replace (i + 1 + Z.of_nat j) with (i + Z.of_nat (S j)) by lia. }
  destruct (IH ((i + 1) mod n)) as [(j & f1 & Hj & Ha & Hu & E & Hb)|[E Hb]].
  { apply Z.mod_pos_bound. lia. }
  - left. exists (S j), f1. rewrite Hsh in Ha. rewrite Zplus_mod_idemp_l in E.
    replace (i + 1 + Z.of_nat j) with (i + Z.of_nat (S j)) in E by lia.
    split_and!; [lia|done|done|done|].
    intros [|j'] f' Hj' Ha'; [congruence|]. apply (Hb j'); [lia|]. by rewrite Hsh.
  - right. split; [done|]. intros [|j'] f' Hj' Ha'; [congruence|].
    apply (Hb j'); [lia|]. by rewrite Hsh.
Qed.

(** Every server is met on one way around. *)
Lemma around_all fs i f :
  0 ≤ i < Z.of_nat (length fs) → f ∈ fs →
  ∃ j, (j < length fs)%nat ∧ around fs i j = Some f.
Proof.
  set (n := Z.of_nat (length fs)). intros Hi (k & Hk)%list_elem_of_lookup.
  pose proof (lookup_lt_Some _ _ _ Hk) as Hlt.
  exists (Z.to_nat ((Z.of_nat k - i) mod n)).
  pose proof (Z.mod_pos_bound (Z.of_nat k - i) n ltac:(lia)). split; [lia|].
  unfold around. fold n. rewrite Z2Nat.id by lia. rewrite Zplus_mod_idemp_r.
  replace (i + (Z.of_nat k - i)) with (Z.of_nat k) by lia. rewrite Z.mod_small by lia.
  by rewrite Nat2Z.id.
Qed.

Lemma select_first_up fs i :
  0 ≤ i < Z.of_nat (length fs) →
  (∃ j f, (j < length fs)%nat ∧ around fs i j = Some f ∧ isDown f = false ∧
     selectNextUsableFwder isDown fs i =
       Ret (Some f, (i + Z.of_nat j) mod Z.of_nat (length fs)) ∧
     ∀ j' f', (j' < j)%nat → around fs i j' = Some f' → isDown f' = true) ∨
  (selectNextUsableFwder isDown fs i = Ret (None, -1) ∧ ∀ f, f ∈ fs → isDown f = true).
Proof.
  intros Hi. destruct (next_usable_spec fs (length fs) i Hi) as [?|[E Hall]]; [by left|].
  right. split; [done|]. intros f Hf. destruct (around_all fs i f Hi Hf) as (j & Hj & Ha).
  by apply (Hall j).
Qed.

Lemma first_up_around fs j f :
  (j < length fs)%nat → around fs 0 j = Some f → isDown f = false →
  (∀ j' f', (j' < j)%nat → around fs 0 j' = Some f' → isDown f' = true) →
  find_first (λ f, negb (isDown f)) fs = Some f.
Proof.
  intros Hj Ha Hu Hb.
  assert (∀ k, (k < length fs)%nat → around fs 0 k = fs !! k) as E.
  { intros k Hk. unfold around. rewrite Z.add_0_l, Z.mod_small by lia. by rewrite Nat2Z.id. }
  rewrite E in Ha by done.
  assert (∀ j' f', (j' < j)%nat → fs !! j' = Some f' → isDown f' = true) as Hb'.
  { intros j' f' Hj' Hf'. apply (Hb j'); [done|]. rewrite E by lia. done. }
  clear Hb E Hj. revert fs Ha Hb'. induction j as [|j IH]; intros [|x fs] Ha Hb'; try done; cbn.
  - cbn in Ha. simplify_eq. by rewrite Hu.
  - rewrite (Hb' 0%nat x) by (done || lia). cbn. apply IH; [done|].
    intros j' f' Hj'. apply (Hb' (S j')). lia.
Qed.

Lemma select_from_first l :
  l ≠ [] → ∃ t, selectNextUsableFwder isDown l 0 = Ret (find_first (λ f, negb (isDown f)) l, t).
Proof.
  intros Hl. destruct (select_first_up l 0) as [(j & f & Hj & Ha & Hu & E & Hb)|[E Hall]].
  - destruct l; [done|]. cbn. lia.
  - rewrite (first_up_around l j f) by done. eauto.
  - replace (find_first _ l) with (@None nat); [by eauto|]. symmetry. apply find_first_None, Forall_forall.
    intros x Hx. by rewrite Hall.
Qed.

Lemma first_up_Some l f :
  find_first (λ f, negb (isDown f)) l = Some f → f ∈ l ∧ isDown f = false.
Proof. intros (l1 & l2 & -> & Hu & _)%find_first_Some. apply negb_true_iff in Hu. set_solver. Qed.

Lemma first_up_None l f :
  find_first (λ f, negb (isDown f)) l = None → f ∈ l → isDown f = true.
Proof.
  intros Hn%find_first_None Hf. rewrite Forall_forall in Hn. by apply negb_false_iff, Hn.
Qed.

Lemma first_up_rtt (rtt : nat → Z) l f f' :
  find_first (λ f, negb (isDown f)) (sortForwarders rtt l) = Some f → f' ∈ l → isDown f' = false →
  rtt f ≤ rtt f'.
Proof.
  intros (l1 & l2 & El & Hu & Hpre)%find_first_Some Hf' Hd'.
  assert (sortForwarders rtt l ≡ₚ l) as Hp by apply merge_sort_Permutation.
  rewrite <- Hp, El in Hf'. pose proof (StronglySorted_merge_sort (rtt_le rtt) l) as Hs.
  fold (sortForwarders rtt l) in Hs. rewrite El in Hs.
  apply elem_of_app in Hf' as [Hf'|[->|Hf']%elem_of_cons]; [|done|].
  - rewrite Forall_forall in Hpre. specialize (Hpre _ Hf'). by rewrite Hd' in Hpre.
  - apply StronglySorted_app_1_r, StronglySorted_inv in Hs as [_ Hall].
    rewrite Forall_forall in Hall. by apply Hall.
Qed.

(** A group's choice of a server.  With at least one server, every policy returns
    a server, and one that is up, exactly when some server is up.  Fixed order takes
    the first one that is up in the configured order; round robin the first one that
    is up after the previous choice, and continues behind it; by round-trip time, one
    that is up with the least time.  The set of servers never changes. *)
Theorem SelectFwder_spec (rtt : nat → Z) s :
  let fs := Selector_GetFwders s in
  fs ≠ [] →
  (∀ next, s = RoundRobinSelector fs next → 0 ≤ next < Z.of_nat (length fs)) →
  ∃ s' r, SelectFwder isDown rtt s = Ret (s', r) ∧ Selector_GetFwders s' ≡ₚ fs ∧
    (r = None → ∀ f, f ∈ fs → isDown f = true) ∧
    (∀ f, r = Some f → f ∈ fs ∧ isDown f = false) ∧
    match s with
    | FixOrderSelector _ =>
        s' = s ∧ r = find_first (λ f, negb (isDown f)) fs
    | RoundRobinSelector _ next =>
        ∃ next', s' = RoundRobinSelector fs next' ∧ 0 ≤ next' < Z.of_nat (length fs) ∧
          ∀ f, r = Some f →
            ∃ j, (j < length fs)%nat ∧ around fs next j = Some f ∧
                 next' = (next + Z.of_nat j + 1) mod Z.of_nat (length fs) ∧
                 ∀ j' f', (j' < j)%nat → around fs next j' = Some f' → isDown f' = true
    | RttBasedSelector _ =>
        ∀ f f', r = Some f → f' ∈ fs → isDown f' = false → rtt f ≤ rtt f'
    end.
Proof.
  intros fs Hne Hnext.
  destruct s as [l|l next|l]; subst fs; cbn [Selector_GetFwders SelectFwder] in *.
  - destruct (select_from_first l Hne) as (t & E). rewrite E, bind_Ret. cbn.
    eexists _, _. split_and!; [done..| | |done|done]; eauto using first_up_None, first_up_Some.
  - specialize (Hnext next eq_refl).
    destruct (select_first_up l next Hnext) as [(j & f & Hj & Ha & Hu & E & Hb)|[E Hall]];
      rewrite E, bind_Ret; unfold go_rem; cbn [fst snd];
      (destruct (Z.eqb_spec (Z.of_nat (length l)) 0); [lia|]); rewrite bind_Ret.
    + eexists _, _. split_and!; [done|done|done| |].
      * intros ? [= <-]. split; [|done]. unfold around in Ha. by eapply list_elem_of_lookup_2.
      * eexists. split; [done|]. rewrite Z.rem_mod_nonneg
          by (try lia; pose proof (Z.mod_pos_bound (next + Z.of_nat j) (Z.of_nat (length l))); lia).
        split; [apply Z.mod_pos_bound; lia|]. intros ? [= <-]. exists j.
        split_and!; [done|done| |done]. by rewrite Zplus_mod_idemp_l.
    + eexists _, _. split_and!; [done|done|by intros _|done|].
      eexists. split; [done|]. cbn. rewrite Z.rem_0_l by lia. split; [lia|done].
  - assert (sortForwarders rtt l ≡ₚ l) as Hp by apply merge_sort_Permutation.
    destruct (select_from_first (sortForwarders rtt l)) as (t & E).
    { intros E. rewrite E in Hp. by apply Permutation_nil_l in Hp. }
    rewrite E, bind_Ret. cbn. eexists _, _. split_and!; [done|done| | |].
    + intros Hn f Hf. rewrite <- Hp in Hf. by eapply first_up_None.
    + intros f Hf. destruct (first_up_Some _ _ Hf) as [? ?]. by rewrite <- Hp.
    + intros f f'. apply first_up_rtt.
Qed.
End selector_props.

(** ** Taking servers down *)

Section status_props.

(** The status after a sequence of exchanges: Unix time and failure. *)
Definition status_run (evs : list (Z * bool)) (f : SafeUDPFwder) : SafeUDPFwder :=
  foldl (λ f ev, SafeUDPFwder_checkStatus ev.1 ev.2 f) f evs.

Lemma status_failing t1 rest f :
  uf_lastFailTime f = t1 → t1 ≠ 0 → Forall (λ ev, ev.2 = true) rest →
  uf_lastFailTime (status_run rest f) = t1 ∧
  uf_bearableFailInterval (status_run rest f) = uf_bearableFailInterval f ∧
  uf_isDown (status_run rest f) =
    match last rest with
    | None => uf_isDown f
    | Some ev => uf_bearableFailInterval f <=? ev.1 - t1
    end.
Proof.
  intros Ht Hnz Hall. revert f Ht. induction Hall as [|[u b] rest Hb Hall IH]; intros f Ht; [done|].
  cbn in Hb; subst b.
  change (status_run ((u, true) :: rest) f)
    with (status_run rest (SafeUDPFwder_checkStatus u true f)).
  assert (SafeUDPFwder_checkStatus u true f =
          set_status t1 (uf_bearableFailInterval f <=? u - t1) f) as E.
  { unfold SafeUDPFwder_checkStatus. rewrite Ht. cbn. by destruct (Z.eqb_spec t1 0). }
  rewrite E. destruct (IH (set_status t1 (uf_bearableFailInterval f <=? u - t1) f) eq_refl)
    as (H1 & H2 & H3). rewrite H1, H2, H3. cbn. split_and!; [done|done|].
  rewrite last_cons. by destruct (last rest).
Qed.

Lemma status_frame evs f :
  uf_bearableFailInterval (status_run evs f) = uf_bearableFailInterval f.
Proof.
  revert f. induction evs as [|[u b] evs IH]; intros f; [done|].
  change (status_run ((u, b) :: evs) f) with (status_run evs (SafeUDPFwder_checkStatus u b f)).
  rewrite IH. unfold SafeUDPFwder_checkStatus. by repeat case_match.
Qed.

(** C18: when a server is considered down.  After any history of exchanges, only the run
    of failures since the last success counts: the server is down exactly when that
    run has at least two failures and the latest came at least the bearable interval
    after the first.  One success brings it back up. *)
Theorem checkStatus_history pre run f :
  uf_lastFailTime f = 0 → uf_isDown f = false →
  Forall (λ ev, 0 < ev.1) (pre ++ run) →
  (pre = [] ∨ ∃ ev, last pre = Some ev ∧ ev.2 = false) →
  Forall (λ ev, ev.2 = true) run →
  let f' := status_run (pre ++ run) f in
  uf_lastFailTime f' = match run with [] => 0 | ev :: _ => ev.1 end ∧
  uf_isDown f' =
    match run, last run with
    | ev1 :: _ :: _, Some evn => uf_bearableFailInterval f <=? evn.1 - ev1.1
    | _, _ => false
    end.
Proof.
  intros Hl Hd Hpos Hpre Hrun. cbv zeta. unfold status_run. rewrite foldl_app.
  fold (status_run pre f). set (g := status_run pre f).
  assert (uf_lastFailTime g = 0 ∧ uf_isDown g = false) as [Hgl Hgd].
  { destruct Hpre as [->|(ev & Hlast & Hok)]; [done|].
    apply last_Some in Hlast as [pre' ->]. subst g. unfold status_run.
    rewrite foldl_app. cbn. rewrite Hok. done. }
  assert (uf_bearableFailInterval g = uf_bearableFailInterval f) as Hgb by apply status_frame.
  apply Forall_app in Hpos as [_ Hpos].
  destruct run as [|[t1 b1] run]; [done|]. cbn [foldl fst snd].
  apply Forall_cons in Hrun as [Hb1 Hrun]. cbn in Hb1. subst b1.
  apply Forall_cons in Hpos as [Ht1 _]. cbn in Ht1.
  assert (SafeUDPFwder_checkStatus t1 true g = set_status t1 false g) as ->.
  { unfold SafeUDPFwder_checkStatus. by rewrite Hgl. }
  fold (status_run run (set_status t1 false g)).
  destruct (status_failing t1 run (set_status t1 false g) eq_refl ltac:(lia) Hrun) as (H1 & _ & H3).
  rewrite H1, H3. split; [done|].
  cbn [set_status uf_bearableFailInterval uf_isDown]. rewrite Hgb.
  destruct run as [|ev run]; [done|]. rewrite (last_cons (t1, true)).
  destruct (last (ev :: run)) as [evn|] eqn:El; [done|]. by apply last_None in El.
Qed.
End status_props.

(** ** Groups *)

Section group_props.
Context {N : G53Name} {W : Type} {F : SafeFwder W}.

(** Forwarding through a group.  The group asks at most two servers: a first
    success is returned at once, otherwise the second attempt's outcome is, whatever
    it is; a panic or an endless wait of an attempt is the group's. *)
Theorem FwderGroup_Forward_spec query (s s1 : W * FwderGroup) r1 :
  FwderGroup_forwardOnce query s = Ret (s1, r1) →
  FwderGroup_Forward query s =
    match r1.2 with
    | None => Ret (s1, r1)
    | Some _ => FwderGroup_forwardOnce query s1
    end.
Proof.
  intros E. unfold FwderGroup_Forward, maxRetryCount. cbn [group_retry]. rewrite E, bind_Ret.
  destruct r1 as [[resp rtt] [err|]]; [|done]. cbn [snd].
  destruct (FwderGroup_forwardOnce query s1) as [[s2 [[resp2 rtt2] [err2|]]]| |]; done.
Qed.
End group_props.

(** ** Zones *)

Section zone_props.
Context {N : G53Name} {T : DomainTree N} {NL : G53NameLaws N} {TL : DomainTreeLaws T}.

(** A zone with its forwarder that encloses [name] and applies to it. *)
Definition zone_applies (t : dtree ZoneFwder) (name m : Name) (z : ZoneFwder) : Prop :=
  dt_get m t = Some z ∧ Name_IsSubDomain name m = true ∧
  (zf_matchType z = matchExact → m ≈ name).

(** The zones on the way to a name that is not stored itself: the first that is not
    exact decides. *)
Lemma walk_parents_spec chain :
  match walk_parents false chain with
  | Some target => ∃ pre m z post, chain = pre ++ (m, z) :: post ∧
      Forall (λ x, ~ zf_matchType x.2 ≠ matchExact) pre ∧
      zf_matchType z = matchSubdomain ∧ zf_fwderGroup z = target
  | None => Forall (λ x, ~ zf_matchType x.2 ≠ matchExact) chain ∨
      ∃ pre m z post, chain = pre ++ (m, z) :: post ∧
        Forall (λ x, ~ zf_matchType x.2 ≠ matchExact) pre ∧ zf_matchType z = matchException
  end.
Proof.
  induction chain as [|[m z] chain IH]; cbn [walk_parents]; [by left; constructor|].
  destruct (zf_matchType z) eqn:Em.
  - by exists [], m, z, chain.
  - assert (~ zf_matchType z ≠ matchExact) as Hz by naive_solver.
    destruct (walk_parents false chain) as [target|].
    + destruct IH as (pre & m' & z' & post & -> & Hpre & Hm & Ht).
      exists ((m, z) :: pre), m', z', post. split_and!; [done|by constructor|done..].
    + destruct IH as [Hall|(pre & m' & z' & post & -> & Hpre & Hm)]; [left; by constructor|].
      right. exists ((m, z) :: pre), m', z', post. split_and!; [done|by constructor|done].
  - right. by exists [], m, z, chain.
Qed.

(** Which forwarder a name gets.  The deepest configured zone that applies to the
    name decides (a zone that matches exactly applies to its own name only): an
    exception means not forwarded, any other zone gives its forwarder, and without
    such a zone the name is not forwarded. *)
Theorem getFwder_spec name t :
  match ViewFwder_getFwder name t with
  | Some target => ∃ m z, zone_applies t name m z ∧ zf_matchType z ≠ matchException ∧
      zf_fwderGroup z = target ∧
      ∀ m' z', zone_applies t name m' z' → Name_IsSubDomain m m' = true
  | None => (∀ m z, ~ zone_applies t name m z) ∨
      ∃ m z, zone_applies t name m z ∧ zf_matchType z = matchException ∧
      ∀ m' z', zone_applies t name m' z' → Name_IsSubDomain m m' = true
  end.
Proof.
  unfold ViewFwder_getFwder. destruct (dt_get name t) as [z0|] eqn:Hg.
  { destruct (SearchParents_exact name t z0 Hg) as (m & chain & -> & He).
    rewrite bool_decide_eq_true_2 by done. cbn [walk_parents].
    assert (zone_applies t name name z0) as Ha by (split_and!; [done|apply IsSubDomain_refl|done]).
    assert (∀ m' z', zone_applies t name m' z' → Name_IsSubDomain name m' = true) as Hd
      by (intros m' z' (_ & ? & _); done).
    destruct (zf_matchType z0) eqn:Em; [exists name, z0|exists name, z0|right; exists name, z0];
      split_and!; try done; congruence. }
  set (P z := zf_matchType z ≠ matchExact).
  assert (∀ m z, zone_applies t name m z → P z) as HP.
  { intros m z (Hm & _ & Hx) Em%Hx. rewrite (dt_get_Equals t m name Em) in Hm. congruence. }
  pose proof (SearchParents_other name t Hg) as Hres.
  pose proof (chain_first name t P) as Hfirst. pose proof (chain_none name t P) as Hnone.
  pose proof (dt_SearchParents_sound name t) as Hsound.
  destruct (dt_SearchParents name t) as [chain res]. cbn [fst snd] in *. subst res.
  assert (∀ pre m z post, chain = pre ++ (m, z) :: post → Forall (λ x, ~ P x.2) pre → P z →
    zone_applies t name m z ∧ ∀ m' z', zone_applies t name m' z' → Name_IsSubDomain m m' = true) as H1.
  { intros pre m z post E Hpre Hz. destruct (Hsound m z) as [Hm Hs]; [set_solver|].
    split; [by split_and!|]. intros m' z' Ha. pose proof (HP _ _ Ha). destruct Ha as (? & ? & _). eauto. }
  pose proof (walk_parents_spec chain) as Hw.
  replace (match _ with NotFound => None | _ => _ end) with (walk_parents false chain)
    by (by destruct chain).
  destruct (walk_parents false chain) as [target|].
  - destruct Hw as (pre & m & z & post & E & Hpre & Hm & Ht).
    destruct (H1 pre m z post E Hpre) as [Ha Hd]; [congruence|].
    exists m, z. split_and!; [done|congruence|done|done].
  - destruct Hw as [Hall|(pre & m & z & post & E & Hpre & Hm)]; [left|right].
    + intros m z Ha. pose proof (HP _ _ Ha) as Hp. destruct Ha as (? & ? & _). by eapply Hnone.
    + destruct (H1 pre m z post E Hpre) as [Ha Hd]; [congruence|]. by exists m, z.
Qed.

Lemma newZoneForwarder_fwders style forwarders m m' z :
  newZoneForwarder style forwarders m = (m', z) → vm_fwders m' = vm_fwders m.
Proof.
  unfold newZoneForwarder. destruct (bool_decide _);
  destruct (create_fwders forwarders (vm_repo m) (vm_world m)) as [[repo w] [|l []]];
    by intros [= <- <-].
Qed.

(** Updating a forwarded zone is all or nothing.  On success the zone's name is
    forwarded to the new servers and no other name's zone changes; on an error the
    view's zones are exactly what they were. *)
Theorem updateForwardZone_atomic view name style forwarders m m' err t :
  vm_fwders m !! view = Some t →
  updateForwardZone view name style forwarders m = (m', err) →
  match err with
  | Some _ => vm_fwders m' = vm_fwders m
  | None => ∃ n z t', Name_FromString name = inr n ∧ vm_fwders m' = <[view := t']> (vm_fwders m) ∧
      z = (newZoneForwarder style forwarders m).2 ∧
      ∀ n', dt_get n' t' = if Name_Equals n n' then Some z else dt_get n' t
  end.
Proof.
  intros Hv. unfold updateForwardZone. rewrite Hv.
  destruct (newZoneForwarder style forwarders m) as [m1 z] eqn:En.
  apply newZoneForwarder_fwders in En.
  unfold ViewFwder_deleteZoneFwder, ViewFwder_addZoneFwder.
  destruct (Name_FromString name) as [e|n]; [by intros [= <- <-]|].
  assert (dt_get n (dt_Delete n t) = None) as Hdel by (by rewrite dt_get_Delete, Equals_refl).
  destruct (dt_Insert_new n z _ Hdel) as (t' & -> & Hget). intros [= <- <-].
  exists n, z, t'. split_and!; [done| |done|].
  - cbn. by rewrite En.
  - intros n'. rewrite Hget, dt_get_Delete. by destruct (Name_Equals n n').
Qed.
End zone_props.

(** ** The prober *)

Section prober_props.
Context {N : G53Name}.

Definition tracked (p : Prober) : list nat := tg_fwder <$> (pr_targets p ++ pr_probing p).

(** The set is the servers that are queued or being probed, each once. *)
Definition prober_inv (p : Prober) : Prop :=
  NoDup (tracked p) ∧ ∀ f, f ∈ pr_targetFwders p ↔ f ∈ tracked p.

Inductive prober_step : Prober → Prober → Prop :=
  | ps_add f req p : prober_step p (Prober_AddProbe f req p)
  | ps_tick accepted p : prober_step p (Prober_tick accepted p)
  | ps_done i failed p : prober_step p (Prober_done i failed p).

Lemma send_targets_perm ts accepted p :
  pr_targets (send_targets ts accepted p) ++ pr_probing (send_targets ts accepted p) ≡ₚ
    pr_targets p ++ pr_probing p ++ ts ∧
  pr_targetFwders (send_targets ts accepted p) = pr_targetFwders p.
Proof.
  revert accepted p. induction ts as [|t ts IH]; intros accepted p; cbn [send_targets].
  { by rewrite app_nil_r. }
  destruct (head accepted) as [[]|];
    match goal with |- context [send_targets ts _ ?q] =>
      destruct (IH (tail accepted) q) as [H1 H2] end;
    rewrite H1, H2; cbn; (split; [|done]); solve_Permutation.
Qed.

Lemma prober_inv_perm p p' :
  pr_targets p' ++ pr_probing p' ≡ₚ pr_targets p ++ pr_probing p →
  pr_targetFwders p' = pr_targetFwders p → prober_inv p → prober_inv p'.
Proof.
  intros Hp Hs [Hnd Hset]. unfold prober_inv, tracked in *. rewrite Hs. split.
  - by rewrite Hp.
  - intros f. rewrite Hset. by rewrite Hp.
Qed.

Lemma prober_step_inv p p' : prober_inv p → prober_step p p' → prober_inv p'.
Proof.
  intros Hp Hs. destruct Hs as [f req p|accepted p|i failed p].
  - unfold Prober_AddProbe. case_bool_decide as Hf; [done|]. destruct Hp as [Hnd Hset].
    rewrite Hset in Hf. unfold prober_inv, tracked in *. cbn.
    assert (tg_fwder <$> (pr_targets p ++ [mkTarget f req]) ++ pr_probing p
            ≡ₚ f :: (tg_fwder <$> pr_targets p ++ pr_probing p)) as E.
    { rewrite !fmap_app. cbn. solve_Permutation. }
    rewrite E. split; [by apply NoDup_cons|]. intros g. rewrite E, elem_of_cons.
    rewrite <- Hset. set_solver.
  - unfold Prober_tick. eapply prober_inv_perm; [| |exact Hp].
    + destruct (send_targets_perm (take probeRoutineCount (pr_targets p)) accepted
        (mkProber (drop probeRoutineCount (pr_targets p)) (pr_targetFwders p) (pr_probing p)))
        as [-> _]. cbn [pr_targets pr_probing].
      rewrite <- (take_drop probeRoutineCount (pr_targets p)) at 3. solve_Permutation.
    + by destruct (send_targets_perm (take probeRoutineCount (pr_targets p)) accepted
        (mkProber (drop probeRoutineCount (pr_targets p)) (pr_targetFwders p) (pr_probing p)))
        as [_ ->].
  - unfold Prober_done. destruct (pr_probing p !! i) as [t|] eqn:Hi; [|done].
    pose proof (delete_Permutation _ _ _ Hi) as Hd. cbv zeta. revert Hd.
    generalize (delete i (pr_probing p)) as rest. intros rest Hd. destruct failed.
    + eapply prober_inv_perm; [| |exact Hp]; [|done]. cbn. rewrite Hd. solve_Permutation.
    + destruct Hp as [Hnd Hset]. unfold prober_inv, tracked in *. cbn.
      rewrite Hd in Hnd. setoid_rewrite Hd in Hset.
      assert (tg_fwder <$> pr_targets p ++ t :: rest ≡ₚ
              tg_fwder t :: (tg_fwder <$> pr_targets p ++ rest)) as E.
      { rewrite !fmap_app. cbn. solve_Permutation. }
      rewrite E in Hnd. apply NoDup_cons in Hnd as [Hn Hnd]. split; [done|].
      intros f. rewrite elem_of_difference, Hset, E, elem_of_cons, elem_of_singleton.
      split; [naive_solver|]. intros Hf. split; [by right|]. by intros ->.
Qed.

(** The prober never loses or duplicates a server.  In every execution, a server
    that was found down is, until a probe of it succeeds, either queued or being
    probed, exactly once; and the set that guards against queueing it twice is
    exactly these servers. *)
Theorem prober_reachable_inv p f :
  rtc prober_step NewProber p →
  NoDup (tracked p) ∧ (f ∈ pr_targetFwders p ↔ f ∈ tracked p) ∧
  ∀ req, f ∈ tracked (Prober_AddProbe f req p).
Proof.
  intros Hr.
  assert (prober_inv p) as [Hnd Hset].
  { assert (prober_inv NewProber) as H0 by (split; [constructor|set_solver]).
    induction Hr; eauto using prober_step_inv. }
  split_and!; [done|done|]. intros req. unfold Prober_AddProbe.
  case_bool_decide as Hf; [by apply Hset|]. unfold tracked. cbn. rewrite !fmap_app. set_solver.
Qed.
End prober_props.

(** ** Resolving through a forwarder *)

Section resolve_props.
Context {N : G53Name} {T : DomainTree N} {W : Type}.

(** The answer a client gets for the forwarder's response. *)
Definition forwarded_reply (request resp : Message) : Message :=
  set_header (Header_SetFlag FLAG_AA false
                (Header_set_id (h_id (m_header request)) (m_header resp))) resp.

(** Resolving by forwarding.  A query no forward zone applies to goes to the
    next resolver untouched.  When the zone's forwarder answers, the client gets
    that answer with its own query id and the authoritative flag cleared, marked
    for caching, and the rest of the chain is not asked. *)
Theorem Forwarder_Resolve_answer next m qs h (w : W) client q :
  m_question (c_request client) = Some q → c_response client = None →
  match ViewFwderMgr_GetFwder (c_view client) (q_name q) m with
  | None => Forwarder_Resolve next (m, qs, h, w) client = Resolver_PassToNext next (m, qs, h, w) client
  | Some f => ∀ m1 m2 resp rtt addr,
      Target_SetQuerySource f (GetQuerySource (c_view client) qs) m = Ret (m1, None) →
      Target_Forward f (c_request client) m1 = Ret (m2, (Some resp, rtt, None)) →
      Target_RemoteAddr f m2 = Ret addr →
      ∃ l, h !! l = None ∧
        Forwarder_Resolve next (m, qs, h, w) client =
        Ret ((m2, qs, <[l := forwarded_reply (c_request client) resp]> h, w),
             set_cache_answer true (set_response (Some l) client))
  end.
Proof.
  intros Hq Hr. unfold Forwarder_Resolve. rewrite Hr. cbn [outcome_bind mbind].
  unfold Forwarder_processRequest. rewrite (deref_question_Some _ _ Hq), bind_Ret.
  destruct (ViewFwderMgr_GetFwder _ _ _) as [f|]; [|by rewrite bind_Ret, Hr].
  intros m1 m2 resp rtt addr -> . rewrite bind_Ret. intros ->. rewrite bind_Ret. intros ->.
  rewrite bind_Ret. exists (fresh (dom h)). split; [apply not_elem_of_dom, is_fresh|].
  cbn -[fresh]. unfold deref. rewrite lookup_insert_eq. cbn -[fresh]. by rewrite insert_insert_eq.
Qed.
End resolve_props.

(** ** Examples *)

Section forwarder_examples.

Definition demo_down (f : nat) : bool := bool_decide (f = 1%nat).

Lemma SelectFwder_spec_witness :
  ∃ s' r, SelectFwder demo_down (λ _, 0) (RoundRobinSelector [0; 1; 2]%nat 1) = Ret (s', r) ∧
          r = Some 2%nat.
Proof.
  destruct (SelectFwder_spec demo_down (λ _, 0) (RoundRobinSelector [0; 1; 2]%nat 1)) as (s' & r & E & _).
  - done.
  - intros next [= <-]. cbn. lia.
  - exists s', r. split; [exact E|]. vm_compute in E. congruence.
Defined.

Lemma checkStatus_history_witness :
  uf_isDown (status_run [(10, true); (20, false); (30, true); (36, true)]
               (NewSafeUDPFwder "192.0.2.53:53" (2 * Second) (5 * Second))) = true.
Proof.
  refine (proj2 (checkStatus_history [(10, true); (20, false)] [(30, true); (36, true)]
    (NewSafeUDPFwder "192.0.2.53:53" (2 * Second) (5 * Second)) _ _ _ _ _)).
  - reflexivity.
  - reflexivity.
  - repeat constructor; cbn; lia.
  - right. exists (20, false). done.
  - repeat constructor.
Defined.

Definition demo_fwd_world : FwdWorld :=
  mkFwdWorld {[ 0%nat := mkUDPFwder (Some demo_sender) "192.0.2.53:53" 0 2 5 0 false ]} NewProber
    [mkNetAnswer None 7 (Some "timeout") 100; mkNetAnswer (Some (answer www RR_A [])) 8 None 103]
    (λ _, None).
Definition demo_group : FwderGroup := NewFwderGroup (FixOrderSelector [0%nat]).
Definition demo_once : (FwdWorld * FwderGroup) * fwd_result :=
  match FwderGroup_forwardOnce (query www RR_A) (demo_fwd_world, demo_group) with
  | Ret r => r
  | _ => ((demo_fwd_world, demo_group), (None, 0, None))
  end.

Lemma FwderGroup_Forward_spec_witness :
  FwderGroup_Forward (query www RR_A) (demo_fwd_world, demo_group) =
    FwderGroup_forwardOnce (query www RR_A) demo_once.1.
Proof.
  refine (FwderGroup_Forward_spec (query www RR_A) (demo_fwd_world, demo_group) demo_once.1
            demo_once.2 _). by_eval.
Defined.

Definition demo_zones : dtree ZoneFwder := [(example_com, mkZoneFwder matchSubdomain (ToFwder 0%nat))].

Lemma getFwder_spec_witness :
  ∃ m z, zone_applies demo_zones www m z ∧ zf_matchType z ≠ matchException ∧
    zf_fwderGroup z = ToFwder 0%nat ∧
    ∀ m' z', zone_applies demo_zones www m' z' → Name_IsSubDomain m m' = true.
Proof. exact (getFwder_spec www demo_zones). Defined.

Definition demo_mgr : ViewFwderMgr :=
  mkViewFwderMgr {[ "default" := [] ]} (SafeFwderRepo_ReloadConf 0 0 0) ∅ demo_fwd_world.
Definition demo_update : ViewFwderMgr * option CmdError :=
  updateForwardZone "default" "example.com" "rtt" ["192.0.2.53:53"] demo_mgr.

Lemma updateForwardZone_atomic_witness :
  ∃ n z t', Name_FromString "example.com" = inr n ∧
    vm_fwders demo_update.1 = <["default" := t']> (vm_fwders demo_mgr) ∧
    z = (newZoneForwarder "rtt" ["192.0.2.53:53"] demo_mgr).2 ∧
    ∀ n', dt_get n' t' = if Name_Equals n n' then Some z else dt_get n' ([] : dtree ZoneFwder).
Proof.
  apply (updateForwardZone_atomic "default" "example.com" "rtt" ["192.0.2.53:53"] demo_mgr
           demo_update.1 None []); [by_eval|by_eval].
Defined.

Lemma prober_reachable_inv_witness :
  NoDup (tracked (Prober_AddProbe 3%nat (query www RR_A) NewProber)).
Proof.
  apply (prober_reachable_inv (Prober_AddProbe 3%nat (query www RR_A) NewProber) 3%nat).
  apply rtc_once, ps_add.
Defined.
Definition demo_fwd_mgr : ViewFwderMgr :=
  mkViewFwderMgr {[ "default" := [(example_com, mkZoneFwder matchSubdomain (ToFwder 0%nat))] ]}
    (SafeFwderRepo_ReloadConf 0 0 0) ∅
    (mkFwdWorld (fw_fwders demo_fwd_world) NewProber
       [mkNetAnswer (Some (answer www RR_A [])) 8 None 103] (λ _, None)).
Definition demo_fwd_client : Client :=
  mkClient None None false (query www RR_A) None "default" 0 false false 0.
Definition demo_source : ViewFwderMgr :=
  match Target_SetQuerySource (ToFwder 0%nat) "" demo_fwd_mgr with
  | Ret (m, _) => m | _ => demo_fwd_mgr end.
Definition demo_sent : ViewFwderMgr :=
  match Target_Forward (ToFwder 0%nat) (query www RR_A) demo_source with
  | Ret (m, _) => m | _ => demo_fwd_mgr end.

Lemma Forwarder_Resolve_answer_witness :
  ∃ l, (∅ : Heap) !! l = None ∧
    Forwarder_Resolve None (demo_fwd_mgr, ∅, ∅, ()) demo_fwd_client =
    Ret ((demo_sent, ∅, <[l := forwarded_reply (query www RR_A) (answer www RR_A [])]> ∅, ()),
         set_cache_answer true (set_response (Some l) demo_fwd_client)).
Proof.
  refine (Forwarder_Resolve_answer None demo_fwd_mgr ∅ ∅ () demo_fwd_client
    (mkQuestion www RR_A CLASS_IN) eq_refl eq_refl demo_source demo_sent (answer www RR_A []) 8
    "192.0.2.53:53" _ _ _); by_eval.
Defined.
End forwarder_examples.
