(* ===== verification/Resolver.v ===== *)
(** * The resolver manager (src/resolver/*.go, src/failforwarder)

    Authoritative data is consulted first, then one upstream query at a time is
    made per question (the query limit) through stub zones, forwarders and the
    recursor.  The alias handler around them follows CNAME chains.  A query no
    resolver answers goes to the fail forwarder. *)

From S2P Require Import Prelude GoStd G53 Instances Core HttpCmd Util Chain.

Local Open Scope Z_scope.

(** ** resolver/cnamehandler.go *)

Section cname.
Context {N : G53Name} {M : G53Msg N} {W : Type}.

Abbreviation State := (Heap * W)%type.

Definition maxRedirectCount : Z := 16.

(** [Context]; its client is passed along beside it. *)
Record CNameContext : Type := mkCNameContext {
  cx_originalQuestion : Question;
  cx_redirectCount : Z;
  cx_response : nat;
  cx_namechain : list Name;
}.

Definition newCNameContext (client : Client) (response : nat) : outcome CNameContext :=
  q ← deref_question (c_request client);
  Ret (mkCNameContext q 0 response [q_name q]).

(** [checkCnameIndirect] makes the handler look at the first record set of the
    answer instead of the last. *)
Definition needRedirect (checkCnameIndirect : bool) (msg : option nat) (h : Heap)
  : outcome (option Name) :=
  match msg with
  | None => Ret None
  | Some l =>
      m ← deref l h;
      if h_ancount (m_header m) =? 0 then Ret None
      else
        rrset ← (if checkCnameIndirect then index (m_answer m) 0 else last_elem (m_answer m));
        if rr_type rrset =? RR_CNAME then
          rd ← index (rr_rdatas rrset) 0;
          match rd with
          | RdCName n => Ret (Some n)
          | _ => Panic "interface conversion: g53.Rdata is not *g53.CName"
          end
        else Ret None
  end.

(** [Sections[AnswerSection] = Sections[AnswerSection][0:1]] *)
Definition keep_first_answer (l : nat) (h : Heap) : outcome Heap :=
  m ← deref l h;
  first ← index (m_answer m) 0;
  Ret (<[l := set_section AnswerSection [first] m]> h).

Definition trim_answer (checkCnameIndirect : bool) (msg : option nat) (h : Heap) : outcome Heap :=
  if checkCnameIndirect
  then l ← from_option_panic "nil pointer dereference: response" msg; keep_first_answer l h
  else Ret h.

(** [true] is the error of a chain that is too long. *)
Definition makeRedirectQuery (ctx : CNameContext) (client : Client)
  : outcome (CNameContext * Client * bool) :=
  let ctx := mkCNameContext (cx_originalQuestion ctx) (cx_redirectCount ctx + 1)
               (cx_response ctx) (cx_namechain ctx) in
  if maxRedirectCount <? cx_redirectCount ctx then Ret (ctx, client, true)
  else
    name ← last_elem (cx_namechain ctx);
    let q := mkQuestion name (q_type (cx_originalQuestion ctx)) (q_class (cx_originalQuestion ctx)) in
    Ret (ctx, set_request (set_question (Some q) (c_request client)) (set_response None client), false).

Definition mergeResponse (ctx : CNameContext) (response : option nat) (h : Heap) : outcome Heap :=
  match response with
  | None => Ret h
  | Some l =>
      m ← deref l h;
      acc ← deref (cx_response ctx) h;
      let h := <[cx_response ctx :=
                   foldl (λ acc r, AddRRset AnswerSection r acc) acc (m_answer m)]> h in
      m ← deref l h;
      acc ← deref (cx_response ctx) h;
      Ret (<[cx_response ctx :=
               set_header (Header_set_rcode (h_rcode (m_header m)) (m_header acc)) acc]> h)
  end.

(** [true] is the error of a circle. *)
Definition addRedirect (nextName : Name) (ctx : CNameContext) : CNameContext * bool :=
  if existsb (λ n, Name_Equals n nextName) (cx_namechain ctx) then (ctx, true)
  else (mkCNameContext (cx_originalQuestion ctx) (cx_redirectCount ctx) (cx_response ctx)
          (cx_namechain ctx ++ [nextName]), false).

Fixpoint followCNameChain (fuel : nat) (indirect : bool) (resolver : Handler State)
  (ctx : CNameContext) (s : State) (client : Client)
  : outcome (State * CNameContext * Client) :=
  match fuel with
  | O => Hang "out of fuel"
  | S fuel =>
      r ← makeRedirectQuery ctx client;
      let '(ctx, client, tooLong) := r in
      if tooLong : bool then Ret (s, ctx, client)
      else
        r ← resolver s client;
        let '((h, w), client) := r in
        next ← needRedirect indirect (c_response client) h;
        match next with
        | Some nextName =>
            h ← trim_answer indirect (c_response client) h;
            h ← mergeResponse ctx (c_response client) h;
            let '(ctx, circle) := addRedirect nextName ctx in
            if circle : bool then Ret ((h, w), ctx, client)
            else followCNameChain fuel indirect resolver ctx (h, w) client
        | None =>
            h ← mergeResponse ctx (c_response client) h;
            Ret ((h, w), ctx, client)
        end
  end.

Definition assembleFinalResponse (ctx : CNameContext) (s : State) (client : Client)
  : outcome (State * Client) :=
  let '(h, w) := s in
  let request := set_question (Some (cx_originalQuestion ctx)) (c_request client) in
  m ← deref (cx_response ctx) h;
  let m := set_question (Some (cx_originalQuestion ctx))
             (set_header (Header_set_id (h_id (m_header request)) (m_header m)) m) in
  Ret ((<[cx_response ctx := m]> h, w),
       set_response (Some (cx_response ctx)) (set_request request client)).

(** One call per redirect and the one that finds the chain too long. *)
Definition follow_fuel : nat := 17.

(** The error of the first [addRedirect] is dropped. *)
Definition CNameHandler_Resolve (indirect : bool) (resolver : Handler State) : Handler State :=
  λ s client,
  r ← resolver s client;
  let '((h, w), client) := r in
  next ← needRedirect indirect (c_response client) h;
  match next with
  | None => Ret ((h, w), client)
  | Some nextName =>
      h ← trim_answer indirect (c_response client) h;
      l ← from_option_panic "nil pointer dereference: response" (c_response client);
      ctx ← newCNameContext client l;
      let '(ctx, _) := addRedirect nextName ctx in
      r ← followCNameChain follow_fuel indirect resolver ctx (h, w) client;
      let '(s, ctx, client) := r in
      assembleFinalResponse ctx s client
  end.

(** ** resolver/querylimit.go

    [Do] of the single-flight group: this call runs the query itself, shares the
    result of a query in flight with the same key, or is refused because too
    many queries are out. *)
Inductive Flight : Type :=
  | Lead
  | Shared (resp : option nat) (cacheAnswer : bool)
  | Refused (err : string).

(** [flights] gives the result of each successive call of [Do]. *)
Fixpoint QueryLimit_Resolve (flights : list Flight) (resolver : Handler State) : Handler State :=
  λ s client,
  _ ← Client_QueryKey client;
  match flights with
  | [] => Hang "waiting for another query"
  | Refused _ :: _ => Ret (s, client)
  | Lead :: _ => resolver s client
  | Shared resp cacheAnswer :: flights =>
      match c_response client, resp with
      | Some _, _ => Ret (s, client)
      | None, None => Ret (s, client)
      | None, Some l =>
          let '(h, w) := s in
          m ← deref l h;
          q ← deref_question (c_request client);
          q' ← deref_question m;
          if Name_Equals (q_name q) (q_name q') then
            let m := set_header (Header_set_id (h_id (m_header (c_request client))) (m_header m)) m in
            let '(l', h) := heap_alloc m h in
            Ret ((h, w), set_cache_answer cacheAnswer (set_response (Some l') client))
          else QueryLimit_Resolve flights resolver (h, w) client
      end
  end.

(** ** resolver/resolver.go *)

Definition ModuleAuth : string := "auth".
Definition ModuleStubZone : string := "stub_zone".
Definition ModuleForwarder : string := "forwarder".
Definition ModuleRecursor : string := "recursor".
Definition ModuleLocalData : string := "local_data".

Definition ResolverSubmodule : list string :=
  [ModuleAuth; ModuleStubZone; ModuleForwarder; ModuleRecursor; ModuleLocalData].

Definition IsResolverSubModule (m : string) : bool :=
  existsb (λ s, bool_decide (s = m)) ResolverSubmodule.

Definition isModuleEnable (enabled : list string) (m : string) : bool :=
  existsb (λ em, bool_decide (em = m)) enabled.

(** The chain that [NewResolver] builds of its parts, which are given by name: fake
    authority, authority and the query limit over stub zones, forwarder and recursor,
    those that are enabled. *)
Definition resolver_chain {Conf} (enabled : list string)
  (limit : Handler State → Handler State) (part : string → Resolver Conf State)
  : option (Handler State) :=
  let pick m := if isModuleEnable enabled m then [part m] else [] in
  let upstream := pick ModuleStubZone ++ pick ModuleForwarder ++ pick ModuleRecursor in
  let upstream :=
    match BuildResolverChain upstream with
    | Some first => [mkResolver (λ _, limit first) (λ conf s, ReconfigChain upstream conf s)]
    | None => []
    end in
  BuildResolverChain (pick ModuleLocalData ++ pick ModuleAuth ++ upstream).

(** [NewResolver] up to the construction of its parts: the alias handler around the
    chain. *)
Definition NewResolver {Conf} (enabled : list string) (indirect : bool)
  (limit : Handler State → Handler State) (part : string → Resolver Conf State)
  : outcome (Handler State) :=
  match resolver_chain enabled limit part with
  | None => Panic "empty resolver module is specified"
  | Some first => Ret (CNameHandler_Resolve indirect first)
  end.

Definition ResolverManager_HandleQuery (resolver : Handler State) (next : option (Handler State))
  : Handler State := λ s client,
  r ← resolver s client;
  let '(s, client) := r in
  match c_response client with
  | None => PassToNext next s client
  | Some _ => Ret (s, client)
  end.
End cname.

(** ** failforwarder/failforwarder.go and cmdhandler.go *)

Section failforwarder.
Context {N : G53Name}.

Definition viewNameForDefaultForwarder : string := "*".
Definition failForwarderTimeout : Z := 2 * Second.

Record forwarder : Type := mkforwarder {
  ff_sender : UDPSender;
  ff_server : string;
}.

Abbreviation FailForwarder := (gmap string forwarder).

Definition ErrInvalidFailForwarder : CmdError :=
  NewError FailForwarderErrCodeStart "fail forward addr isn't valid".
Definition ErrDuplicateFailForwarder : CmdError :=
  NewError (FailForwarderErrCodeStart + 1) "duplicate fail forwarder".
Definition ErrNotExistFailForwarder : CmdError :=
  NewError (FailForwarderErrCodeStart + 2) "unknown fail forwarder".

Fixpoint load_fail_forwarders (resolve : string → option string) (qs : QuerySources)
  (conf : list (string * string)) (fs : FailForwarder) : outcome FailForwarder :=
  match conf with
  | [] => Ret fs
  | (view, server) :: conf =>
      match NewUDPSender resolve (GetQuerySource view qs) failForwarderTimeout with
      | inl err => Panic ("valid query source:" +:+ err)
      | inr f => load_fail_forwarders resolve qs conf (<[view := mkforwarder f server]> fs)
      end
  end.

Definition FailForwarder_ReloadConfig (resolve : string → option string) (qs : QuerySources)
  (conf : list (string * string)) : outcome FailForwarder :=
  load_fail_forwarders resolve qs conf ∅.

Definition FailForwarder_GetForwarder (view : string) (ff : FailForwarder) : option forwarder :=
  match ff !! view with
  | Some f => Some f
  | None => ff !! viewNameForDefaultForwarder
  end.

(** [ask] is the exchange with the server: a response or an error. *)
Definition FailForwarder_HandleQuery {W} (ask : forwarder → Message → string + Message)
  (next : option (Handler (FailForwarder * Heap * W))) : Handler (FailForwarder * Heap * W) :=
  λ s client,
  let '(ff, h, w) := s in
  match FailForwarder_GetForwarder (c_view client) ff with
  | Some f =>
      match ask f (c_request client) with
      | inr response =>
          let '(l, h) := heap_alloc response h in
          Ret ((ff, h, w), set_response (Some l) client)
      | inl _ => Ret ((ff, h, w), client)
      end
  | None => PassToNext next (ff, h, w) client
  end.

Definition FailForwarder_AddForwarder (resolve : string → option string) (qs : QuerySources)
  (view server : string) (ff : FailForwarder) : FailForwarder * option CmdError :=
  match NewUDPSender resolve (GetQuerySource view qs) failForwarderTimeout with
  | inl err => (ff, Some (Error_AddDetail ErrInvalidFailForwarder err))
  | inr f =>
      match ff !! view with
      | Some _ => (ff, Some ErrDuplicateFailForwarder)
      | None => (<[view := mkforwarder f server]> ff, None)
      end
  end.

Definition FailForwarder_DeleteForwarder (view : string) (ff : FailForwarder)
  : FailForwarder * option CmdError :=
  match ff !! view with
  | None => (ff, Some ErrNotExistFailForwarder)
  | Some _ => (delete view ff, None)
  end.

Definition FailForwarder_UpdateForwarder (view server : string) (ff : FailForwarder)
  : FailForwarder * option CmdError :=
  match ff !! view with
  | None => (ff, Some ErrNotExistFailForwarder)
  | Some f => (<[view := mkforwarder (ff_sender f) server]> ff, None)
  end.
End failforwarder.

(** ** Following aliases *)

Section cname_props.
Context {N : G53Name} {L : G53NameLaws N} {M : G53Msg N} {W : Type}.
Implicit Types (h : Heap) (client : Client) (ctx : CNameContext).

(** What the alias handler needs of the messages and of the resolver below it:
    a header that announces answers has some, alias records hold an alias, and a
    query leaves the request and the messages already made in place. *)
Definition redirect_ok (m : Message) : Prop :=
  h_ancount (m_header m) ≠ 0 →
  m_answer m ≠ [] ∧
  Forall (λ r, rr_type r = RR_CNAME → ∃ n rest, rr_rdatas r = RdCName n :: rest) (m_answer m).

Definition resolver_ok (r : Handler (Heap * W)) : Prop :=
  ∀ h w client q, m_question (c_request client) = Some q →
  ∃ h' w' client', r (h, w) client = Ret ((h', w'), client') ∧
    c_request client' = c_request client ∧
    (∀ l, is_Some (h !! l) → is_Some (h' !! l)) ∧
    ∀ l, c_response client' = Some l → ∃ m, h' !! l = Some m ∧ redirect_ok m.

(** The same resolver, noting the questions it is asked. *)
Definition logged (r : Handler (Heap * W)) : Handler (Heap * (W * list Question)) := λ s client,
  let '(h, (w, asked)) := s in
  r ← r (h, w) client;
  let '((h, w), client') := r in
  Ret ((h, (w, asked ++ option_list (m_question (c_request client)))), client').

Definition distinct_names (l : list Name) : Prop :=
  ∀ i j a b, l !! i = Some a → l !! j = Some b → a ≈ b → i = j.

Lemma distinct_names_snoc l n :
  distinct_names l → existsb (λ m, Name_Equals m n) l = false → distinct_names (l ++ [n]).
Proof.
  intros Hd Hn i j a b Hi Hj Hab.
  assert (∀ k x, l !! k = Some x → ¬ x ≈ n) as Hno.
  { intros k x Hk Hx. apply not_true_iff_false in Hn. apply Hn, existsb_Exists.
    exists x. split; [by eapply list_elem_of_lookup_2|done]. }
  apply lookup_snoc_Some in Hi as [[? Hi]|[-> ->]], Hj as [[? Hj]|[-> ->]]; try done.
  - by eapply Hd.
  - by destruct (Hno _ _ Hi).
  - destruct (Hno _ _ Hj). by symmetry.
Qed.

Lemma distinct_names_app_r l k : distinct_names (l ++ k) → distinct_names k.
Proof.
  intros Hd i j a b Hi Hj Hab.
  assert (length l + i = length l + j)%nat; [|lia].
  eapply Hd; [| |done]; rewrite lookup_app_r by lia; rewrite Nat.add_comm, Nat.add_sub; done.
Qed.

Lemma distinct_names_prefix l k : distinct_names (l ++ k) → distinct_names l.
Proof. intros Hd i j a b Hi Hj. apply Hd; by apply lookup_app_l_Some. Qed.

Lemma needRedirect_ok indirect h msg :
  (∀ l, msg = Some l → ∃ m, h !! l = Some m ∧ redirect_ok m) →
  ∃ next, needRedirect indirect msg h = Ret next ∧
    (is_Some next → ∃ l m r rest, msg = Some l ∧ h !! l = Some m ∧ m_answer m = r :: rest).
Proof.
  intros Hm. destruct msg as [l|]; [|by exists None; split; [|intros []]].
  destruct (Hm l eq_refl) as (m & Hl & Hok). cbn [needRedirect].
  rewrite (deref_Some _ _ _ Hl), bind_Ret.
  destruct (Z.eqb_spec (h_ancount (m_header m)) 0) as [Hz|Hnz]; [by exists None; split; [|intros []]|].
  destruct Hok as [Hne Hall]; [done|].
  assert (∃ r, (if indirect then index (m_answer m) 0 else last_elem (m_answer m)) = Ret r ∧
               r ∈ m_answer m) as (r & -> & Hr).
  { unfold index, last_elem. destruct indirect.
    - destruct (m_answer m) as [|r rs]; [done|]. exists r. split; [done|left].
    - destruct (last (m_answer m)) as [r|] eqn:E; [|by apply last_None in E].
      exists r. split; [done|]. apply last_Some in E as [l' ->]. set_solver. }
  rewrite bind_Ret. destruct (Z.eqb_spec (rr_type r) RR_CNAME) as [Et|];
    [|by exists None; split; [|intros []]].
  rewrite Forall_forall in Hall. destruct (Hall r Hr Et) as (n & rest & Hrd). unfold index.
  rewrite Hrd. exists (Some n). split; [done|]. intros _.
  destruct (m_answer m) as [|r' rs] eqn:Ea; [done|]. by exists l, m, r', rs.
Qed.

Lemma trim_answer_ok indirect h msg l m r rest :
  msg = Some l → h !! l = Some m → m_answer m = r :: rest →
  ∃ h', trim_answer indirect msg h = Ret h' ∧ dom h' = dom h ∧ is_Some (h' !! l).
Proof.
  intros -> Hl Ha. unfold trim_answer. destruct indirect; [|by exists h].
  cbn [from_option_panic]. rewrite bind_Ret. unfold keep_first_answer.
  rewrite (deref_Some _ _ _ Hl), bind_Ret. unfold index. rewrite Ha. cbn.
  eexists. split; [done|]. split; [|by rewrite lookup_insert_eq].
  apply dom_insert_lookup_L. by eexists.
Qed.

Lemma mergeResponse_ok ctx h msg :
  is_Some (h !! cx_response ctx) → (∀ l, msg = Some l → is_Some (h !! l)) →
  ∃ h', mergeResponse ctx msg h = Ret h' ∧ dom h' = dom h.
Proof.
  intros [acc Hc] Hm. destruct msg as [l|]; [|by exists h].
  destruct (Hm l eq_refl) as [m Hl]. cbn [mergeResponse].
  rewrite (deref_Some _ _ _ Hl), bind_Ret, (deref_Some _ _ _ Hc), bind_Ret.
  set (h1 := <[_ := _]> h).
  assert (is_Some (h1 !! l)) as [m' Hl'] by (apply lookup_insert_is_Some'; by right; eexists).
  assert (is_Some (h1 !! cx_response ctx)) as [acc' Hc'] by (unfold h1; by rewrite lookup_insert_eq).
  rewrite (deref_Some _ _ _ Hl'), bind_Ret, (deref_Some _ _ _ Hc'), bind_Ret.
  eexists. split; [done|]. unfold h1. rewrite !dom_insert_L.
  apply elem_of_dom_2 in Hc. set_solver.
Qed.

Lemma dom_is_Some (h h' : Heap) l : dom h' = dom h → is_Some (h !! l) → is_Some (h' !! l).
Proof. intros E. by rewrite <- !elem_of_dom, E. Qed.

(** The questions asked while resolving [q]: itself, then at most sixteen
    different aliases, all of the same type and class. *)
Definition asked_ok (q : Question) (asked : list Question) : Prop :=
  ∃ aliases, asked = q :: aliases ∧ (length aliases ≤ 16)%nat ∧
    distinct_names (q_name <$> aliases) ∧
    Forall (λ a, q_type a = q_type q ∧ q_class a = q_class q) aliases.

(** The chain of names ends with the aliases asked for and the next one. *)
Record follow_inv (q : Question) (aliases : list Question) ctx : Prop := mkFollowInv {
  fi_question : cx_originalQuestion ctx = q;
  fi_count : cx_redirectCount ctx = Z.of_nat (length aliases);
  fi_bound : (length aliases ≤ 16)%nat;
  fi_distinct : distinct_names (cx_namechain ctx);
  fi_chain : ∃ pre next, cx_namechain ctx = pre ++ (q_name <$> aliases) ++ [next];
  fi_types : Forall (λ a, q_type a = q_type q ∧ q_class a = q_class q) aliases;
}.

Lemma follow_inv_asked q aliases ctx : follow_inv q aliases ctx → asked_ok q (q :: aliases).
Proof.
  intros [_ _ Hb Hd (pre & next & E) Ht]. exists aliases. split_and!; try done.
  rewrite E in Hd. by apply distinct_names_app_r, distinct_names_prefix in Hd.
Qed.

(** The state after one more alias was asked for. *)
Lemma makeRedirectQuery_ok q aliases ctx client :
  follow_inv q aliases ctx →
  (length aliases = 16%nat ∧ ∃ ctx', makeRedirectQuery ctx client = Ret (ctx', client, true) ∧
     cx_originalQuestion ctx' = q ∧ cx_response ctx' = cx_response ctx) ∨
  ∃ ctx' a, makeRedirectQuery ctx client =
      Ret (ctx', set_request (set_question (Some a) (c_request client)) (set_response None client), false) ∧
    cx_originalQuestion ctx' = q ∧ cx_response ctx' = cx_response ctx ∧
    asked_ok q (q :: aliases ++ [a]) ∧
    ∀ n, (addRedirect n ctx').2 = false → follow_inv q (aliases ++ [a]) (addRedirect n ctx').1.
Proof.
  intros [Hq Hc Hb Hd (pre & next & E) Ht]. unfold makeRedirectQuery. cbn [cx_redirectCount].
  rewrite Hc. unfold maxRedirectCount. destruct (Z.ltb_spec 16 (Z.of_nat (length aliases) + 1)).
  { left. split; [lia|]. eexists. split; [done|]. by rewrite Hq. }
  right. unfold last_elem. cbn [cx_namechain]. rewrite E, !last_app. cbn [last from_option_panic].
  rewrite bind_Ret, Hq. eexists _, _. split; [done|]. split; [done|]. split; [done|].
  rewrite E in Hd. split.
  - exists (aliases ++ [mkQuestion next (q_type q) (q_class q)]). rewrite length_app, fmap_app. cbn.
    split_and!; [done|lia|by apply distinct_names_app_r in Hd|].
    apply Forall_app; split; [done|by repeat constructor].
  - intros n. unfold addRedirect. cbn [cx_namechain].
    destruct (existsb _ _) eqn:En; [done|]. intros _. cbn [fst cx_originalQuestion].
    split; cbn [cx_originalQuestion cx_redirectCount cx_namechain].
    + done.
    + rewrite length_app. cbn. lia.
    + rewrite length_app. cbn. lia.
    + by apply distinct_names_snoc.
    + exists pre, n. by rewrite fmap_app, <- !(assoc_L (++)).
    + apply Forall_app; split; [done|by repeat constructor].
Qed.

Lemma addRedirect_frame n ctx :
  cx_originalQuestion (addRedirect n ctx).1 = cx_originalQuestion ctx ∧
  cx_response (addRedirect n ctx).1 = cx_response ctx.
Proof. unfold addRedirect. by destruct (existsb _ _). Qed.

(** One query and the merge of its answer. *)
Lemma follow_step_ok r indirect ctx h w asked client q0 :
  resolver_ok r → m_question (c_request client) = Some q0 → is_Some (h !! cx_response ctx) →
  ∃ h1 w1 client1 next h2,
    logged r (h, (w, asked)) client = Ret ((h1, (w1, asked ++ [q0])), client1) ∧
    c_request client1 = c_request client ∧
    needRedirect indirect (c_response client1) h1 = Ret next ∧
    is_Some (h2 !! cx_response ctx) ∧
    match next with
    | Some _ => ∃ h1', trim_answer indirect (c_response client1) h1 = Ret h1' ∧
                       mergeResponse ctx (c_response client1) h1' = Ret h2
    | None => mergeResponse ctx (c_response client1) h1 = Ret h2
    end.
Proof.
  intros Hr Hq Hc. destruct (Hr h w client q0 Hq) as (h1 & w1 & client1 & E & Hreq & Hmono & Hresp).
  apply Hmono in Hc.
  destruct (needRedirect_ok indirect h1 (c_response client1) Hresp) as (next & En & Hnext).
  assert (∀ l, c_response client1 = Some l → is_Some (h1 !! l)) as Hl
    by (intros l Hl; destruct (Hresp l Hl) as (? & ? & ?); eauto).
  exists h1, w1, client1, next. unfold logged. rewrite E, bind_Ret, Hq. cbn [option_list].
  destruct next as [n|].
  - destruct Hnext as (l & m & x & rest & El & Hm & Ha); [done|].
    destruct (trim_answer_ok indirect h1 (c_response client1) l m x rest El Hm Ha)
      as (h1' & Et & Hdom & _).
    destruct (mergeResponse_ok ctx h1' (c_response client1)) as (h2 & E2 & Hd2).
    { by eapply dom_is_Some. }
    { intros l' Hl'. eapply dom_is_Some; eauto. }
    exists h2. split_and!; try done; [by do 2 (eapply dom_is_Some; [done|])|by exists h1'].
  - destruct (mergeResponse_ok ctx h1 (c_response client1) Hc Hl) as (h2 & E2 & Hd2).
    exists h2. split_and!; try done. by eapply dom_is_Some.
Qed.

Lemma follow_ok r indirect q fuel :
  resolver_ok r → ∀ aliases ctx h w client,
  follow_inv q aliases ctx → (17 ≤ fuel + length aliases)%nat → is_Some (h !! cx_response ctx) →
  ∃ h' w' asked' ctx' client' q',
    followCNameChain fuel indirect (logged r) ctx (h, (w, q :: aliases)) client =
      Ret ((h', (w', asked')), ctx', client') ∧
    asked_ok q asked' ∧ cx_originalQuestion ctx' = q ∧ cx_response ctx' = cx_response ctx ∧
    is_Some (h' !! cx_response ctx) ∧
    set_question (Some q') (c_request client') = set_question (Some q') (c_request client).
Proof.
  intros Hr. induction fuel as [|fuel IH]; intros aliases ctx h w client Hinv Hfuel Hc.
  { pose proof (fi_bound _ _ _ Hinv). lia. }
  cbn [followCNameChain].
  destruct (makeRedirectQuery_ok q aliases ctx client Hinv)
    as [(Hlen & ctx' & -> & Hq & Hresp)|(ctx' & a & -> & Hq & Hresp & Hask & Hadd)]; rewrite bind_Ret.
  { exists h, w, (q :: aliases), ctx', client, q. split_and!; try done. by eapply follow_inv_asked. }
  set (client1 := set_request _ _). rewrite <- Hresp in Hc.
  destruct (follow_step_ok r indirect ctx' h w (q :: aliases) client1 a Hr eq_refl Hc)
    as (h1 & w1 & client2 & next & h2 & -> & Hreq & En & Hc2 & Hm). rewrite bind_Ret, En, bind_Ret.
  assert (set_question (Some q) (c_request client2) = set_question (Some q) (c_request client)) as Hsq
    by (by rewrite Hreq).
  rewrite Hresp in Hc2. destruct next as [n|].
  - destruct Hm as (h1' & -> & E2). rewrite bind_Ret, E2, bind_Ret.
    pose proof (addRedirect_frame n ctx') as [Hf1 Hf2]. specialize (Hadd n).
    destruct (addRedirect n ctx') as [ctx2 circle]; cbn [fst snd] in *. destruct circle.
    + exists h2, w1, (q :: aliases ++ [a]), ctx2, client2, q. split_and!; try done; congruence.
    + destruct (IH (aliases ++ [a]) ctx2 h2 w1 client2) as (h' & w' & asked' & c' & cl' & q' & E & Hrest).
      { by apply Hadd. }
      { rewrite length_app. cbn. lia. }
      { by rewrite Hf2, Hresp. }
      destruct Hrest as (? & ? & ? & ? & Hs').
      exists h', w', asked', c', cl', q'. split_and!; try done; try congruence.
      rewrite Hs', Hreq. done.
  - rewrite Hm, bind_Ret. exists h2, w1, (q :: aliases ++ [a]), ctx', client2, q.
    by split_and!.
Qed.

Lemma set_question_id (m : Message) q : m_question m = Some q → set_question (Some q) m = m.
Proof. destruct m. cbn. by intros ->. Qed.

(** The first redirect, whose circle check is not looked at. *)
Lemma first_redirect q l n :
  follow_inv q [] (addRedirect n (mkCNameContext q 0 l [q_name q])).1.
Proof.
  unfold addRedirect. cbn [cx_namechain].
  assert (distinct_names [q_name q]) as H1.
  { intros i j a b [? ?]%list_lookup_singleton_Some [? ?]%list_lookup_singleton_Some _. lia. }
  destruct (existsb _ _) eqn:E; split; cbn; try done; try lia; try constructor.
  - by exists [], (q_name q).
  - by apply (distinct_names_snoc [q_name q]).
  - by exists [q_name q], n.
Qed.

(** C12: following aliases ends.  Over any resolver that answers, resolving a
    question asks it that question and then at most sixteen aliases, no alias
    twice, all of the question's type and class.  The client's request is as it
    was, and after a redirect the response carries the original question and the
    request's id. *)
Theorem CNameHandler_Resolve_total r indirect h w client q :
  resolver_ok r → m_question (c_request client) = Some q →
  ∃ h' w' asked client',
    CNameHandler_Resolve indirect (logged r) (h, (w, [])) client = Ret ((h', (w', asked)), client') ∧
    asked_ok q asked ∧ c_request client' = c_request client ∧
    (asked ≠ [q] → ∃ l m, c_response client' = Some l ∧ h' !! l = Some m ∧
       m_question m = Some q ∧ h_id (m_header m) = h_id (m_header (c_request client))).
Proof.
  intros Hr Hq. unfold CNameHandler_Resolve.
  destruct (Hr h w client q Hq) as (h1 & w1 & client1 & E & Hreq & Hmono & Hresp).
  assert (logged r (h, (w, [])) client = Ret ((h1, (w1, [q])), client1)) as ->
    by (unfold logged; by rewrite E, bind_Ret, Hq).
  rewrite bind_Ret.
  destruct (needRedirect_ok indirect h1 (c_response client1) Hresp) as (next & En & Hnext).
  rewrite En, bind_Ret. destruct next as [n|].
  2: { exists h1, w1, [q], client1. split_and!; try done. exists []. cbn. split_and!; try done; lia. }
  destruct Hnext as (l & m & x & rest & El & Hm & Ha); [done|].
  destruct (trim_answer_ok indirect h1 (c_response client1) l m x rest El Hm Ha)
    as (h2 & Et & Hdom & Hl). rewrite Et, bind_Ret, El. cbn [from_option_panic].
  rewrite bind_Ret. unfold newCNameContext. rewrite Hreq, (deref_question_Some _ _ Hq), !bind_Ret.
  pose proof (first_redirect q l n) as Hinv.
  pose proof (addRedirect_frame n (mkCNameContext q 0 l [q_name q])) as [_ Hf2].
  destruct (addRedirect n _) as [ctx circle]; cbn [fst cx_response] in *.
  destruct (follow_ok r indirect q follow_fuel Hr [] ctx h2 w1 client1 Hinv)
    as (h3 & w3 & asked & ctx' & client3 & q' & -> & Hask & Hoq & Hcr & [m3 Hm3] & Hsq);
    [unfold follow_fuel; cbn; lia|by rewrite Hf2|].
  rewrite bind_Ret. unfold assembleFinalResponse. rewrite Hcr, (deref_Some _ _ _ Hm3), bind_Ret, Hoq.
  assert (set_question (Some q) (c_request client3) = c_request client) as Hreq3.
  { rewrite <- (set_question_id _ _ Hq), <- Hreq.
    apply (f_equal (set_question (Some q))) in Hsq. exact Hsq. }
  rewrite Hreq3. eexists _, w3, asked, _. split; [done|]. split_and!; [done|done|].
  intros _. eexists _, _. split; [done|]. rewrite lookup_insert_eq. by split_and!.
Qed.
End cname_props.

(** ** Sharing queries in flight *)

Section limit_props.
Context {N : G53Name} {L : G53NameLaws N} {M : G53Msg N} {W : Type}.

(** The key of a query determines the hash of its name, its view and its type. *)
Lemma QueryKey_inj c c' q q' k :
  m_question (c_request c) = Some q → m_question (c_request c') = Some q' →
  is_u16 (q_type q) → is_u16 (q_type q') → is_u16 (c_view_id c) → is_u16 (c_view_id c') →
  Client_QueryKey c = Ret k → Client_QueryKey c' = Ret k →
  Name_Hash (q_name q) = Name_Hash (q_name q') ∧ c_view_id c = c_view_id c' ∧ q_type q = q_type q'.
Proof.
  intros Hq Hq'. unfold Client_QueryKey.
  rewrite (deref_question_Some _ _ Hq), (deref_question_Some _ _ Hq'), !bind_Ret.
  unfold is_u16. intros Ht Ht' Hv Hv' [= <-] [= E].
  pose proof (Hash_range (q_name q)) as Hh. pose proof (Hash_range (q_name q')) as Hh'.
  unfold is_u32 in *.
  assert (∀ hash view ty : Z, 0 ≤ hash < 2 ^ 32 → 0 ≤ view < 2 ^ 16 → 0 ≤ ty < 2 ^ 16 →
    Z.lor (Z.lor (u64 (Z.shiftl hash 32)) (u64 (Z.shiftl view 16))) ty =
    (hash * 2 ^ 16 + view) * 2 ^ 16 + ty) as Hpack.
  { intros hash view ty ???. rewrite !u64_small by (rewrite Z.shiftl_mul_pow2; lia).
    rewrite lor_shiftl_add, (Z.shiftl_mul_pow2 view) by (rewrite ?Z.shiftl_mul_pow2; lia).
    replace (hash * 2 ^ 32 + view * 2 ^ 16) with (Z.shiftl (hash * 2 ^ 16 + view) 16)
      by (rewrite Z.shiftl_mul_pow2; lia).
    by rewrite lor_shiftl_add by lia. }
  rewrite !Hpack in E by done. apply pack_inj in E as [E ?]; [|done|done].
  by apply pack_inj in E as [? ?].
Qed.

(** What the single-flight group promises of a shared result: it is the result of
    a query with the same key, answered with that query's own question. *)
Definition flight_ok (h : Heap) (client : Client) (f : Flight) : Prop :=
  match f with
  | Shared (Some l) _ => ∃ owner q' m,
      m_question (c_request owner) = Some q' ∧ is_u16 (q_type q') ∧ is_u16 (c_view_id owner) ∧
      Client_QueryKey owner = Client_QueryKey client ∧ h !! l = Some m ∧ m_question m = Some q'
  | _ => True
  end.

(** A shared answer is the answer to the client's own question.  When the
    query limit answers a client from queries in flight, the client gets a private
    copy of the shared message with its own query id, whose question has the
    client's name and type; names that only collide in the key are asked again. *)
Theorem QueryLimit_Resolve_shared flights resolver h (w : W) client q s' client' l' :
  m_question (c_request client) = Some q → is_u16 (q_type q) → is_u16 (c_view_id client) →
  c_response client = None → Lead ∉ flights → Forall (flight_ok h client) flights →
  QueryLimit_Resolve flights resolver (h, w) client = Ret (s', client') →
  c_response client' = Some l' →
  ∃ l m q', h !! l = Some m ∧ h !! l' = None ∧ m_question m = Some q' ∧
    q_name q ≈ q_name q' ∧ q_type q' = q_type q ∧
    s' = (<[l' := set_header (Header_set_id (h_id (m_header (c_request client))) (m_header m)) m]> h, w) ∧
    c_request client' = c_request client.
Proof.
  intros Hq Ht Hv Hr. induction flights as [|f flights IH]; intros Hlead Hok; cbn [QueryLimit_Resolve];
    unfold Client_QueryKey at 1; rewrite (deref_question_Some _ _ Hq), !bind_Ret; [done|].
  apply Forall_cons in Hok as [Hf Hok]. apply not_elem_of_cons in Hlead as [Hne Hlead].
  destruct f as [|[l|] ca|err]; [done| |rewrite Hr; intros [= <- <-]; congruence|intros [= <- <-]; congruence].
  destruct Hf as (owner & q' & m & Hq' & Ht' & Hv' & Hkey & Hl & Hm).
  rewrite Hr, (deref_Some _ _ _ Hl), !bind_Ret, (deref_question_Some _ _ Hm), bind_Ret.
  destruct (Name_Equals (q_name q) (q_name q')) eqn:En; [|by apply IH].
  destruct (Client_QueryKey client) as [k| |] eqn:Ek;
    try (by unfold Client_QueryKey in Ek; rewrite (deref_question_Some _ _ Hq) in Ek).
  destruct (QueryKey_inj _ _ _ _ _ Hq Hq' Ht Ht' Hv Hv' Ek Hkey) as (_ & _ & Hty).
  cbn -[fresh]. intros [= <- <-] [= <-]. exists l, m, q'. split_and!; try done.
  apply not_elem_of_dom, is_fresh.
Qed.
End limit_props.

(** ** Witnesses *)

(** A resolver that makes a fresh message for each question. *)
Definition table_resolver (f : Question → Message) : Handler (Heap * ()) := λ s client,
  let '(h, w) := s in
  q ← deref_question (c_request client);
  let '(l, h) := heap_alloc (f q) h in
  Ret ((h, w), set_response (Some l) client).

Lemma table_resolver_ok f : (∀ q, redirect_ok (f q)) → resolver_ok (table_resolver f).
Proof.
  intros Hf h w client q Hq. unfold table_resolver. rewrite (deref_question_Some _ _ Hq), bind_Ret.
  eexists _, _, _. split; [done|]. split; [done|]. split.
  - intros l Hl. rewrite lookup_insert_is_Some'. by right.
  - cbn -[fresh]. intros l [= <-]. eexists. rewrite lookup_insert_eq. split; [done|apply Hf].
Qed.

Definition cname_rrset (n target : Name) : RRset := mkRRset n RR_CNAME CLASS_IN 60 [RdCName target].

(** www.example.com is an alias of mail.example.com, which has an address. *)
Definition alias_table (q : Question) : Message :=
  let m := if Name_Equals (q_name q) www then answer www (q_type q) [cname_rrset www mail]
           else answer (q_name q) (q_type q) [a_rrset (q_name q) 60 1] in
  set_header (Header_set_ancount 1 (m_header m)) m.

Lemma alias_table_ok q : redirect_ok (alias_table q).
Proof.
  unfold alias_table. destruct (Name_Equals (q_name q) www); intros _; cbn;
    (split; [done|]); repeat constructor; cbn; [|done]. intros _. by eexists _, _.
Qed.

Definition alias_client : Client :=
  mkClient None None false (query www RR_A) None "default" 0 false false 0.

Lemma CNameHandler_Resolve_total_witness :
  ∃ h' w' asked client',
    CNameHandler_Resolve false (logged (table_resolver alias_table)) (∅, ((), [])) alias_client =
      Ret ((h', (w', asked)), client') ∧
    asked_ok (mkQuestion www RR_A CLASS_IN) asked ∧ c_request client' = query www RR_A ∧
    (asked ≠ [mkQuestion www RR_A CLASS_IN] → ∃ l m, c_response client' = Some l ∧ h' !! l = Some m ∧
       m_question m = Some (mkQuestion www RR_A CLASS_IN) ∧ h_id (m_header m) = 7).
Proof.
  exact (CNameHandler_Resolve_total (table_resolver alias_table) false ∅ () alias_client
           (mkQuestion www RR_A CLASS_IN) (table_resolver_ok _ alias_table_ok) eq_refl).
Defined.

(** The redirect happens: two questions, and both record sets in the answer. *)
Example alias_followed :
  match CNameHandler_Resolve false (logged (table_resolver alias_table)) (∅, ((), [])) alias_client with
  | Ret ((h, (_, asked)), client) =>
      (q_name <$> asked, (λ m, rr_type <$> m_answer m) <$> (c_response client ≫= (h !!.)))
  | _ => ([], None)
  end = ([www; mail], Some [RR_CNAME; RR_A]).
Proof. by_eval. Qed.

Definition shared_heap : Heap := {[ 0%nat := answer WWW RR_A [a_rrset WWW 60 1] ]}.
Definition owner_client : Client :=
  mkClient None None false (query WWW RR_A) None "default" 0 false false 0.
Definition shared_result : outcome (Heap * () * Client) :=
  QueryLimit_Resolve [Shared (Some 0%nat) true] (table_resolver alias_table) (shared_heap, ()) alias_client.
Definition shared_reply : nat :=
  match shared_result with Ret (_, c) => from_option id 0%nat (c_response c) | _ => 0%nat end.
Definition shared_state : Heap * () :=
  match shared_result with Ret (s, _) => s | _ => (∅, ()) end.
Definition shared_client : Client :=
  match shared_result with Ret (_, c) => c | _ => alias_client end.

Lemma QueryLimit_Resolve_shared_witness :
  ∃ l m q', shared_heap !! l = Some m ∧ shared_heap !! shared_reply = None ∧ m_question m = Some q' ∧
    www ≈ q_name q' ∧ q_type q' = RR_A ∧
    shared_state = (<[shared_reply := set_header (Header_set_id 7 (m_header m)) m]> shared_heap, ()) ∧
    c_request shared_client = query www RR_A.
Proof.
  apply (QueryLimit_Resolve_shared [Shared (Some 0%nat) true] (table_resolver alias_table)
           shared_heap () alias_client (mkQuestion www RR_A CLASS_IN) shared_state shared_client
           shared_reply).
  - reflexivity.
  - unfold is_u16; cbn; unfold RR_A; lia.
  - unfold is_u16; cbn; unfold RR_A; lia.
  - reflexivity.
  - by intros ?%list_elem_of_singleton.
  - repeat constructor. exists owner_client, (mkQuestion WWW RR_A CLASS_IN),
      (answer WWW RR_A [a_rrset WWW 60 1]). split_and!; try done; by_eval.
  - by_eval.
  - by_eval.
Defined.
