(* ===== verification/Recursor.v ===== *)
(** * The recursor (src/resolver/recursor)

    A query is resolved from the closest known zone down: the name server address
    store (NSAS) remembers the servers of the zones met so far and how fast they
    answer, and a referral extends it before the query is tried again. *)

From S2P Require Import Prelude GoList GoStd G53 Instances Core Cement Util Chain.

Local Open Scope Z_scope.

(** ** recursor/addressentry.go *)

Record AddressEntry : Type := mkAddressEntry {
  ae_addr : string;
  ae_rtt : Z;
}.

Definition MaxInt64 : Z := 2 ^ 63 - 1.

(** Signed 64-bit arithmetic: it wraps, and division truncates. *)
Definition AddressEntry_updateRtt (rtt : Z) (ae : AddressEntry) : AddressEntry :=
  mkAddressEntry (ae_addr ae) (Z.quot (i64 (i64 (ae_rtt ae * 7) + i64 (rtt * 3))) 10).

Definition AddressEntry_setUnreachable (ae : AddressEntry) : AddressEntry :=
  AddressEntry_updateRtt MaxInt64 ae.

(** ** recursor/zoneentry.go and nameserver.go *)

Inductive TrustLevel : Type := OutOfZone | FromReferal | FromAuth.

Definition trust_val (t : TrustLevel) : Z :=
  match t with OutOfZone => 0 | FromReferal => 1 | FromAuth => 2 end.

#[export] Instance TrustLevel_eq_dec : EqDecision TrustLevel.
Proof. solve_decision. Defined.

Section nameserver.
Context {N : G53Name} {M : G53Msg N}.

(** [zone] is nil until the zone that names the server fills it in. *)
Record NameServer : Type := mkNameServer {
  ns_zone : option Name;
  ns_name : Name;
  ns_addr : string;
  ns_rtt : Z;
}.

Record NameServerEntry : Type := mkNameServerEntry {
  ne_name : Name;
  ne_addrEntrys : list AddressEntry;
  ne_expireTime : Z;
  ne_trustLevel : TrustLevel;
}.

Definition errNameServerNoAddr : string := "name server doesn't have any addr".
Definition errUnknownNameServer : string := "name server is unknown".

(** [rnd i] is the random initial round-trip time of the [i]-th address. *)
Definition newNameServerEntry (now : Z) (rnd : nat → Z) (name : Name) (ttl : Z)
  (addrs : list string) (trustLevel : TrustLevel) : outcome NameServerEntry :=
  match addrs with
  | [] => Panic errNameServerNoAddr
  | _ => Ret (mkNameServerEntry name (imap (λ i a, mkAddressEntry a (rnd i)) addrs)
                (now + ttl) trustLevel)
  end.

Definition NameServerEntry_isExpired (now : Z) (e : NameServerEntry) : bool :=
  time_Before (ne_expireTime e) now.

Definition NameServerEntry_getNameServers (zone : Name) (e : NameServerEntry) : list NameServer :=
  (λ a, mkNameServer (Some zone) (ne_name e) (ae_addr a) (ae_rtt a)) <$> ne_addrEntrys e.

Fixpoint min_entry (best : AddressEntry) (rest : list AddressEntry) : AddressEntry :=
  match rest with
  | [] => best
  | a :: rest => min_entry (if ae_rtt a <? ae_rtt best then a else best) rest
  end.

Definition NameServerEntry_selectNameServer (e : NameServerEntry) : outcome NameServer :=
  match ne_addrEntrys e with
  | [] => Panic "index out of range"
  | a :: rest =>
      let sel := min_entry a rest in
      Ret (mkNameServer None (ne_name e) (ae_addr sel) (ae_rtt sel))
  end.

(** The first entry with the server's address; [false] is [errAddrIsUnknown]. *)
Fixpoint update_addr (addr : string) (rtt : Z) (l : list AddressEntry) : list AddressEntry * bool :=
  match l with
  | [] => ([], false)
  | a :: l =>
      if bool_decide (ae_addr a = addr) then (AddressEntry_updateRtt rtt a :: l, true)
      else let '(l, ok) := update_addr addr rtt l in (a :: l, ok)
  end.

Definition NameServerEntry_updateRtt (server : NameServer) (rtt : Z) (e : NameServerEntry)
  : NameServerEntry :=
  mkNameServerEntry (ne_name e) (update_addr (ns_addr server) rtt (ne_addrEntrys e)).1
    (ne_expireTime e) (ne_trustLevel e).

(** Entries by the hash of their name. *)
Abbreviation NameServerManager := (gmap Z NameServerEntry).

Definition NameServerManager_addNameServer (now : Z) (rnd : nat → Z) (name : Name) (ttl : Z)
  (addrs : list string) (trustLevel : TrustLevel) (ns : NameServerManager)
  : outcome NameServerManager :=
  e ← newNameServerEntry now rnd name ttl addrs trustLevel;
  let key := Name_Hash name in
  match ns !! key with
  | Some oldEntry =>
      if negb (NameServerEntry_isExpired now oldEntry) &&
         (trust_val trustLevel <=? trust_val (ne_trustLevel oldEntry))
      then Ret ns else Ret (<[key := e]> ns)
  | None => Ret (<[key := e]> ns)
  end.

Definition NameServerManager_getNameServer (name : Name) (ns : NameServerManager)
  : option NameServerEntry :=
  match ns !! Name_Hash name with
  | Some e => if Name_Equals (ne_name e) name then Some e else None
  | None => None
  end.

(** [Some] is [errUnknownNameServer]. *)
Definition NameServerManager_updateRtt (server : NameServer) (rtt : Z) (ns : NameServerManager)
  : NameServerManager * option string :=
  match ns !! Name_Hash (ns_name server) with
  | Some e =>
      if Name_Equals (ne_name e) (ns_name server)
      then (<[Name_Hash (ns_name server) := NameServerEntry_updateRtt server rtt e]> ns, None)
      else (ns, Some errUnknownNameServer)
  | None => (ns, Some errUnknownNameServer)
  end.

Definition NameServerManager_deleteNameServers (names : list Name) (ns : NameServerManager)
  : NameServerManager := foldl (λ ns n, delete (Name_Hash n) ns) ns names.

Definition cloneNameServers (src : list NameServer) : outcome (list NameServer) :=
  match src with [] => Panic "clone empty name servers" | _ => Ret src end.

Record ZoneEntry : Type := mkZoneEntry {
  ze_zone : Name;
  ze_nameServers : list Name;
  ze_expireTime : Z;
  ze_trustLevel : TrustLevel;
}.

Definition newZoneEntry (now : Z) (name : Name) (nameServers : list Name) (ttl : Z)
  (trustLevel : TrustLevel) : ZoneEntry := mkZoneEntry name nameServers (now + ttl) trustLevel.

Definition ZoneEntry_isExpired (now : Z) (z : ZoneEntry) : bool := time_Before (ze_expireTime z) now.

Fixpoint select_servers (now : Z) (zone : Name) (names : list Name) (ns : NameServerManager)
  : outcome (list NameServer) :=
  match names with
  | [] => Ret []
  | name :: names =>
      match NameServerManager_getNameServer name ns with
      | Some e =>
          if NameServerEntry_isExpired now e then select_servers now zone names ns
          else
            server ← NameServerEntry_selectNameServer e;
            rest ← select_servers now zone names ns;
            Ret (mkNameServer (Some zone) (ns_name server) (ns_addr server) (ns_rtt server) :: rest)
      | None => select_servers now zone names ns
      end
  end.

Definition ZoneEntry_selectNameServer (now : Z) (z : ZoneEntry) (ns : NameServerManager)
  : outcome (list NameServer) := select_servers now (ze_zone z) (ze_nameServers z) ns.

(** ** recursor/dnshelper.go *)

Definition errAuthSectionIsNotValid : string := "auth section should has one ns rrset".

Definition as_NS (rd : Rdata) : outcome Name :=
  match rd with
  | RdNS n => Ret n
  | _ => Panic "interface conversion: g53.Rdata is not *g53.NS"
  end.

Fixpoint ns_names (rds : list Rdata) : outcome (list Name) :=
  match rds with
  | [] => Ret []
  | rd :: rds => n ← as_NS rd; rest ← ns_names rds; Ret (n :: rest)
  end.

(** The addresses the additional section gives for one server: the rdatas of all
    its address record sets and the ttl of the last of them. *)
Definition glue_for (server : Name) (glues : list RRset) : RRset :=
  let mine := filter (λ g, (rr_type g = RR_A ∧ Name_Equals (rr_name g) server = true)) glues in
  mkRRset server RR_A CLASS_IN (from_option rr_ttl 0 (last mine)) (mjoin (rr_rdatas <$> mine)).

Definition valid_glues (servers : list Name) (glues : list RRset) : list RRset :=
  filter (λ g, length (rr_rdatas g) ≠ 0%nat) ((λ s, glue_for s glues) <$> servers).

(** [inl] is the error; the zone argument is not used by the code. *)
Definition getAuthAndGlues (msg : Message) : outcome (string + RRset * list RRset) :=
  q ← deref_question msg;
  let use_answer := (q_type q =? RR_NS) && (length (m_answer msg) =? 1)%nat in
  let auth := if use_answer then m_answer msg else m_auth msg in
  if negb use_answer && negb (length auth =? 1)%nat then Ret (inl errAuthSectionIsNotValid)
  else
    nsRRset ← index auth 0;
    if negb (rr_type nsRRset =? RR_NS) then Ret (inl errAuthSectionIsNotValid)
    else
      servers ← ns_names (rr_rdatas nsRRset);
      Ret (inr (nsRRset, valid_glues servers (m_additional msg))).

Definition isValidResponse (msg : Message) : bool :=
  (h_rcode (m_header msg) =? R_NOERROR) || (h_rcode (m_header msg) =? R_NXDOMAIN).

Definition getARRsetFromAnswer (msg : Message) : outcome (option RRset) :=
  match m_answer msg with
  | [r] =>
      if rr_type r =? RR_A then
        q ← deref_question msg;
        Ret (if Name_Equals (rr_name r) (q_name q) then Some r else None)
      else Ret None
  | _ => Ret None
  end.
End nameserver.

(** ** recursor/nsascache.go *)

Section nsas.
Context {N : G53Name} {M : G53Msg N} {T : DomainTree N}.

Definition DefaultMaxCacheSize : Z := 4096.
Definition ExpiredZoneCheckBatch : nat := 100.

(** The tree maps a zone to its element of the list of visited zones, most
    recently visited first. *)
Record NsasCache : Type := mkNsasCache {
  nc_zones : dtree nat;
  nc_visitedZone : golist ZoneEntry;
  nc_nameServers : gmap Z NameServerEntry;
  nc_maxCacheSize : Z;
}.

Definition NewNsasCache (maxCacheSize : Z) : NsasCache :=
  mkNsasCache dt_New list_New ∅ (if maxCacheSize <=? 0 then DefaultMaxCacheSize else maxCacheSize).

Definition set_nameServers (ns : gmap Z NameServerEntry) (nc : NsasCache) : NsasCache :=
  mkNsasCache (nc_zones nc) (nc_visitedZone nc) ns (nc_maxCacheSize nc).
Definition set_visited (l : golist ZoneEntry) (nc : NsasCache) : NsasCache :=
  mkNsasCache (nc_zones nc) l (nc_nameServers nc) (nc_maxCacheSize nc).

Definition zoneCount (nc : NsasCache) : Z := Z.of_nat (list_Len (nc_visitedZone nc)).

Definition NsasCache_addNameServer (now : Z) (rnd : nat → Z) (glue : RRset) (trustLevel : TrustLevel)
  (nc : NsasCache) : outcome NsasCache :=
  ns ← NameServerManager_addNameServer now rnd (rr_name glue) (rr_ttl glue * Second)
         ((λ rd, Rdata_String rd +:+ ":53") <$> rr_rdatas glue) trustLevel (nc_nameServers nc);
  Ret (set_nameServers ns nc).

Fixpoint add_glues (now : Z) (rnd : nat → Z) (zone : Name) (glues : list RRset) (nc : NsasCache)
  : outcome NsasCache :=
  match glues with
  | [] => Ret nc
  | g :: glues =>
      nc ← NsasCache_addNameServer now rnd g
             (if negb (Name_IsSubDomain (rr_name g) zone) then OutOfZone else FromAuth) nc;
      add_glues now rnd zone glues nc
  end.

(** The servers of the zone whose addresses are to be looked up, and those that
    can be asked now. *)
Definition split_servers (now : Z) (names : list Name) (nc : NsasCache) : list Name * list Name :=
  let state n := match NameServerManager_getNameServer n (nc_nameServers nc) with
                 | Some e => if NameServerEntry_isExpired now e then None else Some (ne_trustLevel e)
                 | None => None
                 end in
  (filter (λ n, state n = None ∨ state n = Some OutOfZone) names, filter (λ n, state n ≠ None) names).

(** Inserting a zone the tree already has is an error, which is not looked at. *)
Definition insert_zone (zone : Name) (elem : nat) (t : dtree nat) : dtree nat :=
  match dt_Insert zone elem t with inr t => t | inl _ => t end.

Definition NsasCache_addZone (now : Z) (nsRRset : RRset) (trustLevel : TrustLevel) (nc : NsasCache)
  : outcome (NsasCache * (list Name * list Name)) :=
  let zone := rr_name nsRRset in
  serverNames ← ns_names (rr_rdatas nsRRset);
  let res := split_servers now serverNames nc in
  old ← (match dt_Search zone (nc_zones nc) with
         | (Some elem, ExactMatch) =>
             oldEntry ← from_option_panic "nil list element" (list_Value elem (nc_visitedZone nc));
             Ret (if negb (ZoneEntry_isExpired now oldEntry) &&
                     (trust_val trustLevel <? trust_val (ze_trustLevel oldEntry))
                  then Some elem else None)
         | _ => Ret None
         end);
  match old with
  | Some elem => Ret (set_visited (list_MoveToFront elem (nc_visitedZone nc)) nc, ([], []))
  | None =>
      let '(elem, l) := list_PushFront
        (newZoneEntry now zone serverNames (rr_ttl nsRRset * Second) trustLevel) (nc_visitedZone nc) in
      Ret (mkNsasCache (insert_zone zone elem (nc_zones nc)) l (nc_nameServers nc)
             (nc_maxCacheSize nc), res)
  end.

Definition NsasCache_AddZoneNameServer (now : Z) (rnd : nat → Z) (zone : Name) (msg : Message)
  (nc : NsasCache) : outcome (NsasCache * (list Name * list Name)) :=
  r ← getAuthAndGlues msg;
  match r with
  | inl _ => Ret (nc, ([], []))
  | inr (nsRRset, glues) =>
      nc ← add_glues now rnd zone glues nc;
      NsasCache_addZone now nsRRset
        (if Header_GetFlag FLAG_AA (m_header msg) then FromAuth else FromReferal) nc
  end.

(** Removing a nil element panics. *)
Definition NsasCache_removeZone (elem : option nat) (nc : NsasCache) : outcome NsasCache :=
  id ← from_option_panic "nil pointer dereference: list element" elem;
  e ← from_option_panic "nil list element" (list_Value id (nc_visitedZone nc));
  Ret (mkNsasCache (dt_Delete (ze_zone e) (nc_zones nc)) (list_Remove id (nc_visitedZone nc))
         (NameServerManager_deleteNameServers (ze_nameServers e) (nc_nameServers nc))
         (nc_maxCacheSize nc)).

Fixpoint NsasCache_selectNameServers (fuel : nat) (now : Z) (zone : Name) (nc : NsasCache)
  : outcome (NsasCache * list NameServer) :=
  match fuel with
  | O => Hang "out of fuel"
  | S fuel =>
      match dt_Search zone (nc_zones nc) with
      | (_, NotFound) | (None, _) => Ret (nc, [])
      | (Some elem, _) =>
          e ← from_option_panic "nil list element" (list_Value elem (nc_visitedZone nc));
          if ZoneEntry_isExpired now e then
            nc ← NsasCache_removeZone (Some elem) nc; NsasCache_selectNameServers fuel now zone nc
          else
            servers ← ZoneEntry_selectNameServer now e (nc_nameServers nc);
            match servers with
            | [] => nc ← NsasCache_removeZone (Some elem) nc; NsasCache_selectNameServers fuel now zone nc
            | _ => Ret (set_visited (list_MoveToFront elem (nc_visitedZone nc)) nc, servers)
            end
      end
  end.

(** Every retry removes a zone. *)
Definition SelectNameServers (now : Z) (zone : Name) (nc : NsasCache)
  : outcome (NsasCache * list NameServer) :=
  NsasCache_selectNameServers (S (list_Len (nc_visitedZone nc))) now zone nc.

Definition NsasCache_UpdateRtt (server : NameServer) (rtt : Z) (nc : NsasCache) : NsasCache :=
  set_nameServers (NameServerManager_updateRtt server rtt (nc_nameServers nc)).1 nc.

(** The scan for expired zones from the back of the list. *)
Fixpoint remove_expired (count : nat) (now : Z) (elem : option (nat * ZoneEntry)) (nc : NsasCache)
  : outcome NsasCache :=
  match count, elem with
  | S count, Some (id, e) =>
      let prev := list_Prev id (nc_visitedZone nc) in
      if ZoneEntry_isExpired now e then
        nc ← NsasCache_removeZone (Some id) nc; remove_expired count now prev nc
      else remove_expired count now prev nc
  | _, _ => Ret nc
  end.

Fixpoint remove_oldest (count : nat) (nc : NsasCache) : outcome NsasCache :=
  match count with
  | O => Ret nc
  | S count =>
      nc ← NsasCache_removeZone (fst <$> list_Back (nc_visitedZone nc)) nc;
      remove_oldest count nc
  end.

(** The number of zones to remove is counted before the expired ones go. *)
Definition EnforceMemoryLimit (now : Z) (nc : NsasCache) : outcome NsasCache :=
  let count := zoneCount nc in
  if count <=? nc_maxCacheSize nc then Ret nc
  else
    nc ← remove_expired ExpiredZoneCheckBatch now (list_Back (nc_visitedZone nc)) nc;
    remove_oldest (Z.to_nat (count - nc_maxCacheSize nc)) nc.
End nsas.

(** ** recursor/recursor.go and context.go *)

Section recursor.
Context {N : G53Name} {M : G53Msg N} {T : DomainTree N}.

Definition errTooDepQuery : string := "query exceed depth limit".
Definition errInvalidResponse : string := "response is invalid".
Definition errQueryTimeout : string := "query time out".
Definition errDumbNameServer : string := "auth name server is dumb".

Definition maxQueryDep : Z := 20.
Definition maxInflightQuery : nat := 100.
Definition singleQueryTimeout : Z := 3 * Second.
Definition queryTimeout : Z := 15 * Second.
Definition batchQueryCount : nat := 3.

(** The fields of [RecursorCtx] the search depends on. *)
Record RecursorCtx : Type := mkRecursorCtx {
  rc_question : Question;
  rc_depth : Z;
  rc_nameServers : list NameServer;
}.

(** [newRecursorCtxPool], [getCtx] and [putCtx]: a fixed number of contexts, nil
    slots for those in use. *)
Definition newRecursorCtxPool (max : nat) : list (option nat) := Some <$> seq 0 max.

Definition getCtx (ctxes : list (option nat)) : option (nat * list (option nat)) := take_render ctxes.

Fixpoint putCtx (ctx : nat) (ctxes : list (option nat)) : list (option nat) :=
  match ctxes with
  | [] => []
  | None :: ctxes => Some ctx :: ctxes
  | Some c :: ctxes => Some c :: putCtx ctx ctxes
  end.

(** What the network does with one query to one server: a response or an error and
    the time it took, and the same for the retry without EDNS. *)
Record Exchange : Type := mkExchange {
  ex_first : (string + Message) * Z;
  ex_retry : (string + Message) * Z;
}.

Definition doSingleQuery (ex : Exchange) (server : NameServer) (nc : NsasCache)
  : NsasCache * (string + Message) :=
  let '(result, rtt) :=
    match ex_first ex with
    | (inl err, rtt) => (inl err, rtt)
    | (inr response, rtt) =>
        if h_rcode (m_header response) =? R_FORMERR then ex_retry ex
        else if negb (isValidResponse response) then (inl errDumbNameServer, queryTimeout)
        else (inr response, rtt)
    end in
  (NsasCache_UpdateRtt server rtt nc, result).

(** Queries to several servers run concurrently; [completions] lists those that
    end before the answer is taken, in order, each with its server's position.
    Those that end later belong to the environment. *)
Fixpoint first_response (completions : list (nat * Exchange)) (servers : list NameServer)
  (nc : NsasCache) : NsasCache * (string + Message) :=
  match completions with
  | [] => (nc, inl errQueryTimeout)
  | (i, ex) :: completions =>
      match servers !! i with
      | None => first_response completions servers nc
      | Some s =>
          let '(nc, r) := doSingleQuery ex s nc in
          match r with
          | inr response => (nc, inr response)
          | inl _ => first_response completions servers nc
          end
      end
  end.

(** [ServerByRtt] *)
Definition server_le (a b : NameServer) : Prop := ns_rtt a ≤ ns_rtt b.
#[export] Instance server_le_dec : RelDecision server_le.
Proof. intros a b. unfold server_le. apply _. Defined.

Definition timeout_exchange : Exchange :=
  mkExchange (inl errTimeout, singleQueryTimeout) (inl errTimeout, singleQueryTimeout).

(** The servers as the sort leaves them, the state and the answer. *)
Definition doQuery (completions : list (nat * Exchange)) (servers : list NameServer) (nc : NsasCache)
  : list NameServer * (NsasCache * (string + Message)) :=
  match servers with
  | [s] => (servers, doSingleQuery (from_option snd timeout_exchange (head completions)) s nc)
  | _ =>
      if (batchQueryCount <? length servers)%nat then
        let sorted := merge_sort server_le servers in
        (sorted, first_response completions (take batchQueryCount sorted) nc)
      else (servers, first_response completions servers nc)
  end.

(** What the rest of the process does during one round of the search: [rd_before]
    and [rd_missing] are the changes other queries make to the store, among them
    the lookups of missing server addresses that a referral starts. *)
Record Round : Type := mkRound {
  rd_now : Z;
  rd_elapsed : Z;
  rd_rnd : nat → Z;
  rd_before : NsasCache → NsasCache;
  rd_completions : list (nat * Exchange);
  rd_missing : NsasCache → NsasCache;
}.

Definition server_zone (servers : list NameServer) : outcome Name :=
  s ← index servers 0; from_option_panic "nil pointer dereference: zone" (ns_zone s).

Definition handleFinalAnswer (rd : Round) (ctx : RecursorCtx) (zone : Name) (response : Message)
  (nc : NsasCache) : outcome (NsasCache * Message) :=
  r ← NsasCache_AddZoneNameServer (rd_now rd) (rd_rnd rd) zone response nc;
  Ret (r.1, set_question (Some (rc_question ctx)) response).

(** [handleReferal] up to the next round; the lookups of [getMissingNameServer]
    are part of the environment. *)
Definition handleReferal (rd : Round) (zone : Name) (response : Message) (nc : NsasCache)
  : outcome NsasCache :=
  r ← NsasCache_AddZoneNameServer (rd_now rd) (rd_rnd rd) zone response nc;
  let '(nc, (missing, _)) := r in
  Ret (if (0 <? length missing)%nat then rd_missing rd nc else nc).

Fixpoint handleQuery (fuel : nat) (rounds : Z → Round) (ctx : RecursorCtx) (nc : NsasCache)
  : outcome (NsasCache * RecursorCtx * (string + Message)) :=
  match fuel with
  | O => Hang "out of fuel"
  | S fuel =>
      let ctx := mkRecursorCtx (rc_question ctx) (rc_depth ctx + 1) (rc_nameServers ctx) in
      let rd := rounds (rc_depth ctx) in
      if (maxQueryDep <=? rc_depth ctx) ||
         ((1 <? rc_depth ctx) && (queryTimeout <? rd_elapsed rd))
      then Ret (nc, ctx, inl errTooDepQuery)
      else
        r ← SelectNameServers (rd_now rd) (q_name (rc_question ctx)) (rd_before rd nc);
        let '(nc, known) := r in
        let from_ctx := match known with [] => true | _ => false end in
        let '(servers, (nc, answer)) :=
          doQuery (rd_completions rd) (if from_ctx then rc_nameServers ctx else known) nc in
        (* the sort orders the context's own slice *)
        let ctx := if from_ctx then mkRecursorCtx (rc_question ctx) (rc_depth ctx) servers else ctx in
        match answer with
        | inl _ => handleQuery fuel rounds ctx nc
        | inr response =>
            zone ← server_zone servers;
            t ← ClassifyResponse response;
            match t with
            | ANSWER | NXDOMAIN | NXRRSET =>
                r ← handleFinalAnswer rd ctx zone response nc;
                Ret (r.1, ctx, inr r.2)
            | REFERRAL =>
                nc ← handleReferal rd zone response nc; handleQuery fuel rounds ctx nc
            | _ => Ret (nc, ctx, inl errInvalidResponse)
            end
        end
  end.

(** One round per depth. *)
Definition handleQuery_fuel : nat := 20.

Record Recursor : Type := mkRecursor {
  rr_nsas : NsasCache;
  rr_enabled : gmap string bool;
  rr_ednsSubnetEnable : gmap string bool;
  rr_rootForView : gmap string (list NameServer);
  rr_ctxPool : list (option nat);
}.

Definition set_nsas (nc : NsasCache) (r : Recursor) : Recursor :=
  mkRecursor nc (rr_enabled r) (rr_ednsSubnetEnable r) (rr_rootForView r) (rr_ctxPool r).

Definition getRootServers (view : string) (r : Recursor) : outcome (list NameServer) :=
  match rr_rootForView r !! view with
  | None => Panic ("unkown view " +:+ view)
  | Some ns => cloneNameServers ns
  end.

(** [Recursor.resolver]; the context goes back to the pool on every path. *)
Definition Recursor_resolver (rounds : Z → Round) (r : Recursor) (h : Heap) (client : Client)
  : outcome (Recursor * Heap * Client) :=
  match getCtx (rr_ctxPool r) with
  | None => Ret (r, h, client)
  | Some (c, pool) =>
      roots ← getRootServers (c_view client) r;
      q ← deref_question (c_request client);
      let ctx := mkRecursorCtx q 0 roots in
      referral ← (match c_response client with
                  | Some l =>
                      m ← deref l h; t ← ClassifyResponse m;
                      Ret (if decide (t = REFERRAL) then Some m else None)
                  | None => Ret None
                  end);
      nc ← (match referral with
            | Some m => handleReferal (rounds 0) Name_Root m (rr_nsas r)
            | None => Ret (rr_nsas r)
            end);
      res ← handleQuery handleQuery_fuel rounds ctx nc;
      let '(nc, _, result) := res in
      let r := mkRecursor nc (rr_enabled r) (rr_ednsSubnetEnable r) (rr_rootForView r) (putCtx c pool) in
      match result with
      | inr response =>
          let m := set_header (Header_set_id (h_id (m_header (c_request client))) (m_header response))
                     response in
          let '(l, h) := heap_alloc m h in
          Ret (r, h, set_response (Some l) client)
      | inl _ => Ret (r, h, client)
      end
  end.

Definition Recursor_Resolve {W} (rounds : Z → Round) (next : option (Handler (Recursor * Heap * W)))
  : Handler (Recursor * Heap * W) := λ s client,
  let '(r, h, w) := s in
  res ← (if from_option id false (rr_enabled r !! c_view client) then
           res ← Recursor_resolver rounds r h client;
           let '(r, h, client) := res in
           match c_response client with
           | Some l =>
               m ← deref l h;
               Ret (r, <[l := set_header (Header_SetFlag FLAG_RA true (m_header m)) m]> h, client)
           | None => Ret (r, h, client)
           end
         else Ret (r, h, client));
  let '(r, h, client) := res in
  match c_response client with
  | None => Resolver_PassToNext next (r, h, w) client
  | Some _ => Ret ((r, h, w), client)
  end.
End recursor.

(** ** Round-trip times *)

Section rtt_props.
Implicit Types (ae : AddressEntry) (rtt : Z).

Lemma updateRtt_exact ae rtt :
  0 ≤ ae_rtt ae < 2 ^ 59 → 0 ≤ rtt < 2 ^ 59 →
  ae_rtt (AddressEntry_updateRtt rtt ae) = (ae_rtt ae * 7 + rtt * 3) / 10.
Proof.
  intros Ha Hr. cbn. rewrite (i64_small (ae_rtt ae * 7)), (i64_small (rtt * 3)), i64_small
    by (unfold is_i64; lia).
  by rewrite Z.quot_div_nonneg by lia.
Qed.

(** Round-trip times.  Below 2^59 nanoseconds (eighteen years) the smoothed
    estimate of a server lies between the old estimate and the measured time, so
    nothing overflows; but marking a server unreachable, which measures the
    largest 64-bit time, overflows and makes the estimate negative, so that the
    server is preferred to every reachable one. *)
Theorem updateRtt_bounds ae rtt :
  1 ≤ ae_rtt ae < 2 ^ 59 → 0 ≤ rtt < 2 ^ 59 →
  Z.min (ae_rtt ae) rtt ≤ ae_rtt (AddressEntry_updateRtt rtt ae) ≤ Z.max (ae_rtt ae) rtt ∧
  ae_rtt (AddressEntry_setUnreachable ae) < 0.
Proof.
  intros Ha Hr. split.
  - rewrite updateRtt_exact by lia. split.
    + apply Z.div_le_lower_bound; lia.
    + apply Z.div_le_upper_bound; lia.
  - cbn. rewrite (i64_small (ae_rtt ae * 7)) by (unfold is_i64; lia).
    assert (i64 (MaxInt64 * 3) = 2 ^ 63 - 3) as -> by reflexivity.
    assert (i64 (ae_rtt ae * 7 + (2 ^ 63 - 3)) = ae_rtt ae * 7 - 3 - 2 ^ 63) as ->.
    { unfold i64. replace (ae_rtt ae * 7 + (2 ^ 63 - 3) + 2 ^ 63)
        with (ae_rtt ae * 7 - 3 + 1 * 2 ^ 64) by lia.
      rewrite Z.mod_add, Z.mod_small by lia. lia. }
    apply Z.le_lt_trans with (Z.quot (-10) 10); [|done]. apply Z.quot_le_mono; lia.
Qed.

Lemma updateRtt_bounds_witness :
  Z.min 100 50 ≤ ae_rtt (AddressEntry_updateRtt 50 (mkAddressEntry "192.0.2.1:53" 100)) ≤ Z.max 100 50 ∧
  ae_rtt (AddressEntry_setUnreachable (mkAddressEntry "192.0.2.1:53" 100)) < 0.
Proof. apply (updateRtt_bounds (mkAddressEntry "192.0.2.1:53" 100) 50); cbn; lia. Defined.

Lemma min_entry_spec best rest :
  min_entry best rest ∈ best :: rest ∧ Forall (λ a, ae_rtt (min_entry best rest) ≤ ae_rtt a) (best :: rest).
Proof.
  revert best. induction rest as [|a rest IH]; intros best; cbn [min_entry].
  { split; [left|repeat constructor; lia]. }
  destruct (IH (if ae_rtt a <? ae_rtt best then a else best)) as [Hin Hall].
  rewrite Forall_cons in Hall. destruct Hall as [Hb Hrest].
  destruct (Z.ltb_spec (ae_rtt a) (ae_rtt best)); (split; [set_solver|]);
    rewrite !Forall_cons; split_and!; try done; lia.
Qed.
End rtt_props.

(** ** The address store *)

Section nsas_props.
Context {N : G53Name} {L : G53NameLaws N} {M : G53Msg N} {T : DomainTree N} {LT : DomainTreeLaws T}.
Implicit Types (nc : NsasCache).

(** Every zone of the tree has its element in the list, for that zone; every
    server entry has an address. *)
Record nsas_inv nc : Prop := mkNsasInv {
  ni_wf : golist_wf (nc_visitedZone nc);
  ni_tree n id : dt_get n (nc_zones nc) = Some id →
    ∃ e, (id, e) ∈ gl_items (nc_visitedZone nc) ∧ ze_zone e ≈ n;
  ni_addrs : map_Forall (λ _ e, ne_addrEntrys e ≠ []) (nc_nameServers nc);
}.

Lemma nsas_inv_New max : nsas_inv (NewNsasCache max).
Proof.
  split; cbn; [apply golist_wf_New| |apply map_Forall_empty].
  intros n id. by rewrite dt_get_New.
Qed.

Lemma deleteNameServers_sub names ns :
  NameServerManager_deleteNameServers names ns ⊆ ns.
Proof.
  revert ns. induction names as [|n names IH]; intros ns; cbn; [done|].
  etrans; [apply IH|apply delete_subseteq].
Qed.

Lemma map_Forall_sub {A} (P : Z → A → Prop) (m m' : gmap Z A) :
  m' ⊆ m → map_Forall P m → map_Forall P m'.
Proof. intros Hs Hm i x Hx. apply Hm. by eapply lookup_weaken. Qed.

Lemma items_inj nc id e e' :
  golist_wf (nc_visitedZone nc) → (id, e) ∈ gl_items (nc_visitedZone nc) →
  (id, e') ∈ gl_items (nc_visitedZone nc) → e = e'.
Proof. intros Hwf H1%golist_wf_elem H2%golist_wf_elem; [congruence|done|done]. Qed.

Lemma removeZone_ok nc id e :
  nsas_inv nc → (id, e) ∈ gl_items (nc_visitedZone nc) →
  ∃ nc', NsasCache_removeZone (Some id) nc = Ret nc' ∧ nsas_inv nc' ∧
    S (list_Len (nc_visitedZone nc')) = list_Len (nc_visitedZone nc) ∧
    nc_visitedZone nc' = list_Remove id (nc_visitedZone nc) ∧
    nc_maxCacheSize nc' = nc_maxCacheSize nc ∧ nc_nameServers nc' ⊆ nc_nameServers nc.
Proof.
  intros [Hwf Htree Haddr] Hin. unfold NsasCache_removeZone. cbn [from_option_panic].
  rewrite bind_Ret, (golist_wf_elem _ _ _ Hwf Hin). cbn [from_option_panic]. rewrite bind_Ret.
  eexists. split; [done|].
  assert (S (list_Len (list_Remove id (nc_visitedZone nc))) = list_Len (nc_visitedZone nc)) as Hlen.
  { destruct (golist_split _ _ _ Hwf Hin) as (xs & ys & E & Hx & Hy). unfold list_Len.
    destruct (nc_visitedZone nc) as [n items]. cbn [gl_items] in E. subst items.
    rewrite (Remove_split xs ys id e n Hx Hy). cbn. rewrite !length_app. cbn. lia. }
  split; [split|split_and!]; cbn [nc_visitedZone nc_zones nc_nameServers nc_maxCacheSize]; try done.
  - eapply golist_wf_sub; [exact Hwf|]. cbn. apply sublist_filter.
  - intros n id'. rewrite dt_get_Delete. destruct (Name_Equals (ze_zone e) n) eqn:En; [done|].
    intros Hg. destruct (Htree _ _ Hg) as (e' & Hin' & Hz). exists e'. split; [|done].
    cbn. apply list_elem_of_filter. split; [|done]. cbn. intros ->.
    rewrite (items_inj _ _ _ _ Hwf Hin' Hin) in Hz. unfold name_eq in Hz. congruence.
  - eapply map_Forall_sub; [apply deleteNameServers_sub|done].
  - apply deleteNameServers_sub.
Qed.

Lemma dt_Search_spec {V} n (t : dtree V) :
  match dt_Search n t with
  | (Some v, r) => r ≠ NotFound ∧ ∃ m, dt_get m t = Some v ∧ Name_IsSubDomain n m = true
  | (None, r) => r = NotFound
  end.
Proof.
  unfold dt_Search. pose proof (dt_SearchParents_result n t) as Hr.
  pose proof (dt_SearchParents_sound n t) as Hs.
  destruct (dt_SearchParents n t) as [[|[m v] chain] r]; cbn in *; [done|].
  split; [rewrite Hr; by destruct (Name_Equals m n)|]. exists m. apply Hs. left.
Qed.

(** A server that may be asked: a known, unexpired entry's fastest address. *)
Definition usable (now : Z) (zone : Name) (ns : gmap Z NameServerEntry) (s : NameServer) : Prop :=
  ns_zone s = Some zone ∧
  ∃ e a, NameServerManager_getNameServer (ns_name s) ns = Some e ∧
    NameServerEntry_isExpired now e = false ∧ a ∈ ne_addrEntrys e ∧
    ns_addr s = ae_addr a ∧ ns_rtt s = ae_rtt a ∧
    Forall (λ b, ae_rtt a ≤ ae_rtt b) (ne_addrEntrys e).

Lemma getNameServer_self n ns e :
  NameServerManager_getNameServer n ns = Some e →
  NameServerManager_getNameServer (ne_name e) ns = Some e ∧ ne_name e ≈ n.
Proof.
  unfold NameServerManager_getNameServer. destruct (ns !! Name_Hash n) as [x|] eqn:E; [|done].
  destruct (Name_Equals (ne_name x) n) eqn:En; [|done]. intros [= ->].
  split; [|done]. rewrite (Hash_Equals _ _ En), E. by rewrite Equals_refl.
Qed.

Lemma select_servers_ok now zone names ns :
  map_Forall (λ _ e, ne_addrEntrys e ≠ []) ns →
  ∃ servers, select_servers now zone names ns = Ret servers ∧ Forall (usable now zone ns) servers.
Proof.
  intros Haddr. induction names as [|n names (servers & IH & Hall)]; cbn [select_servers].
  { exists []. split; [done|constructor]. }
  destruct (NameServerManager_getNameServer n ns) as [e|] eqn:Eg; [|by exists servers].
  destruct (NameServerEntry_isExpired now e) eqn:Ex; [by exists servers|].
  apply getNameServer_self in Eg as [Eg _].
  assert (ne_addrEntrys e ≠ []) as Hne.
  { unfold NameServerManager_getNameServer in Eg.
    destruct (ns !! Name_Hash (ne_name e)) as [x|] eqn:E; [|done].
    destruct (Name_Equals (ne_name x) (ne_name e)); [|done]. simplify_eq.
    exact (Haddr _ _ E). }
  unfold NameServerEntry_selectNameServer.
  destruct (ne_addrEntrys e) as [|a rest] eqn:Ea; [done|].
  rewrite bind_Ret, IH, bind_Ret. eexists. split; [done|]. constructor; [|done].
  destruct (min_entry_spec a rest) as [Hin Hmin].
  split; [done|]. exists e, (min_entry a rest). rewrite Ea. by split_and!.
Qed.

Lemma selectNameServers_ok fuel now zone nc :
  nsas_inv nc → (list_Len (nc_visitedZone nc) < fuel)%nat →
  ∃ nc' servers, NsasCache_selectNameServers fuel now zone nc = Ret (nc', servers) ∧
    nsas_inv nc' ∧ nc_maxCacheSize nc' = nc_maxCacheSize nc ∧
    match servers with
    | [] => (dt_Search zone (nc_zones nc')).2 = NotFound
    | _ => ∃ z, Name_IsSubDomain zone z = true ∧ Forall (usable now z (nc_nameServers nc')) servers
    end.
Proof.
  revert nc. induction fuel as [|fuel IH]; intros nc Hinv Hfuel; [lia|].
  cbn [NsasCache_selectNameServers]. pose proof (dt_Search_spec zone (nc_zones nc)) as Hs.
  destruct (dt_Search zone (nc_zones nc)) as [[id|] r] eqn:Es.
  2: { subst r. exists nc, []. by rewrite Es. }
  destruct Hs as (Hr & m & Hg & Hsub). destruct (ni_tree _ Hinv _ _ Hg) as (e & Hin & Hz).
  rewrite (golist_wf_elem _ _ _ (ni_wf _ Hinv) Hin). cbn [from_option_panic].
  destruct (removeZone_ok nc id e Hinv Hin) as (nc1 & Erm & Hinv1 & Hlen1 & _ & Hmax & _).
  assert (∃ nc' servers,
    (nc ← NsasCache_removeZone (Some id) nc; NsasCache_selectNameServers fuel now zone nc) =
      Ret (nc', servers) ∧ nsas_inv nc' ∧ nc_maxCacheSize nc' = nc_maxCacheSize nc ∧
    match servers with
    | [] => (dt_Search zone (nc_zones nc')).2 = NotFound
    | _ => ∃ z, Name_IsSubDomain zone z = true ∧ Forall (usable now z (nc_nameServers nc')) servers
    end) as Hretry.
  { rewrite Erm, bind_Ret, <- Hmax. apply IH; [done|lia]. }
  destruct (select_servers_ok now (ze_zone e) (ze_nameServers e) (nc_nameServers nc) (ni_addrs _ Hinv))
    as (servers & Esel & Hall).
  destruct r; [| |done]; rewrite bind_Ret; (destruct (ZoneEntry_isExpired now e); [done|]);
    unfold ZoneEntry_selectNameServer; rewrite Esel, bind_Ret; destruct servers as [|s servers];
    try done; eexists _, (s :: servers); (split; [done|]);
    (split; [|split; [done|exists (ze_zone e)]]).
  all: try (split; [by rewrite (IsSubDomain_Equals zone zone (ze_zone e) m (Equals_refl _) Hz)|done]).
  all: destruct Hinv as [Hwf Htree Haddr]; split; cbn; [by apply golist_wf_MoveToFront| |done].
  all: intros n id' Hg'; destruct (Htree _ _ Hg') as (e' & ? & ?); exists e'; (split; [|done]).
  all: by apply (MoveToFront_items _ id e).
Qed.

(** Choosing name servers.  From a consistent store, the search for servers of
    a name always ends (each retry drops a zone) without a panic and keeps the
    store consistent.  The servers it returns all belong to one zone that encloses
    the name, each is known and unexpired, and its address is the fastest one of
    that server; it returns none only when no zone enclosing the name is left. *)
Theorem SelectNameServers_spec now zone nc :
  nsas_inv nc →
  ∃ nc' servers, SelectNameServers now zone nc = Ret (nc', servers) ∧ nsas_inv nc' ∧
    match servers with
    | [] => ∀ n, Name_IsSubDomain zone n = true → dt_get n (nc_zones nc') = None
    | _ => ∃ z, Name_IsSubDomain zone z = true ∧ Forall (usable now z (nc_nameServers nc')) servers
    end.
Proof.
  intros Hinv. destruct (selectNameServers_ok (S (list_Len (nc_visitedZone nc))) now zone nc Hinv)
    as (nc' & servers & E & Hinv' & _ & Hs); [lia|].
  exists nc', servers. split; [done|]. split; [done|]. destruct servers; [|done].
  intros n Hn. destruct (dt_get n (nc_zones nc')) as [id|] eqn:Eg; [|done].
  destruct (dt_SearchParents_complete zone (nc_zones nc') n id Eg Hn) as (n' & Hin & _).
  unfold dt_Search in Hs. pose proof (dt_SearchParents_result zone (nc_zones nc')) as Hr.
  destruct (dt_SearchParents zone (nc_zones nc')) as [[|[m v] chain] r]; cbn in *; [set_solver|].
  subst r. by destruct (Name_Equals m zone).
Qed.

Lemma prev_in_elem {V} id before (xs : list (nat * V)) x :
  prev_in id before xs = Some x → before = Some x ∨ (x ∈ xs ∧ x.1 ≠ id).
Proof.
  revert before. induction xs as [|y xs IH]; intros before; cbn; [done|].
  case_bool_decide as Hy; [by left|]. intros [[= ->]|[? ?]]%IH; right; set_solver.
Qed.

Lemma remove_expired_ok count now elem nc :
  nsas_inv nc → (∀ x, elem = Some x → x ∈ gl_items (nc_visitedZone nc)) →
  ∃ nc', remove_expired count now elem nc = Ret nc' ∧ nsas_inv nc' ∧
    nc_maxCacheSize nc' = nc_maxCacheSize nc ∧
    (list_Len (nc_visitedZone nc') ≤ list_Len (nc_visitedZone nc) ≤
     list_Len (nc_visitedZone nc') + count)%nat.
Proof.
  revert elem nc. induction count as [|count IH]; intros elem nc Hinv Hin; cbn [remove_expired].
  { exists nc. split_and!; try done; lia. }
  destruct elem as [[id e]|]; [|exists nc; split_and!; try done; lia].
  specialize (Hin _ eq_refl).
  assert (∀ x, list_Prev id (nc_visitedZone nc) = Some x →
               x ∈ gl_items (nc_visitedZone nc) ∧ x.1 ≠ id) as Hprev
    by (intros x [?|?]%prev_in_elem; done).
  destruct (ZoneEntry_isExpired now e).
  - destruct (removeZone_ok nc id e Hinv Hin) as (nc1 & -> & Hinv1 & Hlen & Hl & Hmax & _).
    rewrite bind_Ret, <- Hmax.
    destruct (IH (list_Prev id (nc_visitedZone nc)) nc1 Hinv1) as (nc' & ? & ? & ? & ?).
    { intros x [? ?]%Hprev. rewrite Hl. cbn. by apply list_elem_of_filter. }
    exists nc'. split_and!; try done; lia.
  - destruct (IH (list_Prev id (nc_visitedZone nc)) nc Hinv) as (nc' & ? & ? & ? & ?).
    { by intros x [? _]%Hprev. }
    exists nc'. split_and!; try done; lia.
Qed.

Lemma remove_oldest_ok count nc :
  nsas_inv nc → (count ≤ list_Len (nc_visitedZone nc))%nat →
  ∃ nc', remove_oldest count nc = Ret nc' ∧ nsas_inv nc' ∧
    (list_Len (nc_visitedZone nc') + count = list_Len (nc_visitedZone nc))%nat.
Proof.
  revert nc. induction count as [|count IH]; intros nc Hinv Hlen; cbn [remove_oldest].
  { exists nc. split_and!; try done; lia. }
  destruct (list_Back (nc_visitedZone nc)) as [[id e]|] eqn:Eb.
  2: { unfold list_Back in Eb. apply last_None in Eb. unfold list_Len in Hlen. rewrite Eb in Hlen.
       cbn in Hlen. lia. }
  destruct (removeZone_ok nc id e Hinv) as (nc1 & Er & Hinv1 & Hl1 & _).
  { unfold list_Back in Eb. apply last_Some in Eb as [l' ->]. set_solver. }
  change (fst <$> Some (id, e)) with (Some id). rewrite Er, bind_Ret.
  destruct (IH nc1 Hinv1) as (nc' & ? & ? & ?); [lia|]. exists nc'. split_and!; try done; lia.
Qed.

(** The memory limit.  For a limit of at least the scan's batch of 100 (the
    recursor always uses 4096), enforcing it never panics, keeps the store
    consistent, leaves at most the limit's number of zones, and does nothing below
    the limit.  Expired zones are not counted off: up to 100 zones more than
    needed are dropped. *)
Theorem EnforceMemoryLimit_bound now nc :
  nsas_inv nc → 100 ≤ nc_maxCacheSize nc →
  ∃ nc', EnforceMemoryLimit now nc = Ret nc' ∧ nsas_inv nc' ∧
    zoneCount nc' ≤ nc_maxCacheSize nc ∧
    (zoneCount nc ≤ nc_maxCacheSize nc → nc' = nc) ∧
    (nc_maxCacheSize nc < zoneCount nc → nc_maxCacheSize nc - 100 ≤ zoneCount nc').
Proof.
  intros Hinv Hmax. unfold EnforceMemoryLimit.
  destruct (Z.leb_spec (zoneCount nc) (nc_maxCacheSize nc)).
  { exists nc. split_and!; try done; lia. }
  destruct (remove_expired_ok ExpiredZoneCheckBatch now (list_Back (nc_visitedZone nc)) nc Hinv)
    as (nc1 & -> & Hinv1 & Hm1 & Hlen).
  { intros x Eb. unfold list_Back in Eb. apply last_Some in Eb as [l' ->]. set_solver. }
  rewrite bind_Ret, Hm1. unfold zoneCount, ExpiredZoneCheckBatch in *.
  destruct (remove_oldest_ok (Z.to_nat (Z.of_nat (list_Len (nc_visitedZone nc)) - nc_maxCacheSize nc))
              nc1 Hinv1) as (nc' & ? & ? & ?); [lia|].
  exists nc'. split_and!; try done; lia.
Qed.
End nsas_props.

(** ** The search *)

Section search_props.
Context {N : G53Name} {L : G53NameLaws N} {M : G53Msg N} {T : DomainTree N} {LT : DomainTreeLaws T}.
Implicit Types (nc : NsasCache) (msg : Message).

(** What a decoded message guarantees: a question, header counts that do not
    announce missing records, and name server records that hold names. *)
Definition ns_ok (r : RRset) : Prop :=
  rr_type r = RR_NS → Forall (λ rd, ∃ n, rd = RdNS n) (rr_rdatas r).

Record msg_ok msg : Prop := mkMsgOk {
  mo_question : is_Some (m_question msg);
  mo_answer : 0 < h_ancount (m_header msg) → m_answer msg ≠ [];
  mo_auth : 0 < h_nscount (m_header msg) → m_auth msg ≠ [];
  mo_ns_answer : Forall ns_ok (m_answer msg);
  mo_ns_auth : Forall ns_ok (m_auth msg);
}.

Lemma ClassifyResponse_ok msg : msg_ok msg → ∃ t, ClassifyResponse msg = Ret t.
Proof.
  intros [[q Hq] Ha Hn _ _]. unfold ClassifyResponse. rewrite (deref_question_Some _ _ Hq).
  destruct (_ =? R_NXDOMAIN); [by eexists|]. destruct (negb _); [by eexists|].
  destruct (Z.ltb_spec 0 (h_ancount (m_header msg))).
  { destruct (m_answer msg) as [|r rs]; [by destruct Ha|]. by eexists. }
  destruct (Z.ltb_spec 0 (h_nscount (m_header msg))); [|by eexists].
  destruct (m_auth msg) as [|r rs]; [by destruct Hn|]. unfold index. cbn [lookup list_lookup
    from_option_panic]. rewrite bind_Ret.
  destruct (_ =? RR_NS); [by eexists|]. destruct (_ =? RR_SOA); by eexists.
Qed.

Lemma ns_names_ok rds : Forall (λ rd, ∃ n, rd = RdNS n) rds → ∃ ns, ns_names rds = Ret ns.
Proof.
  induction 1 as [|rd rds [n ->] _ [ns IH]]; cbn [ns_names]; [by eexists|].
  cbn [as_NS]. rewrite bind_Ret, IH. by eexists.
Qed.

Lemma getAuthAndGlues_ok msg :
  msg_ok msg → ∃ r, getAuthAndGlues msg = Ret r ∧
    match r with
    | inl _ => True
    | inr (nsRRset, glues) => rr_type nsRRset = RR_NS ∧ ns_ok nsRRset ∧
        Forall (λ g, rr_rdatas g ≠ []) glues
    end.
Proof.
  intros [[q Hq] _ _ Ha Hn]. unfold getAuthAndGlues. rewrite (deref_question_Some _ _ Hq), bind_Ret.
  set (use := (q_type q =? RR_NS) && _). set (auth := if use then m_answer msg else _).
  destruct (negb use && negb (length auth =? 1)%nat) eqn:E; [by eexists|].
  assert (∃ r, auth = [r] ∧ ns_ok r) as (r & -> & Hr).
  { assert (length auth = 1%nat ∧ Forall ns_ok auth) as [Hl Hf].
    { unfold auth, use in *. destruct (_ =? RR_NS), (length (m_answer msg) =? 1)%nat eqn:E1;
        cbn in *; zbool; try (by rewrite E1); try (apply Nat.eqb_eq in E1); try done;
        (split; [|done]); by apply Nat.eqb_eq. }
    destruct auth as [|r [|? ?]]; try done. exists r. split; [done|]. by apply Forall_cons in Hf as [? _]. }
  cbn [index lookup list_lookup from_option_panic]. unfold index. cbn. rewrite ?bind_Ret.
  destruct (Z.eqb_spec (rr_type r) RR_NS) as [Et|]; cbn; [|by eexists].
  destruct (ns_names_ok _ (Hr Et)) as [ns ->]. eexists. split; [done|]. split_and!; try done.
  apply Forall_forall. unfold valid_glues. intros g [Hg _]%list_elem_of_filter E0.
  by rewrite E0 in Hg.
Qed.

Lemma set_nameServers_inv nc ns :
  nsas_inv nc → map_Forall (λ _ e, ne_addrEntrys e ≠ []) ns → nsas_inv (set_nameServers ns nc).
Proof. intros [Hwf Ht _] Hn. by split. Qed.

Lemma update_addr_nil addr rtt l : (update_addr addr rtt l).1 = [] ↔ l = [].
Proof.
  destruct l as [|a l]; cbn; [done|]. case_bool_decide; [done|]. by destruct (update_addr addr rtt l).
Qed.

Lemma UpdateRtt_inv server rtt nc : nsas_inv nc → nsas_inv (NsasCache_UpdateRtt server rtt nc).
Proof.
  intros Hinv. pose proof (ni_addrs _ Hinv) as Ha. apply set_nameServers_inv; [done|].
  unfold NameServerManager_updateRtt.
  destruct (nc_nameServers nc !! Name_Hash (ns_name server)) as [e|] eqn:E; [|done].
  destruct (Name_Equals _ _); [|done]. cbn. apply map_Forall_insert_2; [|done].
  cbn. rewrite update_addr_nil. exact (Ha _ _ E).
Qed.

Lemma addNameServer_ok now rnd g t nc :
  nsas_inv nc → rr_rdatas g ≠ [] →
  ∃ nc', NsasCache_addNameServer now rnd g t nc = Ret nc' ∧ nsas_inv nc'.
Proof.
  intros Hinv Hg. pose proof (ni_addrs _ Hinv) as Ha.
  unfold NsasCache_addNameServer, NameServerManager_addNameServer, newNameServerEntry.
  destruct (rr_rdatas g) as [|rd rds]; [done|]. cbn [fmap list_fmap]. rewrite !bind_Ret.
  assert (∀ e, ne_addrEntrys e ≠ [] → nsas_inv
    (set_nameServers (<[Name_Hash (rr_name g) := e]> (nc_nameServers nc)) nc)) as Hins.
  { intros e He. apply set_nameServers_inv; [done|]. by apply map_Forall_insert_2. }
  destruct (nc_nameServers nc !! Name_Hash (rr_name g)) as [old|].
  1: destruct (_ && _). all: rewrite bind_Ret; eexists; (split; [done|]); try by apply Hins.
  destruct nc; exact Hinv.
Qed.

Lemma add_glues_ok now rnd zone glues nc :
  nsas_inv nc → Forall (λ g, rr_rdatas g ≠ []) glues →
  ∃ nc', add_glues now rnd zone glues nc = Ret nc' ∧ nsas_inv nc'.
Proof.
  intros Hinv Hall. revert nc Hinv. induction Hall as [|g glues Hg _ IH]; intros nc Hinv;
    cbn [add_glues]; [by exists nc|].
  destruct (addNameServer_ok now rnd g
    (if negb (Name_IsSubDomain (rr_name g) zone) then OutOfZone else FromAuth) nc Hinv Hg)
    as (nc1 & -> & Hinv1). rewrite bind_Ret. by apply IH.
Qed.

Lemma insert_zone_inv zone id t n i :
  dt_get n (insert_zone zone id t) = Some i → dt_get n t = Some i ∨ (i = id ∧ zone ≈ n).
Proof.
  unfold insert_zone. destruct (dt_get zone t) as [x|] eqn:E.
  - destruct (dt_Insert_dup zone id t) as [err ->]; [by eexists|]. by left.
  - destruct (dt_Insert_new zone id t E) as (t' & -> & Hget). rewrite Hget.
    destruct (Name_Equals zone n) eqn:En; [|by left]. intros [= <-]. by right.
Qed.

Lemma addZone_ok now nsRRset t nc :
  nsas_inv nc → rr_type nsRRset = RR_NS → ns_ok nsRRset →
  ∃ nc' r, NsasCache_addZone now nsRRset t nc = Ret (nc', r) ∧ nsas_inv nc'.
Proof.
  intros Hinv Ht Hns. unfold NsasCache_addZone. destruct (ns_names_ok _ (Hns Ht)) as [names ->].
  rewrite bind_Ret. pose proof (dt_Search_spec (rr_name nsRRset) (nc_zones nc)) as Hs.
  destruct Hinv as [Hwf Htree Haddr].
  assert (∃ nc' r, (let '(elem, l) := list_PushFront
      (newZoneEntry now (rr_name nsRRset) names (rr_ttl nsRRset * Second) t) (nc_visitedZone nc) in
      Ret (mkNsasCache (insert_zone (rr_name nsRRset) elem (nc_zones nc)) l (nc_nameServers nc)
             (nc_maxCacheSize nc), split_servers now names nc)) = Ret (nc', r) ∧ nsas_inv nc') as Hpush.
  { cbn. eexists _, _. split; [done|]. split; cbn; [by apply (golist_wf_PushFront (nc_visitedZone nc))| |done].
    intros n i [Hg|[-> Hz]]%insert_zone_inv.
    - destruct (Htree _ _ Hg) as (e & ? & ?). exists e. set_solver.
    - eexists. split; [left|done]. }
  destruct (dt_Search (rr_name nsRRset) (nc_zones nc)) as [[id|] []]; try done.
  destruct Hs as (_ & m & Hg & _). destruct (Htree _ _ Hg) as (e & Hin & Hz).
  rewrite (golist_wf_elem _ _ _ Hwf Hin). cbn [from_option_panic]. rewrite !bind_Ret.
  destruct (_ && _); [|done]. eexists _, _. split; [done|].
  split; cbn; [by apply golist_wf_MoveToFront| |done].
  intros n i Hg'. destruct (Htree _ _ Hg') as (e' & ? & ?). exists e'. split; [|done].
  by apply (MoveToFront_items _ id e).
Qed.

Lemma AddZoneNameServer_ok now rnd zone msg nc :
  nsas_inv nc → msg_ok msg →
  ∃ nc' r, NsasCache_AddZoneNameServer now rnd zone msg nc = Ret (nc', r) ∧ nsas_inv nc'.
Proof.
  intros Hinv Hmsg. unfold NsasCache_AddZoneNameServer.
  destruct (getAuthAndGlues_ok msg Hmsg) as (r & -> & Hr). rewrite bind_Ret.
  destruct r as [err|[nsRRset glues]]; [by eexists _, _|]. destruct Hr as (Ht & Hns & Hg).
  destruct (add_glues_ok now rnd zone glues nc Hinv Hg) as (nc1 & -> & Hinv1). rewrite bind_Ret.
  by apply addZone_ok.
Qed.

Definition answer_ok (r : string + Message) : Prop := match r with inr m => msg_ok m | inl _ => True end.
Definition exchange_ok (ex : Exchange) : Prop := answer_ok (ex_first ex).1 ∧ answer_ok (ex_retry ex).1.

(** The environment keeps the store consistent and the network delivers decoded
    messages. *)
Record round_ok (rd : Round) : Prop := mkRoundOk {
  ro_before nc : nsas_inv nc → nsas_inv (rd_before rd nc);
  ro_missing nc : nsas_inv nc → nsas_inv (rd_missing rd nc);
  ro_answers : Forall (λ c, exchange_ok c.2) (rd_completions rd);
}.

Lemma doSingleQuery_ok ex s nc :
  nsas_inv nc → exchange_ok ex →
  nsas_inv (doSingleQuery ex s nc).1 ∧ answer_ok (doSingleQuery ex s nc).2.
Proof.
  intros Hinv [H1 H2]. unfold doSingleQuery. destruct (ex_first ex) as [[err|m] rtt].
  - split; [by apply UpdateRtt_inv|done].
  - destruct (_ =? R_FORMERR).
    + destruct (ex_retry ex) as [r rtt']. split; [by apply UpdateRtt_inv|done].
    + destruct (negb _); (split; [by apply UpdateRtt_inv|done]).
Qed.

Lemma first_response_ok cs servers nc :
  nsas_inv nc → Forall (λ c, exchange_ok c.2) cs →
  nsas_inv (first_response cs servers nc).1 ∧ answer_ok (first_response cs servers nc).2.
Proof.
  intros Hinv Hcs. revert nc Hinv. induction Hcs as [|[i ex] cs Hex _ IH]; intros nc Hinv;
    cbn [first_response]; [done|].
  destruct (servers !! i) as [s|]; [|by apply IH].
  destruct (doSingleQuery_ok ex s nc Hinv Hex) as [Hi Ha].
  destruct (doSingleQuery ex s nc) as [nc1 [err|m]]; cbn in *; [by apply IH|done].
Qed.

(** A query leaves the servers themselves, up to their order. *)
Lemma doQuery_ok cs servers nc :
  nsas_inv nc → Forall (λ c, exchange_ok c.2) cs →
  let '(servers', (nc', r)) := doQuery cs servers nc in
  servers' ≡ₚ servers ∧ nsas_inv nc' ∧ answer_ok r.
Proof.
  intros Hinv Hcs. unfold doQuery.
  assert (∀ ss ss', ss ≡ₚ servers → let '(servers', (nc', r)) := (ss, first_response cs ss' nc) in
    servers' ≡ₚ servers ∧ nsas_inv nc' ∧ answer_ok r) as Hmany.
  { intros ss ss' Hp. pose proof (first_response_ok cs ss' nc Hinv Hcs) as [? ?].
    by destruct (first_response cs ss' nc). }
  destruct servers as [|s [|s' servers]].
  - by apply Hmany.
  - assert (exchange_ok (from_option snd timeout_exchange (head cs))) as Hex.
    { destruct Hcs as [|[i ex] cs Hex _]; [by split|done]. }
    pose proof (doSingleQuery_ok _ s nc Hinv Hex) as [? ?].
    by destruct (doSingleQuery _ s nc).
  - destruct (_ <? _)%nat; apply Hmany; [|done]. apply merge_sort_Permutation.
Qed.

Definition servers_ok (servers : list NameServer) : Prop :=
  servers ≠ [] ∧ Forall (λ s, is_Some (ns_zone s)) servers.

Lemma servers_ok_perm ss ss' : ss' ≡ₚ ss → servers_ok ss → servers_ok ss'.
Proof.
  intros Hp [Hne Hall]. split; [|by rewrite Hp]. intros ->. by apply Permutation_nil_l in Hp.
Qed.

Lemma server_zone_ok servers : servers_ok servers → ∃ z, server_zone servers = Ret z.
Proof.
  intros [Hne Hall]. destruct servers as [|s ss]; [done|]. apply Forall_cons in Hall as [[z Hz] _].
  exists z. unfold server_zone, index. cbn. by rewrite Hz.
Qed.

(** What the search returns for a question. *)
Definition search_result_ok (q : Question) (r : string + Message) : Prop :=
  match r with
  | inl err => err = errTooDepQuery ∨ err = errInvalidResponse
  | inr m => ∃ m0 t, m = set_question (Some q) m0 ∧ ClassifyResponse m0 = Ret t ∧
                     (t = ANSWER ∨ t = NXDOMAIN ∨ t = NXRRSET)
  end.

Lemma handleReferal_ok rd zone msg nc :
  round_ok rd → nsas_inv nc → msg_ok msg →
  ∃ nc', handleReferal rd zone msg nc = Ret nc' ∧ nsas_inv nc'.
Proof.
  intros Hrd Hinv Hm. unfold handleReferal.
  destruct (AddZoneNameServer_ok (rd_now rd) (rd_rnd rd) zone msg nc Hinv Hm)
    as (nc1 & [missing known] & -> & Hinv1). rewrite bind_Ret.
  eexists. split; [done|]. destruct (_ <? _)%nat; [by apply ro_missing|done].
Qed.

Lemma handleQuery_ok fuel rounds ctx nc :
  (∀ d, round_ok (rounds d)) → servers_ok (rc_nameServers ctx) → nsas_inv nc →
  0 ≤ rc_depth ctx < 20 → 20 ≤ Z.of_nat fuel + rc_depth ctx →
  ∃ nc' ctx' r, handleQuery fuel rounds ctx nc = Ret (nc', ctx', r) ∧ nsas_inv nc' ∧
    rc_depth ctx' ≤ 20 ∧ search_result_ok (rc_question ctx) r.
Proof.
  intros Hrounds. revert ctx nc. induction fuel as [|fuel IH]; intros ctx nc Hss Hinv Hd Hf; [lia|].
  cbn [handleQuery rc_depth rc_question rc_nameServers]. set (rd := rounds (rc_depth ctx + 1)).
  pose proof (Hrounds (rc_depth ctx + 1)) as Hrd. fold rd in Hrd.
  destruct ((maxQueryDep <=? _) || _) eqn:Edep.
  { eexists _, _, _. split; [done|]. split_and!; [done|cbn; lia|by left]. }
  apply orb_false_iff in Edep as [Edep _]. unfold maxQueryDep in Edep. zbool.
  destruct (selectNameServers_ok (S (list_Len (nc_visitedZone (rd_before rd nc)))) (rd_now rd)
    (q_name (rc_question ctx)) (rd_before rd nc) (ro_before _ Hrd _ Hinv)) as (nc1 & known & E & Hinv1 & _ & Hk);
    [lia|]. unfold SelectNameServers. rewrite E, bind_Ret.
  set (from_ctx := match known with [] => true | _ => false end).
  set (servers := if from_ctx then _ else _).
  assert (servers_ok servers) as Hservers.
  { unfold servers, from_ctx. destruct known as [|s known]; [done|]. destruct Hk as (z & _ & Hall).
    split; [done|]. eapply Forall_impl; [exact Hall|]. intros x [Hx _]. rewrite Hx. by eexists. }
  pose proof (doQuery_ok (rd_completions rd) servers nc1 Hinv1 (ro_answers _ Hrd)) as Hq.
  destruct (doQuery (rd_completions rd) servers nc1) as [servers' [nc2 answer]].
  destruct Hq as (Hp & Hinv2 & Hans). apply (servers_ok_perm _ _ Hp) in Hservers as Hs'.
  set (ctx' := if from_ctx then _ else _).
  assert (servers_ok (rc_nameServers ctx') ∧ rc_question ctx' = rc_question ctx ∧
          rc_depth ctx' = rc_depth ctx + 1) as (Hc1 & Hc2 & Hc3)
    by (unfold ctx'; destruct from_ctx; by split_and!).
  destruct answer as [err|response].
  { rewrite <- Hc2. apply IH; [done|done|lia|lia]. }
  destruct (server_zone_ok servers' Hs') as [zone ->]. rewrite bind_Ret.
  destruct (ClassifyResponse_ok response Hans) as [t Ht]. rewrite Ht, bind_Ret.
  destruct (AddZoneNameServer_ok (rd_now rd) (rd_rnd rd) zone response nc2 Hinv2 Hans)
    as (nc3 & [ms ks] & Eadd & Hinv3).
  assert ((r ← handleFinalAnswer rd ctx' zone response nc2; Ret (r.1, ctx', inr r.2)) =
    Ret (nc3, ctx', inr (set_question (Some (rc_question ctx)) response) : string + Message)) as Hfinal.
  { unfold handleFinalAnswer. by rewrite Eadd, !bind_Ret, Hc2. }
  assert (∀ t', ClassifyResponse response = Ret t' → t' = ANSWER ∨ t' = NXDOMAIN ∨ t' = NXRRSET →
    search_result_ok (rc_question ctx) (inr (set_question (Some (rc_question ctx)) response))) as Hok
    by (intros t' ? ?; by exists response, t').
  destruct t; try (rewrite Hfinal; eexists _, _, _; split_and!;
    [done|done|lia|eapply Hok; [done|by auto]]).
  - eexists _, _, _. split; [done|]. split_and!; [done|lia|by right].
  - destruct (handleReferal_ok rd zone response nc2 Hrd Hinv2 Hans) as (nc4 & -> & Hinv4).
    rewrite bind_Ret, <- Hc2. apply IH; [done|done|lia|lia].
  - eexists _, _, _. split; [done|]. split_and!; [done|lia|by right].
Qed.

(** C13: a recursive search ends.  Whatever the name servers answer and whatever
    other queries do to the store meanwhile, the search makes at most nineteen
    rounds of queries, never panics and leaves the store consistent.  It ends with
    one of two errors or with a final answer: a response classified as answer,
    no such name or no such record, returned under the client's own question. *)
Theorem handleQuery_total rounds q roots nc :
  (∀ d, round_ok (rounds d)) → servers_ok roots → nsas_inv nc →
  ∃ nc' ctx' r,
    handleQuery handleQuery_fuel rounds (mkRecursorCtx q 0 roots) nc = Ret (nc', ctx', r) ∧
    nsas_inv nc' ∧ rc_depth ctx' ≤ 20 ∧ search_result_ok q r.
Proof.
  intros Hr Hs Hinv. apply (handleQuery_ok handleQuery_fuel rounds (mkRecursorCtx q 0 roots) nc);
    [done|done|done|cbn; lia|unfold handleQuery_fuel; cbn; lia].
Qed.
End search_props.

(** ** Witnesses *)

Section recursor_examples.
Definition ns1 : Name := ["ns1"; "example"; "com"].

(** A referral for example.com with the address of its server. *)
Definition demo_referral : Message :=
  mkMessage (mkHeader 7 OP_QUERY R_NOERROR false false false false 0 1 1)
    (Some (mkQuestion www RR_A CLASS_IN)) []
    [mkRRset example_com RR_NS CLASS_IN 3600 [RdNS ns1]]
    [mkRRset ns1 RR_A CLASS_IN 3600 [RdA [192; 0; 2; 53]; RdA [192; 0; 2; 54]]] None.

Definition demo_final : Message :=
  mkMessage (mkHeader 7 OP_QUERY R_NOERROR true false false false 2 0 0)
    (Some (mkQuestion WWW RR_A CLASS_IN)) [a_rrset www 60 1] [] [] None.

Lemma demo_referral_ok : msg_ok demo_referral.
Proof.
  split; cbn; try done. constructor; [|constructor]. intros _. cbn.
  constructor; [|constructor]. by exists ns1.
Qed.
Lemma demo_final_ok : msg_ok demo_final.
Proof. split; cbn; try done. by constructor. Qed.

Definition demo_nsas : NsasCache :=
  match NsasCache_AddZoneNameServer 0 (λ i, Z.of_nat i + 1) Name_Root demo_referral (NewNsasCache 0) with
  | Ret (nc, _) => nc
  | _ => NewNsasCache 0
  end.

Lemma demo_nsas_inv : nsas_inv demo_nsas.
Proof.
  unfold demo_nsas. destruct (AddZoneNameServer_ok 0 (λ i, Z.of_nat i + 1) Name_Root demo_referral
    (NewNsasCache 0) (nsas_inv_New 0) demo_referral_ok) as (nc & r & E & H). by rewrite E.
Qed.

Lemma SelectNameServers_spec_witness :
  ∃ nc' servers, SelectNameServers 5 www demo_nsas = Ret (nc', servers) ∧ nsas_inv nc' ∧
    match servers with
    | [] => ∀ n, Name_IsSubDomain www n = true → dt_get n (nc_zones nc') = None
    | _ => ∃ z, Name_IsSubDomain www z = true ∧ Forall (usable 5 z (nc_nameServers nc')) servers
    end.
Proof. exact (SelectNameServers_spec 5 www demo_nsas demo_nsas_inv). Defined.

(** The store knows the server of example.com, at its faster address. *)
Example demo_select :
  match SelectNameServers 5 www demo_nsas with
  | Ret (_, servers) => (λ s, (ns_zone s, ns_addr s)) <$> servers
  | _ => []
  end = [(Some example_com, "192.0.2.53:53")].
Proof. by_eval. Qed.

Lemma EnforceMemoryLimit_bound_witness :
  ∃ nc', EnforceMemoryLimit 5 demo_nsas = Ret nc' ∧ nsas_inv nc' ∧ zoneCount nc' ≤ 4096 ∧
    (zoneCount demo_nsas ≤ 4096 → nc' = demo_nsas) ∧ (4096 < zoneCount demo_nsas → 4096 - 100 ≤ zoneCount nc').
Proof. apply (EnforceMemoryLimit_bound 5 demo_nsas demo_nsas_inv). by vm_compute. Defined.

(** First a root server refers to example.com, then its server answers. *)
Definition demo_roots : list NameServer := [mkNameServer (Some Name_Root) ["a"] "198.41.0.4:53" 0].
Definition demo_rounds (d : Z) : Round :=
  let m := if d =? 1 then demo_referral else demo_final in
  mkRound 0 0 (λ i, Z.of_nat i + 1) id [(0%nat, mkExchange (inr m, 10) (inr m, 10))] id.

Lemma demo_rounds_ok d : round_ok (demo_rounds d).
Proof.
  split; [done|done|]. cbn. constructor; [|done]. destruct (d =? 1); split; cbn;
    apply demo_referral_ok || apply demo_final_ok.
Qed.

Lemma handleQuery_total_witness :
  ∃ nc' ctx' r,
    handleQuery handleQuery_fuel demo_rounds
      (mkRecursorCtx (mkQuestion www RR_A CLASS_IN) 0 demo_roots) (NewNsasCache 0) = Ret (nc', ctx', r) ∧
    nsas_inv nc' ∧ rc_depth ctx' ≤ 20 ∧ search_result_ok (mkQuestion www RR_A CLASS_IN) r.
Proof.
  apply (handleQuery_total demo_rounds (mkQuestion www RR_A CLASS_IN) demo_roots (NewNsasCache 0)
           demo_rounds_ok); [|apply nsas_inv_New].
  split; [done|]. repeat constructor. by eexists.
Defined.

Example demo_search :
  match handleQuery handleQuery_fuel demo_rounds
    (mkRecursorCtx (mkQuestion www RR_A CLASS_IN) 0 demo_roots) (NewNsasCache 0) with
  | Ret (_, ctx, inr m) => (rc_depth ctx, m_question m)
  | _ => (0, None)
  end = (2, Some (mkQuestion www RR_A CLASS_IN)).
Proof. by_eval. Qed.
End recursor_examples.
