(* ===== verification/Dns64.v ===== *)
(** * DNS64 (src/dns64)

    Addresses for IPv6-only clients: when a name has no IPv6 address, its IPv4
    addresses are asked for and embedded in configured IPv6 prefixes (RFC 6052). *)

From S2P Require Import Prelude GoList GoStd G53 Instances Core HttpCmd Cache CacheHandler.
From Stdlib Require Import Ascii.

Local Open Scope Z_scope.

(** ** net.ParseIP *)

(** [parseIPv4]: four decimal fields, in the 16-byte form. *)
Definition byte_field (s : string) : option Z :=
  n ← nat_of_digits s; if n <=? 255 then Some n else None.

Definition parseIPv4 (s : string) : option IP :=
  bs ← mapM byte_field (strings_Split s ".");
  if (length bs =? 4)%nat then Some (v4InV6Prefix ++ bs) else None.

Definition hex_val (c : ascii) : option Z :=
  let n := Z.of_nat (nat_of_ascii c) in
  if (48 <=? n) && (n <=? 57) then Some (n - 48)
  else if (97 <=? n) && (n <=? 102) then Some (n - 87)
  else if (65 <=? n) && (n <=? 70) then Some (n - 55)
  else None.

(** [xtoi]: the value of the leading hexadecimal digits, how many there are, and
    the rest. *)
Fixpoint xtoi (acc : Z) (count : nat) (s : string) : Z * nat * string :=
  match s with
  | String c s' =>
      match hex_val c with
      | Some d => xtoi (acc * 16 + d) (S count) s'
      | None => (acc, count, s)
      end
  | EmptyString => (acc, count, s)
  end.

(** The groups of [parseIPv6]: the bytes so far and where the ellipsis is. *)
Fixpoint parse_groups (fuel : nat) (ip : list Z) (ellipsis : option nat) (s : string)
  : option (list Z * option nat * string) :=
  match fuel with
  | O => Some (ip, ellipsis, s)
  | S fuel =>
      let '(n, count, rest) := xtoi 0 0 s in
      if (count =? 0)%nat || (65535 <? n) then None
      else match rest with
      | String "." _ =>
          if (negb (length ip =? 12)%nat && bool_decide (ellipsis = None)) || (12 <? length ip)%nat
          then None
          else ip4 ← parseIPv4 s; Some (ip ++ drop 12 ip4, ellipsis, "")
      | EmptyString => Some (ip ++ [n / 256; n mod 256], ellipsis, "")
      | String ":" EmptyString => None
      | String ":" (String ":" s') =>
          let ip := ip ++ [n / 256; n mod 256] in
          match ellipsis, s' with
          | Some _, _ => None
          | None, EmptyString => Some (ip, Some (length ip), "")
          | None, _ => parse_groups fuel ip (Some (length ip)) s'
          end
      | String ":" s' => parse_groups fuel (ip ++ [n / 256; n mod 256]) ellipsis s'
      | _ => None
      end
  end.

Definition parseIPv6 (s : string) : option IP :=
  let '(ellipsis, s) :=
    if strings_HasPrefix s "::" then (Some 0%nat, str_drop 2 s) else (None, s) in
  r ← (if bool_decide (ellipsis = Some 0%nat ∧ s = "") then Some ([], ellipsis, "")
       else parse_groups 8 [] ellipsis s);
  let '(ip, ellipsis, rest) := r in
  if negb (bool_decide (rest = "")) then None
  else match ellipsis with
  | None => if (length ip =? 16)%nat then Some ip else None
  | Some e =>
      if (length ip <? 16)%nat
      then Some (take e ip ++ replicate (16 - length ip) 0 ++ drop e ip) else None
  end.

(** The first dot or colon decides. *)
Fixpoint first_mark (s : string) : option ascii :=
  match s with
  | EmptyString => None
  | String c s => if Ascii.eqb c "." || Ascii.eqb c ":" then Some c else first_mark s
  end.

Definition net_ParseIP (s : string) : option IP :=
  match first_mark s with
  | Some c => if Ascii.eqb c "." then parseIPv4 s else parseIPv6 s
  | None => None
  end.

(** ** dns64/protocol.go *)

Definition ErrBadDns64Prefix : CmdError :=
  NewError DNS64ErrCodeStart "dns64 prefix should be a ipv6 addr".
Definition ErrInvalidDns64Prefix : CmdError :=
  NewError (DNS64ErrCodeStart + 1) "invalid dns64 prefix netmask".
Definition ErrBadDns64Suffix : CmdError :=
  NewError (DNS64ErrCodeStart + 5) "dns64 suffix should be a ipv6 addr".
Definition ErrInvalidDns64Suffix : CmdError :=
  NewError (DNS64ErrCodeStart + 6) "invalid dns64 suffix".

Definition validPrefixes : list Z := [32; 40; 48; 56; 64; 96].
Definition maxPrefixLen : Z := 96.

Record Dns64Converter : Type := mkDns64Converter {
  dc_prefix : IP;
  (** nil for a prefix of 96 bits *)
  dc_suffix : IP;
  dc_prefixLen : Z;
}.

Definition converterFromString (s : string) : CmdError + Dns64Converter :=
  let preAndSuffix := strings_Split s " " in
  match strings_Split (from_option id "" (head preAndSuffix)) "/" with
  | [pre; len] =>
      match net_ParseIP pre with
      | None => inl ErrBadDns64Prefix
      | Some prefix =>
          match strconv_Atoi len with
          | None => inl ErrInvalidDns64Prefix
          | Some prefixLen =>
              if negb (existsb (Z.eqb prefixLen) validPrefixes) then inl ErrInvalidDns64Prefix
              else if prefixLen =? maxPrefixLen then inr (mkDns64Converter prefix [] prefixLen)
              else match preAndSuffix with
                   | [_; suf] =>
                       match net_ParseIP suf with
                       | None => inl ErrBadDns64Suffix
                       | Some suffix => inr (mkDns64Converter prefix suffix prefixLen)
                       end
                   | _ => inl ErrInvalidDns64Suffix
                   end
          end
      end
  | _ => inl ErrInvalidDns64Prefix
  end.

(** The loop that writes the IPv4 bytes, jumping over byte 8. *)
Fixpoint embed_v4 (fuel : nat) (copyedByte v4Index : nat) (v4 : IP) (v6 : list Z)
  : outcome (nat * list Z) :=
  match fuel with
  | O => Hang "out of fuel"
  | S fuel =>
      if (copyedByte <? 16)%nat && (v4Index <? 4)%nat then
        if (copyedByte =? 8)%nat then embed_v4 fuel (S copyedByte) v4Index v4 v6
        else b ← index v4 v4Index; embed_v4 fuel (S copyedByte) (S v4Index) v4 (<[copyedByte := b]> v6)
      else Ret (copyedByte, v6)
  end.

Definition slice_from (l : list Z) (from : nat) : outcome (list Z) :=
  if (from <=? length l)%nat then Ret (drop from l) else Panic "slice bounds out of range".
Definition slice_to (l : list Z) (to : nat) : outcome (list Z) :=
  if (to <=? length l)%nat then Ret (take to l) else Panic "slice bounds out of range".

(** [copy(dst[at:], src)] *)
Definition copy_at (pos : nat) (src dst : list Z) : list Z :=
  let n := min (length src) (length dst - pos) in take pos dst ++ take n src ++ drop (pos + n) dst.

Definition synthesisAddr (c : Dns64Converter) (v4 : IP) : outcome IP :=
  let copyed := Z.to_nat (dc_prefixLen c / 8) in
  pre ← slice_to (dc_prefix c) copyed;
  r ← embed_v4 17 copyed 0 v4 (copy_at 0 pre (replicate 16 0));
  let '(copyed, v6) := r in
  if (copyed <? 16)%nat then suf ← slice_from (dc_suffix c) copyed; Ret (copy_at copyed suf v6)
  else Ret v6.

(** ** dns64/dns64.go and cmdhandler.go *)

Section dns64.
Context {N : G53Name} {W : Type}.

(** A configured string that does not parse is kept as a nil converter. *)
Abbreviation Converters := (gmap string (list (option Dns64Converter))).

Definition DNS64_ReloadConfig (conf : list (string * list string)) : Converters :=
  foldl (λ m c,
    let cs := (λ s, match converterFromString s with inr c => Some c | inl _ => None end) <$> c.2 in
    match cs with [] => m | _ => <[c.1 := cs]> m end) ∅ conf.

Fixpoint converters_from (ss : list string) : CmdError + list (option Dns64Converter) :=
  match ss with
  | [] => inr []
  | s :: ss =>
      match converterFromString s with
      | inl err => inl err
      | inr c => match converters_from ss with inl err => inl err | inr cs => inr (Some c :: cs) end
      end
  end.

Definition updateDns64 (view : string) (preAndPostfixes : list string) (d : Converters)
  : Converters * option CmdError :=
  match converters_from preAndPostfixes with
  | inl err => (d, Some err)
  | inr [] => (delete view d, None)
  | inr cs => (<[view := cs]> d, None)
  end.

Definition needDNS64Synthesis (d : Converters) (h : Heap) (client : Client) : outcome bool :=
  match d !! c_view client with
  | None => Ret false
  | Some _ =>
      q ← deref_question (c_request client);
      if negb (q_type q =? RR_AAAA) then Ret false
      else match c_response client with
      | None => Ret false
      | Some l =>
          m ← deref l h;
          Ret ((h_rcode (m_header m) =? R_NOERROR) &&
               negb (existsb (λ a, rr_type a =? RR_AAAA) (m_answer m)))
      end
  end.

(** The name whose IPv4 addresses are asked for. *)
Definition next_name (q : Question) (answers : list RRset) : outcome Name :=
  match last answers with
  | Some r =>
      if rr_type r =? RR_CNAME then
        rd ← index (rr_rdatas r) 0;
        match rd with
        | RdCName n => Ret n
        | _ => Panic "interface conversion: g53.Rdata is not *g53.CName"
        end
      else Ret (q_name q)
  | None => Ret (q_name q)
  end.

Definition queryARecord (next : option (Handler (Heap * W))) : Handler (Heap * W) := λ s client,
  let '(h, w) := s in
  l ← from_option_panic "nil pointer dereference: response" (c_response client);
  m ← deref l h;
  q ← deref_question (c_request client);
  nextName ← next_name q (m_answer m);
  PassToNext next (h, w)
    (set_request (set_question (Some (mkQuestion nextName RR_A (q_class q))) (c_request client))
       (set_response None client)).

Fixpoint synthesize_rdatas (c : Dns64Converter) (rds : list Rdata) : outcome (list Rdata) :=
  match rds with
  | [] => Ret []
  | RdA host :: rds =>
      v6 ← synthesisAddr c host; rest ← synthesize_rdatas c rds; Ret (RdAAAA v6 :: rest)
  | _ => Panic "interface conversion: g53.Rdata is not *g53.A"
  end.

Fixpoint synthesize_all (cs : list (option Dns64Converter)) (rds : list Rdata) : outcome (list Rdata) :=
  match cs with
  | [] => Ret []
  | c :: cs =>
      x ← (match c, rds with
           | _, [] => Ret []
           | None, _ => Panic "nil pointer dereference: converter"
           | Some c, _ => synthesize_rdatas c rds
           end);
      rest ← synthesize_all cs rds; Ret (x ++ rest)
  end.

Definition synthesisAAAAFromA (cs : list (option Dns64Converter)) (a : RRset) : outcome RRset :=
  rds ← synthesize_all cs (rr_rdatas a);
  Ret (mkRRset (rr_name a) RR_AAAA (rr_class a) (rr_ttl a) rds).

(** The answers up to the first address set, which is converted. *)
Fixpoint synthesize_answers (cs : list (option Dns64Converter)) (answers : list RRset)
  : outcome (list RRset) :=
  match answers with
  | [] => Ret []
  | a :: answers =>
      if negb (rr_type a =? RR_A) then rest ← synthesize_answers cs answers; Ret (a :: rest)
      else x ← synthesisAAAAFromA cs a; Ret [x]
  end.

Definition synthesizeDNS64Response (d : Converters) (originalQuestion : option Question)
  (originalResponse : nat) : Handler (Heap * W) := λ s client,
  let '(h, w) := s in
  let client := set_request (set_question originalQuestion (c_request client)) client in
  match c_response client with
  | None => Ret ((h, w), set_response (Some originalResponse) client)
  | Some l =>
      final ← deref originalResponse h;
      m ← deref l h;
      extra ← synthesize_answers (from_option id [] (d !! c_view client)) (m_answer m);
      let m := set_section AnswerSection (m_answer final ++ extra) (set_question originalQuestion m) in
      Ret ((<[l := m]> h, w), client)
  end.

Definition DNS64_HandleQuery (d : Converters) (next : option (Handler (Heap * W)))
  : Handler (Heap * W) := λ s client,
  r ← PassToNext next s client;
  let '((h, w), client) := r in
  need ← needDNS64Synthesis d h client;
  if negb need then Ret ((h, w), client)
  else
    original ← from_option_panic "nil pointer dereference: response" (c_response client);
    let question := m_question (c_request client) in
    r ← queryARecord next (h, w) client;
    let '(s, client) := r in
    synthesizeDNS64Response d question original s client.
End dns64.

(** The unit tests' conversions. *)
Definition convert (conf : string) (v4 : string) : outcome (option IP) :=
  match converterFromString conf, net_ParseIP v4 with
  | inr c, Some ip => match IP_To4 ip with Some v4 => Some <$> synthesisAddr c v4 | None => Ret None end
  | _, _ => Ret None
  end.

Example convert_tests :
  (λ t, convert t.1.1 t.1.2) <$>
    [("64:ff9b::/96 ", "192.0.2.1", "64:ff9b::192.0.2.1");
     ("64:ff9b::/40 ::", "117.34.15.57", "64:ff9b:75:220f:39::");
     ("64:ff9b::/64 ::", "117.34.15.57", "64:ff9b::75:220f:3900:0");
     ("64:ff9b::/32 ::", "117.34.15.57", "64:ff9b:7522:f39::");
     ("64:ff9b::/32 ::1", "117.34.15.57", "64:ff9b:7522:f39::1")]%string
  = (λ s, Ret (net_ParseIP s)) <$>
    ["64:ff9b::192.0.2.1"; "64:ff9b:75:220f:39::"; "64:ff9b::75:220f:3900:0"; "64:ff9b:7522:f39::";
     "64:ff9b:7522:f39::1"]%string.
Proof. by_eval. Qed.

(** ** Embedding addresses *)

(** Where the four address bytes go for a prefix of a given length: after the
    prefix, around byte 8 (RFC 6052, section 2.2). *)
Definition v4_positions (prefixLen : Z) : list nat :=
  take 4 (filter (λ i, i ≠ 8%nat) (seq (Z.to_nat (prefixLen / 8)) 9)).

(** Reading the embedded address back. *)
Definition extract_v4 (prefixLen : Z) (v6 : IP) : IP := omap (v6 !!.) (v4_positions prefixLen).

Definition converter_ok (c : Dns64Converter) : Prop :=
  dc_prefixLen c ∈ validPrefixes ∧ length (dc_prefix c) = 16%nat ∧
  (dc_prefixLen c ≠ maxPrefixLen → length (dc_suffix c) = 16%nat).

Lemma parseIPv4_length s ip : parseIPv4 s = Some ip → length ip = 16%nat.
Proof.
  unfold parseIPv4. destruct (mapM _ _) as [bs|]; [|done]. cbn.
  destruct (Nat.eqb_spec (length bs) 4) as [E|]; [|done]. intros [= <-]. cbn. by rewrite E.
Qed.

Lemma ParseIP_length s ip : net_ParseIP s = Some ip → length ip = 16%nat.
Proof.
  unfold net_ParseIP. destruct (first_mark s) as [c|]; [|done].
  destruct (Ascii.eqb c "."); [apply parseIPv4_length|]. unfold parseIPv6.
  destruct (if strings_HasPrefix s "::" then _ else _) as [ell s'].
  destruct (if bool_decide _ then _ else _) as [[[ip' ell'] rest]|]; [|done]. cbn [mbind option_bind].
  destruct (negb _); [done|]. destruct ell' as [e|].
  - destruct (Nat.ltb_spec (length ip') 16); [|done]. intros [= <-].
    rewrite !length_app, length_replicate, length_take, length_drop. lia.
  - destruct (Nat.eqb_spec (length ip') 16); [|done]. by intros [= <-].
Qed.

Lemma converterFromString_ok s c : converterFromString s = inr c → converter_ok c.
Proof.
  unfold converterFromString.
  destruct (strings_Split (from_option id ""%string _) "/") as [|pre [|len [|]]]; try done.
  destruct (net_ParseIP pre) as [prefix|] eqn:Ep; [|done].
  destruct (strconv_Atoi len) as [n|]; [|done].
  destruct (existsb (Z.eqb n) validPrefixes) eqn:En; [|done]. cbn [negb].
  apply existsb_Exists in En as (x & Hx & ->%Z.eqb_eq).
  destruct (Z.eqb_spec x maxPrefixLen) as [->|Hne].
  { intros [= <-]. split_and!; cbn; [done|by eapply ParseIP_length|done]. }
  destruct (strings_Split s " ") as [|a [|suf [|]]]; try done.
  destruct (net_ParseIP suf) as [suffix|] eqn:Es; [|done]. intros [= <-].
  split_and!; cbn; [done|by eapply ParseIP_length|]. intros _. by eapply ParseIP_length.
Qed.

Lemma synthesisAddr_ok c v4 :
  converter_ok c → length v4 = 4%nat →
  ∃ v6, synthesisAddr c v4 = Ret v6 ∧ length v6 = 16%nat ∧
    take (Z.to_nat (dc_prefixLen c / 8)) v6 = take (Z.to_nat (dc_prefixLen c / 8)) (dc_prefix c) ∧
    extract_v4 (dc_prefixLen c) v6 = v4 ∧
    (32 < dc_prefixLen c < 96 → v6 !! 8%nat = Some 0) ∧
    (dc_prefixLen c ≠ maxPrefixLen →
     let last := S (from_option id 0%nat (last (v4_positions (dc_prefixLen c)))) in
     drop last v6 = drop last (dc_suffix c)).
Proof.
  destruct c as [prefix suffix len]. cbn [dc_prefix dc_suffix dc_prefixLen].
  intros (Hlen & Hp & Hs) Hv. cbn [dc_prefix dc_suffix dc_prefixLen] in *.
  do 4 (destruct v4 as [|? v4]; [done|]). destruct v4; [|done].
  do 16 (destruct prefix as [|? prefix]; [done|]). destruct prefix; [|done].
  unfold validPrefixes in Hlen.
  destruct (decide (len = maxPrefixLen)) as [->|Hne].
  { eexists. split; [reflexivity|]. split_and!; try reflexivity; unfold maxPrefixLen; [lia|done]. }
  specialize (Hs Hne).
  do 16 (destruct suffix as [|? suffix]; [done|]). destruct suffix; [|done].
  repeat (apply elem_of_cons in Hlen as [->|Hlen]);
    [..|done|by apply elem_of_nil in Hlen];
    (eexists; split; [reflexivity|]; split_and!; try reflexivity; lia).
Qed.

(** Embedding of IPv4 addresses.  A converter that a configuration string
    gives embeds every four-byte address into 16 bytes that start with the
    configured prefix, from which the address can be read back at the positions
    RFC 6052 gives it; byte 8 is zero when the address is placed around it, and the
    remaining bytes are the suffix's. *)
Theorem synthesisAddr_embeds s c v4 :
  converterFromString s = inr c → length v4 = 4%nat →
  ∃ v6, synthesisAddr c v4 = Ret v6 ∧ length v6 = 16%nat ∧
    take (Z.to_nat (dc_prefixLen c / 8)) v6 = take (Z.to_nat (dc_prefixLen c / 8)) (dc_prefix c) ∧
    extract_v4 (dc_prefixLen c) v6 = v4 ∧
    (32 < dc_prefixLen c < 96 → v6 !! 8%nat = Some 0) ∧
    (dc_prefixLen c ≠ maxPrefixLen →
     let last := S (from_option id 0%nat (last (v4_positions (dc_prefixLen c)))) in
     drop last v6 = drop last (dc_suffix c)).
Proof. intros Hc%converterFromString_ok Hv. by apply synthesisAddr_ok. Qed.

Lemma synthesisAddr_embeds_witness :
  ∃ v6, synthesisAddr
      (mkDns64Converter [0; 100; 255; 155; 0; 0; 0; 0; 0; 0; 0; 0; 0; 0; 0; 0]
         [0; 0; 0; 0; 0; 0; 0; 0; 0; 0; 0; 0; 0; 0; 0; 0] 40) [117; 34; 15; 57] = Ret v6 ∧
    extract_v4 40 v6 = [117; 34; 15; 57].
Proof.
  destruct (synthesisAddr_embeds "64:ff9b::/40 ::"
    (mkDns64Converter [0; 100; 255; 155; 0; 0; 0; 0; 0; 0; 0; 0; 0; 0; 0; 0]
       [0; 0; 0; 0; 0; 0; 0; 0; 0; 0; 0; 0; 0; 0; 0; 0] 40) [117; 34; 15; 57])
    as (v6 & E & _ & _ & Hx & _); [by_eval|reflexivity|].
  exists v6. split; [exact E|exact Hx].
Defined.

(** ** Synthesised answers *)

Section synthesis_props.
Context {N : G53Name}.

(** The IPv4 address a synthesised record stands for. *)
Definition stands_for (c : Dns64Converter) (rd rd' : Rdata) : Prop :=
  ∃ host v6, rd = RdA host ∧ rd' = RdAAAA v6 ∧ extract_v4 (dc_prefixLen c) v6 = host ∧
    take (Z.to_nat (dc_prefixLen c / 8)) v6 = take (Z.to_nat (dc_prefixLen c / 8)) (dc_prefix c).

Definition v4_rdata (rd : Rdata) : Prop := ∃ host, rd = RdA host ∧ length host = 4%nat.

Lemma synthesize_rdatas_ok c rds :
  converter_ok c → Forall v4_rdata rds →
  ∃ out, synthesize_rdatas c rds = Ret out ∧ Forall2 (stands_for c) rds out.
Proof.
  intros Hc. induction 1 as [|rd rds (host & -> & Hl) _ (out & IH & Hout)]; cbn [synthesize_rdatas].
  { exists []. split; [done|constructor]. }
  destruct (synthesisAddr_ok c host Hc Hl) as (v6 & -> & _ & Hpre & Hx & _).
  rewrite bind_Ret, IH, bind_Ret. eexists. split; [done|]. constructor; [|done].
  by exists host, v6.
Qed.

(** Synthesis of IPv6 answers.  With well-formed converters, as configuration
    strings give them, an IPv4 record set of four-byte addresses becomes an IPv6 record set
    of the same name, class and ttl whose records are, converter by converter and
    in order, the addresses embedded under that converter's prefix. *)
Theorem synthesisAAAAFromA_complete (cs : list Dns64Converter) (a : RRset) :
  Forall converter_ok cs → Forall v4_rdata (rr_rdatas a) →
  ∃ r groups, synthesisAAAAFromA (Some <$> cs) a = Ret r ∧
    rr_name r = rr_name a ∧ rr_type r = RR_AAAA ∧ rr_class r = rr_class a ∧ rr_ttl r = rr_ttl a ∧
    rr_rdatas r = mjoin groups ∧ Forall2 (λ c g, Forall2 (stands_for c) (rr_rdatas a) g) cs groups.
Proof.
  intros Hcs Hrds. unfold synthesisAAAAFromA.
  assert (∃ groups, synthesize_all (Some <$> cs) (rr_rdatas a) = Ret (mjoin groups) ∧
    Forall2 (λ c g, Forall2 (stands_for c) (rr_rdatas a) g) cs groups) as (groups & -> & Hg).
  { induction Hcs as [|c cs Hc _ (groups & IH & Hg)]; [|rewrite fmap_cons]; cbn [synthesize_all].
    { exists []. by split; [|constructor]. }
    destruct (synthesize_rdatas_ok c (rr_rdatas a) Hc Hrds) as (out & Eo & Ho).
    assert (match rr_rdatas a with [] => Ret [] | _ => synthesize_rdatas c (rr_rdatas a) end = Ret out)
      as Hx by (destruct (rr_rdatas a); [by cbn in Eo|done]).
    destruct (rr_rdatas a) as [|rd rds] eqn:Er; rewrite Hx, bind_Ret, IH, bind_Ret; exists (out :: groups); (split; [done|by constructor]). }
  rewrite bind_Ret. eexists _, groups. split; [done|]. by split_and!.
Qed.
End synthesis_props.

(** ** Witnesses and the cache below *)

Section dns64_examples.
Definition demo_converter : Dns64Converter :=
  mkDns64Converter [0; 100; 255; 155; 0; 0; 0; 0; 0; 0; 0; 0; 0; 0; 0; 0] [] 96.

Lemma synthesisAAAAFromA_complete_witness :
  ∃ r groups, synthesisAAAAFromA [Some demo_converter] (a_rrset www 60 1) = Ret r ∧
    rr_name r = www ∧ rr_type r = RR_AAAA ∧ rr_class r = CLASS_IN ∧ rr_ttl r = 60 ∧
    rr_rdatas r = mjoin groups ∧
    Forall2 (λ c g, Forall2 (stands_for c) (rr_rdatas (a_rrset www 60 1)) g) [demo_converter] groups.
Proof.
  apply (synthesisAAAAFromA_complete [demo_converter] (a_rrset www 60 1)).
  - constructor; [|constructor]. apply (converterFromString_ok "64:ff9b::/96 "). by_eval.
  - repeat constructor; eexists; (split; [reflexivity|reflexivity]).
Defined.

(** The cache between DNS64 and a resolver, with DNS64's view of the state. *)
Definition over_cache (now : Z) (resolver : Client → option Message)
  : Handler (Heap * gmap string MessageCache) := λ s client,
  let '(h, c) := s in
  r ← Cache_HandleQuery now (Some (λ s client,
        let '(c, h, w) := s in
        match resolver client with
        | Some m => let '(l, h) := heap_alloc m h in
                    Ret ((c, h, w), set_cache_answer true (set_response (Some l) client))
        | None => Ret ((c, h, w), client)
        end)) (c, h, ()) client;
  let '((c, h, _), client) := r in Ret ((h, c), client).

(** A name with an IPv4 address and no IPv6 address. *)
Definition v4_only (client : Client) : option Message :=
  match m_question (c_request client) with
  | Some q =>
      Some (if q_type q =? RR_A
            then plain_Recalculate (answer (q_name q) RR_A [a_rrset (q_name q) 60 1])
            else mkMessage hdr0 (Some q) [] [soa_rrset example_com 60 60] [] None)
  | None => None
  end.

Definition demo_v6_client (t : RRType) : Client :=
  mkClient None None false (query www t) None "default" 0 false false 0.

Definition demo_dns64_caches : gmap string MessageCache :=
  match Cache_ReloadConfig (mkCacheConf 0 0 16 false false) ["default"] ∅ with Ret c => c | _ => ∅ end.

Definition demo_dns64 : gmap string (list (option Dns64Converter)) :=
  {[ "default" := [Some demo_converter] ]}.

(** The types in the answers a client gets for a sequence of queries, through
    DNS64, the cache and the resolver. *)
Fixpoint dns64_session (d : gmap string (list (option Dns64Converter))) (types : list RRType)
  (s : Heap * gmap string MessageCache) : list (list RRType) :=
  match types with
  | [] => []
  | t :: types =>
      match DNS64_HandleQuery d (Some (over_cache 0 v4_only)) s (demo_v6_client t) with
      | Ret ((h, c), client) =>
          from_option (λ m, rr_type <$> m_answer m) [] (c_response client ≫= (h !!.)) ::
          dns64_session d types (h, c)
      | _ => []
      end
  end.

End dns64_examples.
