(* ===== verification/Zone.v ===== *)
(** * Zones in memory (src/resolver/auth/zone)

    A zone is a tree of names with the record sets of each name.  Record sets are
    shared by pointer between a zone and the copy a transaction works on, so they
    live in a store.  The tree is the one of the DNS library
    (g53/domaintree), an interface here: nodes with data and flags, and a search
    that calls back on flagged nodes above the name. *)

From S2P Require Import Prelude GoStd G53 Instances Core Cement Acl.

Local Open Scope Z_scope.

(** ** g53/domaintree *)

Record ZNode (V : Type) : Type := mkZNode {
  zn_data : option V;
  (** [NF_CALLBACK] and the user flag that marks the parent of a wildcard *)
  zn_callback : bool;
  zn_wildcard : bool;
}.
Arguments mkZNode {V}. Arguments zn_data {V}. Arguments zn_callback {V}. Arguments zn_wildcard {V}.

(** The result of a search: the node of the name, the deepest node above it (and
    whether the name has nodes below it), or nothing. *)
Inductive ZSearch (N : G53Name) (V : Type) : Type :=
  | ZExact (x : ZNode V)
  | ZPartial (m : Name) (x : ZNode V) (superdomain : bool)
  | ZNotFound.
Arguments ZExact {N V}. Arguments ZPartial {N V}. Arguments ZNotFound {N V}.

Class ZoneTree (N : G53Name) : Type := {
  ztree : Type → Type;
  zt_New {V} : ztree V;
  (** The node of exactly this name. *)
  zt_node {V} : Name → ztree V → option (ZNode V);
  (** [Insert(name)]: the node is made, empty, if it is not there. *)
  zt_Insert {V} : Name → ztree V → ztree V;
  (** A change made through the node's pointer. *)
  zt_alter {V} : (ZNode V → ZNode V) → Name → ztree V → ztree V;
  zt_Remove {V} : Name → ztree V → ztree V;
  (** The nodes strictly above a name, outermost first, and whether nodes are
      strictly below it. *)
  zt_path {V} : Name → ztree V → list (Name * ZNode V);
  zt_below {V} : Name → ztree V → bool;
  (** [SearchExt(name, path, callback, param)]; the callback gets the parameter
      and says whether to stop. *)
  zt_SearchExt {V P} : Name → (ZNode V → P → outcome (P * bool)) → P → ztree V →
    outcome (P * ZSearch N V);
  (** ["*".Concat(name)] *)
  Name_star : Name → Name;
}.

Fixpoint run_callbacks {N : G53Name} {V P} (cb : ZNode V → P → outcome (P * bool))
  (path : list (Name * ZNode V)) (p : P) : outcome (P * option (Name * ZNode V)) :=
  match path with
  | [] => Ret (p, None)
  | (m, x) :: path =>
      if zn_callback x then
        r ← cb x p;
        let '(p, stop) := r in
        if stop : bool then Ret (p, Some (m, x)) else run_callbacks cb path p
      else run_callbacks cb path p
  end.

(** [Search(name)] finds a node exactly when [zt_node] has one.  [Insert] fails only
    for a name that has a node, which the code accepts; a clone of the tree has the
    nodes and flags of the tree, with its data cloned. *)
Class ZoneTreeLaws {N : G53Name} (ZT : ZoneTree N) : Prop := {
  zt_node_Equals {V} (t : ztree V) a b : a ≈ b → zt_node a t = zt_node b t;
  zt_node_New {V} n : zt_node n (zt_New (V := V)) = None;
  zt_Insert_self {V} n (t : ztree V) : is_Some (zt_node n (zt_Insert n t));
  zt_Insert_old {V} n m (t : ztree V) x : zt_node m t = Some x → zt_node m (zt_Insert n t) = Some x;
  zt_Insert_new {V} n m (t : ztree V) x :
    zt_node m t = None → zt_node m (zt_Insert n t) = Some x → x = mkZNode None false false;
  zt_alter_node {V} f n m (t : ztree V) :
    zt_node m (zt_alter f n t) = if Name_Equals n m then f <$> zt_node m t else zt_node m t;
  (** A node with nodes below it stays, without data; no flag is set. *)
  zt_Remove_self {V} n (t : ztree V) x :
    zt_node n (zt_Remove n t) = Some x →
    zn_data x = None ∧
    ∃ y, zt_node n t = Some y ∧ (zn_callback x = true → zn_callback y = true);
  zt_Remove_other {V} n m (t : ztree V) x :
    zt_node m (zt_Remove n t) = Some x → Name_Equals n m = false → zt_node m t = Some x;
  zt_Remove_keep {V} n m (t : ztree V) x :
    zt_node m t = Some x → Name_Equals n m = false → zn_data x ≠ None →
    zt_node m (zt_Remove n t) = Some x;
  zt_path_sound {V} n m x (t : ztree V) :
    (m, x) ∈ zt_path n t →
    zt_node m t = Some x ∧ Name_IsSubDomain n m = true ∧ Name_Equals n m = false;
  Name_star_Equals a b : a ≈ b → Name_star a ≈ Name_star b;
  Name_star_Parent n p : Name_IsWildCard n = true → Name_Parent n = Some p → Name_star p ≈ n;
  Name_wildcard_Parent n : Name_IsWildCard n = true → is_Some (Name_Parent n);
  zt_SearchExt_eq {V P} n cb (p : P) (t : ztree V) :
    zt_SearchExt n cb p t =
      (r ← run_callbacks cb (zt_path n t) p;
       let '(p, stopped) := r in
       Ret (p, match stopped with
               | Some (m, x) => ZPartial m x false
               | None =>
                   match zt_node n t, last (zt_path n t) with
                   | Some x, _ => ZExact x
                   | None, Some (m, x) => ZPartial m x (zt_below n t)
                   | None, None => ZNotFound
                   end
               end));
}.

(** ** zone/zone.go *)

Definition ErrOutOfZone : string := "rrset isn't contained in zone".
Definition ErrCNAMECoExistsWithOtherRR : string :=
  "cname and other type of RR don't coexist for same name".
Definition ErrShortOfSOA : string := "zone has no soa".
Definition ErrShortOfNS : string := "zone has no ns".
Definition ErrUnknownRRset : string := "unknown rrset".
Definition ErrNoEffectiveUpdate : string := "update has no impact".
Definition ErrAbortLoad : string := "data invalid and abandon".
Definition ErrDuplicateRdata : string := "duplicate rdata".

Inductive ResultType : Type :=
  FRSuccess | FRDelegation | FRNXDomain | FRNXRRset | FRCname | FRServFail.

#[export] Instance ResultType_eq_dec : EqDecision ResultType.
Proof. solve_decision. Defined.

(** The record set is a pointer and may be nil. *)
Record FindResult : Type := mkFindResult {
  fr_Type : ResultType;
  fr_RRset : option nat;
}.

Inductive FindOption : Type := DefaultFind | GlueOkFind.

#[export] Instance FindOption_eq_dec : EqDecision FindOption.
Proof. solve_decision. Defined.

(** ** memoryzone/memoryzone.go *)

Section memoryzone.
Context {N : G53Name} {M : G53Msg N} {ZT : ZoneTree N}.

(** The store of record sets; a location is a pointer. *)
Abbreviation RRHeap := (gmap nat RRset).

(** Record set pointers by type; a pointer may be nil. *)
Abbreviation NameNode := (gmap Z (option nat)).

(** [originNode] is the tree's node of the origin until a deletion takes that node
    out of the tree; after that the pointer leads to a node without record sets. *)
Record MemoryZone : Type := mkMemoryZone {
  mz_origin : Name;
  mz_origin_lost : bool;
  mz_domains : ztree NameNode;
}.

Definition set_domains (t : ztree NameNode) (z : MemoryZone) : MemoryZone :=
  mkMemoryZone (mz_origin z) (mz_origin_lost z) t.

Definition newWithDomains (origin : Name) (domains : ztree NameNode) : MemoryZone :=
  mkMemoryZone origin false (zt_Insert origin domains).

Definition newMemoryZone (origin : Name) : MemoryZone := newWithDomains origin zt_New.

Definition node_data (n : Name) (t : ztree NameNode) : option NameNode :=
  zt_node n t ≫= zn_data.

(** [z.originNode.Data()] *)
Definition origin_data (z : MemoryZone) : option NameNode :=
  if mz_origin_lost z then None else node_data (mz_origin z) (mz_domains z).

Definition deref_rr (l : option nat) (h : RRHeap) : outcome RRset :=
  l ← from_option_panic "nil pointer dereference: rrset" l;
  from_option_panic "invalid memory address" (h !! l).

(** [findState]: the zone cut met and its name servers. *)
Definition find_state : Type := option (NameNode * option nat).

Definition zoneCutCallback (opt : FindOption) (x : ZNode NameNode) (state : find_state)
  : outcome (find_state * bool) :=
  nameNode ← from_option_panic "interface conversion: nil is not NameNode" (zn_data x);
  ns ← from_option_panic "zone cut is called but no ns is found" (nameNode !! RR_NS);
  match state with
  | Some _ => Ret (state, false)
  | None => Ret (Some (nameNode, ns), bool_decide (opt ≠ GlueOkFind))
  end.

Definition alloc_rr (r : RRset) (h : RRHeap) : nat * RRHeap :=
  let l := fresh (dom h) in (l, <[l := r]> h).

(** A record set of a wildcard under the name asked for. *)
Definition synthesize (name : Name) (t : ResultType) (l : option nat) (h : RRHeap)
  : outcome (RRHeap * FindResult * option NameNode) :=
  r ← deref_rr l h;
  let '(l', h) := alloc_rr (set_rr_name name r) h in
  Ret (h, mkFindResult t (Some l'), None).

(** The result and the node of the finder context. *)
Definition MemoryZone_find (name : Name) (typ : RRType) (opt : FindOption) (h : RRHeap)
  (z : MemoryZone) : outcome (RRHeap * FindResult * option NameNode) :=
  r ← zt_SearchExt name (zoneCutCallback opt) None (mz_domains z);
  let '(state, found) := r in
  match found with
  | ZPartial m x superdomain =>
      match state with
      | Some (cut, ns) => Ret (h, mkFindResult FRDelegation ns, Some cut)
      | None =>
          if superdomain : bool then Ret (h, mkFindResult FRNXRRset None, None)
          else if zn_wildcard x then
            w ← from_option_panic "wildcard isn't correct marked"
                  (zt_node (Name_star m) (mz_domains z));
            nameNode ← from_option_panic "interface conversion: nil is not NameNode" (zn_data w);
            match nameNode !! typ, nameNode !! RR_CNAME with
            | Some l, _ => synthesize name FRSuccess l h
            | None, Some l => synthesize name FRCname l h
            | None, None => Ret (h, mkFindResult FRNXRRset None, None)
            end
          else Ret (h, mkFindResult FRNXDomain None, None)
      end
  | ZNotFound => Ret (h, mkFindResult FRNXDomain None, None)
  | ZExact x =>
      match zn_data x with
      | None =>
          Ret (h, mkFindResult (if zt_below name (mz_domains z) then FRNXRRset else FRNXDomain) None, None)
      | Some nameNode =>
          match (if zn_callback x && negb (Name_Equals name (mz_origin z))
                 then nameNode !! RR_NS else None) with
          | Some ns => Ret (h, mkFindResult FRDelegation ns, Some nameNode)
          | None =>
              Ret (h, match nameNode !! typ, nameNode !! RR_CNAME with
                      | Some l, _ => mkFindResult FRSuccess l
                      | None, Some l => mkFindResult FRCname l
                      | None, None => mkFindResult FRNXRRset None
                      end, Some nameNode)
          end
      end
  end.

Definition getAdditioanlAddrs (name : Name) (h : RRHeap) (z : MemoryZone)
  : outcome (RRHeap * list (option nat)) :=
  r ← MemoryZone_find name RR_A GlueOkFind h z;
  let '(h, result, node) := r in
  let addrs := if decide (fr_Type result = FRSuccess) then [fr_RRset result] else [] in
  let tryAAAA := bool_decide (fr_Type result = FRSuccess) || bool_decide (fr_Type result = FRNXRRset) in
  Ret (h, if tryAAAA then
            addrs ++ match node ≫= (.!! RR_AAAA) with Some aaaa => [aaaa] | None => [] end
          else addrs).

(** The names whose addresses go with a record set. *)
Definition additional_name (typ : RRType) (rd : Rdata) : outcome (option Name) :=
  if typ =? RR_NS then
    match rd with RdNS n => Ret (Some n) | _ => Panic "interface conversion: not *g53.NS" end
  else if typ =? RR_MX then
    match rd with RdMX _ n => Ret (Some n) | _ => Panic "interface conversion: not *g53.MX" end
  else if typ =? RR_SRV then
    match rd with RdSRV _ _ _ n => Ret (Some n) | _ => Panic "interface conversion: not *g53.SRV" end
  else Ret None.

Fixpoint additional_addrs (typ : RRType) (rds : list Rdata) (h : RRHeap) (z : MemoryZone)
  : outcome (RRHeap * list (option nat)) :=
  match rds with
  | [] => Ret (h, [])
  | rd :: rds =>
      n ← additional_name typ rd;
      r ← (match n with Some n => getAdditioanlAddrs n h z | None => Ret (h, []) end);
      let '(h, addrs) := r in
      r ← additional_addrs typ rds h z;
      Ret (r.1, addrs ++ r.2)
  end.

Definition GetAdditional (result : FindResult) (h : RRHeap) (z : MemoryZone)
  : outcome (RRHeap * list (option nat)) :=
  match fr_RRset result with
  | None => Ret (h, [])
  | Some _ => r ← deref_rr (fr_RRset result) h; additional_addrs (rr_type r) (rr_rdatas r) h z
  end.

(** ** Changes *)

Definition checkRRsetValid (rrset : RRset) (z : MemoryZone) : option string :=
  if (rr_type rrset =? RR_NS) && Name_IsWildCard (rr_name rrset) then Some ErrNoEffectiveUpdate
  else if negb (Name_IsSubDomain (rr_name rrset) (mz_origin z)) then Some ErrOutOfZone
  else None.

Definition checkRRsetCouldBeAdded (nodeData : NameNode) (rrset : RRset) : option string :=
  if negb (rr_type rrset =? RR_CNAME) then
    match nodeData !! RR_CNAME with
    | Some _ => Some ErrCNAMECoExistsWithOtherRR
    | None => None
    end
  else if bool_decide (1 < size nodeData)%nat then Some ErrCNAMECoExistsWithOtherRR
  else match nodeData !! RR_CNAME with
       | None => Some ErrCNAMECoExistsWithOtherRR
       | Some _ => None
       end.

(** [rrset.Rdatas[0].( *g53.SOA).Serial] *)
Definition first_serial (r : RRset) : outcome Z :=
  rd ← index (rr_rdatas r) 0;
  match rd with
  | RdSOA s => Ret (soa_serial s)
  | _ => Panic "interface conversion: not *g53.SOA"
  end.

(** Adds every rdata that is new; also says whether none was. *)
Fixpoint add_rdatas (rds : list Rdata) (r : RRset) : RRset * bool :=
  match rds with
  | [] => (r, true)
  | d :: rds =>
      match AddRdata d r with
      | Some r => ((add_rdatas rds r).1, false)
      | None => add_rdatas rds r
      end
  end.

(** The data of a node that has some, with a record set added; [inl] is an early
    return with that error, which may be nil. *)
Definition add_to_node (l : nat) (rrset : RRset) (nodeData : NameNode) (h : RRHeap)
  : outcome (RRHeap * (option string + NameNode)) :=
  match checkRRsetCouldBeAdded nodeData rrset with
  | Some err => Ret (h, inl (Some err))
  | None =>
      if rr_type rrset =? RR_SOA then
        match mjoin (nodeData !! RR_SOA) with
        | Some old =>
            oldSOA ← deref_rr (Some old) h;
            old ← first_serial oldSOA;
            new ← first_serial rrset;
            Ret (h, if new <=? old then inl None
                    else inr (<[rr_type rrset := Some l]> nodeData))
        | None => Ret (h, inr (<[rr_type rrset := Some l]> nodeData))
        end
      else
        match nodeData !! rr_type rrset with
        | Some old =>
            if rr_type rrset =? RR_CNAME then Ret (h, inr (<[rr_type rrset := Some l]> nodeData))
            else
              oldRRset ← deref_rr old h;
              let '(newRRset, allDuplicate) := add_rdatas (rr_rdatas rrset) oldRRset in
              if allDuplicate && (rr_ttl rrset =? rr_ttl newRRset)
              then Ret (h, inl (Some ErrDuplicateRdata))
              else
                let '(l', h) := alloc_rr (set_ttl (rr_ttl rrset) newRRset) h in
                Ret (h, inr (<[rr_type rrset := Some l']> nodeData))
        | None => Ret (h, inr (<[rr_type rrset := Some l]> nodeData))
        end
  end.

Definition set_data (d : NameNode) (x : ZNode NameNode) : ZNode NameNode :=
  mkZNode (Some d) (zn_callback x) (zn_wildcard x).
Definition set_callback (x : ZNode NameNode) : ZNode NameNode :=
  mkZNode (zn_data x) true (zn_wildcard x).
Definition set_wildcard (b : bool) (x : ZNode NameNode) : ZNode NameNode :=
  mkZNode (zn_data x) (zn_callback x) b.

Definition markWildcardParent (name : Name) (t : ztree NameNode) : outcome (ztree NameNode) :=
  parent ← from_option_panic "nil pointer dereference: name" (Name_Parent name);
  Ret (zt_alter (set_wildcard true) parent (zt_Insert parent t)).

Definition unmarkWildcardParent (name : Name) (t : ztree NameNode) : outcome (ztree NameNode) :=
  parent ← from_option_panic "nil pointer dereference: name" (Name_Parent name);
  Ret (zt_alter (set_wildcard false) parent t).

(** The flags a new record set sets. *)
Definition flag_node (rrset : RRset) (z : MemoryZone) (t : ztree NameNode)
  : outcome (ztree NameNode) :=
  let t := if (rr_type rrset =? RR_NS) && negb (Name_Equals (rr_name rrset) (mz_origin z))
           then zt_alter set_callback (rr_name rrset) t else t in
  if Name_IsWildCard (rr_name rrset) then markWildcardParent (rr_name rrset) t else Ret t.

Definition addRRset (l : nat) (h : RRHeap) (z : MemoryZone)
  : outcome (RRHeap * MemoryZone * option string) :=
  rrset ← deref_rr (Some l) h;
  match checkRRsetValid rrset z with
  | Some err => Ret (h, z, Some err)
  | None =>
      let t := zt_Insert (rr_name rrset) (mz_domains z) in
      r ← (match node_data (rr_name rrset) t with
           | None => Ret (h, inr {[rr_type rrset := Some l]})
           | Some nodeData => add_to_node l rrset nodeData h
           end);
      let '(h, r) := r in
      match r with
      | inl err => Ret (h, set_domains t z, err)
      | inr nodeData =>
          t ← flag_node rrset z (zt_alter (set_data nodeData) (rr_name rrset) t);
          Ret (h, set_domains t z, None)
      end
  end.

Definition isEmpty (z : MemoryZone) : bool := bool_decide (origin_data z = None).

Definition validate (z : MemoryZone) : option string :=
  match origin_data z with
  | None => Some ErrShortOfSOA
  | Some node =>
      match node !! RR_SOA, node !! RR_NS with
      | None, _ => Some ErrShortOfSOA
      | Some _, None => Some ErrShortOfNS
      | Some _, Some _ => None
      end
  end.

Definition rdatasDiff (first second : list Rdata) : list Rdata :=
  filter (λ src, existsb (λ target, Rdata_Compare src target =? 0) second = false) first.

Definition checkRRsetCouldBeDeleted (rrset : RRset) (h : RRHeap) (z : MemoryZone)
  : outcome (option string) :=
  if negb (Name_IsSubDomain (rr_name rrset) (mz_origin z)) then Ret (Some ErrOutOfZone)
  else if Name_Equals (rr_name rrset) (mz_origin z) then
    if rr_type rrset =? RR_SOA then Ret (Some ErrShortOfSOA)
    else if rr_type rrset =? RR_NS then
      data ← from_option_panic "interface conversion: nil is not NameNode" (origin_data z);
      ns ← deref_rr (mjoin (data !! RR_NS)) h;
      Ret (if bool_decide (rdatasDiff (rr_rdatas ns) (rr_rdatas rrset) = [])
           then Some ErrShortOfNS else None)
    else Ret None
  else Ret None.

(** [None] is [ErrUnknownRRset]. *)
Definition getNode (name : Name) (z : MemoryZone) : option NameNode :=
  node_data name (mz_domains z).

Definition deleteNode (name : Name) (z : MemoryZone) : outcome MemoryZone :=
  let t := zt_Remove name (mz_domains z) in
  let lost := mz_origin_lost z ||
    (Name_Equals name (mz_origin z) && match zt_node name t with None => true | _ => false end) in
  t ← (if Name_IsWildCard name then unmarkWildcardParent name t else Ret t);
  Ret (mkMemoryZone (mz_origin z) lost t).

(** [delete(nodeData, typ)] and the node with it when that was the last set. *)
Definition delete_type (name : Name) (typ : RRType) (nodeData : NameNode) (z : MemoryZone)
  : outcome MemoryZone :=
  let nodeData := delete typ nodeData in
  let z := set_domains (zt_alter (set_data nodeData) name (mz_domains z)) z in
  if bool_decide (nodeData = ∅) then deleteNode name z else Ret z.

Definition deleteRRset (rrset : RRset) (h : RRHeap) (z : MemoryZone)
  : outcome (MemoryZone * option string) :=
  err ← checkRRsetCouldBeDeleted rrset h z;
  match err with
  | Some err => Ret (z, Some err)
  | None =>
      match getNode (rr_name rrset) z with
      | None => Ret (z, Some ErrUnknownRRset)
      | Some nodeData =>
          match nodeData !! rr_type rrset with
          | None => Ret (z, Some ErrUnknownRRset)
          | Some _ =>
              z ← delete_type (rr_name rrset) (rr_type rrset) nodeData z; Ret (z, None)
          end
      end
  end.

(** The origin keeps its SOA and NS entries, nil when it has none. *)
Definition deleteDomain (name : Name) (z : MemoryZone) : outcome (MemoryZone * option string) :=
  if negb (Name_IsSubDomain name (mz_origin z)) then Ret (z, Some ErrOutOfZone)
  else
    match getNode name z with
    | None => Ret (z, Some ErrUnknownRRset)
    | Some oldData =>
        if Name_Equals name (mz_origin z) then
          let newData := <[RR_NS := mjoin (oldData !! RR_NS)]>
                           {[RR_SOA := mjoin (oldData !! RR_SOA)]} in
          Ret (set_domains (zt_alter (set_data newData) name (mz_domains z)) z, None)
        else z ← deleteNode name z; Ret (z, None)
    end.

Definition deleteRr (rrset : RRset) (h : RRHeap) (z : MemoryZone)
  : outcome (RRHeap * MemoryZone * option string) :=
  err ← checkRRsetCouldBeDeleted rrset h z;
  match err with
  | Some err => Ret (h, z, Some err)
  | None =>
      match getNode (rr_name rrset) z with
      | None => Ret (h, z, Some ErrUnknownRRset)
      | Some nodeData =>
          match nodeData !! rr_type rrset with
          | None => Ret (h, z, Some ErrUnknownRRset)
          | Some old =>
              oldRRset ← deref_rr old h;
              let leftRdatas := rdatasDiff (rr_rdatas oldRRset) (rr_rdatas rrset) in
              if bool_decide (leftRdatas = []) then
                z ← delete_type (rr_name rrset) (rr_type rrset) nodeData z; Ret (h, z, None)
              else
                let '(l, h) := alloc_rr (set_rdatas leftRdatas oldRRset) h in
                let nodeData := <[rr_type rrset := Some l]> nodeData in
                Ret (h, set_domains (zt_alter (set_data nodeData) (rr_name rrset) (mz_domains z)) z,
                     None)
          end
      end
  end.

Definition bump_serial (s : SOA) : SOA :=
  mkSOA (soa_mname s) (u32 (soa_serial s + 1)) (soa_minimum s).

(** The serial is changed in the record set that the zone and its clones share. *)
Definition increaseSerialNumber (h : RRHeap) (z : MemoryZone) : outcome RRHeap :=
  data ← from_option_panic "zone short of soa" (origin_data z);
  l ← from_option_panic "nil pointer dereference: soa" (mjoin (data !! RR_SOA));
  soa ← deref_rr (Some l) h;
  match rr_rdatas soa with
  | [RdSOA s] => Ret (<[l := set_rdatas [RdSOA (bump_serial s)] soa]> h)
  | [_] => Panic "interface conversion: not *g53.SOA"
  | _ => Panic "zone soa rr isn't one"
  end.

Definition MemoryZone_clone (z : MemoryZone) : MemoryZone :=
  newWithDomains (mz_origin z) (mz_domains z).

(** ** memoryzone/dynamiczone.go *)

Record DynamicZone : Type := mkDynamicZone {
  dz_zone : MemoryZone;
  dz_masters : list string;
  dz_acls : list string;
}.

Definition set_zone (z : MemoryZone) (dz : DynamicZone) : DynamicZone :=
  mkDynamicZone z (dz_masters dz) (dz_acls dz).

Definition NewDynamicZone (origin : Name) : DynamicZone :=
  mkDynamicZone (newMemoryZone origin) [] [].

(** What the loop of [Load] receives before the channel of record sets is closed. *)
Inductive LoadEvent : Type :=
  | LoadAbort
  | LoadRR (l : nat).

(** The log line of an ignored record set prints its first rdata. *)
Fixpoint load_rrs (events : list LoadEvent) (h : RRHeap) (z : MemoryZone)
  : outcome (RRHeap * (string + MemoryZone)) :=
  match events with
  | [] => Ret (h, inr z)
  | LoadAbort :: _ => Ret (h, inl ErrAbortLoad)
  | LoadRR l :: events =>
      r ← addRRset l h z;
      let '(h, z, err) := r in
      match err with
      | None => load_rrs events h z
      | Some err =>
          if bool_decide (err = ErrNoEffectiveUpdate) then
            rrset ← deref_rr (Some l) h;
            _ ← index (rr_rdatas rrset) 0;
            load_rrs events h z
          else Ret (h, inl err)
      end
  end.

Definition DynamicZone_Load (events : list LoadEvent) (h : RRHeap) (dz : DynamicZone)
  : outcome (RRHeap * DynamicZone * option string) :=
  r ← load_rrs events h (newMemoryZone (mz_origin (dz_zone dz)));
  let '(h, r) := r in
  match r with
  | inl err => Ret (h, dz, Some err)
  | inr z =>
      match validate z with
      | Some err => Ret (h, dz, Some err)
      | None => Ret (h, set_zone z dz, None)
      end
  end.

(** Whether an updator is given out. *)
Definition GetUpdator {R : NetRadix} (acls : AclManager) (ip : option IP) (force : bool)
  (dz : DynamicZone) : bool :=
  if force then true
  else if bool_decide (dz_masters dz ≠ []) then false
  else match ip, dz_acls dz with
       | None, _ | _, [] => true
       | Some ip, names => existsb (λ aclName, AclManager_Find aclName ip acls) names
       end.

Definition IsMaster (dz : DynamicZone) : bool := bool_decide (dz_masters dz = []).
Definition SetMasters (masters : list string) (dz : DynamicZone) : DynamicZone :=
  mkDynamicZone (dz_zone dz) masters (dz_acls dz).
Definition Masters (dz : DynamicZone) : list string :=
  if IsMaster dz then [] else dz_masters dz.
Definition SetAcls (acls : list string) (dz : DynamicZone) : DynamicZone :=
  mkDynamicZone (dz_zone dz) (dz_masters dz) acls.

(** The finder context; [None] is the one of an empty zone. *)
Record FinderCtx : Type := mkFinderCtx {
  fc_result : FindResult;
  fc_finder : option MemoryZone;
}.

(** [rrset.RotateRdata()] through the pointer. *)
Definition rotate_rr (l : option nat) (h : RRHeap) : outcome RRHeap :=
  r ← deref_rr l h;
  l ← from_option_panic "nil pointer dereference: rrset" l;
  Ret (<[l := RotateRdata r]> h).

Definition DynamicZone_Find (name : Name) (typ : RRType) (opt : FindOption) (h : RRHeap)
  (dz : DynamicZone) : outcome (RRHeap * FinderCtx) :=
  if isEmpty (dz_zone dz) then Ret (h, mkFinderCtx (mkFindResult FRServFail None) None)
  else
    r ← MemoryZone_find name typ opt h (dz_zone dz);
    let '(h, result, _) := r in
    h ← (match fr_RRset result with
         | Some l => rotate_rr (Some l) h
         | None => Ret h
         end);
    Ret (h, mkFinderCtx result (Some (dz_zone dz))).

Fixpoint rotate_all (ls : list (option nat)) (h : RRHeap) : outcome RRHeap :=
  match ls with
  | [] => Ret h
  | l :: ls => h ← rotate_rr l h; rotate_all ls h
  end.

Definition FinderCtx_GetAdditional (ctx : FinderCtx) (h : RRHeap)
  : outcome (RRHeap * list (option nat)) :=
  match fc_finder ctx with
  | None => Ret (h, [])
  | Some z =>
      r ← GetAdditional (fc_result ctx) h z;
      let '(h, rrsets) := r in
      h ← rotate_all rrsets h;
      Ret (h, rrsets)
  end.

(** The transaction is the zone it works on. *)
Definition Begin (dz : DynamicZone) : MemoryZone := MemoryZone_clone (dz_zone dz).

Definition Commit (tmp : MemoryZone) (dz : DynamicZone) : DynamicZone * option string :=
  match validate tmp with
  | Some err => (dz, Some err)
  | None => (set_zone tmp dz, None)
  end.

Definition RollBack (dz : DynamicZone) : DynamicZone := dz.
End memoryzone.

(** ** A zone tree over label lists *)

Section list_zone_tree.

Abbreviation ztlist V := (list (lname * ZNode V)).

(** The proper suffixes of a name, outermost first. *)
Definition proper_suffixes (n : lname) : list lname :=
  match n with [] => [] | _ :: n => reverse (suffixes n) end.

Definition zl_path {V} (n : lname) (t : ztlist V) : list (lname * ZNode V) :=
  omap (λ m, pair m <$> lt_get m t) (proper_suffixes n).

Definition zl_below {V} (n : lname) (t : ztlist V) : bool :=
  existsb (λ x, bool_decide (lower_labels n `suffix_of` lower_labels x.1) &&
                negb (bool_decide (lower_labels n = lower_labels x.1))) t.

Definition zl_Insert {V} (n : lname) (t : ztlist V) : ztlist V :=
  match lt_get n t with Some _ => t | None => (n, mkZNode None false false) :: t end.

Definition zl_alter {V} (f : ZNode V → ZNode V) (n : lname) (t : ztlist V) : ztlist V :=
  (λ x, if bool_decide (lower_labels x.1 = lower_labels n) then (x.1, f x.2) else x) <$> t.

Definition zl_SearchExt {V P} (n : lname) (cb : ZNode V → P → outcome (P * bool)) (p : P)
  (t : ztlist V) : outcome (P * ZSearch label_names V) :=
  r ← run_callbacks cb (zl_path n t) p;
  let '(p, stopped) := r in
  Ret (p, match stopped with
          | Some (m, x) => ZPartial m x false
          | None =>
              match lt_get n t, last (zl_path n t) with
              | Some x, _ => ZExact x
              | None, Some (m, x) => ZPartial m x (zl_below n t)
              | None, None => ZNotFound
              end
          end).

#[export] Instance list_zone_tree : ZoneTree label_names := {|
  ztree V := ztlist V;
  zt_New V := [];
  zt_node V := lt_get;
  zt_Insert V := zl_Insert;
  zt_alter V := zl_alter;
  zt_Remove V := lt_remove;
  zt_path V := zl_path;
  zt_below V := zl_below;
  zt_SearchExt V P := zl_SearchExt;
  Name_star n := "*" :: n;
|}.

Lemma lt_get_zl_alter {V} f n m (t : ztlist V) :
  lt_get m (zl_alter f n t) =
  if bool_decide (lower_labels n = lower_labels m) then f <$> lt_get m t else lt_get m t.
Proof.
  induction t as [|[k x] t IH]; [by case_bool_decide|].
  change (zl_alter f n ((k, x) :: t)) with
    ((if bool_decide (lower_labels k = lower_labels n) then (k, f x) else (k, x)) :: zl_alter f n t).
  destruct (bool_decide (lower_labels k = lower_labels n)) eqn:E1; rewrite !lt_get_cons, IH;
    [apply bool_decide_eq_true in E1|apply bool_decide_eq_false in E1];
    repeat case_bool_decide; naive_solver congruence.
Qed.

Lemma lt_get_zl_Insert {V} n m (t : ztlist V) :
  lt_get m (zl_Insert n t) =
  match lt_get m t with
  | Some x => Some x
  | None => if bool_decide (lower_labels n = lower_labels m)
            then Some (mkZNode None false false) else None
  end.
Proof.
  unfold zl_Insert. destruct (lt_get n t) as [x|] eqn:En.
  - destruct (lt_get m t) eqn:Em; [done|]. case_bool_decide as E; [|done].
    rewrite (lt_get_Equals t n m E) in En. congruence.
  - rewrite lt_get_cons. case_bool_decide as E; [|by destruct (lt_get m t)].
    by rewrite <- (lt_get_Equals t n m E), En.
Qed.

#[export] Instance list_zone_tree_laws : ZoneTreeLaws list_zone_tree.
Proof.
  split; cbn -[lt_get zl_Insert zl_alter lt_remove].
  - intros V t a b E%bool_decide_eq_true. by apply lt_get_Equals.
  - done.
  - intros V n t. rewrite lt_get_zl_Insert, bool_decide_true by done.
    destruct (lt_get n t); by eexists.
  - intros V n m t x E. by rewrite lt_get_zl_Insert, E.
  - intros V n m t x E. rewrite lt_get_zl_Insert, E. case_bool_decide; naive_solver.
  - intros. apply lt_get_zl_alter.
  - intros V n t x. rewrite lt_get_remove, bool_decide_true by done. done.
  - intros V n m t x. rewrite lt_get_remove. case_bool_decide; [done|]. auto.
  - intros V n m t x E Hne _. rewrite lt_get_remove. case_bool_decide; [done|]. done.
  - intros V n m x t. unfold zl_path. rewrite list_elem_of_omap.
    intros (m' & Hm' & E). destruct (lt_get m' t) as [y|] eqn:Ey; [|done].
    simplify_eq/=. split; [done|]. unfold proper_suffixes in Hm'. destruct n as [|a n]; [by apply not_elem_of_nil in Hm'|].
    rewrite elem_of_reverse, suffixes_spec in Hm'. destruct Hm' as [k ->]. split.
    + apply bool_decide_eq_true. exists (lower_labels (a :: k)).
      unfold lower_labels. by rewrite <- fmap_app.
    + apply bool_decide_eq_false. intros E%(f_equal length). unfold lower_labels in E. cbn in E.
      rewrite !length_fmap, length_app in E. lia.
  - intros a b E%bool_decide_eq_true. apply bool_decide_eq_true. cbn. by f_equal.
  - intros n p E%bool_decide_eq_true Ep. destruct n; simplify_eq/=. apply bool_decide_eq_true. done.
  - intros n E%bool_decide_eq_true. destruct n; simplify_eq/=. by eexists.
  - done.
Qed.
End list_zone_tree.
