(* ===== verification/ZoneInv.v ===== *)
(** * What holds of zones in memory

    The invariant of a zone ([zone_wf]) ties the tree to the store of record sets:
    a record set sits under its own name and type, inside the zone, and an alias
    shares its name with nothing.  Every operation keeps it, and lookups are sound
    for it.  A zone that was only loaded and extended also has correct flags
    ([zone_flags]), and then lookups never panic. *)

From S2P Require Import Prelude GoStd G53 Instances Core Cement Acl Zone.

Local Open Scope Z_scope.

(** ** Record sets *)

Section rrsets.
Context {N : G53Name} {NL : G53NameLaws N} {M : G53Msg N} {ML : G53MsgLaws M}.
Implicit Types (h : gmap nat RRset) (r : RRset).

(** The rdata the type calls for, for the types whose rdata the code inspects. *)
Definition rdata_fits (t : RRType) (d : Rdata) : bool :=
  if t =? RR_NS then match d with RdNS _ => true | _ => false end
  else if t =? RR_MX then match d with RdMX _ _ => true | _ => false end
  else if t =? RR_SRV then match d with RdSRV _ _ _ _ => true | _ => false end
  else if t =? RR_CNAME then match d with RdCName _ => true | _ => false end
  else if t =? RR_SOA then match d with RdSOA _ => true | _ => false end
  else true.

Definition rr_ok (r : RRset) : Prop :=
  rr_rdatas r ≠ [] ∧ Forall (λ d, rdata_fits (rr_type r) d = true) (rr_rdatas r).

Definition heap_ok (h : gmap nat RRset) : Prop := map_Forall (λ _, rr_ok) h.

(** The store may grow, and record sets may change their rdata and ttl. *)
Record rr_le (h h' : gmap nat RRset) : Prop := {
  rl_keep l r : h !! l = Some r →
    ∃ r', h' !! l = Some r' ∧ rr_name r' = rr_name r ∧ rr_type r' = rr_type r;
  rl_ok : heap_ok h → heap_ok h';
}.

#[export] Instance rr_le_preorder : PreOrder rr_le.
Proof.
  split; [intros h; split; eauto|].
  intros h1 h2 h3 [H12 ?] [H23 ?]. split; [|auto].
  intros l r E. destruct (H12 l r E) as (r2 & E2 & ? & ?).
  destruct (H23 l r2 E2) as (r3 & ? & ? & ?). exists r3. naive_solver congruence.
Qed.

Lemma rr_le_insert h l r r' :
  h !! l = Some r → rr_name r' = rr_name r → rr_type r' = rr_type r → (rr_ok r → rr_ok r') →
  rr_le h (<[l := r']> h).
Proof.
  intros E Hn Ht Hok. split.
  - intros k s Ek. destruct (decide (k = l)) as [->|].
    + simplify_eq. exists r'. by rewrite lookup_insert_eq.
    + rewrite lookup_insert_ne by done. eauto.
  - intros Hh. apply map_Forall_insert_2; [|done]. apply Hok, (Hh l), E.
Qed.

Lemma alloc_rr_spec r h l h' :
  alloc_rr r h = (l, h') → (heap_ok h → rr_ok r) →
  rr_le h h' ∧ h !! l = None ∧ h' !! l = Some r.
Proof.
  unfold alloc_rr. intros [= <- <-] Hr.
  assert (h !! fresh (dom h) = None) as Hf by (apply not_elem_of_dom, is_fresh).
  split; [|by rewrite lookup_insert_eq]. split.
  - intros k s Ek. rewrite lookup_insert_ne by congruence. eauto.
  - intros Hh. apply map_Forall_insert_2; auto.
Qed.

Lemma deref_rr_Some h l r : h !! l = Some r → deref_rr (Some l) h = Ret r.
Proof. unfold deref_rr. cbn. by intros ->. Qed.

Lemma RotateRdata_ok r : rr_ok r → rr_ok (RotateRdata r).
Proof.
  pose proof (RotateRdata_perm r) as Hp. destruct (RotateRdata_frame r) as (_ & Ht & _ & _).
  unfold rr_ok. rewrite Ht. intros [Hne Hall]. split.
  - intros E. rewrite E in Hp. by apply Permutation_nil_l in Hp.
  - by rewrite Hp.
Qed.

Lemma rotate_rr_le l h h' : rotate_rr l h = Ret h' → rr_le h h'.
Proof.
  unfold rotate_rr, deref_rr. destruct l as [l|]; [|done]. cbn [from_option_panic].
  rewrite !bind_Ret. destruct (h !! l) as [r|] eqn:E; [|done]. cbn. intros [= <-].
  destruct (RotateRdata_frame r) as (? & ? & _ & _).
  eapply rr_le_insert; eauto using RotateRdata_ok.
Qed.

Lemma rotate_rr_total l h r : h !! l = Some r → ∃ h', rotate_rr (Some l) h = Ret h'.
Proof. unfold rotate_rr, deref_rr. cbn. intros ->. cbn. eauto. Qed.

Lemma add_rdatas_frame rds r r' b :
  add_rdatas rds r = (r', b) →
  rr_name r' = rr_name r ∧ rr_type r' = rr_type r ∧ rr_class r' = rr_class r.
Proof.
  revert r b. induction rds as [|d rds IH]; intros r b; cbn; [intros [= <- <-]; done|].
  destruct (AddRdata d r) as [r1|] eqn:E; [|apply IH].
  apply AddRdata_frame in E as (? & ? & ? & ? & _). destruct (add_rdatas rds r1) as [r2 b2] eqn:E2.
  intros [= <- <-]. destruct (IH _ _ E2) as (? & ? & ?). cbn. split_and!; congruence.
Qed.

Lemma add_rdatas_ok rds r r' b :
  Forall (λ d, rdata_fits (rr_type r) d = true) rds → rr_ok r →
  add_rdatas rds r = (r', b) → rr_ok r'.
Proof.
  revert r b. induction rds as [|d rds IH]; intros r b Hall Hr; cbn; [intros [= <- <-]; done|].
  apply Forall_cons in Hall as [Hd Hall]. destruct (AddRdata d r) as [r1|] eqn:E; [|by apply IH].
  apply AddRdata_frame in E as (? & Ht & ? & ? & Hperm).
  destruct (add_rdatas rds r1) as [r2 b2] eqn:E2. intros [= <- <-].
  refine (IH r1 b2 _ _ E2); [by rewrite Ht|].
  split; [|rewrite Ht, Hperm; constructor; [done|]; apply Hr].
  intros Hnil. rewrite Hnil in Hperm. by apply Permutation_nil_l in Hperm.
Qed.
End rrsets.

#[export] Hint Resolve RotateRdata_ok : vanguard.

(** ** The invariant *)

Section wf.
Context {N : G53Name} {NL : G53NameLaws N} {M : G53Msg N} {ML : G53MsgLaws M}
  {ZT : ZoneTree N} {ZL : ZoneTreeLaws ZT}.
Implicit Types (h : gmap nat RRset) (r : RRset) (z : MemoryZone)
  (t : ztree (gmap Z (option nat))) (d : gmap Z (option nat)).

(** A record set under its name and type; nil only for the origin's SOA and NS. *)
Definition entry_ok h (o n : Name) (typ : RRType) (e : option nat) : Prop :=
  match e with
  | Some l => ∃ r, h !! l = Some r ∧ rr_type r = typ ∧ rr_name r ≈ n
  | None => n ≈ o ∧ (typ = RR_SOA ∨ typ = RR_NS)
  end.

Record node_ok h (o n : Name) d : Prop := {
  nk_in_zone : Name_IsSubDomain n o = true;
  nk_cname typ : is_Some (d !! RR_CNAME) → is_Some (d !! typ) → typ = RR_CNAME;
  nk_entry typ e : d !! typ = Some e → entry_ok h o n typ e;
}.

Record tree_ok h (o : Name) t : Prop := {
  tk_node n d : node_data n t = Some d → node_ok h o n d;
  tk_apex x : zt_node o t = Some x → zn_callback x = false;
}.

Definition zone_wf h z : Prop := tree_ok h (mz_origin z) (mz_domains z).

Lemma entry_ok_mono h h' o n typ e : rr_le h h' → entry_ok h o n typ e → entry_ok h' o n typ e.
Proof.
  intros [Hle _]. destruct e as [l|]; [|done]. intros (r & E & ? & Hn).
  destruct (Hle l r E) as (r' & ? & En & ?). exists r'. rewrite En. naive_solver congruence.
Qed.

Lemma entry_ok_proper h o n n' typ e : n ≈ n' → entry_ok h o n typ e → entry_ok h o n' typ e.
Proof.
  intros Hn. destruct e as [l|]; cbn.
  - intros (r & ? & ? & Hr). exists r. split_and!; [done..|by rewrite Hr].
  - intros [Ho ?]. split; [by rewrite <- Hn|done].
Qed.

Lemma node_ok_mono h h' o n d : rr_le h h' → node_ok h o n d → node_ok h' o n d.
Proof. intros Hle []. split; eauto using entry_ok_mono. Qed.

Lemma node_ok_proper h o n n' d : n ≈ n' → node_ok h o n d → node_ok h o n' d.
Proof.
  intros Hn [Hz Hc He]. split; [by rewrite <- Hn|done|eauto using entry_ok_proper].
Qed.

Lemma tree_ok_mono h h' o t : rr_le h h' → tree_ok h o t → tree_ok h' o t.
Proof. intros Hle []. split; eauto using node_ok_mono. Qed.

(** ** The data of nodes after a change of the tree *)

Lemma node_data_proper n m t : n ≈ m → node_data n t = node_data m t.
Proof. unfold node_data. intros E. by rewrite (zt_node_Equals t n m E). Qed.

Lemma node_data_Insert n m t : node_data m (zt_Insert n t) = node_data m t.
Proof.
  unfold node_data. destruct (zt_node m t) as [x|] eqn:E; [by rewrite (zt_Insert_old _ _ _ _ E)|].
  destruct (zt_node m (zt_Insert n t)) as [x|] eqn:E'; [|done].
  by rewrite (zt_Insert_new _ _ _ _ E E').
Qed.

Lemma node_data_alter f n m t :
  (∀ x, zn_data (f x) = zn_data x) → node_data m (zt_alter f n t) = node_data m t.
Proof.
  intros Hf. unfold node_data. rewrite zt_alter_node. destruct (Name_Equals n m); [|done].
  destruct (zt_node m t) as [x|]; cbn; [apply Hf|done].
Qed.

Lemma node_data_set d d' n m t :
  node_data m (zt_alter (set_data d) n t) = Some d' →
  (n ≈ m ∧ d' = d) ∨ (Name_Equals n m = false ∧ node_data m t = Some d').
Proof.
  unfold node_data. rewrite zt_alter_node. unfold name_eq. destruct (Name_Equals n m); [|auto].
  destruct (zt_node m t) as [x|]; cbn; naive_solver.
Qed.

Lemma node_data_set_self d n t :
  is_Some (zt_node n t) → node_data n (zt_alter (set_data d) n t) = Some d.
Proof. intros [x E]. unfold node_data. by rewrite zt_alter_node, Equals_refl, E. Qed.

Lemma node_data_Remove n m t d :
  node_data m (zt_Remove n t) = Some d → Name_Equals n m = false ∧ node_data m t = Some d.
Proof.
  unfold node_data. destruct (zt_node m (zt_Remove n t)) as [x|] eqn:E; [|done]. cbn. intros Ed.
  destruct (Name_Equals n m) eqn:Enm.
  - rewrite <- (zt_node_Equals _ n m Enm) in E. apply zt_Remove_self in E as [? _]. congruence.
  - by rewrite (zt_Remove_other _ _ _ _ E Enm).
Qed.

(** ** The invariant after a change of the tree *)

Lemma tree_ok_Insert h o n t : tree_ok h o t → tree_ok h o (zt_Insert n t).
Proof.
  intros [Hn Ha]. split; [intros m d; rewrite node_data_Insert; apply Hn|].
  intros x E. destruct (zt_node o t) as [y|] eqn:Ey.
  - rewrite (zt_Insert_old _ _ _ _ Ey) in E. simplify_eq. by apply Ha.
  - by rewrite (zt_Insert_new _ _ _ _ Ey E).
Qed.

(** A change that keeps data, and does not flag the origin. *)
Lemma tree_ok_alter h o f n t :
  (∀ x, zn_data (f x) = zn_data x) →
  (Name_Equals n o = true → ∀ x, zn_callback (f x) = zn_callback x) →
  tree_ok h o t → tree_ok h o (zt_alter f n t).
Proof.
  intros Hf Hc [Hn Ha]. split; [intros m d; rewrite node_data_alter by done; apply Hn|].
  intros x. rewrite zt_alter_node. destruct (Name_Equals n o); [|apply Ha].
  destruct (zt_node o t) as [y|]; cbn; intros; simplify_eq. rewrite Hc by done. by apply Ha.
Qed.

Lemma tree_ok_set h o n d t :
  node_ok h o n d → tree_ok h o t → tree_ok h o (zt_alter (set_data d) n t).
Proof.
  intros Hd [Hn Ha]. split.
  - intros m d' [[E ->]|[_ E]]%node_data_set; [by eapply node_ok_proper|by apply Hn].
  - intros x. rewrite zt_alter_node. destruct (Name_Equals n o); [|apply Ha].
    destruct (zt_node o t) as [y|]; [|done]. intros [= <-]. exact (Ha y eq_refl).
Qed.

Lemma tree_ok_Remove h o n t : tree_ok h o t → tree_ok h o (zt_Remove n t).
Proof.
  intros [Hn Ha]. split; [intros m d [_ E]%node_data_Remove; by apply Hn|].
  intros x E. destruct (Name_Equals n o) eqn:Eno.
  - rewrite <- (zt_node_Equals _ n o Eno) in E.
    apply zt_Remove_self in E as (_ & y & Ey & Hy). destruct (zn_callback x); [|done].
    rewrite (zt_node_Equals t n o Eno) in Ey. specialize (Ha y Ey). by rewrite Hy in Ha.
  - apply zt_Remove_other in E; [by apply Ha|done].
Qed.

Lemma tree_ok_mark h o n t t' : markWildcardParent n t = Ret t' → tree_ok h o t → tree_ok h o t'.
Proof.
  unfold markWildcardParent. destruct (Name_Parent n); [|done]. cbn. intros [= <-] ?.
  by apply tree_ok_alter, tree_ok_Insert.
Qed.

Lemma tree_ok_flag h r z t t' :
  flag_node r z t = Ret t' → tree_ok h (mz_origin z) t → tree_ok h (mz_origin z) t'.
Proof.
  unfold flag_node. intros E Hok.
  set (t1 := if _ && _ then _ else t) in E.
  assert (tree_ok h (mz_origin z) t1) as H1.
  { unfold t1. destruct (_ && _) eqn:Eb; [|done]. zbool. apply tree_ok_alter; [done| |done].
    intros ?. congruence. }
  destruct (Name_IsWildCard _); [by eapply tree_ok_mark|by simplify_eq].
Qed.

(** ** Operations keep the invariant *)

Lemma node_ok_insert h o n d typ l :
  node_ok h o n d → entry_ok h o n typ (Some l) →
  (typ = RR_CNAME → is_Some (d !! RR_CNAME)) → (typ ≠ RR_CNAME → d !! RR_CNAME = None) →
  node_ok h o n (<[typ := Some l]> d).
Proof.
  intros [Hz Hc He] Hl Hcn Hno. split; [done| |].
  - intros typ' H1 H2. destruct (decide (typ = RR_CNAME)) as [->|Hne].
    + destruct (decide (typ' = RR_CNAME)) as [|Hne']; [done|].
      rewrite lookup_insert_ne in H2 by done. auto.
    + rewrite lookup_insert_ne, Hno in H1 by done. by destruct H1.
  - intros typ' e. destruct (decide (typ' = typ)) as [->|].
    + rewrite lookup_insert_eq. by intros [= <-].
    + rewrite lookup_insert_ne by done. apply He.
Qed.

Lemma node_ok_single h o n typ l :
  Name_IsSubDomain n o = true → entry_ok h o n typ (Some l) →
  node_ok h o n {[typ := Some l]}.
Proof.
  intros Hz Hl. split; [done| |].
  - intros typ' [? [<- _]%lookup_singleton_Some] [? [<- _]%lookup_singleton_Some]. done.
  - intros typ' e [<- <-]%lookup_singleton_Some. done.
Qed.

Lemma node_ok_delete h o n d typ : node_ok h o n d → node_ok h o n (delete typ d).
Proof.
  intros [Hz Hc He]. split; [done| |].
  - intros typ' [? [_ H1]%lookup_delete_Some] [? [_ H2]%lookup_delete_Some]. eauto.
  - intros typ' e [_ ?]%lookup_delete_Some. auto.
Qed.

Lemma checkAdded_None d r :
  checkRRsetCouldBeAdded d r = None →
  (rr_type r = RR_CNAME → is_Some (d !! RR_CNAME)) ∧ (rr_type r ≠ RR_CNAME → d !! RR_CNAME = None).
Proof.
  unfold checkRRsetCouldBeAdded. destruct (rr_type r =? RR_CNAME) eqn:E; cbn [negb]; zbool.
  - case_bool_decide; [done|]. destruct (d !! RR_CNAME); [naive_solver|done].
  - destruct (d !! RR_CNAME); done.
Qed.

Lemma entry_self h o l r : h !! l = Some r → entry_ok h o (rr_name r) (rr_type r) (Some l).
Proof. intros E. by exists r. Qed.

Lemma add_to_node_ok h o l r d h' res :
  node_ok h o (rr_name r) d → h !! l = Some r →
  add_to_node l r d h = Ret (h', res) →
  rr_le h h' ∧ ∀ d', res = inr d' → node_ok h' o (rr_name r) d'.
Proof.
  intros Hd El. unfold add_to_node.
  destruct (checkRRsetCouldBeAdded d r) eqn:Ec; [intros [= <- <-]; done|].
  apply checkAdded_None in Ec as [Hc1 Hc2].
  assert (∀ d', inr (<[rr_type r := Some l]> d) = inr (A := option string) d' →
          node_ok h o (rr_name r) d') as Hput.
  { intros d' [= <-]. apply node_ok_insert; auto using entry_self. }
  destruct (rr_type r =? RR_SOA).
  - destruct (mjoin (d !! RR_SOA)) as [old|]; [|intros [= <- <-]; done].
    destruct (deref_rr (Some old) h) as [oldSOA| |]; [|done..]. rewrite bind_Ret.
    destruct (first_serial oldSOA) as [a| |]; [|done..]. rewrite bind_Ret.
    destruct (first_serial r) as [b| |]; [|done..]. rewrite bind_Ret.
    intros [= <- <-]. split; [done|]. by destruct (b <=? a).
  - destruct (d !! rr_type r) as [old|] eqn:Eold; [|intros [= <- <-]; done].
    destruct (rr_type r =? RR_CNAME) eqn:Ecn; [intros [= <- <-]; done|]. zbool.
    destruct old as [old|]; [|done].
    destruct (nk_entry _ _ _ _ Hd _ _ Eold) as (ro & Eo & Hto & Hno).
    rewrite (deref_rr_Some _ _ _ Eo), bind_Ret.
    destruct (add_rdatas (rr_rdatas r) ro) as [new dup] eqn:Ea.
    destruct (dup && _); [intros [= <- <-]; done|].
    destruct (alloc_rr _ h) as [l' h1] eqn:Eal. intros [= <- <-].
    pose proof (add_rdatas_frame _ _ _ _ Ea) as (Hn & Ht & _).
    apply alloc_rr_spec in Eal as (Hle & _ & El').
    + split; [done|]. intros d' [= <-].
      apply node_ok_insert; [by eapply node_ok_mono| |auto..].
      eexists. split; [done|]. cbn. rewrite Hn, Ht. done.
    + intros Hh. cut (rr_ok new); [done|]. eapply add_rdatas_ok; [|by apply (Hh old)|exact Ea].
      rewrite Hto. apply (Hh l), El.
Qed.

Lemma addRRset_ok h z l h' z' err :
  zone_wf h z → addRRset l h z = Ret (h', z', err) →
  rr_le h h' ∧ mz_origin z' = mz_origin z ∧ zone_wf h' z'.
Proof.
  intros Hz. unfold addRRset, deref_rr. cbn [from_option_panic]. rewrite bind_Ret.
  destruct (h !! l) as [r|] eqn:El; [|done]. cbn [from_option_panic]. rewrite bind_Ret.
  destruct (checkRRsetValid r z) eqn:Ev; [intros [= <- <- <-]; done|].
  assert (Name_IsSubDomain (rr_name r) (mz_origin z) = true) as Hsub.
  { unfold checkRRsetValid in Ev. destruct (_ && _); [done|]. by destruct (Name_IsSubDomain _ _). }
  set (t := zt_Insert (rr_name r) (mz_domains z)).
  assert (tree_ok h (mz_origin z) t) as Ht by by apply tree_ok_Insert.
  lazymatch goal with |- mbind _ ?x = _ → _ => destruct x as [[h1 res]| |] eqn:Er; [|done..] end.
  rewrite bind_Ret.
  assert (rr_le h h1 ∧ ∀ d', res = inr d' → node_ok h1 (mz_origin z) (rr_name r) d') as [Hle Hd].
  { destruct (node_data (rr_name r) t) as [d|] eqn:Ed.
    - eapply add_to_node_ok; eauto using tk_node.
    - injection Er as <- <-. split; [done|]. intros d' [= <-].
      apply node_ok_single; [done|by apply entry_self]. }
  eapply tree_ok_mono in Ht; [|exact Hle].
  destruct res as [e|d]; [intros [= <- <- <-]; done|].
  destruct (flag_node _ _ _) as [t'| |] eqn:Ef; [|done..]. rewrite bind_Ret. intros [= <- <- <-].
  split_and!; [done..|]. eapply tree_ok_flag; [exact Ef|]. apply tree_ok_set; auto.
Qed.

Lemma deleteNode_ok h n z z' :
  zone_wf h z → deleteNode n z = Ret z' → mz_origin z' = mz_origin z ∧ zone_wf h z'.
Proof.
  intros Hz. unfold deleteNode. set (t := zt_Remove n (mz_domains z)).
  assert (tree_ok h (mz_origin z) t) as Ht by by apply tree_ok_Remove.
  destruct (Name_IsWildCard n); [|intros [= <-]; done].
  unfold unmarkWildcardParent. destruct (Name_Parent n); [|done]. cbn. intros [= <-].
  split; [done|]. by apply tree_ok_alter.
Qed.

Lemma delete_type_ok h n typ d z z' :
  zone_wf h z → node_ok h (mz_origin z) n d → delete_type n typ d z = Ret z' →
  mz_origin z' = mz_origin z ∧ zone_wf h z'.
Proof.
  intros Hz Hd. unfold delete_type.
  assert (zone_wf h (set_domains (zt_alter (set_data (delete typ d)) n (mz_domains z)) z)) as H1
    by (apply tree_ok_set; auto using node_ok_delete).
  case_bool_decide; [|intros [= <-]; done]. intros E. by eapply deleteNode_ok in E.
Qed.

Lemma deleteRRset_ok h r z z' err :
  zone_wf h z → deleteRRset r h z = Ret (z', err) → mz_origin z' = mz_origin z ∧ zone_wf h z'.
Proof.
  intros Hz. unfold deleteRRset. destruct (checkRRsetCouldBeDeleted _ _ _) as [e| |]; [|done..].
  rewrite bind_Ret. destruct e; [intros [= <- <-]; done|].
  destruct (getNode _ z) as [d|] eqn:Ed; [|intros [= <- <-]; done].
  destruct (d !! rr_type r); [|intros [= <- <-]; done].
  destruct (delete_type _ _ _ _) as [z1| |] eqn:E; [|done..]. intros [= <- <-].
  eapply delete_type_ok; eauto using tk_node.
Qed.

Lemma deleteDomain_ok h n z z' err :
  zone_wf h z → deleteDomain n z = Ret (z', err) → mz_origin z' = mz_origin z ∧ zone_wf h z'.
Proof.
  intros Hz. unfold deleteDomain.
  destruct (Name_IsSubDomain n (mz_origin z)) eqn:Es; cbn [negb]; [|intros [= <- <-]; done].
  destruct (getNode n z) as [d|] eqn:Ed; [|intros [= <- <-]; done].
  destruct (Name_Equals n (mz_origin z)) eqn:Eo.
  - intros [= <- <-]. split; [done|]. apply tree_ok_set; [|done].
    pose proof (tk_node _ _ _ Hz _ _ Ed) as [_ _ He]. split; [done| |].
    + intros typ [? Hc]. exfalso. by rewrite lookup_insert_ne, lookup_singleton_ne in Hc.
    + assert (∀ typ, typ = RR_SOA ∨ typ = RR_NS →
                entry_ok h (mz_origin z) n typ (mjoin (d !! typ))) as Hk.
      { intros typ Ht. destruct (d !! typ) as [e|] eqn:E; [by apply He|done]. }
      intros typ e [[<- <-]|[_ [<- <-]%lookup_singleton_Some]]%lookup_insert_Some; auto.
  - destruct (deleteNode n z) as [z1| |] eqn:E; [|done..]. intros [= <- <-].
    by eapply deleteNode_ok.
Qed.

Lemma rdatasDiff_sub (P : Rdata → Prop) a b : Forall P a → Forall P (rdatasDiff a b).
Proof.
  unfold rdatasDiff. rewrite !Forall_forall. intros H x [_ Hx]%list_elem_of_filter. auto.
Qed.

Lemma deleteRr_ok h r z h' z' err :
  zone_wf h z → deleteRr r h z = Ret (h', z', err) →
  rr_le h h' ∧ mz_origin z' = mz_origin z ∧ zone_wf h' z'.
Proof.
  intros Hz. unfold deleteRr. destruct (checkRRsetCouldBeDeleted _ _ _) as [e| |]; [|done..].
  rewrite bind_Ret. destruct e; [intros [= <- <- <-]; done|].
  destruct (getNode _ z) as [d|] eqn:Ed; [|intros [= <- <- <-]; done].
  pose proof (tk_node _ _ _ Hz _ _ Ed) as Hd.
  destruct (d !! rr_type r) as [old|] eqn:Eold; [|intros [= <- <- <-]; done].
  destruct old as [old|]; [|done].
  destruct (nk_entry _ _ _ _ Hd _ _ Eold) as (ro & Eo & Hto & Hno).
  rewrite (deref_rr_Some _ _ _ Eo), bind_Ret.
  case_bool_decide as Eleft.
  - destruct (delete_type _ _ _ _) as [z1| |] eqn:E; [|done..]. intros [= <- <- <-].
    split; [done|]. by eapply delete_type_ok.
  - destruct (alloc_rr _ h) as [l h1] eqn:Eal. intros [= <- <- <-].
    apply alloc_rr_spec in Eal as (Hle & _ & El).
    + split_and!; [done..|]. apply tree_ok_set; [|by eapply tree_ok_mono].
      apply node_ok_insert; [by eapply node_ok_mono|by eexists|by intros <-|].
      intros Hne. destruct (d !! RR_CNAME) eqn:Ecn; [|done]. exfalso. apply Hne.
      by eapply nk_cname; [exact Hd|rewrite Ecn|rewrite Eold].
    + intros Hh. split; [done|]. cbn. apply rdatasDiff_sub, (Hh old), Eo.
Qed.

Lemma increaseSerialNumber_le h z h' : increaseSerialNumber h z = Ret h' → rr_le h h'.
Proof.
  unfold increaseSerialNumber. destruct (origin_data z) as [d|]; [|done]. cbn [from_option_panic].
  rewrite bind_Ret. destruct (mjoin (d !! RR_SOA)) as [l|]; [|done]. cbn [from_option_panic].
  rewrite bind_Ret. unfold deref_rr. cbn [from_option_panic]. rewrite bind_Ret.
  destruct (h !! l) as [r|] eqn:El; [|done]. cbn [from_option_panic]. rewrite bind_Ret.
  destruct (rr_rdatas r) as [|[] []] eqn:Er; try done. intros [= <-].
  eapply rr_le_insert; [done..|]. unfold rr_ok. cbn. rewrite Er, !Forall_singleton. intros [_ Hf].
  split; [done|]. unfold rdata_fits in *. repeat (case_match; try done).
Qed.

(** ** Lookups *)

(** A flagged node met on the way to a name. *)
Definition zone_cut (n : Name) t d (ns : option nat) : Prop :=
  ∃ m x, (m, x) ∈ zt_path n t ∧ zn_callback x = true ∧ zn_data x = Some d ∧ d !! RR_NS = Some ns.

Lemma zoneCutCallback_Ret opt x st st' stop :
  zoneCutCallback opt x st = Ret (st', stop) →
  ∃ d ns, zn_data x = Some d ∧ d !! RR_NS = Some ns ∧
    match st with
    | Some _ => st' = st ∧ stop = false
    | None => st' = Some (d, ns) ∧ stop = bool_decide (opt ≠ GlueOkFind)
    end.
Proof.
  unfold zoneCutCallback. destruct (zn_data x) as [d|]; [|done]. cbn [from_option_panic].
  rewrite bind_Ret. destruct (d !! RR_NS) as [ns|] eqn:E; [|done]. cbn [from_option_panic].
  rewrite bind_Ret. intros Hr. exists d, ns. destruct st; injection Hr as <- <-; done.
Qed.

Lemma run_callbacks_cut opt path st st' stopped :
  run_callbacks (zoneCutCallback opt) path st = Ret (st', stopped) →
  (st' = st ∨ ∃ m x d ns, (m, x) ∈ path ∧ zn_callback x = true ∧ zn_data x = Some d ∧
                          d !! RR_NS = Some ns ∧ st' = Some (d, ns)) ∧
  (is_Some stopped → is_Some st').
Proof.
  revert st. induction path as [|[m x] path IH]; intros st; cbn [run_callbacks].
  - intros [= <- <-]. split; [by left|by intros []].
  - assert (∀ st, run_callbacks (zoneCutCallback opt) path st = Ret (st', stopped) →
      (st' = st ∨ ∃ m' y d ns, (m', y) ∈ (m, x) :: path ∧ zn_callback y = true ∧
         zn_data y = Some d ∧ d !! RR_NS = Some ns ∧ st' = Some (d, ns)) ∧
      (is_Some stopped → is_Some st')) as IH'.
    { intros st1 E. destruct (IH _ E) as [[->|(m' & y & d & ns & Hin & ?)] Hs]; [by auto|].
      split; [|done]. right. exists m', y, d, ns. split; [by right|done]. }
    destruct (zn_callback x) eqn:Ecb; [|apply IH'].
    destruct (zoneCutCallback opt x st) as [[st1 stop]| |] eqn:Ez; [|done..]. rewrite bind_Ret.
    apply zoneCutCallback_Ret in Ez as (d & ns & Ed & Ens & Ez).
    assert (st1 = st ∨ ∃ m' y d' ns', (m', y) ∈ (m, x) :: path ∧ zn_callback y = true ∧
         zn_data y = Some d' ∧ d' !! RR_NS = Some ns' ∧ st1 = Some (d', ns')) as Hst1.
    { destruct st; [left; apply Ez|right]. exists m, x, d, ns. split_and!; [by left|done..|apply Ez]. }
    destruct stop; [|intros E; destruct (IH' _ E) as [[->|Hr] Hs]; auto].
    intros [= <- <-]. split; [done|]. destruct st; [naive_solver|]. destruct Ez as [-> _]. eauto.
Qed.

(** What a search finds, given what its callbacks did. *)
Lemma SearchExt_cases opt n t st found :
  zt_SearchExt n (zoneCutCallback opt) None t = Ret (st, found) →
  (∀ d ns, st = Some (d, ns) → zone_cut n t d ns) ∧
  match found with
  | ZExact x => zt_node n t = Some x
  | ZPartial m x _ =>
      zt_node m t = Some x ∧ (st = None → zt_node n t = None)
  | ZNotFound => zt_node n t = None
  end.
Proof.
  rewrite zt_SearchExt_eq.
  destruct (run_callbacks _ _ _) as [[st1 stopped]| |] eqn:Er; [|done..]. rewrite bind_Ret.
  pose proof Er as Hcut. apply run_callbacks_cut in Hcut as [Hcut Hst]. intros [= -> <-]. split.
  { intros d ns ->. destruct Hcut as [?|(m & x & d' & ns' & ? & ? & ? & ? & [= <- <-])]; [done|].
    by exists m, x. }
  destruct stopped as [[m x]|] eqn:Es.
  - split; [|intros ->; by destruct Hst]. clear -Er ZL.
    assert ((m, x) ∈ zt_path n t) as Hin; [|by apply zt_path_sound in Hin as (? & _)].
    revert Er. generalize (None : find_state). induction (zt_path n t) as [|[k y] path IH];
      intros s; cbn [run_callbacks]; [done|].
    destruct (zn_callback y); [|intros E; right; eauto].
    destruct (zoneCutCallback _ _ _) as [[s' stop]| |]; [|done..]. rewrite bind_Ret.
    destruct stop; [intros [= <- <- <-]; by left|intros E; right; eauto].
  - destruct (zt_node n t) as [x|] eqn:En; [done|].
    destruct (last (zt_path n t)) as [[m x]|] eqn:El; [|done]. split; [|done].
    apply last_Some_elem_of, zt_path_sound in El as (? & _). done.
Qed.

(** What the parts of a result mean for a question. *)
Definition result_sound h z (name : Name) (typ : RRType) (res : FindResult) : Prop :=
  match fr_Type res with
  | FRSuccess =>
      match fr_RRset res with
      | Some l => ∃ r, h !! l = Some r ∧ rr_type r = typ ∧ rr_name r ≈ name
      | None => name ≈ mz_origin z ∧ (typ = RR_SOA ∨ typ = RR_NS)
      end
  | FRCname =>
      (∃ l r, fr_RRset res = Some l ∧ h !! l = Some r ∧ rr_type r = RR_CNAME ∧ rr_name r ≈ name) ∧
      ∀ d, node_data name (mz_domains z) = Some d → d !! typ = None
  | FRDelegation =>
      ∃ l r, fr_RRset res = Some l ∧ h !! l = Some r ∧ rr_type r = RR_NS ∧
             Name_IsSubDomain name (rr_name r) = true ∧
             Name_IsSubDomain (rr_name r) (mz_origin z) = true ∧
             Name_Equals (rr_name r) (mz_origin z) = false
  | FRNXDomain | FRNXRRset =>
      fr_RRset res = None ∧
      ∀ d, node_data name (mz_domains z) = Some d → d !! typ = None ∧ d !! RR_CNAME = None
  | FRServFail => False
  end.

Lemma cut_delegation h z n m x d ns node h' res :
  zone_wf h z → zt_node m (mz_domains z) = Some x → zn_callback x = true →
  zn_data x = Some d → d !! RR_NS = Some ns → Name_IsSubDomain n m = true →
  Ret (h, mkFindResult FRDelegation ns, Some d) = Ret (h', res, node) →
  ∀ typ, result_sound h' z n typ res.
Proof.
  intros Hz Ex Hcb Ed Ens Hsub [= <- <- <-] typ. cbn.
  assert (node_data m (mz_domains z) = Some d) as Em by (unfold node_data; by rewrite Ex).
  pose proof (tk_node _ _ _ Hz _ _ Em) as [Hin _ He].
  assert (Name_Equals m (mz_origin z) = false) as Hne.
  { destruct (Name_Equals m (mz_origin z)) eqn:E; [|done].
    rewrite (zt_node_Equals _ _ _ E) in Ex. apply (tk_apex _ _ _ Hz) in Ex. congruence. }
  specialize (He _ _ Ens). destruct ns as [l|]; [|destruct He as [Ho _]; unfold name_eq in Ho; congruence].
  destruct He as (r & ? & ? & Hr). exists l, r. by rewrite Hr.
Qed.

Lemma synthesize_spec h name l h' res node rt :
  synthesize name rt l h = Ret (h', res, node) →
  rr_le h h' ∧ fr_Type res = rt ∧
  ∃ l0 r l', l = Some l0 ∧ h !! l0 = Some r ∧ fr_RRset res = Some l' ∧ h' !! l' = Some (set_rr_name name r).
Proof.
  unfold synthesize. destruct l as [l|]; [|done]. unfold deref_rr. cbn [from_option_panic].
  rewrite bind_Ret. destruct (h !! l) as [r|] eqn:El; [|done]. cbn [from_option_panic].
  rewrite bind_Ret. destruct (alloc_rr _ h) as [l' h1] eqn:Ea. intros [= <- <- <-].
  apply alloc_rr_spec in Ea as (? & _ & ?); [naive_solver|]. intros Hh. exact (Hh l r El).
Qed.

Lemma find_le h z name typ opt h' res node :
  MemoryZone_find name typ opt h z = Ret (h', res, node) → rr_le h h'.
Proof.
  unfold MemoryZone_find. destruct (zt_SearchExt _ _ _ _) as [[st found]| |]; [|done..].
  rewrite bind_Ret. destruct found as [x|m x super|]; [| |by intros [= <- _ _]].
  - destruct (zn_data x) as [d|]; [|by intros [= <- _ _]].
    destruct (if zn_callback x && _ then d !! RR_NS else None); by intros [= <- _ _].
  - destruct st as [[d ns]|]; [by intros [= <- _ _]|]. destruct super; [by intros [= <- _ _]|].
    destruct (zn_wildcard x); [|by intros [= <- _ _]].
    destruct (zt_node _ _) as [w|]; [|done]. cbn [from_option_panic]. rewrite bind_Ret.
    destruct (zn_data w) as [d|]; [|done]. cbn [from_option_panic]. rewrite bind_Ret.
    destruct (d !! typ); [|destruct (d !! RR_CNAME)]; [..|by intros [= <- _ _]];
      intros E; by apply synthesize_spec in E as [? _].
Qed.

Lemma wildcard_sound h z name typ m x h' res node :
  zone_wf h z → zt_node name (mz_domains z) = None →
  (w ← from_option_panic "wildcard isn't correct marked" (zt_node (Name_star m) (mz_domains z));
   nameNode ← from_option_panic "interface conversion: nil is not NameNode" (zn_data w);
   match nameNode !! typ, nameNode !! RR_CNAME with
   | Some l, _ => synthesize name FRSuccess l h
   | None, Some l => synthesize name FRCname l h
   | None, None => Ret (h, mkFindResult FRNXRRset None, x)
   end) = Ret (h', res, node) →
  result_sound h' z name typ res.
Proof.
  intros Hz Hnone. assert (node_data name (mz_domains z) = None) as Hnd
    by (unfold node_data; by rewrite Hnone).
  destruct (zt_node (Name_star m) (mz_domains z)) as [w|] eqn:Ew; [|done].
  cbn [from_option_panic]. rewrite bind_Ret.
  destruct (zn_data w) as [d|] eqn:Ed; [|done]. cbn [from_option_panic]. rewrite bind_Ret.
  assert (node_data (Name_star m) (mz_domains z) = Some d) as Ewd
    by (unfold node_data; by rewrite Ew).
  assert (∀ k l0 r, d !! k = Some (Some l0) → h !! l0 = Some r → rr_type r = k) as Hk.
  { intros k l0 r Ek Er. apply (nk_entry _ _ _ _ (tk_node _ _ _ Hz _ _ Ewd)) in Ek.
    destruct Ek as (r' & Er' & ? & _). by simplify_eq. }
  unfold result_sound. destruct (d !! typ) as [l|] eqn:El.
  - intros E. apply synthesize_spec in E as (_ & -> & l0 & r & l' & -> & Er & -> & Er').
    eexists. split; [done|]. cbn. split; [by eapply Hk|reflexivity].
  - destruct (d !! RR_CNAME) as [l|] eqn:Ec.
    + intros E. apply synthesize_spec in E as (_ & -> & l0 & r & l' & -> & Er & -> & Er').
      split; [|by rewrite Hnd]. eexists _, _. split_and!; [done..|exact (Hk RR_CNAME l0 r Ec Er)|cbn; reflexivity].
    + intros [= <- <- <-]. cbn. split; [done|]. by rewrite Hnd.
Qed.

Lemma exact_sound h z name typ x h' res node d :
  zone_wf h z → zt_node name (mz_domains z) = Some x → zn_data x = Some d →
  Ret (h, match d !! typ, d !! RR_CNAME with
          | Some l, _ => mkFindResult FRSuccess l
          | None, Some l => mkFindResult FRCname l
          | None, None => mkFindResult FRNXRRset None
          end, Some d) = Ret (h', res, node) →
  result_sound h' z name typ res.
Proof.
  intros Hz Ex Ed. assert (node_data name (mz_domains z) = Some d) as En
    by (unfold node_data; by rewrite Ex).
  pose proof (tk_node _ _ _ Hz _ _ En) as [_ _ He]. intros [= <- <- <-]. unfold result_sound.
  destruct (d !! typ) as [l|] eqn:El; [by apply He in El|]. rewrite En.
  destruct (d !! RR_CNAME) as [l|] eqn:Ec; cbn; [|naive_solver].
  apply He in Ec. destruct l as [l|]; [|by destruct Ec as [_ []]].
  destruct Ec as (r & ? & ? & ?). split; [|naive_solver]. by exists l, r.
Qed.

Lemma find_sound h z name typ opt h' res node :
  zone_wf h z → MemoryZone_find name typ opt h z = Ret (h', res, node) →
  result_sound h' z name typ res.
Proof.
  intros Hz. unfold MemoryZone_find.
  destruct (zt_SearchExt _ _ _ _) as [[st found]| |] eqn:Es; [|done..]. rewrite bind_Ret.
  apply SearchExt_cases in Es as [Hcut Hf].
  destruct found as [x|m x super|].
  - destruct (zn_data x) as [d|] eqn:Ed.
    + destruct (zn_callback x && negb (Name_Equals name (mz_origin z))) eqn:Ec;
        [|by eapply exact_sound].
      apply andb_true_iff in Ec as [Hcb _].
      destruct (d !! RR_NS) as [ns|] eqn:Ens; [|by eapply exact_sound].
      intros E. eapply cut_delegation; eauto using IsSubDomain_refl.
    + intros [= <- <- <-]. unfold result_sound. assert (node_data name (mz_domains z) = None) as ->
        by (unfold node_data; by rewrite Hf).
      cbn. by destruct (zt_below _ _).
  - destruct Hf as [Hm Hn]. destruct st as [[d ns]|].
    + destruct (Hcut _ _ eq_refl) as (k & y & Hin & Hcb & Ed & Ens).
      apply zt_path_sound in Hin as (Hk & Hsub & _).
      intros E. eapply cut_delegation; eauto.
    + specialize (Hn eq_refl). assert (node_data name (mz_domains z) = None) as Hnd
        by (unfold node_data; by rewrite Hn).
      destruct super; [intros [= <- <- <-]; unfold result_sound; cbn; by rewrite Hnd|].
      destruct (zn_wildcard x); [by eapply wildcard_sound|].
      intros [= <- <- <-]; unfold result_sound; cbn; by rewrite Hnd.
  - intros [= <- <- <-]; unfold result_sound; cbn. unfold node_data. by rewrite Hf.
Qed.

Lemma result_sound_mono h h' z name typ res :
  rr_le h h' → result_sound h z name typ res → result_sound h' z name typ res.
Proof.
  intros [Hle _]. unfold result_sound. destruct (fr_Type res); [| |done..| |done].
  - destruct (fr_RRset res) as [l|]; [|done]. intros (r & E & ? & ?).
    destruct (Hle _ _ E) as (r' & ? & Hn & ?). exists r'. rewrite Hn. naive_solver congruence.
  - intros (l & r & ? & E & ? & ? & ? & ?). destruct (Hle _ _ E) as (r' & ? & Hn & ?).
    exists l, r'. rewrite Hn. naive_solver congruence.
  - intros [(l & r & ? & E & ? & ?) Hno]. split; [|done].
    destruct (Hle _ _ E) as (r' & ? & Hn & ?). exists l, r'. rewrite Hn. naive_solver congruence.
Qed.

Lemma getAdditioanlAddrs_le name h z h' ls : getAdditioanlAddrs name h z = Ret (h', ls) → rr_le h h'.
Proof.
  unfold getAdditioanlAddrs. destruct (MemoryZone_find _ _ _ _ _) as [[[h1 res] node]| |] eqn:E; [|done..].
  rewrite bind_Ret. intros [= <- _]. by eapply find_le.
Qed.

Lemma additional_addrs_le typ rds h z h' ls : additional_addrs typ rds h z = Ret (h', ls) → rr_le h h'.
Proof.
  revert h ls. induction rds as [|rd rds IH]; intros h ls; cbn [additional_addrs]; [by intros [= <- _]|].
  destruct (additional_name typ rd) as [n| |]; [|done..]. rewrite bind_Ret.
  lazymatch goal with |- mbind _ ?x = _ → _ => destruct x as [[h1 as1]| |] eqn:E1; [|done..] end.
  rewrite bind_Ret. destruct (additional_addrs typ rds h1 z) as [[h2 as2]| |] eqn:E2; [|done..].
  rewrite bind_Ret. intros [= <- _]. apply IH in E2. etrans; [|exact E2].
  destruct n; [by eapply getAdditioanlAddrs_le|by simplify_eq].
Qed.

Lemma rotate_all_le ls h h' : rotate_all ls h = Ret h' → rr_le h h'.
Proof.
  revert h. induction ls as [|l ls IH]; intros h; cbn [rotate_all]; [by intros [= <-]|].
  destruct (rotate_rr l h) as [h1| |] eqn:E; [|done..]. rewrite bind_Ret. intros E'.
  etrans; [by eapply rotate_rr_le|by apply IH].
Qed.

Lemma FinderCtx_GetAdditional_le ctx h h' ls :
  FinderCtx_GetAdditional ctx h = Ret (h', ls) → rr_le h h'.
Proof.
  unfold FinderCtx_GetAdditional. destruct (fc_finder ctx) as [z|]; [|by intros [= <- _]].
  destruct (GetAdditional _ h z) as [[h1 rrs]| |] eqn:E; [|done..]. rewrite bind_Ret.
  destruct (rotate_all rrs h1) as [h2| |] eqn:E2; [|done..]. rewrite bind_Ret. intros [= <- _].
  etrans; [|by eapply rotate_all_le]. unfold GetAdditional in E.
  destruct (fr_RRset _) as [l|]; [|by simplify_eq].
  destruct (deref_rr _ h) as [r| |]; [|done..]. by eapply additional_addrs_le.
Qed.

Lemma DynamicZone_Find_spec name typ opt h dz h' ctx :
  DynamicZone_Find name typ opt h dz = Ret (h', ctx) → zone_wf h (dz_zone dz) →
  rr_le h h' ∧
  if isEmpty (dz_zone dz) then ctx = mkFinderCtx (mkFindResult FRServFail None) None
  else result_sound h' (dz_zone dz) name typ (fc_result ctx) ∧ fc_finder ctx = Some (dz_zone dz).
Proof.
  intros E Hz. unfold DynamicZone_Find in E.
  destruct (isEmpty _); [by injection E as <- <-|].
  destruct (MemoryZone_find _ _ _ _ _) as [[[h1 res] node]| |] eqn:Ef; [|done..]. rewrite bind_Ret in E.
  lazymatch type of E with mbind _ ?x = _ => destruct x as [h2| |] eqn:Er; [|done..] end.
  rewrite bind_Ret in E. injection E as <- <-.
  assert (rr_le h1 h2) as Hle.
  { destruct (fr_RRset res); [by eapply rotate_rr_le|by injection Er as <-]. }
  pose proof (find_le _ _ _ _ _ _ _ _ Ef). apply find_sound in Ef; [|done].
  split; [by etrans|]. split; [|done]. by eapply result_sound_mono.
Qed.

Lemma new_zone_wf h o : zone_wf h (newMemoryZone o).
Proof.
  unfold zone_wf, newMemoryZone, newWithDomains. cbn. apply tree_ok_Insert. split.
  - intros n d. unfold node_data. by rewrite zt_node_New.
  - intros x. by rewrite zt_node_New.
Qed.

Lemma load_rrs_ok events h z h' res :
  zone_wf h z → load_rrs events h z = Ret (h', res) →
  rr_le h h' ∧ ∀ z', res = inr z' → mz_origin z' = mz_origin z ∧ zone_wf h' z'.
Proof.
  revert h z. induction events as [|[|l] events IH]; intros h z Hz; cbn [load_rrs];
    [intros [= <- <-]; split; [done|]; naive_solver|intros [= <- <-]; done|].
  destruct (addRRset l h z) as [[[h1 z1] err]| |] eqn:Ea; [|done..]. rewrite bind_Ret.
  apply addRRset_ok in Ea as (Hle & Ho & Hz1); [|done].
  assert (load_rrs events h1 z1 = Ret (h', res) →
    rr_le h h' ∧ ∀ z', res = inr z' → mz_origin z' = mz_origin z ∧ zone_wf h' z') as Hrec.
  { intros E. destruct (IH _ _ Hz1 E) as [? Hr]. split; [by etrans|].
    intros z' E'. destruct (Hr z' E'). split; [congruence|done]. }
  destruct err as [err|]; [|done].
  case_bool_decide; [|intros [= <- <-]; done].
  destruct (deref_rr _ h1) as [r| |]; [|done..]. rewrite bind_Ret.
  destruct (index _ _); [|done..]. done.
Qed.

Lemma Load_ok events h dz h' dz' err :
  zone_wf h (dz_zone dz) → DynamicZone_Load events h dz = Ret (h', dz', err) →
  rr_le h h' ∧ mz_origin (dz_zone dz') = mz_origin (dz_zone dz) ∧ zone_wf h' (dz_zone dz') ∧
  (dz' = dz ∨ validate (dz_zone dz') = None).
Proof.
  intros Hz. unfold DynamicZone_Load.
  destruct (load_rrs _ _ _) as [[h1 res]| |] eqn:El; [|done..]. rewrite bind_Ret.
  apply load_rrs_ok in El as [Hle Hres]; [|apply new_zone_wf].
  assert (zone_wf h1 (dz_zone dz)) by by eapply tree_ok_mono.
  destruct res as [e|z]; [intros [= <- <- <-]; auto|]. destruct (Hres z eq_refl).
  destruct (validate z) eqn:Ev; intros [= <- <- <-]; auto.
Qed.
End wf.
