(* ===== verification/ZoneSpec.v ===== *)
(** * Zones over time

    A zone, the transaction that may be open on it and the store of record sets
    form a state; loading, lookups and the operations of a transaction are its
    steps.  What holds in every reachable state, what a loaded zone guarantees, and
    what goes wrong when name servers are deleted or a transaction fails. *)

From S2P Require Import Prelude GoStd G53 Instances Core Cement Acl Zone ZoneInv.

Local Open Scope Z_scope.

Section run.
Context {N : G53Name} {NL : G53NameLaws N} {M : G53Msg N} {ML : G53MsgLaws M}
  {ZT : ZoneTree N} {ZL : ZoneTreeLaws ZT}.
Implicit Types (h : gmap nat RRset) (r : RRset) (z tmp : MemoryZone) (dz : DynamicZone).

(** ** The steps of a zone *)

Record ZState : Type := mkZState {
  zs_heap : gmap nat RRset;
  zs_live : DynamicZone;
  zs_tx : option MemoryZone;
}.

(** The write lock is held while a transaction is open. *)
Inductive zone_step : ZState → ZState → Prop :=
  | zstep_receive h dz tx r l h' :
      rr_ok r → alloc_rr r h = (l, h') → zone_step (mkZState h dz tx) (mkZState h' dz tx)
  | zstep_load events h dz h' dz' err :
      DynamicZone_Load events h dz = Ret (h', dz', err) →
      zone_step (mkZState h dz None) (mkZState h' dz' None)
  | zstep_find name typ opt h dz h' ctx :
      DynamicZone_Find name typ opt h dz = Ret (h', ctx) →
      zone_step (mkZState h dz None) (mkZState h' dz None)
  | zstep_additional ctx h dz h' rrsets :
      FinderCtx_GetAdditional ctx h = Ret (h', rrsets) →
      zone_step (mkZState h dz None) (mkZState h' dz None)
  | zstep_begin h dz : zone_step (mkZState h dz None) (mkZState h dz (Some (Begin dz)))
  | zstep_add l h dz tmp h' tmp' err :
      addRRset l h tmp = Ret (h', tmp', err) →
      zone_step (mkZState h dz (Some tmp)) (mkZState h' dz (Some tmp'))
  | zstep_delete_rrset r h dz tmp tmp' err :
      deleteRRset r h tmp = Ret (tmp', err) →
      zone_step (mkZState h dz (Some tmp)) (mkZState h dz (Some tmp'))
  | zstep_delete_domain n h dz tmp tmp' err :
      deleteDomain n tmp = Ret (tmp', err) →
      zone_step (mkZState h dz (Some tmp)) (mkZState h dz (Some tmp'))
  | zstep_delete_rr r h dz tmp h' tmp' err :
      deleteRr r h tmp = Ret (h', tmp', err) →
      zone_step (mkZState h dz (Some tmp)) (mkZState h' dz (Some tmp'))
  | zstep_serial h dz tmp h' :
      increaseSerialNumber h tmp = Ret h' →
      zone_step (mkZState h dz (Some tmp)) (mkZState h' dz (Some tmp))
  | zstep_commit h dz tmp :
      zone_step (mkZState h dz (Some tmp)) (mkZState h (Commit tmp dz).1 None)
  | zstep_rollback h dz tmp :
      zone_step (mkZState h dz (Some tmp)) (mkZState h (RollBack dz) None).

Record zone_inv (o : Name) (s : ZState) : Prop := {
  zi_heap : heap_ok (zs_heap s);
  zi_origin : mz_origin (dz_zone (zs_live s)) = o;
  zi_live : zone_wf (zs_heap s) (dz_zone (zs_live s));
  zi_valid : isEmpty (dz_zone (zs_live s)) = true ∨ validate (dz_zone (zs_live s)) = None;
  zi_tx tmp : zs_tx s = Some tmp → mz_origin tmp = o ∧ zone_wf (zs_heap s) tmp;
}.

(** A step that only touches the store. *)
Lemma zone_inv_heap o h h' dz tx :
  rr_le h h' → zone_inv o (mkZState h dz tx) → zone_inv o (mkZState h' dz tx).
Proof.
  intros Hle [Hh Ho Hl Hv Ht]. split; cbn in *; [by apply Hle|done|by eapply tree_ok_mono|done|].
  intros tmp E. destruct (Ht tmp E). split; [done|by eapply tree_ok_mono].
Qed.

(** A step on the open transaction. *)
Lemma zone_inv_tx o h h' dz tmp tmp' :
  rr_le h h' → mz_origin tmp' = mz_origin tmp → zone_wf h' tmp' →
  zone_inv o (mkZState h dz (Some tmp)) → zone_inv o (mkZState h' dz (Some tmp')).
Proof.
  intros Hle Eo Hw Hi. pose proof (zi_tx _ _ Hi tmp eq_refl) as [Ho _].
  apply (zone_inv_heap _ _ h') in Hi; [|done]. destruct Hi as [? ? ? ? _]. split; [done..|].
  intros t' [= <-]. split; [congruence|done].
Qed.

Lemma zone_step_inv o s s' : zone_inv o s → zone_step s s' → zone_inv o s'.
Proof.
  intros Hi Hs. destruct Hs as
    [h dz tx r l h' Hr E|events h dz h' dz' err E|name typ opt h dz h' ctx E|ctx h dz h' ls E
    |h dz|l h dz tmp h' tmp' err E|r h dz tmp tmp' err E|n h dz tmp tmp' err E
    |r h dz tmp h' tmp' err E|h dz tmp h' E|h dz tmp|h dz tmp];
    try (pose proof (zi_tx _ _ Hi tmp eq_refl) as [Ho Hw]).
  - apply alloc_rr_spec in E as [? _]; [|done]. by eapply zone_inv_heap.
  - apply Load_ok in E as (Hle & Eo & Hz & Hv); [|apply Hi].
    apply (zone_inv_heap _ _ h') in Hi; [|done]. destruct Hi as [? ? ? ? _].
    split; cbn in *; [done|congruence|done| |done]. destruct Hv as [->|]; auto.
  - apply DynamicZone_Find_spec in E as [? _]; [|apply Hi]. by eapply zone_inv_heap.
  - apply FinderCtx_GetAdditional_le in E. by eapply zone_inv_heap.
  - destruct Hi as [? ? Hl ? _]. split; [done..|]. intros tmp [= <-]. split; [done|].
    by apply tree_ok_Insert.
  - apply addRRset_ok in E as (? & ? & ?); [|done]. by eapply zone_inv_tx.
  - apply deleteRRset_ok with (h := h) in E as (? & ?); [|done]. by eapply zone_inv_tx.
  - apply deleteDomain_ok with (h := h) in E as (? & ?); [|done]. by eapply zone_inv_tx.
  - apply deleteRr_ok in E as (? & ? & ?); [|done]. by eapply zone_inv_tx.
  - apply increaseSerialNumber_le in E. by eapply zone_inv_heap.
  - destruct Hi as [? ? ? ? _]. unfold Commit. destruct (validate tmp) eqn:Ev; split; cbn in *; auto; done.
  - destruct Hi as [? ? ? ? _]. by split.
Qed.

Lemma zone_inv_new o : zone_inv o (mkZState ∅ (NewDynamicZone o) None).
Proof.
  split; cbn; [apply map_Forall_empty|done|apply new_zone_wf| |done].
  left. apply bool_decide_eq_true. unfold origin_data. cbn. rewrite node_data_Insert.
  unfold node_data. by rewrite zt_node_New.
Qed.

Lemma zone_reachable o s : rtc zone_step (mkZState ∅ (NewDynamicZone o) None) s → zone_inv o s.
Proof.
  intros Hr. pose proof (zone_inv_new o) as Hi. induction Hr; eauto using zone_step_inv.
Qed.

(** C7: However a zone was loaded and updated, its live data and the data of an
    open transaction are well formed: a name with data lies in the zone, an alias
    has no other record set beside it, every record set is stored under its own
    name and type with rdata of that type (nil only for the origin's SOA and NS),
    and the live zone is empty or has SOA and NS entries at its origin. *)
Theorem zone_reachable_wf (o : Name) (s : ZState) :
  rtc zone_step (mkZState ∅ (NewDynamicZone o) None) s →
  heap_ok (zs_heap s) ∧
  (isEmpty (dz_zone (zs_live s)) = true ∨ validate (dz_zone (zs_live s)) = None) ∧
  ∀ z, z = dz_zone (zs_live s) ∨ zs_tx s = Some z →
  ∀ n d, node_data n (mz_domains z) = Some d →
    Name_IsSubDomain n o = true ∧
    (is_Some (d !! RR_CNAME) → ∃ e, d = {[RR_CNAME := e]}) ∧
    (∀ typ l, d !! typ = Some (Some l) →
       ∃ r, zs_heap s !! l = Some r ∧ rr_type r = typ ∧ rr_name r ≈ n ∧ rr_ok r) ∧
    (∀ typ, d !! typ = Some None → n ≈ o ∧ (typ = RR_SOA ∨ typ = RR_NS)).
Proof.
  intros Hr%zone_reachable. split_and!; [apply Hr..|]. intros z Hz n d Ed.
  assert (mz_origin z = o ∧ zone_wf (zs_heap s) z) as [<- Hw].
  { destruct Hz as [->|E]; [by split; apply Hr|by apply (zi_tx _ _ Hr)]. }
  pose proof (tk_node _ _ _ Hw _ _ Ed) as [Hin Hc He]. split_and!; [done| | |].
  - intros [e Ee]. exists e. apply map_eq. intros typ. destruct (decide (typ = RR_CNAME)) as [->|Hne].
    + by rewrite lookup_singleton_eq.
    + rewrite lookup_singleton_ne by done. apply eq_None_not_Some. intros H. apply Hne; eauto.
  - intros typ l El. destruct (He _ _ El) as (r & Er & ? & ?). exists r. split_and!; [done..|].
    by apply (zi_heap _ _ Hr) in Er.
  - intros typ El. apply (He _ _ El).
Qed.

(** C19: In every state a zone reaches, whatever a lookup returns is sound: a
    success is a record set of the name and type asked for (taken from the name or
    made from a wildcard), an alias is returned only when the name has no data of
    the type, a delegation is an NS set of a name strictly below the origin that
    encloses the name asked for, a negative answer means that the name has neither
    data of the type nor an alias, and an empty zone fails. *)
Theorem zone_find_sound (o : Name) (s : ZState) name typ opt h' ctx :
  rtc zone_step (mkZState ∅ (NewDynamicZone o) None) s →
  DynamicZone_Find name typ opt (zs_heap s) (zs_live s) = Ret (h', ctx) →
  if isEmpty (dz_zone (zs_live s)) then fr_Type (fc_result ctx) = FRServFail
  else result_sound h' (dz_zone (zs_live s)) name typ (fc_result ctx).
Proof.
  intros Hr%zone_reachable E. apply DynamicZone_Find_spec in E as [_ E]; [|apply Hr].
  destruct (isEmpty _); [by subst ctx|apply E].
Qed.

(** ** Zones without deletions *)

Implicit Types (t : ztree (gmap Z (option nat))) (d : gmap Z (option nat)).

(** Flagged nodes have name servers, marked nodes have a wildcard below them, and
    no entry is nil. *)
Record zone_flags t : Prop := {
  fl_callback n x : zt_node n t = Some x → zn_callback x = true →
    ∃ d, zn_data x = Some d ∧ is_Some (d !! RR_NS);
  fl_wildcard n x : zt_node n t = Some x → zn_wildcard x = true →
    is_Some (node_data (Name_star n) t);
  fl_entry n d typ : node_data n t = Some d → d !! typ ≠ Some None;
}.

Lemma flags_Insert n t : zone_flags t → zone_flags (zt_Insert n t).
Proof.
  intros [Hc Hw He]. split.
  - intros m x Ex. destruct (zt_node m t) as [y|] eqn:Ey.
    + rewrite (zt_Insert_old _ _ _ _ Ey) in Ex. simplify_eq. by eapply Hc.
    + by rewrite (zt_Insert_new _ _ _ _ Ey Ex).
  - intros m x Ex. rewrite node_data_Insert. destruct (zt_node m t) as [y|] eqn:Ey.
    + rewrite (zt_Insert_old _ _ _ _ Ey) in Ex. simplify_eq. by eapply Hw.
    + by rewrite (zt_Insert_new _ _ _ _ Ey Ex).
  - intros m d typ. rewrite node_data_Insert. apply He.
Qed.

Lemma flags_set n d t :
  zone_flags t → (∀ d0, node_data n t = Some d0 → is_Some (d0 !! RR_NS) → is_Some (d !! RR_NS)) →
  (∀ typ, d !! typ ≠ Some None) → zone_flags (zt_alter (set_data d) n t).
Proof.
  intros [Hc Hw He] Hns Hnil. split.
  - intros m x. rewrite zt_alter_node. destruct (Name_Equals n m) eqn:E; [|apply Hc].
    destruct (zt_node m t) as [y|] eqn:Ey; [|done]. intros [= <-]. cbn. intros Hcb.
    destruct (Hc _ _ Ey Hcb) as (d0 & Ed0 & Hd0). exists d. split; [done|].
    apply (Hns d0); [|done]. rewrite (node_data_proper n m) by done. unfold node_data. by rewrite Ey.
  - intros m x. rewrite zt_alter_node. intros Ex Hwx.
    assert (is_Some (node_data (Name_star m) t)) as [d0 Hd0].
    { destruct (Name_Equals n m); [|by eapply Hw]. destruct (zt_node m t) as [y|] eqn:Ey; [|done].
      injection Ex as <-. by eapply Hw. }
    unfold node_data in *. rewrite zt_alter_node. destruct (zt_node (Name_star m) t); [|done].
    destruct (Name_Equals n (Name_star m)); [by eexists|by eexists].
  - intros m d' typ [[_ ->]|[_ E]]%node_data_set; [apply Hnil|by eapply He].
Qed.

Lemma flags_callback n d t :
  zone_flags t → node_data n t = Some d → is_Some (d !! RR_NS) →
  zone_flags (zt_alter set_callback n t).
Proof.
  intros [Hc Hw He] Ed Hns. split.
  - intros m x. rewrite zt_alter_node. destruct (Name_Equals n m) eqn:E; [|apply Hc].
    rewrite (node_data_proper n m) in Ed by done. unfold node_data in Ed.
    destruct (zt_node m t) as [y|]; [|done]. intros [= <-] _. eauto.
  - intros m x. rewrite zt_alter_node. intros Ex Hwx. rewrite node_data_alter by done.
    destruct (Name_Equals n m); [|by eapply Hw]. destruct (zt_node m t) as [y|] eqn:Ey; [|done].
    injection Ex as <-. by eapply Hw.
  - intros m d' typ. rewrite node_data_alter by done. apply He.
Qed.

Lemma flags_mark n t t' :
  zone_flags t → Name_IsWildCard n = true → is_Some (node_data n t) →
  markWildcardParent n t = Ret t' → zone_flags t'.
Proof.
  intros Hf Hwild Hd. unfold markWildcardParent. destruct (Name_Parent n) as [p|] eqn:Ep; [|done].
  cbn. intros [= <-]. apply (flags_Insert p) in Hf as [Hc Hw He]. split.
  - intros m x. rewrite zt_alter_node. destruct (Name_Equals p m); [|apply Hc].
    destruct (zt_node m (zt_Insert p t)) as [y|] eqn:Ey; [|done]. intros [= <-]. cbn. by eapply Hc.
  - intros m x. rewrite zt_alter_node. rewrite node_data_alter by done.
    destruct (Name_Equals p m) eqn:E; [|apply Hw]. intros _ _. rewrite node_data_Insert.
    rewrite (node_data_proper _ n); [done|].
    rewrite <- (Name_star_Equals p m E). by apply Name_star_Parent.
  - intros m d typ. rewrite node_data_alter by done. apply He.
Qed.

Lemma flags_flag_node r z t d t' :
  zone_flags t → node_data (rr_name r) t = Some d → is_Some (d !! rr_type r) →
  flag_node r z t = Ret t' → zone_flags t'.
Proof.
  intros Hf Ed Hr. unfold flag_node. set (t1 := if _ && _ then _ else t).
  assert (zone_flags t1 ∧ node_data (rr_name r) t1 = Some d) as [H1 Ed1].
  { unfold t1. destruct (rr_type r =? RR_NS) eqn:Et; [|done]. cbn [andb]. zbool.
    destruct (negb _); [|done]. rewrite node_data_alter by done. split; [|done].
    eapply flags_callback; [done..|]. by rewrite <- Et. }
  destruct (Name_IsWildCard (rr_name r)) eqn:Ew; [|intros [= <-]; done].
  by eapply flags_mark.
Qed.

(** Adding to a node keeps its entries and adds one for the type. *)
Lemma add_to_node_keys l r d h h' d' :
  add_to_node l r d h = Ret (h', inr d') → ∃ l', d' = <[rr_type r := Some l']> d.
Proof.
  unfold add_to_node. destruct (checkRRsetCouldBeAdded d r); [done|].
  destruct (rr_type r =? RR_SOA).
  - destruct (mjoin (d !! RR_SOA)); [|by intros [= _ <-]; eexists].
    destruct (deref_rr _ h) as [o| |]; [|done..]. rewrite bind_Ret.
    destruct (first_serial o) as [a| |]; [|done..]. rewrite bind_Ret.
    destruct (first_serial r) as [b| |]; [|done..]. rewrite bind_Ret.
    destruct (b <=? a); [done|]. intros [= _ <-]. by eexists.
  - destruct (d !! rr_type r) as [old|]; [|by intros [= _ <-]; eexists].
    destruct (rr_type r =? RR_CNAME); [by intros [= _ <-]; eexists|].
    destruct (deref_rr old h) as [ro| |]; [|done..]. rewrite bind_Ret.
    destruct (add_rdatas _ _) as [new dup]. destruct (dup && _); [done|].
    destruct (alloc_rr _ h) as [l' h1]. intros [= _ <-]. by eexists.
Qed.

Lemma flags_addRRset l h z h' z' err :
  zone_flags (mz_domains z) → addRRset l h z = Ret (h', z', err) → zone_flags (mz_domains z').
Proof.
  intros Hf. unfold addRRset. destruct (deref_rr _ h) as [r| |]; [|done..]. rewrite bind_Ret.
  destruct (checkRRsetValid r z); [by intros [= _ <- _]|].
  apply (flags_Insert (rr_name r)) in Hf. set (t := zt_Insert (rr_name r) (mz_domains z)) in *.
  lazymatch goal with |- mbind _ ?x = _ → _ => destruct x as [[h1 res]| |] eqn:Er; [|done..] end.
  rewrite bind_Ret. destruct res as [e|d]; [by intros [= _ <- _]|].
  destruct (flag_node _ _ _) as [t'| |] eqn:Efl; [|done..]. rewrite bind_Ret. intros [= _ <- _]. cbn.
  assert (∃ l' d0, d = <[rr_type r := Some l']> d0 ∧
          (∀ d1, node_data (rr_name r) t = Some d1 → d1 = d0) ∧ ∀ typ, d0 !! typ ≠ Some None)
    as (l' & d0 & -> & Hd0 & Hn0).
  { destruct (node_data (rr_name r) t) as [d0|] eqn:Ed.
    - pose proof (λ typ, fl_entry _ Hf (rr_name r) d0 typ Ed) as Hn.
      destruct (add_to_node_keys _ _ _ _ _ _ Er) as [l' ->].
      exists l', d0. naive_solver.
    - injection Er as _ <-. exists l, ∅. done. }
  eapply flags_flag_node; [| | |exact Efl].
  - apply flags_set; [done| |].
    + intros d1 E1%Hd0 Hns. subst d1. destruct (decide (rr_type r = RR_NS)) as [->|].
      * by rewrite lookup_insert_eq.
      * by rewrite lookup_insert_ne.
    + intros typ. destruct (decide (typ = rr_type r)) as [->|].
      * by rewrite lookup_insert_eq.
      * rewrite lookup_insert_ne by done. apply Hn0.
  - apply node_data_set_self, zt_Insert_self.
  - by rewrite lookup_insert_eq.
Qed.

(** ** Such zones never panic *)

Lemma first_serial_total r : rr_ok r → rr_type r = RR_SOA → ∃ s, first_serial r = Ret s.
Proof.
  unfold rr_ok, first_serial, index. intros [Hne Hall] Ht. rewrite Ht in Hall.
  destruct (rr_rdatas r) as [|d rds]; [done|]. apply Forall_cons in Hall as [Hd _].
  cbn. destruct d; try done. by eexists.
Qed.

Lemma entry_deref h o n d typ e :
  node_ok h o n d → d !! typ = Some e → e ≠ None →
  ∃ l r, e = Some l ∧ h !! l = Some r ∧ rr_type r = typ.
Proof.
  intros Hk E He. destruct e as [l|]; [|done]. destruct (nk_entry _ _ _ _ Hk _ _ E) as (r & ? & ? & _).
  eauto.
Qed.

Lemma add_to_node_total h o l r d :
  heap_ok h → node_ok h o (rr_name r) d → (∀ typ, d !! typ ≠ Some None) → h !! l = Some r →
  ∃ res, add_to_node l r d h = Ret res.
Proof.
  intros Hh Hk Hnil El. unfold add_to_node. destruct (checkRRsetCouldBeAdded d r); [by eexists|].
  destruct (rr_type r =? RR_SOA) eqn:Es; zbool.
  - destruct (d !! RR_SOA) as [[old|]|] eqn:Eo; cbn [mjoin option_join]; [|by eexists..].
    destruct (entry_deref _ _ _ _ _ _ Hk Eo) as (? & ro & [= <-] & Ero & Ht); [done|].
    rewrite (deref_rr_Some _ _ _ Ero), bind_Ret.
    destruct (first_serial_total ro) as [a ->]; [by apply Hh in Ero|done|]. rewrite bind_Ret.
    destruct (first_serial_total r) as [b ->]; [by apply Hh in El|done|]. rewrite bind_Ret.
    by eexists.
  - destruct (d !! rr_type r) as [old|] eqn:Eo; [|by eexists].
    destruct (rr_type r =? RR_CNAME); [by eexists|].
    destruct (entry_deref _ _ _ _ _ _ Hk Eo) as (lo & ro & -> & Ero & _); [by intros ->; eapply Hnil|].
    rewrite (deref_rr_Some _ _ _ Ero), bind_Ret. destruct (add_rdatas _ _) as [new dup].
    destruct (dup && _); [by eexists|]. destruct (alloc_rr _ h). by eexists.
Qed.

Lemma flag_node_total r z t : ∃ t', flag_node r z t = Ret t'.
Proof.
  unfold flag_node, markWildcardParent. destruct (Name_IsWildCard (rr_name r)) eqn:E; [|by eexists].
  destruct (Name_wildcard_Parent _ E) as [p ->]. by eexists.
Qed.

Lemma addRRset_total h z l r :
  heap_ok h → zone_wf h z → zone_flags (mz_domains z) → h !! l = Some r →
  ∃ res, addRRset l h z = Ret res.
Proof.
  intros Hh Hz Hf El. unfold addRRset. rewrite (deref_rr_Some _ _ _ El), bind_Ret.
  destruct (checkRRsetValid r z); [by eexists|].
  rewrite node_data_Insert.
  assert (∃ h1 res, match node_data (rr_name r) (mz_domains z) with
    | Some nodeData => add_to_node l r nodeData h
    | None => Ret (h, inr {[rr_type r := Some l]})
    end = Ret (h1, res)) as (h1 & res & ->).
  { destruct (node_data _ _) as [d|] eqn:Ed; [|by eexists _, _].
    destruct (add_to_node_total h (mz_origin z) l r d) as [[] ->]; [done| | |done|by eexists _, _].
    - by apply (tk_node _ _ _ Hz).
    - intros typ. by eapply fl_entry. }
  rewrite bind_Ret. destruct res as [e|d]; [by eexists|].
  lazymatch goal with |- context [flag_node ?a ?b ?c] => destruct (flag_node_total a b c) as [t' ->] end.
  by eexists.
Qed.

Lemma run_callbacks_total opt path st :
  (∀ m x, (m, x) ∈ path → zn_callback x = true → ∃ d, zn_data x = Some d ∧ is_Some (d !! RR_NS)) →
  ∃ res, run_callbacks (zoneCutCallback opt) path st = Ret res.
Proof.
  revert st. induction path as [|[m x] path IH]; intros st Hp; cbn [run_callbacks]; [by eexists|].
  assert (∀ st, ∃ res, run_callbacks (zoneCutCallback opt) path st = Ret res) as IH'.
  { intros. apply IH. intros k y Hin. by apply (Hp k); right. }
  destruct (zn_callback x) eqn:Ec; [|apply IH'].
  destruct (Hp m x) as (d & Ed & [ns Ens]); [by left|done|].
  assert (∃ st' b, zoneCutCallback opt x st = Ret (st', b)) as (st' & b & ->).
  { unfold zoneCutCallback. rewrite Ed. cbn. rewrite Ens. cbn. destruct st; by eexists _, _. }
  rewrite bind_Ret. destruct b; [by eexists|apply IH'].
Qed.

Lemma synthesize_total name rt h l r :
  h !! l = Some r → ∃ res, synthesize name rt (Some l) h = Ret res.
Proof.
  intros E. unfold synthesize. rewrite (deref_rr_Some _ _ _ E), bind_Ret.
  destruct (alloc_rr _ h). by eexists.
Qed.

Lemma find_total h z name typ opt :
  zone_wf h z → zone_flags (mz_domains z) → ∃ res, MemoryZone_find name typ opt h z = Ret res.
Proof.
  intros Hz Hf. unfold MemoryZone_find.
  assert (∃ st found, zt_SearchExt name (zoneCutCallback opt) None (mz_domains z) = Ret (st, found))
    as (st & found & Es).
  { rewrite zt_SearchExt_eq.
    destruct (run_callbacks_total opt (zt_path name (mz_domains z)) None) as [[st stop] ->];
      [|by eexists _, _].
    intros m x (Hm & _)%zt_path_sound. by eapply fl_callback. }
  rewrite Es, bind_Ret. apply SearchExt_cases in Es as [_ Hx].
  destruct found as [x|m x super|]; [| |by eexists].
  - destruct (zn_data x) as [d|]; [|by eexists]. destruct (if _ && _ then d !! RR_NS else None); by eexists.
  - destruct Hx as [Hm _]. destruct st as [[]|]; [by eexists|]. destruct super; [by eexists|].
    destruct (zn_wildcard x) eqn:Ew; [|by eexists].
    destruct (fl_wildcard _ Hf _ _ Hm Ew) as [d Hd]. pose proof (tk_node _ _ _ Hz _ _ Hd) as Hk.
    pose proof (λ typ, fl_entry _ Hf _ _ typ Hd) as Hnil.
    unfold node_data in Hd. destruct (zt_node (Name_star m) _) as [w|]; [|done]. cbn in Hd |- *.
    rewrite Hd. cbn.
    destruct (d !! typ) as [e|] eqn:Ee.
    + destruct (entry_deref _ _ _ _ _ _ Hk Ee) as (l & r & -> & Er & _); [by intros ->; eapply Hnil|].
      by eapply synthesize_total.
    + destruct (d !! RR_CNAME) as [e|] eqn:Ec; [|by eexists].
      destruct (entry_deref _ _ _ _ _ _ Hk Ec) as (l & r & -> & Er & _); [by intros ->; eapply Hnil|].
      by eapply synthesize_total.
Qed.

Lemma Find_total h dz name typ opt :
  zone_wf h (dz_zone dz) → zone_flags (mz_domains (dz_zone dz)) →
  ∃ h' ctx, DynamicZone_Find name typ opt h dz = Ret (h', ctx).
Proof.
  intros Hz Hf. unfold DynamicZone_Find. destruct (isEmpty _); [by eexists _, _|].
  destruct (find_total h (dz_zone dz) name typ opt) as [[[h1 res] node] E]; [done..|].
  rewrite E, bind_Ret. apply find_sound in E; [|done].
  destruct (fr_RRset res) as [l|] eqn:El; [|by eexists _, _].
  assert (∃ r, h1 !! l = Some r) as [r Er].
  { unfold result_sound in E. rewrite El in E. destruct (fr_Type res); naive_solver. }
  destruct (rotate_rr_total l h1 r Er) as [h2 ->]. by eexists _, _.
Qed.

(** ** Loading *)

Definition event_in h (e : LoadEvent) : Prop :=
  match e with LoadAbort => True | LoadRR l => is_Some (h !! l) end.

Lemma event_in_mono h h' e : rr_le h h' → event_in h e → event_in h' e.
Proof.
  intros [Hle _]. destruct e as [|l]; [done|]. intros [r E]. destruct (Hle _ _ E) as (r' & ? & _).
  by exists r'.
Qed.

Lemma load_rrs_total events h z :
  heap_ok h → zone_wf h z → zone_flags (mz_domains z) → Forall (event_in h) events →
  ∃ h' res, load_rrs events h z = Ret (h', res) ∧
    ∀ z', res = inr z' → zone_flags (mz_domains z').
Proof.
  revert h z. induction events as [|[|l] events IH]; intros h z Hh Hz Hf Hev; cbn [load_rrs].
  - eexists _, _. split; [done|]. by intros z' [= <-].
  - by eexists _, _.
  - apply Forall_cons in Hev as [[r El] Hev].
    destruct (addRRset_total h z l r) as [[[h1 z1] err] E]; [done..|]. rewrite E, bind_Ret.
    pose proof (flags_addRRset _ _ _ _ _ _ Hf E) as Hf1.
    apply addRRset_ok in E as (Hle & _ & Hz1); [|done].
    assert (heap_ok h1) as Hh1 by by apply Hle.
    assert (Forall (event_in h1) events) as Hev1
      by (eapply Forall_impl; [exact Hev|]; intros; by eapply event_in_mono).
    destruct err as [err|]; [|by apply IH].
    case_bool_decide; [|by eexists _, _].
    destruct (rl_keep _ _ Hle _ _ El) as (r1 & El1 & _). rewrite (deref_rr_Some _ _ _ El1), bind_Ret.
    destruct (Hh1 _ _ El1) as [Hne _]. unfold index.
    destruct (rr_rdatas r1); [done|]. cbn. by apply IH.
Qed.

(** No zone cut lies above the origin, so its own entries are found. *)
Lemma find_apex h z typ opt d e :
  zone_wf h z → zone_flags (mz_domains z) → origin_data z = Some d → d !! typ = Some e →
  MemoryZone_find (mz_origin z) typ opt h z = Ret (h, mkFindResult FRSuccess e, Some d).
Proof.
  intros Hz Hf Ed Ee. unfold MemoryZone_find. rewrite zt_SearchExt_eq.
  assert (∀ path, path ⊆ zt_path (mz_origin z) (mz_domains z) →
    run_callbacks (zoneCutCallback opt) path None = Ret (None, None)) as Hrun.
  { induction path as [|[m x] path IH]; intros Hsub; cbn [run_callbacks]; [done|].
    destruct (zn_callback x) eqn:Ec; [|apply IH; set_solver]. exfalso.
    assert ((m, x) ∈ zt_path (mz_origin z) (mz_domains z)) as Hin by set_solver.
    apply zt_path_sound in Hin as (Hm & Hab & Hne).
    destruct (fl_callback _ Hf _ _ Hm Ec) as (d' & Ed' & _).
    assert (node_data m (mz_domains z) = Some d') as En by (unfold node_data; by rewrite Hm).
    pose proof (IsSubDomain_antisym _ _ Hab (nk_in_zone _ _ _ _ (tk_node _ _ _ Hz _ _ En))). congruence. }
  rewrite Hrun by done. rewrite bind_Ret. unfold origin_data in Ed.
  destruct (mz_origin_lost z); [done|]. unfold node_data in Ed.
  destruct (zt_node (mz_origin z) (mz_domains z)) as [x|] eqn:Ex; [|done]. cbn in Ed.
  rewrite bind_Ret, Ed, (tk_apex _ _ _ Hz _ Ex), Ee. done.
Qed.

Lemma validate_None z :
  validate z = None →
  ∃ d, origin_data z = Some d ∧ is_Some (d !! RR_SOA) ∧ is_Some (d !! RR_NS) ∧ isEmpty z = false.
Proof.
  unfold validate, isEmpty. destruct (origin_data z) as [d|]; [|done]. intros E. exists d.
  destruct (d !! RR_SOA), (d !! RR_NS); done.
Qed.

Lemma flags_new o : zone_flags (mz_domains (newMemoryZone o)).
Proof.
  cbn. apply flags_Insert. split.
  - intros n x. by rewrite zt_node_New.
  - intros n x. by rewrite zt_node_New.
  - intros n d typ. unfold node_data. by rewrite zt_node_New.
Qed.

Lemma find_nonnil h z name typ opt h' res node :
  zone_flags (mz_domains z) → MemoryZone_find name typ opt h z = Ret (h', res, node) →
  fr_Type res = FRSuccess → fr_RRset res ≠ None.
Proof.
  intros Hf. unfold MemoryZone_find.
  destruct (zt_SearchExt _ _ _ _) as [[st found]| |] eqn:Es; [|done..]. rewrite bind_Ret.
  apply SearchExt_cases in Es as [_ Hx]. destruct found as [x|m x super|].
  - destruct (zn_data x) as [d|] eqn:Ed; [|by intros [= _ <- _]; cbn; destruct (zt_below _ _)].
    assert (node_data name (mz_domains z) = Some d) as En by (unfold node_data; by rewrite Hx).
    destruct (if zn_callback x && _ then d !! RR_NS else None); [by intros [= _ <- _]|].
    intros [= _ <- _]. destruct (d !! typ) as [l|] eqn:El; [|by destruct (d !! RR_CNAME)].
    cbn. intros _ ->. by eapply fl_entry.
  - destruct st as [[]|]; [by intros [= _ <- _]|]. destruct super; [by intros [= _ <- _]|].
    destruct (zn_wildcard x); [|by intros [= _ <- _]].
    destruct (zt_node (Name_star m) _) as [w|]; [|done]. cbn [from_option_panic]. rewrite bind_Ret.
    destruct (zn_data w) as [d|]; [|done]. cbn [from_option_panic]. rewrite bind_Ret.
    destruct (d !! typ); [|destruct (d !! RR_CNAME)]; [..|by intros [= _ <- _]];
      intros E; apply synthesize_spec in E as (_ & _ & ? & ? & ? & _ & _ & -> & _); done.
  - by intros [= _ <- _].
Qed.

Lemma loaded_Find h dz name typ opt h' ctx :
  zone_wf h (dz_zone dz) → zone_flags (mz_domains (dz_zone dz)) → validate (dz_zone dz) = None →
  DynamicZone_Find name typ opt h dz = Ret (h', ctx) →
  result_sound h' (dz_zone dz) name typ (fc_result ctx) ∧
  (fr_Type (fc_result ctx) = FRSuccess → fr_RRset (fc_result ctx) ≠ None) ∧
  (name = mz_origin (dz_zone dz) → typ = RR_SOA ∨ typ = RR_NS →
     fr_Type (fc_result ctx) = FRSuccess).
Proof.
  intros Hz Hf Hv E. destruct (validate_None _ Hv) as (d & Ed & [s Hsoa] & [ns Hns] & Hemp).
  pose proof (DynamicZone_Find_spec _ _ _ _ _ _ _ E Hz) as [_ Hs]. rewrite Hemp in Hs.
  destruct Hs as [Hs _]. split; [done|].
  unfold DynamicZone_Find in E. rewrite Hemp in E.
  destruct (MemoryZone_find _ _ _ _ _) as [[[h1 res] node]| |] eqn:Ef; [|done..]. rewrite bind_Ret in E.
  lazymatch type of E with mbind _ ?x = _ => destruct x; [|done..] end.
  injection E as <- <-. split; [by eapply find_nonnil|]. cbn. intros -> Ht.
  assert (∃ e, d !! typ = Some e) as [e Ee] by (destruct Ht as [->| ->]; eauto).
  rewrite (find_apex _ _ _ _ _ _ Hz Hf Ed Ee) in Ef. by injection Ef as <- <- <-.
Qed.

(** C22: Loading never panics on parsed record sets, whatever they are and in
    whatever order; a failed or aborted load keeps the old zone, and after a
    successful one every lookup returns without a panic, the origin's SOA and NS
    record sets are found, and a success always carries a record set. *)
Theorem Load_total (events : list LoadEvent) h dz :
  heap_ok h → Forall (event_in h) events →
  ∃ h' dz' err, DynamicZone_Load events h dz = Ret (h', dz', err) ∧
    (err ≠ None → dz' = dz) ∧
    (err = None →
       ∀ name typ opt, ∃ h'' ctx, DynamicZone_Find name typ opt h' dz' = Ret (h'', ctx) ∧
         result_sound h'' (dz_zone dz') name typ (fc_result ctx) ∧
         (fr_Type (fc_result ctx) = FRSuccess → fr_RRset (fc_result ctx) ≠ None) ∧
         (name = mz_origin (dz_zone dz) → typ = RR_SOA ∨ typ = RR_NS →
            fr_Type (fc_result ctx) = FRSuccess)).
Proof.
  intros Hh Hev. unfold DynamicZone_Load.
  destruct (load_rrs_total events h (newMemoryZone (mz_origin (dz_zone dz)))) as (h1 & res & E & Hf);
    [done|apply new_zone_wf|apply flags_new|done|].
  rewrite E, bind_Ret. apply load_rrs_ok in E as [Hle Hok]; [|apply new_zone_wf].
  destruct res as [e|z]; [by eexists _, _, _|]. specialize (Hf z eq_refl).
  destruct (Hok z eq_refl) as [Ho Hz].
  destruct (validate z) eqn:Ev; [by eexists _, _, _|].
  eexists _, _, _. split; [done|]. split; [done|]. intros _ name typ opt.
  destruct (Find_total h1 (set_zone z dz) name typ opt) as (h2 & ctx & E); [done..|].
  exists h2, ctx. split; [done|]. cbn in Ho. rewrite <- Ho.
  by apply (loaded_Find h1 (set_zone z dz) name typ opt).
Qed.
End run.

(** ** A zone *)

Definition ns_name : Name := ["ns"; "example"; "com"].
Definition child : Name := ["child"; "example"; "com"].
Definition www_child : Name := ["www"; "child"; "example"; "com"].
Definition ns_rrset (n target : Name) : RRset := mkRRset n RR_NS CLASS_IN 300 [RdNS target].
Definition txt_rrset (n : Name) : RRset := mkRRset n RR_TXT CLASS_IN 300 [RdOther "text"].

Definition demo_rrsets : list RRset :=
  [soa_rrset example_com 300 60; ns_rrset example_com ns_name; a_rrset ns_name 300 1;
   ns_rrset child ns_name; txt_rrset child; a_rrset ["*"; "example"; "com"] 300 7;
   mkRRset mail RR_CNAME CLASS_IN 300 [RdCName www]].

Definition demo_rrs : gmap nat RRset := list_to_map (imap pair demo_rrsets).
Definition demo_events : list LoadEvent := LoadRR <$> seq 0 7.

Definition demo_load : outcome (gmap nat RRset * DynamicZone * option string) :=
  DynamicZone_Load demo_events demo_rrs (NewDynamicZone example_com).
Definition demo_zone : DynamicZone :=
  match demo_load with Ret (_, dz, _) => dz | _ => NewDynamicZone example_com end.
Definition demo_heap : gmap nat RRset :=
  match demo_load with Ret (h, _, _) => h | _ => ∅ end.

Lemma demo_loaded :
  DynamicZone_Load demo_events demo_rrs (NewDynamicZone example_com) =
  Ret (demo_heap, demo_zone, None).
Proof. by_eval. Qed.

Definition rr_ok_b (r : RRset) : bool :=
  bool_decide (rr_rdatas r ≠ []) && forallb (rdata_fits (rr_type r)) (rr_rdatas r).

Lemma rr_ok_b_ok r : rr_ok_b r = true → rr_ok r.
Proof.
  unfold rr_ok_b, rr_ok. rewrite andb_true_iff, bool_decide_eq_true, forallb_Forall. done.
Qed.

Lemma heap_ok_list h : forallb (λ x, rr_ok_b x.2) (map_to_list h) = true → heap_ok h.
Proof.
  rewrite forallb_Forall, Forall_forall. intros H l r E%elem_of_map_to_list. by apply rr_ok_b_ok, (H (l, r)).
Qed.

Lemma demo_rrs_ok : heap_ok demo_rrs.
Proof. apply heap_ok_list. by_eval. Qed.

Lemma demo_events_in : Forall (event_in demo_rrs) demo_events.
Proof. unfold demo_events. cbn. rewrite !Forall_cons. split_and!; [by eexists..|]. apply Forall_nil_2. Qed.

(** What a lookup in the loaded zone returns: the kind and the rdata. *)
Definition demo_find (name : Name) (typ : RRType) (opt : FindOption)
  : outcome (ResultType * option (list Rdata)) :=
  r ← DynamicZone_Find name typ opt demo_heap demo_zone;
  let '(h, ctx) := r in
  Ret (fr_Type (fc_result ctx), rr_rdatas <$> (fr_RRset (fc_result ctx) ≫= (h !!.))).

(** The tests of the package on lookups: success, alias, delegation and glue,
    wildcard, no data, no name. *)
Lemma find_tests :
  demo_find example_com RR_NS DefaultFind = Ret (FRSuccess, Some [RdNS ns_name]) ∧
  demo_find mail RR_A DefaultFind = Ret (FRCname, Some [RdCName www]) ∧
  demo_find www_child RR_A DefaultFind = Ret (FRDelegation, Some [RdNS ns_name]) ∧
  demo_find child RR_TXT DefaultFind = Ret (FRDelegation, Some [RdNS ns_name]) ∧
  demo_find example_com RR_AAAA DefaultFind = Ret (FRNXRRset, None) ∧
  (fst <$> demo_find ["any"; "example"; "com"] RR_A DefaultFind) = Ret FRSuccess ∧
  demo_find ["any"; "example"; "com"] RR_AAAA DefaultFind = Ret (FRNXRRset, None) ∧
  demo_find ["example"; "net"] RR_A DefaultFind = Ret (FRNXDomain, None).
Proof. split_and!; by_eval. Qed.

(** The record sets of the zone arrive and are loaded. *)
Lemma receive_steps rrs :
  Forall rr_ok rrs → ∀ h dz, ∃ h',
    h' = foldl (λ h r, (alloc_rr r h).2) h rrs ∧
    rtc zone_step (mkZState h dz None) (mkZState h' dz None).
Proof.
  induction 1 as [|r rrs Hr Hrs IH]; intros h dz; [by eexists|].
  destruct (IH (alloc_rr r h).2 dz) as (h' & -> & Hs). eexists. split; [done|].
  eapply rtc_l; [|exact Hs]. eapply zstep_receive; [exact Hr|]. apply surjective_pairing.
Qed.

Definition received : gmap nat RRset := foldl (λ h r, (alloc_rr r h).2) ∅ demo_rrsets.

Lemma received_load :
  DynamicZone_Load demo_events received (NewDynamicZone example_com) =
  Ret (demo_heap, demo_zone, None).
Proof. by_eval. Qed.

Lemma demo_reachable :
  rtc zone_step (mkZState ∅ (NewDynamicZone example_com) None) (mkZState demo_heap demo_zone None).
Proof.
  destruct (receive_steps demo_rrsets) with (h := ∅ : gmap nat RRset) (dz := NewDynamicZone example_com)
    as (h' & -> & Hs).
  - repeat (apply Forall_cons; split); try done; by apply rr_ok_b_ok.
  - eapply rtc_r; [exact Hs|]. eapply zstep_load. exact received_load.
Qed.

Lemma zone_reachable_wf_witness :
  heap_ok demo_heap ∧
  (isEmpty (dz_zone demo_zone) = true ∨ validate (dz_zone demo_zone) = None).
Proof.
  destruct (zone_reachable_wf _ _ demo_reachable) as (Hh & Hv & _). exact (conj Hh Hv).
Defined.

Definition demo_www : outcome (gmap nat RRset * FinderCtx) :=
  DynamicZone_Find www RR_A DefaultFind demo_heap demo_zone.

Definition demo_www_found : gmap nat RRset * FinderCtx :=
  match demo_www with Ret r => r | _ => (∅, mkFinderCtx (mkFindResult FRServFail None) None) end.

Lemma demo_www_ret : demo_www = Ret demo_www_found.
Proof. by_eval. Qed.

Lemma zone_find_sound_witness :
  result_sound demo_www_found.1 (dz_zone demo_zone) www RR_A (fc_result demo_www_found.2).
Proof.
  pose proof demo_www_ret as E. rewrite (surjective_pairing demo_www_found) in E.
  pose proof (zone_find_sound _ _ www RR_A DefaultFind _ _ demo_reachable E) as H.
  assert (isEmpty (dz_zone (zs_live (mkZState demo_heap demo_zone None))) = false) as He by by_eval.
  rewrite He in H. exact H.
Defined.

Lemma Load_total_witness :
  ∃ h dz err, DynamicZone_Load demo_events demo_rrs (NewDynamicZone example_com) = Ret (h, dz, err) ∧
    (err ≠ None → dz = NewDynamicZone example_com).
Proof.
  destruct (Load_total demo_events demo_rrs (NewDynamicZone example_com) demo_rrs_ok demo_events_in)
    as (h & dz & err & E & He & _). exact (ex_intro _ h (ex_intro _ dz (ex_intro _ err (conj E He)))).
Defined.
