(* ===== verification/ZoneLock.v ===== *)
(** * A zone under its lock (src/resolver/auth/zone/memoryzone/dynamiczone.go)

    Zone.v has the operations of a zone one after the other.  In the server queries, updates,
    transfers and commands use a zone at the same time, under a [sync.RWMutex] whose write
    lock a transaction holds from [Begin] to [Commit].  Here every operation is the sequence
    of its locks and accesses, and the threads run in every interleaving.  The results: what
    the zone becomes is what the operations do one after the other, in the order of their
    commits; a lookup under the lock never sees a half done update; every operation returns,
    but for the one that takes the read lock twice; and two reads outside the lock meet a
    version that [clean] is taking apart. *)

From S2P Require Import Prelude GoStd G53 Instances Core Cement Acl Zone ZoneInv ZoneSpec.

Local Open Scope nat_scope.

Section zone_lock.
Abbreviation RRHeap := (gmap nat RRset).
Context {N : G53Name} {M : G53Msg N} {ZT : ZoneTree N}.

(** ** The operations *)

(** What [Add], [DeleteRRset] and the others make of the copy; [Undone] is an error, after
    which the code rolls back, and [Crashes] a panic on the way. *)
Inductive TxResult : Type :=
  | Edited (tmp : MemoryZone)
  | Undone
  | Crashes.

Abbreviation TxEdit := (MemoryZone → TxResult).

(** The operations of a transaction on its copy [tmp]: [Add], [DeleteRRset], [DeleteDomain],
    [DeleteRr] and [IncreaseSerialNumber]. *)
Inductive TxOp : Type :=
  | TxAdd (l : nat)
  | TxDeleteRRset (rrset : RRset)
  | TxDeleteDomain (name : Name)
  | TxDeleteRr (rrset : RRset)
  | TxIncreaseSerialNumber.

Definition tx_op (c : TxOp) (h : RRHeap) (tmp : MemoryZone) : outcome (RRHeap * MemoryZone * option string) :=
  match c with
  | TxAdd l => addRRset l h tmp
  | TxDeleteRRset rrset => r ← deleteRRset rrset h tmp; Ret (h, r.1, r.2)
  | TxDeleteDomain name => r ← deleteDomain name tmp; Ret (h, r.1, r.2)
  | TxDeleteRr rrset => deleteRr rrset h tmp
  | TxIncreaseSerialNumber => h ← increaseSerialNumber h tmp; Ret (h, tmp, None)
  end.

(** One of them as an edit, with the record sets as they are when it runs; an operation
    without effect is no error. *)
Definition edit_of (h : RRHeap) (c : TxOp) : TxEdit := λ tmp,
  match tx_op c h tmp with
  | Ret (_, tmp, None) => Edited tmp
  | Ret (_, tmp, Some err) => if bool_decide (err = ErrNoEffectiveUpdate) then Edited tmp else Undone
  | _ => Crashes
  end.

(** [found] says whether the lookup gives a record set, [additional] whether the query asks
    for the addresses too; [Load] has built [z] before it takes the lock. *)
Inductive ZoneOp : Type :=
  | OpFind (found : MemoryZone → bool) (additional : bool)
  | OpGetUpdator (force : bool)
  | OpIsMaster
  | OpMasters
  | OpDomainCount
  | OpSetMasters (masters : list string)
  | OpSetAcls (acls : list string)
  | OpUpdate (edits : list TxEdit)
  | OpLoad (z : MemoryZone)
  | OpClean (version : nat).

(** Accesses: the pointer to the current version is read, then the version it points to. *)
Inductive Access : Type :=
  | ReadPointer
  | TestEmpty
  | FindIn (found : MemoryZone → bool) (additional : bool)
  | AdditionalIn
  | Rotate
  | StartTx
  | EditTx (e : TxEdit)
  | CommitTx
  | Install (z : MemoryZone)
  | PutMasters (masters : list string)
  | PutAcls (acls : list string)
  | CleanVersion (version : nat).

Inductive Instr : Type :=
  | RLock
  | RUnlock
  | Lock
  | Unlock
  | Do (a : Access).

Definition rotation : list Instr := [Lock; Do Rotate; Unlock].

(** The instructions of an operation.  [Masters] calls [IsMaster] under the read lock. *)
Definition isMaster_code : list Instr := [RLock; RUnlock].

Definition code (o : ZoneOp) : list Instr :=
  match o with
  | OpFind found additional =>
      [Do ReadPointer; Do TestEmpty; RLock; Do (FindIn found additional); RUnlock]
  | OpGetUpdator force => if force then [] else [RLock; RUnlock]
  | OpIsMaster => isMaster_code
  | OpMasters => [RLock] ++ isMaster_code ++ [RUnlock]
  | OpDomainCount => [Lock; Unlock]
  | OpSetMasters masters => [Lock; Do (PutMasters masters); Unlock]
  | OpSetAcls acls => [Lock; Do (PutAcls acls); Unlock]
  | OpUpdate edits => [Lock; Do StartTx] ++ ((Do ∘ EditTx) <$> edits) ++ [Do CommitTx; Unlock]
  | OpLoad z => match validate z with None => [Lock; Do (Install z); Unlock] | Some _ => [] end
  | OpClean version => [Do (CleanVersion version)]
  end.

(** ** Threads *)

(** What a thread has of the lock: read locks, a call of [Lock] under way that keeps new
    readers out, or the write lock. *)
Inductive Mode : Type :=
  | Reads (n : nat)
  | Announced
  | Writes.

#[local] Instance Mode_eq_dec : EqDecision Mode.
Proof. solve_decision. Defined.

Inductive Answer : Type :=
  | ServFail
  | FoundIn (version : nat)
  | WithAdditional (version : nat) (cleaned : bool).

Record Thread : Type := mkThread {
  th_op : ZoneOp;
  th_mode : Mode;
  th_prog : list Instr;
  th_pointer : nat;
  th_tmp : option MemoryZone;
  th_answer : option Answer;
}.

Definition start (o : ZoneOp) : Thread := mkThread o (Reads 0) (code o) 0 None None.

Definition set_mode (m : Mode) (t : Thread) : Thread :=
  mkThread (th_op t) m (th_prog t) (th_pointer t) (th_tmp t) (th_answer t).
Definition set_prog (p : list Instr) (t : Thread) : Thread :=
  mkThread (th_op t) (th_mode t) p (th_pointer t) (th_tmp t) (th_answer t).
Definition set_pointer (v : nat) (t : Thread) : Thread :=
  mkThread (th_op t) (th_mode t) (th_prog t) v (th_tmp t) (th_answer t).
Definition set_tmp (z : MemoryZone) (t : Thread) : Thread :=
  mkThread (th_op t) (th_mode t) (th_prog t) (th_pointer t) (Some z) (th_answer t).
Definition set_answer (a : Answer) (t : Thread) : Thread :=
  mkThread (th_op t) (th_mode t) (th_prog t) (th_pointer t) (th_tmp t) (Some a).

(** The versions that were replaced, each with whether it was cleaned, and the zone; the
    current version has the number that comes next. *)
Record Shared : Type := mkShared {
  sh_old : list (MemoryZone * bool);
  sh_zone : DynamicZone;
}.

Definition current (s : Shared) : nat := length (sh_old s).

(** A version as a reader of it finds it: a cleaned one is empty. *)
Definition seems_empty (v : nat) (s : Shared) : bool :=
  match sh_old s !! v with
  | Some (z, cleaned) => cleaned || isEmpty z
  | None => isEmpty (dz_zone (sh_zone s))
  end.

Definition is_cleaned (v : nat) (s : Shared) : bool :=
  match sh_old s !! v with Some (_, cleaned) => cleaned | None => false end.

Definition replace (z : MemoryZone) (s : Shared) : Shared :=
  mkShared (sh_old s ++ [(dz_zone (sh_zone s), false)]) (set_zone z (sh_zone s)).

Definition clean (v : nat) (s : Shared) : Shared :=
  mkShared (alter (λ p, (p.1, true)) v (sh_old s)) (sh_zone s).

(** An access by a thread whose program goes on with [th_prog t]: the new state, the thread,
    the operation it completes, if any, and the goroutine it starts, if any. *)
Definition act (a : Access) (s : Shared) (t : Thread) : Shared * Thread * list ZoneOp * list Thread :=
  match a with
  | ReadPointer => (s, set_pointer (current s) t, [], [])
  | TestEmpty => if seems_empty (th_pointer t) s then (s, set_prog [] (set_answer ServFail t), [], []) else (s, t, [], [])
  | FindIn found additional =>
      (s, set_prog (th_prog t ++ (if found (dz_zone (sh_zone s)) then rotation else []) ++
                    (if additional then [RLock; Do AdditionalIn; RUnlock] else []))
            (set_answer (FoundIn (current s)) t), [], [])
  | AdditionalIn =>
      match th_answer t with
      | Some (FoundIn v) => (s, set_answer (WithAdditional v (is_cleaned v s)) t, [], [])
      | _ => (s, t, [], [])
      end
  | Rotate => (s, t, [], [])
  | StartTx => (s, set_tmp (Begin (sh_zone s)) t, [], [])
  | EditTx e =>
      match th_tmp t with
      | Some tmp =>
          match e tmp with
          | Edited tmp => (s, set_tmp tmp t, [], [])
          | Undone => (s, set_prog [Unlock] t, [], [])
          | Crashes => (s, set_prog [] t, [], [])
          end
      | None => (s, set_prog [] t, [], [])
      end
  | CommitTx =>
      match th_tmp t with
      | Some tmp =>
          match validate tmp with
          | None => (replace tmp s, t, [th_op t], [start (OpClean (current s))])
          | Some _ => (s, t, [], [])
          end
      | None => (s, set_prog [] t, [], [])
      end
  | Install z => (replace z s, t, [th_op t], [])
  | PutMasters masters => (mkShared (sh_old s) (SetMasters masters (sh_zone s)), t, [th_op t], [])
  | PutAcls acls => (mkShared (sh_old s) (SetAcls acls (sh_zone s)), t, [th_op t], [])
  | CleanVersion v => (clean v s, t, [], [])
  end.

(** ** Interleavings *)

(** A writer holds the lock or has announced itself. *)
Definition writer (t : Thread) : bool := match th_mode t with Reads _ => false | _ => true end.
Definition depth (t : Thread) : nat := match th_mode t with Reads n => n | _ => 0 end.

(** The instruction [i] of a thread that has read locks [n], with all threads [ts]: the new
    mode, when it does not block.  A [Lock] is two steps. *)
Definition lock_step (i : Instr) (m : Mode) (ts : list Thread) : option (Mode * bool) :=
  match i, m with
  | RLock, Reads n => if existsb writer ts then None else Some (Reads (S n), true)
  | RUnlock, Reads (S n) => Some (Reads n, true)
  | Lock, Reads 0 => if existsb writer ts then None else Some (Announced, false)
  | Lock, Announced => if forallb (λ t, depth t =? 0) ts then Some (Writes, true) else None
  | Unlock, Writes => Some (Reads 0, true)
  | _, _ => None
  end.

(** A step and the operations it completes. *)
Inductive zstep : Shared * list Thread → list ZoneOp → Shared * list Thread → Prop :=
  | zs_lock s ts k t i p m pop :
      ts !! k = Some t → th_prog t = i :: p → lock_step i (th_mode t) ts = Some (m, pop) →
      zstep (s, ts) [] (s, <[k := set_mode m (if pop : bool then set_prog p t else t)]> ts)
  | zs_do s ts k t a p s' t' evs new :
      ts !! k = Some t → th_prog t = Do a :: p → act a s (set_prog p t) = (s', t', evs, new) →
      zstep (s, ts) evs (s', <[k := t']> ts ++ new).

Inductive zrun : Shared * list Thread → list ZoneOp → Shared * list Thread → Prop :=
  | zr_refl x : zrun x [] x
  | zr_step x evs y evs' z : zrun x evs y → zstep y evs' z → zrun x (evs ++ evs') z.

Definition zone_start (dz : DynamicZone) (ops : list ZoneOp) : Shared * list Thread :=
  (mkShared [] dz, start <$> ops).

(** ** One after the other *)

Fixpoint edit_all (edits : list TxEdit) (tmp : MemoryZone) : option MemoryZone :=
  match edits with
  | [] => Some tmp
  | e :: edits => match e tmp with Edited tmp => edit_all edits tmp | _ => None end
  end.

(** A whole operation on a zone nobody else uses. *)
Definition atomically (dz : DynamicZone) (o : ZoneOp) : DynamicZone :=
  match o with
  | OpSetMasters masters => SetMasters masters dz
  | OpSetAcls acls => SetAcls acls dz
  | OpUpdate edits =>
      match edit_all edits (Begin dz) with Some tmp => (Commit tmp dz).1 | None => RollBack dz end
  | OpLoad z => match validate z with None => set_zone z dz | Some _ => dz end
  | _ => dz
  end.
End zone_lock.

(** ** The invariant *)

Section zone_lock_inv.
Context {N : G53Name} {M : G53Msg N} {ZT : ZoneTree N}.
Abbreviation TxEdit := (MemoryZone → TxResult).
Implicit Types (s : Shared) (t u : Thread) (ts : list Thread) (o : ZoneOp) (p : list Instr).

Definition nonempty s : Prop := isEmpty (dz_zone (sh_zone s)) = false.

(** The version with a number, whether it was cleaned or not. *)
Definition version (v : nat) s : option MemoryZone :=
  match sh_old s !! v with
  | Some (z, _) => Some z
  | None => if v =? current s then Some (dz_zone (sh_zone s)) else None
  end.

(** How the shared state changes. *)
Inductive evolves s : Shared → Prop :=
  | ev_same : evolves s s
  | ev_replace z : validate z = None → evolves s (replace z s)
  | ev_conf dz : dz_zone dz = dz_zone (sh_zone s) → evolves s (mkShared (sh_old s) dz)
  | ev_clean v : evolves s (clean v s).

Lemma current_replace z s : current (replace z s) = S (current s).
Proof. unfold current, replace. cbn. rewrite length_app. cbn. lia. Qed.

Lemma current_clean v s : current (clean v s) = current s.
Proof. unfold current, clean. cbn. apply length_alter. Qed.

Lemma evolves_current s s' : evolves s s' → current s ≤ current s'.
Proof. destruct 1; rewrite ?current_replace, ?current_clean; unfold current; cbn; lia. Qed.

Lemma validate_nonempty (z : MemoryZone) : validate z = None → isEmpty z = false.
Proof. unfold validate, isEmpty. by destruct (origin_data z). Qed.

Lemma evolves_nonempty s s' : evolves s s' → nonempty s → nonempty s'.
Proof.
  unfold nonempty. destruct 1 as [|z Hz|dz Hdz|v]; cbn; intros H; [done|by apply validate_nonempty|by rewrite Hdz|done].
Qed.

(** Only the first version may lack its record sets. *)
Definition valid_now s : Prop := current s ≠ 0 → validate (dz_zone (sh_zone s)) = None.

Lemma evolves_valid s s' : evolves s s' → valid_now s → valid_now s'.
Proof.
  unfold valid_now. destruct 1 as [|z Hz|dz Hdz|v]; [done|done| |by rewrite current_clean].
  unfold current. cbn. by rewrite Hdz.
Qed.

Lemma evolves_version s s' v z : evolves s s' → version v s = Some z → version v s' = Some z.
Proof.
  unfold version. destruct 1 as [|z' Hz|dz Hdz|w]; [done| | |].
  - rewrite current_replace. cbn [replace sh_old sh_zone].
    destruct (sh_old s !! v) as [[z0 c]|] eqn:E; [by rewrite (lookup_app_l_Some _ _ _ _ E)|].
    destruct (v =? current s) eqn:Ev; [|done]. apply Nat.eqb_eq in Ev as ->. intros [= <-].
    unfold current. rewrite lookup_app_r, Nat.sub_diag by lia. done.
  - unfold current. cbn. by rewrite Hdz.
  - rewrite current_clean. cbn [clean sh_old sh_zone]. destruct (decide (v = w)) as [->|].
    + rewrite list_lookup_alter_eq. by destruct (sh_old s !! w) as [[]|].
    + by rewrite list_lookup_alter_ne.
Qed.

(** The programs that only read, rotate or count: [w] says whether the write lock is held,
    [n] how many read locks are.  Only [nested] ones take a read lock under another. *)
Fixpoint quiet (nested w : bool) (n : nat) p : bool :=
  match p with
  | [] => negb w && (n =? 0)
  | RLock :: p => negb w && ((n =? 0) || nested) && quiet nested w (S n) p
  | RUnlock :: p => match n with S n => negb w && quiet nested w n p | 0 => false end
  | Lock :: p => negb w && (n =? 0) && quiet nested true 0 p
  | Unlock :: p => w && quiet nested false 0 p
  | Do Rotate :: p => w && quiet nested w n p
  | Do AdditionalIn :: p => negb w && (n =? 1) && quiet nested w n p
  | _ => false
  end.

Definition nests o : bool := match o with OpMasters => true | _ => false end.

(** Whether the mode is the one a quiet program is in. *)
Definition quiet_in (nested : bool) (m : Mode) p : bool :=
  match m with
  | Reads n => quiet nested false n p
  | Announced => match p with Lock :: _ => quiet nested false 0 p | _ => false end
  | Writes => quiet nested true 0 p
  end.

Definition changes (a : Access) : bool :=
  match a with Install z => bool_decide (validate z = None) | PutMasters _ | PutAcls _ => true | _ => false end.

Definition tx_rest (edits : list TxEdit) : list Instr := ((Do ∘ EditTx) <$> edits) ++ [Do CommitTx; Unlock].

(** Where a thread is in its operation. *)
Inductive stage s : Thread → Prop :=
  | sg_quiet o m p v tmp ans : quiet_in (nests o) m p = true → stage s (mkThread o m p v tmp ans)
  | sg_find0 found a v ans :
      stage s (mkThread (OpFind found a) (Reads 0) (code (OpFind found a)) v None ans)
  | sg_find1 found a v ans : v ≤ current s →
      stage s (mkThread (OpFind found a) (Reads 0) [Do TestEmpty; RLock; Do (FindIn found a); RUnlock] v None ans)
  | sg_find2 found a v ans : nonempty s →
      stage s (mkThread (OpFind found a) (Reads 0) [RLock; Do (FindIn found a); RUnlock] v None ans)
  | sg_find3 found a v ans : nonempty s →
      stage s (mkThread (OpFind found a) (Reads 1) [Do (FindIn found a); RUnlock] v None ans)
  | sg_wait o m p v ans : m = Reads 0 ∨ m = Announced → code o = Lock :: p → stage s (mkThread o m (code o) v None ans)
  | sg_put o a v ans : changes a = true → code o = [Lock; Do a; Unlock] →
      stage s (mkThread o Writes [Do a; Unlock] v None ans)
  | sg_begin edits v ans : stage s (mkThread (OpUpdate edits) Writes (Do StartTx :: tx_rest edits) v None ans)
  | sg_tx edits1 edits2 v tmp ans : edit_all edits1 (Begin (sh_zone s)) = Some tmp →
      stage s (mkThread (OpUpdate (edits1 ++ edits2)) Writes (tx_rest edits2) v (Some tmp) ans)
  | sg_crash edits e tmp v ans : e ∈ edits → e tmp = Crashes →
      stage s (mkThread (OpUpdate edits) Writes [] v (Some tmp) ans)
  | sg_clean v ptr ans : v < current s →
      stage s (mkThread (OpClean v) (Reads 0) [Do (CleanVersion v)] ptr None ans).

Lemma start_stage s o : (∀ v, o ≠ OpClean v) → stage s (start o).
Proof.
  intros Ho. destruct o as [found a|force| | | |ms|acls|edits|z|v]; unfold start.
  - apply sg_find0.
  - apply sg_quiet. by destruct force.
  - by apply sg_quiet.
  - by apply sg_quiet.
  - by apply sg_quiet.
  - eapply sg_wait; [by left|done].
  - eapply sg_wait; [by left|done].
  - eapply sg_wait; [by left|done].
  - destruct (validate z) eqn:E.
    + apply sg_quiet. cbn. by rewrite E.
    + eapply sg_wait; [by left|cbn; by rewrite E].
  - by destruct (Ho v).
Qed.

(** The others are where they were, as only a thread that writes looks at more of the zone
    than its emptiness. *)
Lemma stage_evolves s s' t : evolves s s' → stage s t → (th_mode t = Writes → sh_zone s' = sh_zone s) → stage s' t.
Proof.
  intros He Hs Hw. pose proof (evolves_current _ _ He). pose proof (evolves_nonempty _ _ He).
  destruct Hs; [by apply sg_quiet|apply sg_find0|apply sg_find1; lia|apply sg_find2; auto|apply sg_find3; auto
    |by eapply sg_wait|by apply sg_put|apply sg_begin| |by eapply sg_crash|apply sg_clean; lia].
  apply sg_tx. by rewrite Hw.
Qed.

(** ** A step keeps it *)

Lemma quiet_app nested w n p q :
  quiet nested w n p = true → quiet nested false 0 q = true → quiet nested w n (p ++ q) = true.
Proof.
  intros Hp Hq. revert w n Hp. induction p as [|[| | | |[]] p IH]; intros w n Hp; cbn in *; try done.
  - destruct w, n; done.
  - apply andb_prop in Hp as [-> Hp]. cbn. auto.
  - destruct n as [|n]; [done|]. apply andb_prop in Hp as [-> Hp]. cbn. auto.
  - apply andb_prop in Hp as [-> Hp]. cbn. auto.
  - apply andb_prop in Hp as [-> Hp]. cbn. auto.
  - apply andb_prop in Hp as [-> Hp]. cbn. auto.
  - apply andb_prop in Hp as [-> Hp]. cbn. auto.
Qed.

(** The operation a thread will complete. *)
Definition completes (i : Instr) : bool :=
  match i with Do (CommitTx | Install _ | PutMasters _ | PutAcls _) => true | _ => false end.
Definition pending t : list ZoneOp := if existsb completes (th_prog t) then [th_op t] else [].

Lemma quiet_pending nested w n p : quiet nested w n p = true → existsb completes p = false.
Proof.
  revert w n. induction p as [|[| | | |[]] p IH]; intros w n Hp; cbn in *; try done.
  1,3,4,5,6: apply andb_prop in Hp as [_ Hp]; by eapply IH.
  destruct n as [|n]; [done|]. apply andb_prop in Hp as [_ Hp]. by eapply IH.
Qed.

Lemma edit_all_app (edits1 edits2 : list TxEdit) tmp tmp' :
  edit_all edits1 tmp = Some tmp' → edit_all (edits1 ++ edits2) tmp = edit_all edits2 tmp'.
Proof.
  revert tmp. induction edits1 as [|e edits1 IH]; cbn; intros tmp; [by intros [= ->]|]. destruct (e tmp); [apply IH|done..].
Qed.

Record acts s t s' t' (evs : list ZoneOp) (new : list Thread) : Prop := mkActs {
  ac_evolves : evolves s s';
  ac_stage : stage s' t';
  ac_new : Forall (stage s') new;
  ac_clean : Forall (λ u, ∃ v, u = start (OpClean v)) new;
  ac_zone : sh_zone s' = foldl atomically (sh_zone s) evs;
  ac_writes : sh_zone s' = sh_zone s ∨ th_mode t = Writes;
  ac_mode : th_mode t' = th_mode t;
  ac_op : th_op t' = th_op t;
  ac_once : evs ++ pending t' ⊆+ pending t;
  ac_answer : th_answer t' = th_answer t ∨ th_answer t' = Some ServFail ∨
    (th_answer t' = Some (FoundIn (current s)) ∧ nonempty s) ∨
    (∃ v c, th_answer t = Some (FoundIn v) ∧ th_answer t' = Some (WithAdditional v c));
}.

(** An access that leaves the shared state alone and completes nothing. *)
Lemma acts_same s t t' :
  stage s t' → th_mode t' = th_mode t → th_op t' = th_op t → pending t' ⊆+ pending t →
  (th_answer t' = th_answer t ∨ th_answer t' = Some ServFail ∨
    (th_answer t' = Some (FoundIn (current s)) ∧ nonempty s) ∨
    (∃ v c, th_answer t = Some (FoundIn v) ∧ th_answer t' = Some (WithAdditional v c))) →
  acts s t s t' [] [].
Proof. intros. split; try done; [apply ev_same|by left]. Qed.

Lemma act_quiet s o m a p v tmp ans s' t' evs new :
  quiet_in (nests o) m (Do a :: p) = true → act a s (mkThread o m p v tmp ans) = (s', t', evs, new) →
  acts s (mkThread o m (Do a :: p) v tmp ans) s' t' evs new.
Proof.
  intros Hq Ha. assert ((a = Rotate ∨ a = AdditionalIn) ∧ quiet_in (nests o) m p = true) as [Ea Hp].
  { destruct m as [n| |]; [|done|]; destruct a; try done; cbn in Hq; try apply andb_prop in Hq as [_ Hq]; auto. }
  assert (pending (mkThread o m p v tmp ans) = []) as Hn.
  { unfold pending. cbn. destruct m; [by rewrite (quiet_pending _ _ _ _ Hp)|by destruct p as [|[]]|by rewrite (quiet_pending _ _ _ _ Hp)]. }
  assert (∀ ans', stage s (mkThread o m p v tmp ans')) as Hs by (intros; by apply sg_quiet).
  destruct Ea as [-> | ->]; cbn in Ha; [|destruct ans as [[]|]]; injection Ha as <- <- <- <-; apply acts_same;
    try done; try apply Hs; auto; try (unfold pending in *; cbn in *; by rewrite Hn); eauto 10.
Qed.

Lemma seems_nonempty s v : valid_now s → v ≤ current s → seems_empty v s = false → nonempty s.
Proof.
  intros Hv Hle He. destruct (decide (current s = 0)) as [Hc|Hc]; [|by apply validate_nonempty, Hv].
  unfold seems_empty, current in *. destruct (sh_old s) eqn:E; [|done]. assert (v = 0) as -> by (cbn in Hle; lia). done.
Qed.

Lemma put_op o a : changes a = true → code o = [Lock; Do a; Unlock] →
  (∃ z, o = OpLoad z ∧ a = Install z ∧ validate z = None) ∨ (∃ ms, o = OpSetMasters ms ∧ a = PutMasters ms) ∨
  (∃ acls, o = OpSetAcls acls ∧ a = PutAcls acls).
Proof.
  intros Ha Hc. destruct o as [found b|force| | | |ms|acls|edits|z|v]; cbn in Hc; try discriminate.
  - by destruct force.
  - injection Hc as <-. eauto.
  - injection Hc as <-. eauto.
  - injection Hc as <- _. done.
  - destruct (validate z) eqn:E; [done|]. injection Hc as <-. eauto.
Qed.

Lemma act_put s o a v ans s' t' evs new :
  changes a = true → code o = [Lock; Do a; Unlock] →
  act a s (mkThread o Writes [Unlock] v None ans) = (s', t', evs, new) →
  acts s (mkThread o Writes [Do a; Unlock] v None ans) s' t' evs new.
Proof.
  intros Hc Ho Ha. destruct (put_op _ _ Hc Ho) as [(z & -> & -> & Hz)|[(ms & -> & ->)|(acls & -> & ->)]];
    cbn in Ha; injection Ha as <- <- <- <-; split; try done; try (by apply sg_quiet); auto.
  - by apply ev_replace.
  - cbn. by rewrite Hz.
  - by apply ev_conf.
  - by apply ev_conf.
Qed.

Lemma act_tx s edits1 edits2 v tmp ans a p s' t' evs new :
  edit_all edits1 (Begin (sh_zone s)) = Some tmp → tx_rest edits2 = Do a :: p →
  act a s (mkThread (OpUpdate (edits1 ++ edits2)) Writes p v (Some tmp) ans) = (s', t', evs, new) →
  acts s (mkThread (OpUpdate (edits1 ++ edits2)) Writes (tx_rest edits2) v (Some tmp) ans) s' t' evs new.
Proof.
  intros He Hp Ha. destruct edits2 as [|e edits2]; cbn in Hp; injection Hp as <- <-; cbn in Ha.
  - destruct (validate tmp) as [err|] eqn:Ev; injection Ha as <- <- <- <-.
    + apply acts_same; auto; [by apply sg_quiet|apply submseteq_nil_l].
    + split; try done; try (by apply sg_quiet); auto; [by apply ev_replace| |..].
      * apply Forall_singleton, sg_clean. rewrite current_replace. lia.
      * apply Forall_singleton. by exists (current s).
      * cbn. rewrite app_nil_r, He. unfold Commit. by rewrite Ev.
  - destruct (e tmp) as [tmp'| |] eqn:Ee; injection Ha as <- <- <- <-; apply acts_same; auto.
    + change (edits1 ++ e :: edits2) with (edits1 ++ [e] ++ edits2). rewrite (assoc_L (++)). apply sg_tx.
      rewrite (edit_all_app _ _ _ _ He). cbn. by rewrite Ee.
    + by apply sg_quiet.
    + apply submseteq_nil_l.
    + eapply sg_crash; [|exact Ee]. set_solver.
    + apply submseteq_nil_l.
Qed.

Lemma act_stage s t a p s' t' evs new :
  stage s t → valid_now s → th_prog t = Do a :: p → act a s (set_prog p t) = (s', t', evs, new) →
  acts s t s' t' evs new.
Proof.
  intros Hs Hv Hp Ha. destruct Hs as [o m q v tmp ans Hq|found b v ans|found b v ans Hle|found b v ans Hne|found b v ans Hne
    |o m q v ans Hm Hc|o b v ans Hb Hc|edits v ans|edits1 edits2 v tmp ans He|edits e tmp v ans Hin He|v ptr ans Hlt];
    cbn in Hp; try discriminate; try (injection Hp as <- <-); cbn [set_prog th_op th_mode th_pointer th_tmp th_answer] in Ha.
  - subst q. by apply act_quiet.
  - cbn in Ha. injection Ha as <- <- <- <-. apply acts_same; auto. by apply sg_find1.
  - cbn in Ha. destruct (seems_empty v s) eqn:Ee; injection Ha as <- <- <- <-; apply acts_same; auto.
    + by apply sg_quiet.
    + apply sg_find2. by eapply seems_nonempty.
  - cbn in Ha. injection Ha as <- <- <- <-. apply acts_same; auto 6.
    + apply sg_quiet. cbn. by destruct (found _), b.
    + unfold pending. cbn. by destruct (found _), b.
  - by rewrite Hc in Hp.
  - by apply act_put.
  - injection Ha as <- <- <- <-. apply acts_same; auto.
    by apply (sg_tx s [] edits).
  - by eapply act_tx.
  - cbn in Ha. injection Ha as <- <- <- <-. split; try done; auto; [apply ev_clean|by apply sg_quiet].
Qed.

Definition relock (m : Mode) (pop : bool) p t : Thread := set_mode m (if pop then set_prog p t else t).

Lemma lock_quiet nested i m p ts m' pop :
  quiet_in nested m (i :: p) = true → lock_step i m ts = Some (m', pop) →
  quiet_in nested m' (if pop : bool then p else i :: p) = true.
Proof.
  intros Hq Hl. destruct i, m as [n| |]; try done; cbn in Hl.
  - destruct (existsb _ _); [done|]. injection Hl as <- <-. cbn in *. by apply andb_prop in Hq as [_ Hq].
  - destruct n as [|n]; [done|]. injection Hl as <- <-. done.
  - destruct n as [|n]; [|done]. destruct (existsb _ _); [done|]. injection Hl as <- <-. done.
  - destruct (forallb _ _); [|done]. injection Hl as <- <-. done.
  - injection Hl as <- <-. done.
Qed.

Lemma lock_stage s t i p ts m pop :
  stage s t → th_prog t = i :: p → lock_step i (th_mode t) ts = Some (m, pop) → stage s (relock m pop p t).
Proof.
  intros Hs Hp Hl. destruct Hs as [o m0 q v tmp ans Hq|found b v ans|found b v ans Hle|found b v ans Hne|found b v ans Hne
    |o m0 q v ans Hm Hc|o b v ans Hb Hc|edits v ans|edits1 edits2 v tmp ans He|edits e tmp v ans Hin He|v ptr ans Hlt];
    cbn [th_prog th_mode] in Hp, Hl; try discriminate; try (injection Hp as <- <-; done).
  - subst q. unfold relock. pose proof (lock_quiet _ _ _ _ _ _ _ Hq Hl). by destruct pop; apply sg_quiet.
  - injection Hp as <- <-. cbn in Hl. destruct (existsb _ _); [done|]. injection Hl as <- <-. by apply sg_find3.
  - rewrite Hc in Hp. injection Hp as <- <-. destruct Hm as [-> | ->]; cbn in Hl.
    + destruct (existsb _ _); [done|]. injection Hl as <- <-. eapply sg_wait; [by right|done].
    + destruct (forallb _ _); [|done]. injection Hl as <- <-. unfold relock, set_mode, set_prog; cbn.
      destruct o as [found b|force| | | |ms|acls|edits|z|w]; cbn in Hc; try discriminate.
      * by destruct force.
      * injection Hc as <-. by apply sg_quiet.
      * injection Hc as <-. by apply sg_put.
      * injection Hc as <-. by apply sg_put.
      * injection Hc as <-. apply sg_begin.
      * destruct (validate z) eqn:E; [done|]. injection Hc as <-. apply sg_put; cbn; [by rewrite E|by rewrite E].
  - unfold tx_rest in Hp. destruct edits2; by injection Hp as <- <-.
Qed.

Lemma relock_pending i m m' pop p t ts :
  th_prog t = i :: p → lock_step i m ts = Some (m', pop) → pending (relock m' pop p t) = pending t.
Proof.
  intros Hp Hl. unfold pending, relock. destruct pop; [|done]. cbn. rewrite Hp. by destruct i.
Qed.

(** *** The lock *)

(** One thread at most writes or waits to write, and while one writes nobody reads. *)
Record lock_ok ts : Prop := mkLockOk {
  lo_one i j t u : ts !! i = Some t → ts !! j = Some u → writer t = true → writer u = true → i = j;
  lo_excl i t : ts !! i = Some t → th_mode t = Writes → Forall (λ u, depth u = 0) ts;
}.

Lemma no_writer ts : existsb writer ts = false → ∀ i t, ts !! i = Some t → writer t = false.
Proof.
  intros H i t Ht. apply not_true_is_false. intros Hw. apply not_true_iff_false in H. apply H.
  apply existsb_exists. exists t. split; [by apply list_elem_of_In; eapply list_elem_of_lookup_2|done].
Qed.

Lemma writes_writer t : th_mode t = Writes → writer t = true.
Proof. unfold writer. by intros ->. Qed.

Lemma lock_step_cases i m ts m' pop :
  lock_step i m ts = Some (m', pop) →
  (∃ n, m = Reads n ∧ (m' = Reads (S n) ∨ n = 0 ∧ m' = Announced) ∧ existsb writer ts = false) ∨
  (∃ n, m = Reads (S n) ∧ m' = Reads n) ∨
  (m = Announced ∧ m' = Writes ∧ Forall (λ t, depth t = 0) ts) ∨ (m = Writes ∧ m' = Reads 0).
Proof.
  intros Hl. destruct i, m as [[|n]| |]; cbn in Hl; try discriminate;
    try (destruct (existsb writer ts) eqn:E; [done|]); try (destruct (forallb _ ts) eqn:E; [|done]);
    injection Hl as <- <-; eauto 10.
  right; right; left. split_and!; [done|done|]. apply Forall_forall. intros u Hin%list_elem_of_In.
  by apply Nat.eqb_eq, (proj1 (forallb_forall _ _) E u).
Qed.

Lemma lock_step_ok ts k t i p m pop :
  ts !! k = Some t → lock_step i (th_mode t) ts = Some (m, pop) → lock_ok ts → lock_ok (<[k := relock m pop p t]> ts).
Proof.
  intros Hk Hl [H1 H2]. set (t' := relock m pop p t). assert (th_mode t' = m) as Hm by by destruct pop.
  pose proof (lock_step_cases _ _ _ _ _ Hl) as Hc.
  assert (writer t' = true → ∀ i u, i ≠ k → ts !! i = Some u → writer u = false) as Hw.
  { intros Hw j u Hj Hu. unfold writer in Hw. rewrite Hm in Hw.
    destruct Hc as [(n & Et & _ & He)|[(n & _ & ->)|[(Et & _)|[_ ->]]]]; [by eapply no_writer|done| |done].
    apply not_true_is_false. intros Huw. apply Hj, (H1 j k u t); [done|done|done|]. unfold writer. by rewrite Et. }
  assert (∀ u j, th_mode u = Writes → <[k := t']> ts !! j = Some u → Forall (λ u, depth u = 0) (<[k := t']> ts)) as Hx.
  { intros u j Hu Hj. destruct (decide (j = k)) as [->|Hne].
    - rewrite list_lookup_insert_eq in Hj by (by eapply lookup_lt_Some). injection Hj as E. rewrite <- E in Hu. rewrite Hm in Hu.
      apply Forall_insert; [|unfold depth; by rewrite Hm, Hu].
      destruct Hc as [(n & _ & [?|[_ ?]] & _)|[(n & _ & ?)|[(_ & _ & ?)|[_ ?]]]]; try done; congruence.
    - rewrite list_lookup_insert_ne in Hj by done. pose proof (H2 _ _ Hj Hu) as Hd.
      apply Forall_insert; [done|]. unfold depth. rewrite Hm.
      destruct Hc as [(n & _ & _ & He)|[(n & Et & ->)|[(_ & -> & _)|[_ ->]]]]; [|..|done|done].
      + pose proof (no_writer _ He _ _ Hj). pose proof (writes_writer _ Hu). congruence.
      + pose proof (Forall_lookup_1 _ _ _ _ Hd Hk) as Hkd. unfold depth in Hkd. by rewrite Et in Hkd. }
  split; [|intros j u Hj Hu; by eapply Hx].
  intros j1 j2 u1 u2 E1 E2 W1 W2.
  destruct (decide (j1 = k)) as [->|N1], (decide (j2 = k)) as [->|N2]; [done| | |].
  - rewrite list_lookup_insert_eq in E1 by (by eapply lookup_lt_Some). injection E1 as E. rewrite <- E in W1.
    rewrite list_lookup_insert_ne in E2 by done. by rewrite (Hw W1 _ _ N2 E2) in W2.
  - rewrite list_lookup_insert_eq in E2 by (by eapply lookup_lt_Some). injection E2 as E. rewrite <- E in W2.
    rewrite list_lookup_insert_ne in E1 by done. by rewrite (Hw W2 _ _ N1 E1) in W1.
  - rewrite list_lookup_insert_ne in E1, E2 by done. by eapply H1.
Qed.

Lemma act_lock_ok ts k t t' new :
  ts !! k = Some t → th_mode t' = th_mode t → Forall (λ u, th_mode u = Reads 0) new →
  lock_ok ts → lock_ok (<[k := t']> ts ++ new).
Proof.
  intros Hk Hm Hn [H1 H2].
  assert (∀ i u, (<[k := t']> ts ++ new) !! i = Some u → writer u = true →
    ∃ u0, ts !! i = Some u0 ∧ th_mode u0 = th_mode u) as Hold.
  { intros i u Hi Hw. apply lookup_app_Some in Hi as [Hi|[_ Hi]].
    - apply list_lookup_insert_Some in Hi as [(-> & <- & _)|[_ Hi]]; eauto.
    - pose proof (Forall_lookup_1 _ _ _ _ Hn Hi) as E. cbn in E. unfold writer in Hw. by rewrite E in Hw. }
  assert (∀ u u0 : Thread, th_mode u0 = th_mode u → writer u0 = writer u) as Hwr by (intros u u0 E; unfold writer; by rewrite E).
  split.
  - intros i j u1 u2 E1 E2 W1 W2. destruct (Hold _ _ E1 W1) as (v1 & F1 & G1), (Hold _ _ E2 W2) as (v2 & F2 & G2).
    eapply H1; [exact F1|exact F2|by rewrite (Hwr _ _ G1)|by rewrite (Hwr _ _ G2)].
  - intros i u Hi Hu. destruct (Hold _ _ Hi (writes_writer _ Hu)) as (v & F & G).
    pose proof (H2 _ _ F ltac:(congruence)) as Hd. apply Forall_app. split.
    + apply Forall_insert; [done|]. pose proof (Forall_lookup_1 _ _ _ _ Hd Hk) as E. unfold depth in *. by rewrite Hm.
    + eapply Forall_impl; [exact Hn|]. intros w E. unfold depth. by rewrite E.
Qed.

(** ** The whole *)

Section runs.
Context (dz : DynamicZone) (ops : list ZoneOp).

(** The version an answer comes from was the zone after some of the completed operations,
    and not empty. *)
Definition answered_from t : option nat :=
  match th_answer t with Some (FoundIn v | WithAdditional v _) => Some v | _ => None end.

Definition answer_ok (evs : list ZoneOp) s t : Prop :=
  ∀ v, answered_from t = Some v → ∃ evs1 evs2 z, evs = evs1 ++ evs2 ∧ version v s = Some z ∧
    z = dz_zone (foldl atomically dz evs1) ∧ isEmpty z = false.

Record zinv (evs : list ZoneOp) s ts : Prop := mkZInv {
  zv_zone : sh_zone s = foldl atomically dz evs;
  zv_valid : valid_now s;
  zv_stage : Forall (stage s) ts;
  zv_lock : lock_ok ts;
  zv_answer : Forall (answer_ok evs s) ts;
  zv_op : Forall (λ t, th_op t ∈ ops ∨ ∃ v, th_op t = OpClean v) ts;
  zv_once : evs ++ (ts ≫= pending) ⊆+ ops;
}.

Lemma answer_ok_evolves evs evs' s s' t : evolves s s' → answer_ok evs s t → answer_ok (evs ++ evs') s' t.
Proof.
  intros He Ha v Hv. destruct (Ha v Hv) as (e1 & e2 & z & -> & H1 & H2 & H3).
  exists e1, (e2 ++ evs'), z. split_and!; [by rewrite (assoc_L (++))|by eapply evolves_version|done|done].
Qed.

Lemma version_current s : version (current s) s = Some (dz_zone (sh_zone s)).
Proof. unfold version. rewrite (lookup_ge_None_2 (sh_old s)) by (unfold current; lia). by rewrite Nat.eqb_refl. Qed.

Lemma acts_answer evs evs' s t s' t' new :
  acts s t s' t' evs' new → sh_zone s = foldl atomically dz evs → answer_ok evs s t → answer_ok (evs ++ evs') s' t'.
Proof.
  intros [] Hz Ha v. unfold answered_from. intros Hv.
  destruct ac_answer0 as [E|[E|[[E Hne]|(w & c & E & E')]]].
  - rewrite E in Hv. by eapply answer_ok_evolves.
  - by rewrite E in Hv.
  - rewrite E in Hv. injection Hv as <-. exists evs, evs', (dz_zone (sh_zone s)).
    split_and!; [done|by eapply evolves_version; [|apply version_current]|by rewrite Hz|done].
  - rewrite E' in Hv. injection Hv as <-. eapply answer_ok_evolves; [done|done|]. unfold answered_from. by rewrite E.
Qed.

Lemma start_zinv : (∀ v, OpClean v ∉ ops) → zinv [] (mkShared [] dz) (start <$> ops).
Proof.
  intros Hc. split; [done|by intros []|..].
  - apply Forall_fmap, Forall_forall. intros o Ho. apply start_stage. by intros v ->; eapply Hc.
  - split.
    + intros i j t u Hi _ Hw _. rewrite list_lookup_fmap in Hi. by destruct (ops !! i); [injection Hi as <-|].
    + intros i t Hi Hw. rewrite list_lookup_fmap in Hi. by destruct (ops !! i); [injection Hi as <-|].
  - apply Forall_fmap, Forall_forall. intros o _ v Hv. done.
  - apply Forall_fmap, Forall_forall. intros o Ho. by left.
  - cbn. clear Hc. induction ops as [|o os IH]; [done|]. cbn. unfold pending at 1. cbn.
    destruct (existsb _ _); [by apply submseteq_skip|by apply submseteq_cons].
Qed.

Lemma bind_pending_insert ts k t t' :
  ts !! k = Some t → ∀ evs, evs ++ pending t' ⊆+ pending t → evs ++ (<[k := t']> ts ≫= pending) ⊆+ ts ≫= pending.
Proof.
  intros Hk evs Hp. rewrite insert_take_drop by (by eapply lookup_lt_Some).
  rewrite <- (take_drop_middle ts k t Hk) at 3. rewrite !bind_app, !bind_cons.
  etrans; [|by apply submseteq_skips_l, submseteq_skips_r, Hp]. apply Permutation_submseteq. solve_Permutation.
Qed.

Lemma zstep_zinv evs s ts evs' s' ts' :
  zinv evs s ts → zstep (s, ts) evs' (s', ts') → zinv (evs ++ evs') s' ts'.
Proof.
  intros [H1 H2 H3 H4 H5 H6 H7] Hs. inversion Hs as [s0 ts0 k t i p m pop Hk Hp Hl|s0 ts0 k t a p s1 t' evs0 new Hk Hp Ha]; subst.
  - rewrite app_nil_r. pose proof (Forall_lookup_1 _ _ _ _ H3 Hk) as Ht. fold (relock m pop p t). split; try done.
    + apply Forall_insert; [done|]. by eapply lock_stage.
    + by apply (lock_step_ok ts k t i).
    + apply Forall_insert; [done|]. pose proof (Forall_lookup_1 _ _ _ _ H5 Hk) as Hans. by destruct pop.
    + apply Forall_insert; [done|]. pose proof (Forall_lookup_1 _ _ _ _ H6 Hk) as Hop. by destruct pop.
    + etrans; [|exact H7]. apply submseteq_skips_l, (bind_pending_insert _ _ _ _ Hk []).
      by rewrite (relock_pending _ _ _ _ _ _ _ Hp Hl).
  - pose proof (Forall_lookup_1 _ _ _ _ H3 Hk) as Ht. destruct (act_stage _ _ _ _ _ _ _ _ Ht H2 Hp Ha).
    pose proof (Forall_lookup_1 _ _ _ _ H5 Hk) as Hans. pose proof (Forall_lookup_1 _ _ _ _ H6 Hk) as Hop. cbn in Hop.
    split.
    + by rewrite foldl_app, <- H1.
    + by eapply evolves_valid.
    + apply Forall_app. split; [|done]. apply Forall_lookup. intros j u Hj.
      apply list_lookup_insert_Some in Hj as [(_ & <- & _)|[Hne Hj]]; [done|].
      eapply stage_evolves; [done|by eapply Forall_lookup_1|]. intros Hu. destruct ac_writes0 as [|Hw]; [done|].
      destruct Hne. eapply (lo_one _ H4); [exact Hk|exact Hj|by apply writes_writer|by apply writes_writer].
    + eapply act_lock_ok; [done|done| |done]. eapply Forall_impl; [done|]. by intros u [v ->].
    + apply Forall_app. split; [apply Forall_insert|].
      * eapply Forall_impl; [exact H5|]. intros u Hu. by eapply answer_ok_evolves.
      * by eapply acts_answer.
      * eapply Forall_impl; [exact ac_clean0|]. intros u [v ->] w Hw. done.
    + apply Forall_app. split; [apply Forall_insert; [done|by rewrite ac_op0]|].
      eapply Forall_impl; [exact ac_clean0|]. intros u [v ->]. right. by exists v.
    + rewrite bind_app. assert (new ≫= pending = []) as ->.
      { clear -ac_clean0. induction ac_clean0 as [|u us [v ->] _ IH]; [done|]. by rewrite bind_cons, IH. }
      rewrite app_nil_r, <- (assoc_L (++)). etrans; [|exact H7]. apply submseteq_skips_l. by eapply bind_pending_insert.
Qed.

Lemma zrun_zinv evs s ts :
  (∀ v, OpClean v ∉ ops) → zrun (zone_start dz ops) evs (s, ts) → zinv evs s ts.
Proof.
  intros Hc Hr. remember (zone_start dz ops) as x eqn:Ex. remember (s, ts) as y eqn:Ey. revert s ts Ey.
  induction Hr as [x|x evs [s1 ts1] evs' z Hr IH Hs]; intros s ts ->.
  - injection Ex as -> ->. by apply start_zinv.
  - eapply zstep_zinv; [by apply IH|done].
Qed.

End runs.
End zone_lock_inv.

(** ** Every operation returns *)

Section zone_lock_end.
Context {N : G53Name} {M : G53Msg N} {ZT : ZoneTree N}.
Implicit Types (s : Shared) (t u : Thread) (ts : list Thread) (o : ZoneOp) (p : list Instr).

(** What an instruction can still cost, with what it can add to a program. *)
Definition cost (i : Instr) : nat :=
  match i with
  | Do (FindIn _ _) => 14
  | Do CommitTx | Do (EditTx _) => 4
  | _ => 2
  end.
Definition costs p : nat := sum_list (cost <$> p).
Definition thread_work t : nat := match th_mode t with Announced => costs (th_prog t) - 1 | _ => costs (th_prog t) end.
Definition work ts : nat := sum_list (thread_work <$> ts).

Lemma costs_app p q : costs (p ++ q) = costs p + costs q.
Proof. unfold costs. rewrite fmap_app. induction (cost <$> p); cbn; lia. Qed.

Lemma lock_work i p t ts m pop :
  th_prog t = i :: p → lock_step i (th_mode t) ts = Some (m, pop) → thread_work (relock m pop p t) < thread_work t.
Proof.
  intros Hp Hl. unfold thread_work, relock. rewrite Hp. change (costs (i :: p)) with (cost i + costs p).
  destruct i, (th_mode t) as [[|n]| |] eqn:Et; cbn in Hl; try discriminate;
    try (destruct (existsb _ _); [done|]); try (destruct (forallb _ _); [|done]);
    injection Hl as <- <-; cbn [set_mode set_prog th_mode th_prog cost]; rewrite ?Hp;
    try change (costs (Lock :: p)) with (2 + costs p); lia.
Qed.

Lemma act_costs a p s t s' t' evs new :
  th_prog t = Do a :: p → act a s (set_prog p t) = (s', t', evs, new) →
  th_mode t' = th_mode t ∧ costs (th_prog t') + work new + 2 ≤ costs (th_prog t).
Proof.
  intros Hp Ha. rewrite Hp. change (costs (Do a :: p)) with (cost (Do a) + costs p).
  destruct a; cbn in Ha; repeat case_match; simplify_eq; (split; [done|]); cbn [th_prog set_prog set_answer set_tmp set_pointer];
    rewrite ?costs_app; cbn; fold (costs p); lia.
Qed.

Lemma act_work a p s t s' t' evs new :
  th_prog t = Do a :: p → act a s (set_prog p t) = (s', t', evs, new) → thread_work t' + work new < thread_work t.
Proof.
  intros Hp Ha. destruct (act_costs _ _ _ _ _ _ _ _ Hp Ha) as [Hm Hc]. unfold thread_work. rewrite Hm. destruct (th_mode t); lia.
Qed.

Lemma work_app ts us : work (ts ++ us) = work ts + work us.
Proof. unfold work. rewrite fmap_app. induction (thread_work <$> ts); cbn; lia. Qed.

Lemma work_insert ts k t t' n : ts !! k = Some t → thread_work t' + n < thread_work t → work (<[k := t']> ts) + n < work ts.
Proof.
  intros Hk Hlt. rewrite insert_take_drop by (by eapply lookup_lt_Some).
  rewrite <- (take_drop_middle ts k t Hk) at 3. rewrite !work_app. unfold work at 2 4. cbn. fold (work (drop (S k) ts)). lia.
Qed.

Definition some_step (x y : Shared * list Thread) : Prop := ∃ evs, zstep x evs y.

Lemma step_work x y : some_step x y → work y.2 < work x.2.
Proof.
  intros [evs [s ts k t i p m pop Hk Hp Hl|s ts k t a p s' t' evs' new Hk Hp Ha]]; cbn [snd].
  - pose proof (work_insert ts k t (relock m pop p t) 0 Hk) as Hw. rewrite !Nat.add_0_r in Hw. apply Hw. by eapply lock_work.
  - rewrite work_app. eapply work_insert; [done|]. by eapply act_work.
Qed.

Lemma steps_work n x y : nsteps some_step n x y → n + work y.2 ≤ work x.2.
Proof. induction 1 as [|n x y z Hs _ IH]; [lia|]. apply step_work in Hs. lia. Qed.

(** The next instruction of a thread that takes no read lock under another. *)
Lemma stage_head s t :
  stage s t → nests (th_op t) = false →
  match th_mode t with
  | Reads 0 => th_prog t = [] ∨ ∃ i p, th_prog t = i :: p ∧ (i = RLock ∨ i = Lock ∨ ∃ a, i = Do a)
  | Reads _ => ∃ i p, th_prog t = i :: p ∧ (i = RUnlock ∨ ∃ a, i = Do a)
  | Announced => ∃ p, th_prog t = Lock :: p
  | Writes => (∃ i p, th_prog t = i :: p ∧ (i = Unlock ∨ ∃ a, i = Do a)) ∨
      ∃ edits e tmp, th_op t = OpUpdate edits ∧ e ∈ edits ∧ e tmp = Crashes
  end.
Proof.
  intros Hs Hn. destruct Hs as [o m q v tmp ans Hq|found b v ans|found b v ans Hle|found b v ans Hne|found b v ans Hne
    |o m q v ans Hm Hc|o b v ans Hb Hc|edits v ans|edits1 edits2 v tmp ans He|edits e tmp v ans Hin He|v ptr ans Hlt];
    cbn [th_op th_mode th_prog] in *; eauto 10.
  - destruct m as [[|n]| |]; cbn in Hq; destruct q as [|[| | | |a] q]; cbn in Hq; rewrite ?Hn in Hq; try done; eauto 10.
  - destruct Hm as [-> | ->]; rewrite Hc; eauto 10.
  - left. unfold tx_rest. destruct edits2; cbn; eauto 10.
Qed.

(** Operations that take one lock at a time and do not panic. *)
Definition orderly o : Prop :=
  match o with
  | OpMasters | OpClean _ => False
  | OpUpdate edits => ∀ e tmp, e ∈ edits → e tmp ≠ Crashes
  | _ => True
  end.

Lemma do_steps s ts k t a p : ts !! k = Some t → th_prog t = Do a :: p → ∃ evs y, zstep (s, ts) evs y.
Proof. intros Hk Hp. destruct (act a s (set_prog p t)) as [[[s' t'] evs] new] eqn:E. eexists _, _. by eapply zs_do. Qed.

Lemma lock_steps s ts k t i p m pop :
  ts !! k = Some t → th_prog t = i :: p → lock_step i (th_mode t) ts = Some (m, pop) → ∃ evs y, zstep (s, ts) evs y.
Proof. intros Hk Hp Hl. eexists _, _. by eapply zs_lock. Qed.

Section progress.
Context (s : Shared) (ts : list Thread)
  (Hstage : ∀ k t, ts !! k = Some t → stage s t)
  (Hnests : ∀ k t, ts !! k = Some t → nests (th_op t) = false)
  (Hcrash : ∀ k t edits e tmp, ts !! k = Some t → th_op t = OpUpdate edits → e ∈ edits → e tmp ≠ Crashes).

Lemma writes_steps k t : ts !! k = Some t → th_mode t = Writes → ∃ evs y, zstep (s, ts) evs y.
Proof.
  intros Hk Hm. pose proof (stage_head _ _ (Hstage _ _ Hk) (Hnests _ _ Hk)) as H. rewrite Hm in H.
  destruct H as [(i & p & Hp & [->|[a ->]])|(edits & e & tmp & Ho & Hin & He)].
  - eapply lock_steps; [done..|]. by rewrite Hm.
  - by eapply do_steps.
  - by destruct (Hcrash _ _ _ _ tmp Hk Ho Hin).
Qed.

Lemma reads_steps k t n : ts !! k = Some t → th_mode t = Reads (S n) → ∃ evs y, zstep (s, ts) evs y.
Proof.
  intros Hk Hm. pose proof (stage_head _ _ (Hstage _ _ Hk) (Hnests _ _ Hk)) as H. rewrite Hm in H.
  destruct H as (i & p & Hp & [->|[a ->]]); [|by eapply do_steps]. eapply lock_steps; [done..|]. by rewrite Hm.
Qed.

Lemma announced_steps k t : ts !! k = Some t → th_mode t = Announced → ∃ evs y, zstep (s, ts) evs y.
Proof.
  intros Hk Hm. pose proof (stage_head _ _ (Hstage _ _ Hk) (Hnests _ _ Hk)) as H. rewrite Hm in H. destruct H as [p Hp].
  destruct (forallb (λ t, depth t =? 0) ts) eqn:Ed.
  - eapply lock_steps; [done..|]. rewrite Hm. cbn. by rewrite Ed.
  - assert (¬ Forall (λ t, depth t = 0) ts) as Hd.
    { intros Hd. apply not_true_iff_false in Ed. apply Ed, forallb_forall. intros u Hu%list_elem_of_In.
      apply Nat.eqb_eq. by eapply Forall_forall in Hd. }
    apply not_Forall_Exists, Exists_exists in Hd as (u & [j Hj]%list_elem_of_lookup & Hu); [|solve_decision].
    unfold depth in Hu. cbn in Hu. destruct (th_mode u) as [[|n]| |] eqn:Eu; try done. by eapply reads_steps.
Qed.

Lemma threads_step k t : ts !! k = Some t → th_prog t ≠ [] → ∃ evs y, zstep (s, ts) evs y.
Proof.
  intros Hk Hne. destruct (existsb writer ts) eqn:Ew.
  - apply existsb_exists in Ew as (u & Hu & Hw). apply list_elem_of_In, list_elem_of_lookup in Hu as [j Hj].
    unfold writer in Hw. destruct (th_mode u) eqn:Eu; [done|by eapply announced_steps|by eapply writes_steps].
  - destruct (th_mode t) as [[|n]| |] eqn:Et; [|by eapply reads_steps|by eapply announced_steps|by eapply writes_steps].
    pose proof (stage_head _ _ (Hstage _ _ Hk) (Hnests _ _ Hk)) as H. rewrite Et in H.
    destruct H as [|(i & p & Hp & [->|[->|[a ->]]])]; [done|..|by eapply do_steps];
      (eapply lock_steps; [done..|]); rewrite Et; cbn; by rewrite Ew.
Qed.
End progress.

End zone_lock_end.

(** ** What the lock does not cover *)

Section zone_lock_hazards.
Context {N : G53Name} {M : G53Msg N} {ZT : ZoneTree N}.
Abbreviation TxEdit := (MemoryZone → TxResult).
Implicit Types (s : Shared) (t u : Thread) (ts : list Thread) (o : ZoneOp) (p : list Instr).

Lemma zr_silent x evs y z : zrun x evs y → zstep y [] z → zrun x evs z.
Proof. intros H1 H2. rewrite <- (app_nil_r evs). by eapply zr_step. Qed.

(** A lock step of a thread, and an access. *)
Lemma zr_lock x evs s ts k t i p m pop ts' :
  zrun x evs (s, ts) → ts !! k = Some t → th_prog t = i :: p → lock_step i (th_mode t) ts = Some (m, pop) →
  <[k := relock m pop p t]> ts = ts' → zrun x evs (s, ts').
Proof. intros Hr Hk Hp Hl <-. eapply zr_silent; [exact Hr|]. by eapply zs_lock. Qed.

Lemma zr_do x evs s ts k t a p s' t' evs' new ts' :
  zrun x evs (s, ts) → ts !! k = Some t → th_prog t = Do a :: p → act a s (set_prog p t) = (s', t', evs', new) →
  <[k := t']> ts ++ new = ts' → zrun x (evs ++ evs') (s', ts').
Proof. intros Hr Hk Hp Ha <-. eapply zr_step; [exact Hr|]. by eapply zs_do. Qed.

Lemma run_edits x evs s t o (edits : list TxEdit) tmp tmp' v :
  edit_all edits tmp = Some tmp' →
  zrun x evs (s, [t; mkThread o Writes (tx_rest edits) v (Some tmp) None]) →
  zrun x evs (s, [t; mkThread o Writes (tx_rest []) v (Some tmp') None]).
Proof.
  revert tmp. induction edits as [|e edits IH]; cbn [edit_all]; intros tmp He Hr; [by injection He as <-|].
  destruct (e tmp) as [tmp1| |] eqn:Ee; try done. apply (IH tmp1 He). rewrite <- (app_nil_r evs).
  eapply (zr_do _ _ _ _ 1); [exact Hr|done|done|cbn; by rewrite Ee|done].
Qed.

(** An update beside a thread that is outside the lock. *)
Lemma run_update x evs s t (edits : list TxEdit) tmp :
  th_mode t = Reads 0 → edit_all edits (Begin (sh_zone s)) = Some tmp → validate tmp = None →
  zrun x evs (s, [t; start (OpUpdate edits)]) →
  ∃ u1 u2, zrun x (evs ++ [OpUpdate edits]) (clean (current s) (replace tmp s), [t; u1; u2]) ∧
    th_mode u1 = Reads 0 ∧ th_mode u2 = Reads 0.
Proof.
  intros Hm He Hv Hr. set (o := OpUpdate edits) in *.
  assert (writer t = false ∧ depth t = 0) as [Hw Hd] by (unfold writer, depth; by rewrite Hm).
  assert (zrun x evs (s, [t; mkThread o Announced (code o) 0 None None])) as Hr1.
  { eapply (zr_lock _ _ _ _ 1); [exact Hr|done|done|cbn; by rewrite Hw|done]. }
  assert (zrun x evs (s, [t; mkThread o Writes (Do StartTx :: tx_rest edits) 0 None None])) as Hr2.
  { eapply (zr_lock _ _ _ _ 1); [exact Hr1|done|done|cbn; by rewrite Hd|done]. }
  assert (zrun x evs (s, [t; mkThread o Writes (tx_rest edits) 0 (Some (Begin (sh_zone s))) None])) as Hr3.
  { rewrite <- (app_nil_r evs). by eapply (zr_do _ _ _ _ 1); [exact Hr2|done|done|done|]. }
  apply (run_edits _ _ _ _ _ _ _ _ _ He) in Hr3.
  eapply (zr_do _ _ _ _ 1 _ _ _ (replace tmp s)) in Hr3; [|done|done|cbn; by rewrite Hv|done]. cbn in Hr3.
  eapply (zr_lock _ _ _ _ 1) in Hr3; [|done|done|done|done]. cbn in Hr3.
  eapply (zr_do _ _ _ _ 2) in Hr3; [|done|done|done|done]. rewrite app_nil_r in Hr3.
  eexists _, _. split_and!; [exact Hr3|done|done].
Qed.

(** A lookup that asks whether the zone is empty while an update replaces it: the version it
    looks at was cleaned in between. *)
Lemma find_servfail dz (edits : list TxEdit) tmp found a :
  edit_all edits (Begin dz) = Some tmp → validate tmp = None →
  ∃ s ts t, zrun (zone_start dz [OpFind found a; OpUpdate edits]) [OpUpdate edits] (s, ts) ∧ t ∈ ts ∧
    th_op t = OpFind found a ∧ th_answer t = Some ServFail ∧ sh_zone s = set_zone tmp dz.
Proof.
  intros He Hv. set (x := zone_start dz [OpFind found a; OpUpdate edits]).
  pose proof (zr_refl x) as Hr. eapply (zr_do _ _ _ _ 0) in Hr; [|done|done|done|done]. cbn in Hr.
  apply (run_update _ _ _ _ _ tmp) in Hr as (u1 & u2 & Hr & _); [|done|done|done].
  eapply (zr_do _ _ _ _ 0) in Hr; [|done|done|done|done].
  eexists _, _, _. split_and!; [exact Hr|by left|done|done|done].
Qed.

(** A lookup that has found a record set and goes on to the addresses. *)
Definition found_in (found : MemoryZone → bool) m p : Thread := mkThread (OpFind found true) m p 0 None (Some (FoundIn 0)).

Lemma run_find dz u found :
  isEmpty (dz_zone dz) = false → found (dz_zone dz) = true → th_mode u = Reads 0 →
  zrun (mkShared [] dz, [start (OpFind found true); u]) []
    (mkShared [] dz, [found_in found (Reads 0) [RLock; Do AdditionalIn; RUnlock]; u]).
Proof.
  intros Hne Hf Hu. assert (writer u = false ∧ depth u = 0) as [Hw Hd] by (unfold writer, depth; by rewrite Hu).
  set (o := OpFind found true). set (x := (mkShared [] dz, [start o; u])).
  assert (zrun x [] (mkShared [] dz, [mkThread o (Reads 0) [Do TestEmpty; RLock; Do (FindIn found true); RUnlock] 0 None None; u])) as Hr
    by (eapply (zr_do _ [] _ _ 0); [apply zr_refl|done|done|done|done]).
  assert (zrun x [] (mkShared [] dz, [mkThread o (Reads 0) [RLock; Do (FindIn found true); RUnlock] 0 None None; u])) as Hr1
    by (eapply (zr_do _ [] _ _ 0); [exact Hr|done|done|cbn; unfold seems_empty; cbn; by rewrite Hne|done]).
  assert (zrun x [] (mkShared [] dz, [mkThread o (Reads 1) [Do (FindIn found true); RUnlock] 0 None None; u])) as Hr2
    by (eapply (zr_lock _ _ _ _ 0); [exact Hr1|done|done|cbn; by rewrite Hw|done]).
  set (rest := [RLock; Do AdditionalIn; RUnlock]).
  assert (zrun x [] (mkShared [] dz, [found_in found (Reads 1) (RUnlock :: rotation ++ rest); u])) as Hr3
    by (eapply (zr_do _ [] _ _ 0); [exact Hr2|done|done|cbn; by rewrite Hf|done]).
  assert (zrun x [] (mkShared [] dz, [found_in found (Reads 0) (rotation ++ rest); u])) as Hr4
    by (eapply (zr_lock _ _ _ _ 0); [exact Hr3|done|done|done|done]).
  assert (zrun x [] (mkShared [] dz, [found_in found Announced (rotation ++ rest); u])) as Hr5
    by (eapply (zr_lock _ _ _ _ 0); [exact Hr4|done|done|cbn; by rewrite Hw|done]).
  assert (zrun x [] (mkShared [] dz, [found_in found Writes (Do Rotate :: Unlock :: rest); u])) as Hr6
    by (eapply (zr_lock _ _ _ _ 0); [exact Hr5|done|done|cbn; by rewrite Hd|done]).
  assert (zrun x [] (mkShared [] dz, [found_in found Writes (Unlock :: rest); u])) as Hr7
    by (eapply (zr_do _ [] _ _ 0); [exact Hr6|done|done|done|done]).
  eapply (zr_lock _ _ _ _ 0); [exact Hr7|done|done|done|done].
Qed.

(** A query that asks for the addresses after an update: they are looked for in the version
    of the first lookup, which was cleaned. *)
Lemma additional_cleaned dz (edits : list TxEdit) tmp found :
  isEmpty (dz_zone dz) = false → found (dz_zone dz) = true →
  edit_all edits (Begin dz) = Some tmp → validate tmp = None →
  ∃ s ts t, zrun (zone_start dz [OpFind found true; OpUpdate edits]) [OpUpdate edits] (s, ts) ∧ t ∈ ts ∧
    th_op t = OpFind found true ∧ th_answer t = Some (WithAdditional 0 true).
Proof.
  intros Hne Hf He Hv. pose proof (run_find dz (start (OpUpdate edits)) found Hne Hf eq_refl) as Hr.
  apply (run_update _ _ _ _ _ tmp) in Hr as (u1 & u2 & Hr & Hu1 & Hu2); [|done|done|done].
  set (s := clean _ _) in Hr. set (t := mkThread (OpFind found true) (Reads 1) [RUnlock] 0 None (Some (WithAdditional 0 true))).
  exists s, [t; u1; u2], t. split; [|split; [by left|done]].
  assert (zrun (zone_start dz [OpFind found true; OpUpdate edits]) [OpUpdate edits]
    (s, [found_in found (Reads 1) [Do AdditionalIn; RUnlock]; u1; u2])) as Hr1.
  { eapply (zr_lock _ _ _ _ 0); [exact Hr|done|done|cbn; unfold writer; by rewrite Hu1, Hu2|done]. }
  exact (zr_do _ _ _ _ 0 _ _ _ _ _ [] [] _ Hr1 eq_refl eq_refl eq_refl eq_refl).
Qed.

(** [Masters] with a writer between its two read locks: both wait for ever. *)
Lemma masters_deadlock dz masters :
  ∃ ts, zrun (zone_start dz [OpMasters; OpSetMasters masters]) [] (mkShared [] dz, ts) ∧
    Forall (λ t, th_prog t ≠ []) ts ∧ ∀ y, ¬ some_step (mkShared [] dz, ts) y.
Proof.
  pose proof (zr_refl (zone_start dz [OpMasters; OpSetMasters masters])) as Hr.
  eapply (zr_lock _ _ _ _ 0) in Hr; [|done|done|done|done]. cbn in Hr.
  eapply (zr_lock _ _ _ _ 1) in Hr; [|done|done|done|done]. cbn in Hr.
  eexists. split; [exact Hr|]. split; [by repeat constructor|]. intros y [evs Hs].
  inversion Hs as [s0 ts0 k t i p m pop Hk Hp Hl|s0 ts0 k t a p s1 t' evs0 new Hk Hp Ha]; subst;
    destruct k as [|[|k]]; cbn in Hk; simplify_eq/=.
Qed.

(** A panic inside a transaction: the lock is never given back, and lookups hang. *)
Lemma crash_keeps_lock dz (e : TxEdit) found a :
  isEmpty (dz_zone dz) = false → e (Begin dz) = Crashes →
  ∃ ts t, zrun (zone_start dz [OpUpdate [e]; OpFind found a]) [] (mkShared [] dz, ts) ∧ t ∈ ts ∧
    th_op t = OpFind found a ∧ th_prog t ≠ [] ∧ ∀ y, ¬ some_step (mkShared [] dz, ts) y.
Proof.
  intros Hne He. pose proof (zr_refl (zone_start dz [OpUpdate [e]; OpFind found a])) as Hr.
  do 2 (eapply (zr_lock _ _ _ _ 0) in Hr; [|done|done|done|done]; cbn in Hr).
  eapply (zr_do _ _ _ _ 0) in Hr; [|done|done|done|done]. cbn in Hr.
  eapply (zr_do _ _ _ _ 0 _ _ _ (mkShared [] dz)) in Hr; [|done|done|cbn; by rewrite He|done]. cbn in Hr.
  eapply (zr_do _ _ _ _ 1) in Hr; [|done|done|done|done]. cbn in Hr.
  eapply (zr_do _ _ _ _ 1 _ _ _ (mkShared [] dz)) in Hr; [|done|done|cbn; unfold seems_empty; cbn; by rewrite Hne|done].
  cbn in Hr. eexists _, _. split; [exact Hr|]. split; [by right; left|]. split_and!; [done|done|]. intros y [evs Hs].
  inversion Hs as [s0 ts0 k t i p m pop Hk Hp Hl|s0 ts0 k t b p s1 t' evs0 new Hk Hp Ha]; subst;
    destruct k as [|[|k]]; cbn in Hk; simplify_eq/=.
Qed.

(** C26: what the lock does not cover.  Take a zone that is not empty and an update that is
    accepted.  A lookup beside it can be answered with SERVFAIL although the zone is never
    without its records: it asks whether the zone is empty without the lock, and [Commit]
    has the version it looks at cleaned.  A query that has found its record set can look for
    the additional addresses in the cleaned version.  [Masters] and [SetMasters] at the same
    time can wait for each other for ever, as the first takes the read lock twice.  And an
    edit that panics keeps the write lock: every later lookup hangs. *)
Theorem zone_lock_hazards dz (edits : list TxEdit) tmp found a (e : TxEdit) masters :
  isEmpty (dz_zone dz) = false → found (dz_zone dz) = true →
  edit_all edits (Begin dz) = Some tmp → validate tmp = None → e (Begin dz) = Crashes →
  (∃ s ts t, zrun (zone_start dz [OpFind found a; OpUpdate edits]) [OpUpdate edits] (s, ts) ∧ t ∈ ts ∧
     th_op t = OpFind found a ∧ th_answer t = Some ServFail ∧ sh_zone s = set_zone tmp dz) ∧
  (∃ s ts t, zrun (zone_start dz [OpFind found true; OpUpdate edits]) [OpUpdate edits] (s, ts) ∧ t ∈ ts ∧
     th_op t = OpFind found true ∧ th_answer t = Some (WithAdditional 0 true)) ∧
  (∃ ts, zrun (zone_start dz [OpMasters; OpSetMasters masters]) [] (mkShared [] dz, ts) ∧
     Forall (λ t, th_prog t ≠ []) ts ∧ ∀ y, ¬ some_step (mkShared [] dz, ts) y) ∧
  (∃ ts t, zrun (zone_start dz [OpUpdate [e]; OpFind found a]) [] (mkShared [] dz, ts) ∧ t ∈ ts ∧
     th_op t = OpFind found a ∧ th_prog t ≠ [] ∧ ∀ y, ¬ some_step (mkShared [] dz, ts) y).
Proof.
  intros H1 H2 H3 H4 H5.
  split_and!; [by apply find_servfail|by eapply additional_cleaned|apply masters_deadlock|by apply crash_keeps_lock].
Qed.
End zone_lock_hazards.

(** ** Witnesses *)

Section zone_lock_examples.

(** A query for a name beside an update that removes it. *)
Definition drop_mail : MemoryZone → TxResult := edit_of demo_heap (TxDeleteDomain mail).
Definition bad_add : MemoryZone → TxResult := edit_of demo_heap (TxAdd 999).
Definition has_mail (z : MemoryZone) : bool :=
  match MemoryZone_find mail RR_CNAME DefaultFind demo_heap z with
  | Ret (_, result, _) => bool_decide (is_Some (fr_RRset result))
  | _ => false
  end.

Definition demo_ops : list ZoneOp := [OpFind has_mail true; OpUpdate [drop_mail]].

Definition demo_edited : option MemoryZone := edit_all [drop_mail] (Begin demo_zone).
Definition demo_new : MemoryZone := default (dz_zone demo_zone) demo_edited.

Lemma demo_edited_some : demo_edited = Some demo_new.
Proof. by_eval. Qed.

Lemma demo_new_valid : validate demo_new = None.
Proof. by_eval. Qed.

Lemma zone_lock_hazards_witness :
  has_mail demo_new = false ∧
  ∃ s ts t, zrun (zone_start demo_zone demo_ops) [OpUpdate [drop_mail]] (s, ts) ∧ t ∈ ts ∧
    th_op t = OpFind has_mail true ∧ th_answer t = Some ServFail ∧ sh_zone s = set_zone demo_new demo_zone.
Proof.
  split; [by_eval|]. apply (zone_lock_hazards demo_zone [drop_mail] demo_new has_mail true bad_add []).
  - by_eval.
  - by_eval.
  - exact demo_edited_some.
  - exact demo_new_valid.
  - by_eval.
Defined.


Definition orderly_ops : list ZoneOp :=
  [OpFind has_mail true; OpSetMasters ["10.0.0.1"]; OpLoad (dz_zone demo_zone); OpGetUpdator false; OpDomainCount].

End zone_lock_examples.
