(* ===== verification/Auth.v ===== *)
(** * Authoritative data (src/resolver/auth)

    Zones by view and origin; answering a query from a zone, dynamic updates,
    loading zones from text and from a master, and the zone commands.  Zones are
    held by pointer in the trees of the views, so they live in a store, as do the
    record sets of all zones. *)

From S2P Require Import Prelude GoStd G53 Instances Core HttpCmd Cement Acl CacheHandler Util Chain Zone.
From Stdlib Require Import Ascii.

Local Open Scope Z_scope.

(** ** errcode.go *)

Definition ErrGetZoneFail : CmdError :=
  NewError (AuthErrCodeStart + 1) "get zone from backend server failed".
Definition ErrZoneUpdateFailed : CmdError := NewError (AuthErrCodeStart + 7) "update zone failed".
Definition ErrInvalidZoneName : CmdError := NewError (AuthErrCodeStart + 21) "zone name isn't valid".
Definition ErrInvalidZoneData : CmdError := NewError (AuthErrCodeStart + 24) "invalid zone data".
Definition AuthErrInvalidRR : CmdError := NewError (AuthErrCodeStart + 25) "rr data isn't valid".
Definition ErrUpdateZoneFailed : CmdError :=
  NewError (AuthErrCodeStart + 27) "update auth zone failed".

Definition ErrServFail : string := "empty zone must servfail".
Definition ErrNoAuthUpdate : string := "No Auth to update zone".

Section auth.
Context {N : G53Name} {M : G53Msg N} {ZT : ZoneTree N} {DT : DomainTree N} {R : NetRadix}.

(** [AuthDataSource] with the stores its pointers lead to. *)
Record AuthState : Type := mkAuth {
  au_rrs : gmap nat RRset;
  au_zones : gmap nat DynamicZone;
  au_views : gmap string (dtree nat);
}.

Definition set_rrs (h : gmap nat RRset) (s : AuthState) : AuthState :=
  mkAuth h (au_zones s) (au_views s).
Definition put_zone (l : nat) (dz : DynamicZone) (s : AuthState) : AuthState :=
  mkAuth (au_rrs s) (<[l := dz]> (au_zones s)) (au_views s).
Definition set_views (v : gmap string (dtree nat)) (s : AuthState) : AuthState :=
  mkAuth (au_rrs s) (au_zones s) v.

Definition deref_zone (l : nat) (s : AuthState) : outcome DynamicZone :=
  from_option_panic "invalid memory address" (au_zones s !! l).

(** ** auth.go *)

(** The zone is nil when nothing is found. *)
Definition GetZone (viewName : string) (name : Name) (s : AuthState) : option nat * SearchResult :=
  match au_views s !! viewName with
  | None => (None, NotFound)
  | Some zones =>
      let '(z, result) := dt_Search name zones in
      if decide (result = NotFound) then (None, result) else (z, result)
  end.

(** ** query.go *)

(** The record sets a query collects; pointers may be nil. *)
Record QuerySections : Type := mkSections {
  qs_answers : list (option nat);
  qs_authorities : list (option nat);
  qs_additionals : list (option nat);
}.

Definition addAuthAdditional (dz : DynamicZone) (h : gmap nat RRset) (q : QuerySections)
  : outcome (gmap nat RRset * QuerySections) :=
  r ← DynamicZone_Find (mz_origin (dz_zone dz)) RR_NS DefaultFind h dz;
  let '(h, ctx) := r in
  if decide (fr_Type (fc_result ctx) = FRSuccess) then
    r ← FinderCtx_GetAdditional ctx h;
    let '(h, addrs) := r in
    Ret (h, mkSections (qs_answers q) (qs_authorities q ++ [fr_RRset (fc_result ctx)])
              (qs_additionals q ++ addrs))
  else Panic "zone short of apex ns".

Definition addSOA (dz : DynamicZone) (h : gmap nat RRset) (q : QuerySections)
  : outcome (gmap nat RRset * QuerySections) :=
  r ← DynamicZone_Find (mz_origin (dz_zone dz)) RR_SOA DefaultFind h dz;
  let '(h, ctx) := r in
  if decide (fr_Type (fc_result ctx) = FRSuccess) then
    Ret (h, mkSections (qs_answers q) (qs_authorities q ++ [fr_RRset (fc_result ctx)])
              (qs_additionals q))
  else Panic "zone short of soa".

(** Adds the record sets the pointers lead to; their sizes are read when the counts
    are made, so a nil pointer panics. *)
Fixpoint add_rrsets (s : SectionType) (ls : list (option nat)) (h : gmap nat RRset) (m : Message)
  : outcome Message :=
  match ls with
  | [] => Ret m
  | l :: ls => r ← deref_rr l h; add_rrsets s ls h (AddRRset s r m)
  end.

(** The sections, the authoritative flag and the response code for a lookup. *)
Definition Query_sections (matchType : SearchResult) (question : Question) (ctx : FinderCtx)
  (dz : DynamicZone) (h : gmap nat RRset) : outcome (gmap nat RRset * QuerySections * bool * Z) :=
  let result := fc_result ctx in
  let rrset := fr_RRset result in
  match fr_Type result with
  | FRCname => Ret (h, mkSections [rrset] [] [], true, R_NOERROR)
  | FRSuccess =>
      r ← FinderCtx_GetAdditional ctx h;
      let '(h, addrs) := r in
      let q := mkSections [rrset] [] addrs in
      r ← (if bool_decide (matchType ≠ ExactMatch) || negb (q_type question =? RR_NS)
           then addAuthAdditional dz h q else Ret (h, q));
      Ret (r.1, r.2, true, R_NOERROR)
  | FRDelegation =>
      r ← FinderCtx_GetAdditional ctx h;
      let '(h, addrs) := r in
      Ret (h, mkSections [] [rrset] addrs, false, R_NOERROR)
  | FRNXDomain =>
      r ← addSOA dz h (mkSections [] [] []);
      Ret (r.1, r.2, true, R_NXDOMAIN)
  | FRNXRRset =>
      r ← addSOA dz h (mkSections [] [] []);
      Ret (r.1, r.2, true, R_NOERROR)
  | FRServFail => Ret (h, mkSections [] [] [], true, R_SERVFAIL)
  end.

(** [NewQuery], [Process] and [GetResponse]. *)
Definition Query_Process (matchType : SearchResult) (request : Message) (dz : DynamicZone)
  (h : gmap nat RRset) : outcome (gmap nat RRset * Message) :=
  let response := MakeResponse request in
  question ← deref_question request;
  r ← DynamicZone_Find (q_name question) (q_type question) DefaultFind h dz;
  let '(h, ctx) := r in
  r ← Query_sections matchType question ctx dz h;
  let '(h, q, aa, rcode) := r in
  let response :=
    set_header (Header_set_rcode rcode (Header_SetFlag FLAG_AA aa (m_header response))) response in
  m ← add_rrsets AnswerSection (qs_answers q) h response;
  m ← add_rrsets AuthSection (qs_authorities q) h m;
  m ← add_rrsets AdditionalSection (qs_additionals q) h m;
  Ret (h, RecalculateSectionRRCount m).

(** The state of the process is the message heap, the authoritative data and the
    rest. *)
Definition AuthDataSource_Resolve {W} (next : option (Handler (Heap * (AuthState * W))))
  : Handler (Heap * (AuthState * W)) := λ s client,
  let '(heap, (au, w)) := s in
  question ← deref_question (c_request client);
  match GetZone (c_view client) (q_name question) au with
  | (_, NotFound) => Resolver_PassToNext next s client
  | (finder, matchType) =>
      l ← from_option_panic "nil pointer dereference: zone" finder;
      dz ← deref_zone l au;
      r ← Query_Process matchType (c_request client) dz (au_rrs au);
      let '(rrs, response) := r in
      let '(lr, heap) := heap_alloc response heap in
      let client := set_response (Some lr) client in
      let s := (heap, (set_rrs rrs au, w)) in
      kind ← ClassifyResponse response;
      if decide (kind = REFERRAL) then Resolver_PassToNext next s client
      else Ret (s, set_cache_answer false client)
  end.

(** ** update.go *)

(** [inl] is the error. *)
Definition getUpdator (acls : AclManager) (viewName : string) (origin : Name)
  (clientIP : option IP) (s : AuthState) : outcome (string + nat) :=
  match GetZone viewName origin s with
  | (Some l, ExactMatch) =>
      dz ← deref_zone l s;
      Ret (if GetUpdator acls clientIP false dz then inr l else inl ErrNoAuthUpdate)
  | (None, ExactMatch) => Panic "nil pointer dereference: zone"
  | _ => Ret (inl ErrNoAuthUpdate)
  end.

(** One record set of an update on the transaction's zone. *)
Definition update_rrset (rrset : RRset) (h : gmap nat RRset) (tmp : MemoryZone)
  : outcome (gmap nat RRset * MemoryZone * option string) :=
  if rr_class rrset =? CLASS_IN then
    let '(l, h) := alloc_rr rrset h in addRRset l h tmp
  else if rr_type rrset =? RR_ANY then
    r ← deleteDomain (rr_name rrset) tmp; Ret (h, r.1, r.2)
  else if rr_class rrset =? CLASS_ANY then
    r ← deleteRRset rrset h tmp; Ret (h, r.1, r.2)
  else deleteRr rrset h tmp.

(** The loop over the record sets: the first error that ends it, whether a SOA was
    among the changes and whether there was a change. *)
Fixpoint update_rrsets (rrsets : list RRset) (h : gmap nat RRset) (tmp : MemoryZone)
  (explicitUpdateSOA hasRRModified : bool)
  : outcome (gmap nat RRset * MemoryZone * option string * bool * bool) :=
  match rrsets with
  | [] => Ret (h, tmp, None, explicitUpdateSOA, hasRRModified)
  | rrset :: rrsets =>
      r ← update_rrset rrset h tmp;
      let '(h, tmp, err) := r in
      match err with
      | None =>
          update_rrsets rrsets h tmp (explicitUpdateSOA || (rr_type rrset =? RR_SOA)) true
      | Some err =>
          if bool_decide (err = ErrNoEffectiveUpdate)
          then update_rrsets rrsets h tmp explicitUpdateSOA hasRRModified
          else Ret (h, tmp, Some err, explicitUpdateSOA, hasRRModified)
      end
  end.

(** The transaction of an update on one zone. *)
Definition update_zone (rrsets : list RRset) (h : gmap nat RRset) (dz : DynamicZone)
  : outcome (gmap nat RRset * DynamicZone * option string) :=
  r ← update_rrsets rrsets h (Begin dz) false false;
  let '(h, tmp, err, explicitUpdateSOA, hasRRModified) := r in
  match err with
  | Some err => Ret (h, RollBack dz, Some err)
  | None =>
      if hasRRModified : bool then
        h ← (if explicitUpdateSOA : bool then Ret h else increaseSerialNumber h tmp);
        let '(dz, err) := Commit tmp dz in
        Ret (h, dz, err)
      else Ret (h, RollBack dz, None)
  end.

Definition handleDynamicRRsets (acls : AclManager) (viewName : string) (zoneName : Name)
  (clientIP : option IP) (rrsets : list RRset) (s : AuthState)
  : outcome (AuthState * option string) :=
  updator ← getUpdator acls viewName zoneName clientIP s;
  match updator with
  | inl err => Ret (s, Some err)
  | inr l =>
      dz ← deref_zone l s;
      r ← update_zone rrsets (au_rrs s) dz;
      let '(h, dz, err) := r in
      Ret (put_zone l dz (set_rrs h s), err)
  end.

(** The response exists already; an error sets its code. *)
Definition HandleUpdate (acls : AclManager) (s : AuthState) (client : Client) (heap : Heap)
  : outcome (AuthState * Heap) :=
  question ← deref_question (c_request client);
  ip ← Client_IP client;
  r ← handleDynamicRRsets acls (c_view client) (q_name question) (Some ip)
        (m_auth (c_request client)) s;
  let '(s, err) := r in
  match err with
  | None => Ret (s, heap)
  | Some err =>
      l ← from_option_panic "nil pointer dereference: response" (c_response client);
      m ← deref l heap;
      let rcode := if bool_decide (err = ErrServFail) then R_SERVFAIL else R_NOTAUTH in
      Ret (s, <[l := set_header (Header_set_rcode rcode (m_header m)) m]> heap)
  end.

(** ** zoneloader.go *)

(** [g53.RRsetFromString] and [g53.TTLFromString]; [inl] is the error text. *)
Context (RRsetFromString : string → string + RRset) (TTLFromString : string → string + Z).

(** [dial] gives what a connection to a master yields: the error of the connection
    or of the query, or the results of the reads in order, ended by the
    connection's end. *)
Context (dial : string → string + list (string + Message)).

(** [strings.TrimRight(line, "\r\n ")] *)
Fixpoint trim_line (s : string) : string :=
  match s with
  | EmptyString => EmptyString
  | String c s =>
      let rest := trim_line s in
      if bool_decide (rest = "") &&
         (bool_decide (c = "013"%char) || bool_decide (c = "010"%char) || bool_decide (c = " "%char))
      then "" else String c rest
  end.

Definition IsRRsetTypeSupport (typ : RRType) : bool :=
  existsb (λ typ_, typ =? typ_) SupportRRTypes.

(** The record sets sent to the loading zone. *)
Definition parseZoneContent (content : string) : list RRset :=
  omap (λ line,
    let line := trim_line line in
    if bool_decide (line = "") then None
    else match RRsetFromString line with
         | inl _ => None
         | inr rrset => if IsRRsetTypeSupport (rr_type rrset) then Some rrset else None
         end) (strings_Split content "010"%char).

Fixpoint alloc_rrs (rrs : list RRset) (h : gmap nat RRset) : list LoadEvent * gmap nat RRset :=
  match rrs with
  | [] => ([], h)
  | r :: rrs =>
      let '(l, h) := alloc_rr r h in
      let '(events, h) := alloc_rrs rrs h in
      (LoadRR l :: events, h)
  end.

(** A failed load is logged and leaves the zone empty. *)
Definition loadZone (origin : Name) (content : string) (h : gmap nat RRset)
  : outcome (gmap nat RRset * DynamicZone) :=
  let '(events, h) := alloc_rrs (parseZoneContent content) h in
  r ← DynamicZone_Load events h (NewDynamicZone origin);
  let '(h, zone, _) := r in
  Ret (h, zone).

(** The record sets sent and the error. *)
Fixpoint axfr_reads (reads : list (string + Message)) (firstPackageValid : bool)
  : list RRset * option string :=
  match reads with
  | [] => ([], Some "EOF")
  | inl err :: _ => ([], Some err)
  | inr axfr :: reads =>
      let rrsets := m_answer axfr in
      match head rrsets, last rrsets with
      | Some first, Some final =>
          if negb firstPackageValid && negb (rr_type first =? RR_SOA)
          then ([], Some "axfr first message has no soa")
          else if rr_type final =? RR_SOA then (removelast rrsets, None)
          else
            let '(sent, err) := axfr_reads reads true in (rrsets ++ sent, err)
      | _, _ => ([], Some "axfr message must not has empty answer section")
      end
  end.

Definition doAXFR (master : string) : list RRset * option string :=
  match dial master with
  | inl err => ([], Some err)
  | inr reads => axfr_reads reads false
  end.

(** The masters in turn until one transfer loads; its error arrives on the abort
    channel after the record sets sent before it. *)
Fixpoint load_masters (masters : list string) (h : gmap nat RRset) (zone : DynamicZone)
  : outcome (gmap nat RRset * DynamicZone) :=
  match masters with
  | [] => Ret (h, zone)
  | master :: masters =>
      let '(sent, err) := doAXFR master in
      let '(events, h) := alloc_rrs sent h in
      let events := events ++ match err with Some _ => [LoadAbort] | None => [] end in
      r ← DynamicZone_Load events h zone;
      let '(h, zone, err) := r in
      match err with
      | None => Ret (h, zone)
      | Some _ => load_masters masters h zone
      end
  end.

Definition loadZoneFromMaster (origin : Name) (masters : list string) (h : gmap nat RRset)
  : outcome (gmap nat RRset * DynamicZone) :=
  load_masters masters h (SetMasters masters (NewDynamicZone origin)).

(** ** cmdhandler.go *)

Definition alloc_zone (dz : DynamicZone) (s : AuthState) : nat * AuthState :=
  let l := fresh (dom (au_zones s)) in (l, put_zone l dz s).

(** [g53.NameFromStringUnsafe] *)
Definition name_unsafe (s : string) : outcome Name :=
  match Name_FromString s with inr n => Ret n | inl err => Panic err end.

Definition detail_of (e : CmdError) (err : option string) : option CmdError :=
  match err with Some info => Some (Error_AddDetail e info) | None => None end.

Definition genBasicZoneContent (origin : string) : string :=
  origin +:+ " 3600 IN SOA ns." +:+ origin +:+ " mail." +:+ origin +:+
  " 1 28800 3600 604800 1800" +:+ String "010"%char
  (origin +:+ " 3600 IN NS ns." +:+ origin +:+ String "010"%char
  ("ns." +:+ origin +:+ " 3600 IN A 127.0.0.1" +:+ String "010"%char "")).

(** The zone's data, from the masters or from the content. *)
Definition load_data (origin : Name) (content : string) (masters : list string)
  (h : gmap nat RRset) : outcome (gmap nat RRset * DynamicZone) :=
  if bool_decide (masters ≠ []) then loadZoneFromMaster origin masters h
  else
    let content := if bool_decide (content = "") then genBasicZoneContent (Name_String origin)
                   else content in
    loadZone origin content h.

(** The error is its text. *)
Definition loadZoneData (origin : Name) (viewName content : string) (masters : list string)
  (s : AuthState) : outcome (AuthState * option string) :=
  match au_views s !! viewName with
  | None => Ret (s, Some (err_Info (Error_AddDetail ErrUnknownView viewName)))
  | Some tree =>
      r ← load_data origin content masters (au_rrs s);
      let '(h, zoneData) := r in
      let '(l, s) := alloc_zone zoneData (set_rrs h s) in
      match dt_Insert origin l tree with
      | inl err => Ret (s, Some err)
      | inr tree => Ret (set_views (<[viewName := tree]> (au_views s)) s, None)
      end
  end.

Definition addAuthZone (view name content : string) (masters : list string) (s : AuthState)
  : outcome (AuthState * option CmdError) :=
  origin ← name_unsafe name;
  r ← loadZoneData origin view content masters s;
  let '(s, err) := r in
  Ret (s, detail_of ErrInvalidZoneData err).

Definition deleteAuthZone (view name : string) (s : AuthState)
  : outcome (AuthState * option CmdError) :=
  origin ← name_unsafe name;
  match (GetZone view origin s).2, au_views s !! view with
  | ExactMatch, Some tree =>
      Ret (set_views (<[view := dt_Delete origin tree]> (au_views s)) s, None)
  | ExactMatch, None => Panic "nil pointer dereference: domain tree"
  | _, _ => Ret (s, Some ErrGetZoneFail)
  end.

Definition updateAuthZone (view name : string) (masters : list string) (s : AuthState)
  : outcome (AuthState * option CmdError) :=
  origin ← name_unsafe name;
  match GetZone view origin s with
  | (zoneData, ExactMatch) =>
      l ← from_option_panic "nil pointer dereference: zone" zoneData;
      dz ← deref_zone l s;
      let s := put_zone l (SetMasters masters dz) s in
      r ← (if bool_decide (masters ≠ []) then
             r ← loadZoneFromMaster origin masters (au_rrs s);
             let '(h, dz) := r in
             Ret (alloc_zone dz (set_rrs h s))
           else Ret (l, s));
      let '(l, s) := r in
      tree ← from_option_panic "nil pointer dereference: domain tree" (au_views s !! view);
      let tree := dt_Delete origin tree in
      match dt_Insert origin l tree with
      | inl err =>
          Ret (set_views (<[view := tree]> (au_views s)) s,
               Some (Error_AddDetail ErrUpdateZoneFailed err))
      | inr tree => Ret (set_views (<[view := tree]> (au_views s)) s, None)
      end
  | _ => Ret (s, Some ErrGetZoneFail)
  end.

Definition newRRset (name ttl typ rdata : string) (class : Z) : string + RRset :=
  match Name_FromString name with
  | inl err => inl err
  | inr rrName =>
      match (if bool_decide (ttl = "") then inr 0 else TTLFromString ttl) with
      | inl err => inl err
      | inr rrTtl =>
          match TypeFromString typ with
          | None => inl "unknown rr type"
          | Some rrType =>
              match RdataFromString rrType rdata with
              | inl err => inl err
              | inr rrData => inr (mkRRset rrName rrType class rrTtl [rrData])
              end
          end
      end
  end.

Record AuthRR : Type := mkAuthRR {
  arr_View : string;
  arr_Zone : string;
  arr_Name : string;
  arr_Ttl : string;
  arr_Type : string;
  arr_Rdata : string;
}.

(** The checks of the loops of [addAuthRrs] and [deleteAuthRrs]: all records of a
    command name one view and one zone.  [verb] is the command's verb. *)
Fixpoint collect_rrs (verb : string) (class : Z) (rrs : list AuthRR) (targetView : string)
  (targetZone : option Name) : CmdError + (string * option Name * list RRset) :=
  match rrs with
  | [] => inr (targetView, targetZone, [])
  | rr :: rrs =>
      match Name_FromString (arr_Zone rr) with
      | inl err => inl (Error_AddDetail ErrInvalidZoneName err)
      | inr origin =>
          match newRRset (arr_Name rr) (arr_Ttl rr) (arr_Type rr) (arr_Rdata rr) class with
          | inl err => inl (Error_AddDetail AuthErrInvalidRR err)
          | inr rrset =>
              let next view zone :=
                match collect_rrs verb class rrs view zone with
                | inl err => inl err
                | inr (view, zone, rrsets) => inr (view, zone, rrset :: rrsets)
                end in
              if bool_decide (targetView = "") then next (arr_View rr) (Some origin)
              else if bool_decide (targetView ≠ arr_View rr) then
                inl (Error_AddDetail ErrZoneUpdateFailed
                       (verb +:+ " rr in different view in one request"))
              else if negb (match targetZone with
                            | Some z => Name_Equals z origin | None => false end) then
                inl (Error_AddDetail ErrZoneUpdateFailed
                       (verb +:+ " rr in different zone in one request"))
              else next targetView targetZone
          end
      end
  end.

(** An empty command has no zone; no view has the empty name it then asks for. *)
Definition change_rrs (acls : AclManager) (verb : string) (class : Z) (rrs : list AuthRR)
  (s : AuthState) : outcome (AuthState * option CmdError) :=
  match collect_rrs verb class rrs "" None with
  | inl err => Ret (s, Some err)
  | inr (view, Some zone, rrsets) =>
      r ← handleDynamicRRsets acls view zone None rrsets s;
      let '(s, err) := r in
      Ret (s, detail_of ErrZoneUpdateFailed err)
  | inr (view, None, _) =>
      match au_views s !! view with
      | None => Ret (s, Some (Error_AddDetail ErrZoneUpdateFailed ErrNoAuthUpdate))
      | Some _ => Panic "nil pointer dereference: name"
      end
  end.

Definition addAuthRrs (acls : AclManager) (rrs : list AuthRR) : AuthState → outcome (AuthState * option CmdError) :=
  change_rrs acls "add" CLASS_IN rrs.
Definition deleteAuthRrs (acls : AclManager) (rrs : list AuthRR) : AuthState → outcome (AuthState * option CmdError) :=
  change_rrs acls "delete" CLASS_NONE rrs.

Definition updateAuthRrs (acls : AclManager) (oldRrs newRrs : list AuthRR) (s : AuthState)
  : outcome (AuthState * option CmdError) :=
  let delete_first :=
    match oldRrs with
    | [] => false
    | old :: _ => bool_decide (arr_Type old ≠ RRType_String RR_SOA) &&
                  bool_decide (arr_Type old ≠ RRType_String RR_CNAME)
    end in
  r ← (if delete_first then deleteAuthRrs acls oldRrs s else Ret (s, None));
  let '(s, err) := r in
  match err with
  | Some err => Ret (s, Some err)
  | None => addAuthRrs acls newRrs s
  end.

Inductive AuthCmd : Type :=
  | AddAuthZone (view name : string) (masters : list string) (content : string)
  | DeleteAuthZone (view name : string)
  | UpdateAuthZone (view name : string) (masters : list string)
  | AddAuthRrs (rrs : list AuthRR)
  | DeleteAuthRrs (rrs : list AuthRR)
  | UpdateAuthRrs (oldRrs newRrs : list AuthRR).

Definition AuthDataSource_HandleCmd (acls : AclManager) (cmd : AuthCmd) (s : AuthState)
  : outcome (AuthState * option CmdError) :=
  match cmd with
  | AddAuthZone view name masters content => addAuthZone view name content masters s
  | DeleteAuthZone view name => deleteAuthZone view name s
  | UpdateAuthZone view name masters => updateAuthZone view name masters s
  | AddAuthRrs rrs => addAuthRrs acls rrs s
  | DeleteAuthRrs rrs => deleteAuthRrs acls rrs s
  | UpdateAuthRrs oldRrs newRrs => updateAuthRrs acls oldRrs newRrs s
  end.

(** ** auth.go: configuration *)

Record AuthZoneConf : Type := mkAuthZoneConf {
  azc_Name : string;
  azc_File : string;
  azc_Masters : list string;
}.

Definition load_conf_zone (readFile : string → string + string) (z : AuthZoneConf) (origin : Name)
  (h : gmap nat RRset) : outcome (gmap nat RRset * DynamicZone) :=
  if bool_decide (azc_Masters z ≠ []) then
    r ← loadZoneFromMaster origin (azc_Masters z) h;
    Ret (r.1, SetMasters (azc_Masters z) r.2)
  else
    match readFile (azc_File z) with
    | inl err => Panic ("open zone file " +:+ azc_File z +:+ " failed " +:+ err)
    | inr content => loadZone origin content h
    end.

Fixpoint load_conf_zones (readFile : string → string + string) (zones : list AuthZoneConf)
  (tree : option (dtree nat)) (s : AuthState) : outcome (AuthState * option (dtree nat)) :=
  match zones with
  | [] => Ret (s, tree)
  | z :: zones =>
      match Name_FromString (azc_Name z) with
      | inl err => Panic ("load auth zone " +:+ azc_Name z +:+ " failed:" +:+ err)
      | inr origin =>
          r ← load_conf_zone readFile z origin (au_rrs s);
          let '(h, zoneData) := r in
          let '(l, s) := alloc_zone zoneData (set_rrs h s) in
          tree ← from_option_panic "nil pointer dereference: domain tree" tree;
          match dt_Insert origin l tree with
          | inl err => Panic ("load auth zone " +:+ azc_Name z +:+ " failed:" +:+ err)
          | inr tree => load_conf_zones readFile zones (Some tree) s
          end
      end
  end.

Fixpoint load_conf_views (readFile : string → string + string)
  (conf : list (string * list AuthZoneConf)) (trees : gmap string (dtree nat)) (s : AuthState)
  : outcome (AuthState * gmap string (dtree nat)) :=
  match conf with
  | [] => Ret (s, trees)
  | (view, zones) :: conf =>
      r ← load_conf_zones readFile zones (trees !! view) s;
      let '(s, tree) := r in
      let trees := match tree with Some t => <[view := t]> trees | None => trees end in
      load_conf_views readFile conf trees s
  end.

(** [views] are the names of [view.GetViewAndIds()]. *)
Definition Auth_ReloadConfig (readFile : string → string + string) (views : list string)
  (conf : list (string * list AuthZoneConf)) (s : AuthState) : outcome AuthState :=
  let trees := foldl (λ m v, <[v := dt_New]> m) ∅ views in
  r ← load_conf_views readFile conf trees s;
  Ret (set_views r.2 r.1).
End auth.
