(* ===== verification/AuthSpec.v ===== *)
(** * What authoritative answers and updates guarantee

    A query to a loaded zone is answered without a panic, with the sections,
    the authoritative flag and the response code the lookup calls for.  An update
    changes a zone as a whole or not at all, but for the serial number. *)

From S2P Require Import Prelude GoStd G53 Instances Core HttpCmd Cement Acl Util Chain Zone ZoneInv ZoneSpec Auth.

Local Open Scope Z_scope.

Section answers.
Context {N : G53Name} {NL : G53NameLaws N} {M : G53Msg N} {ML : G53MsgLaws M}
  {ZT : ZoneTree N} {ZL : ZoneTreeLaws ZT}.
Implicit Types (h : gmap nat RRset) (r : RRset) (z tmp : MemoryZone) (dz : DynamicZone).

(** ** Additional record sets *)

(** A pointer to a record set of the store. *)
Definition ptr_ok h (l : option nat) : Prop := ∃ k r, l = Some k ∧ h !! k = Some r.

Lemma ptr_ok_mono h h' l : rr_le h h' → ptr_ok h l → ptr_ok h' l.
Proof.
  intros [Hle _] (k & r & -> & E). destruct (Hle _ _ E) as (r' & ? & _). by exists k, r'.
Qed.

Lemma ptrs_ok_mono h h' ls : rr_le h h' → Forall (ptr_ok h) ls → Forall (ptr_ok h') ls.
Proof. intros Hle H. eapply Forall_impl; [exact H|]. intros. by eapply ptr_ok_mono. Qed.

Lemma rotate_all_total ls h : Forall (ptr_ok h) ls → ∃ h', rotate_all ls h = Ret h'.
Proof.
  revert h. induction ls as [|l ls IH]; intros h Hp; cbn [rotate_all]; [by eexists|].
  apply Forall_cons in Hp as [(k & r & -> & E) Hp]. destruct (rotate_rr_total k h r E) as [h1 E1].
  rewrite E1, bind_Ret. apply IH. eapply ptrs_ok_mono; [by eapply rotate_rr_le|done].
Qed.

(** The node a lookup hands back is a node of the zone. *)
Lemma find_node h z name typ opt h' res d :
  MemoryZone_find name typ opt h z = Ret (h', res, Some d) →
  ∃ n, node_data n (mz_domains z) = Some d.
Proof.
  unfold MemoryZone_find. destruct (zt_SearchExt _ _ _ _) as [[st found]| |] eqn:Es; [|done..].
  rewrite bind_Ret. apply SearchExt_cases in Es as [Hcut Hx]. destruct found as [x|m x super|].
  - destruct (zn_data x) as [d'|] eqn:Ed; [|done].
    assert (node_data name (mz_domains z) = Some d') by (unfold node_data; by rewrite Hx).
    destruct (if zn_callback x && _ then d' !! RR_NS else None);
      intros [= _ _ <-]; by eexists.
  - destruct st as [[cut ns]|].
    + intros [= _ _ <-]. destruct (Hcut _ _ eq_refl) as (k & y & Hin & _ & Ey & _).
      apply zt_path_sound in Hin as (Hk & _). exists k. unfold node_data. by rewrite Hk.
    + destruct super; [done|]. destruct (zn_wildcard x); [|done].
      destruct (zt_node (Name_star m) _) as [w|]; [|done]. cbn [from_option_panic].
      rewrite bind_Ret. destruct (zn_data w) as [d'|]; [|done]. cbn [from_option_panic].
      rewrite bind_Ret. unfold synthesize.
      destruct (d' !! typ) as [e|]; [|destruct (d' !! RR_CNAME) as [e|]; [|done]];
        (destruct (deref_rr e h); [|done..]); rewrite bind_Ret; by destruct (alloc_rr _ h).
  - done.
Qed.

Lemma getAdditioanlAddrs_total name h z :
  zone_wf h z → zone_flags (mz_domains z) →
  ∃ h' ls, getAdditioanlAddrs name h z = Ret (h', ls) ∧ Forall (ptr_ok h') ls.
Proof.
  intros Hz Hf. unfold getAdditioanlAddrs.
  destruct (find_total h z name RR_A GlueOkFind Hz Hf) as [[[h1 res] node] E].
  rewrite E, bind_Ret. eexists _, _. split; [done|].
  pose proof (find_nonnil _ _ _ _ _ _ _ _ Hf E) as Hnn.
  pose proof (find_sound _ _ _ _ _ _ _ _ Hz E) as Hs.
  pose proof (find_le _ _ _ _ _ _ _ _ E) as Hle.
  assert (Forall (ptr_ok h1) (if decide (fr_Type res = FRSuccess) then [fr_RRset res] else [])) as H1.
  { case_decide as Hok; [|constructor]. unfold result_sound in Hs. rewrite Hok in Hs.
    destruct (fr_RRset res) as [l|]; [|by apply Hnn in Hok]. destruct Hs as (r & Er & _).
    apply Forall_singleton. by exists l, r. }
  destruct (_ || _); [|done]. apply Forall_app. split; [done|].
  destruct node as [d|]; cbn; [|done]. destruct (d !! RR_AAAA) as [e|] eqn:Ee; [|done].
  apply Forall_singleton. eapply ptr_ok_mono; [exact Hle|]. destruct (find_node _ _ _ _ _ _ _ _ E) as [n En].
  destruct (entry_deref _ _ _ _ _ _ (tk_node _ _ _ Hz _ _ En) Ee) as (l & r & -> & ? & _).
  - intros ->. by eapply fl_entry.
  - by exists l, r.
Qed.

Lemma additional_addrs_total typ rds h z :
  zone_wf h z → zone_flags (mz_domains z) → Forall (λ d, rdata_fits typ d = true) rds →
  ∃ h' ls, additional_addrs typ rds h z = Ret (h', ls) ∧ Forall (ptr_ok h') ls.
Proof.
  revert h. induction rds as [|d rds IH]; intros h Hz Hf Hfit; cbn [additional_addrs];
    [by eexists _, _|].
  apply Forall_cons in Hfit as [Hd Hfit].
  assert (∃ n, additional_name typ d = Ret n) as [n ->].
  { unfold additional_name, rdata_fits in *. repeat (case_match; try done); by eexists. }
  rewrite bind_Ret.
  assert (∃ h1 as1, match n with Some n => getAdditioanlAddrs n h z | None => Ret (h, []) end =
            Ret (h1, as1) ∧ Forall (ptr_ok h1) as1 ∧ rr_le h h1) as (h1 & as1 & -> & H1 & Hle).
  { destruct n as [n|]; [|by eexists _, _].
    destruct (getAdditioanlAddrs_total n h z Hz Hf) as (h1 & as1 & E & ?). exists h1, as1.
    split_and!; [done..|by eapply getAdditioanlAddrs_le]. }
  rewrite bind_Ret. destruct (IH h1) as (h2 & as2 & E2 & H2); [by eapply tree_ok_mono|done..|].
  rewrite E2, bind_Ret. eexists _, _. split; [done|]. apply Forall_app. split; [|done].
  eapply ptrs_ok_mono; [by eapply additional_addrs_le|done].
Qed.

Lemma FinderCtx_GetAdditional_total res z h :
  heap_ok h → zone_wf h z → zone_flags (mz_domains z) →
  (∀ l, fr_RRset res = Some l → ptr_ok h (Some l)) →
  ∃ h' ls, FinderCtx_GetAdditional (mkFinderCtx res (Some z)) h = Ret (h', ls) ∧
           Forall (ptr_ok h') ls.
Proof.
  intros Hh Hz Hf Hp. unfold FinderCtx_GetAdditional, GetAdditional. cbn [fc_finder fc_result].
  assert (∃ h1 ls, match fr_RRset res with
    | Some _ => r ← deref_rr (fr_RRset res) h; additional_addrs (rr_type r) (rr_rdatas r) h z
    | None => Ret (h, [])
    end = Ret (h1, ls) ∧ Forall (ptr_ok h1) ls) as (h1 & ls & -> & Hls).
  { destruct (fr_RRset res) as [l|]; [|by eexists _, _].
    destruct (Hp l eq_refl) as (k & r & [= <-] & Er).
    rewrite (deref_rr_Some _ _ _ Er), bind_Ret.
    apply additional_addrs_total; [done..|]. apply (Hh _ _ Er). }
  rewrite bind_Ret. destruct (rotate_all_total ls h1 Hls) as [h2 E2]. rewrite E2, bind_Ret.
  eexists _, _. split; [done|]. eapply ptrs_ok_mono; [by eapply rotate_all_le|done].
Qed.

(** ** Answers *)

(** A zone as it is after loading. *)
Record zone_good h dz : Prop := {
  zg_heap : heap_ok h;
  zg_wf : zone_wf h (dz_zone dz);
  zg_flags : zone_flags (mz_domains (dz_zone dz));
  zg_valid : validate (dz_zone dz) = None;
}.

Lemma zone_good_mono h h' dz : rr_le h h' → zone_good h dz → zone_good h' dz.
Proof. intros Hle []. split; [by apply Hle|by eapply tree_ok_mono|done..]. Qed.

Lemma Load_good events h dz h' dz' :
  heap_ok h → Forall (event_in h) events →
  DynamicZone_Load events h dz = Ret (h', dz', None) → zone_good h' dz'.
Proof.
  intros Hh Hev. unfold DynamicZone_Load.
  destruct (load_rrs_total events h (newMemoryZone (mz_origin (dz_zone dz)))) as (h1 & res & E & Hf);
    [done|apply new_zone_wf|apply flags_new|done|].
  rewrite E, bind_Ret. apply load_rrs_ok in E as [Hle Hok]; [|apply new_zone_wf].
  destruct res as [e|z]; [done|]. destruct (Hok z eq_refl) as [_ Hz].
  destruct (validate z) eqn:Ev; [done|]. intros [= <- <-].
  split; [by apply Hle|done|by apply Hf|done].
Qed.

Definition ptr_is h (l : option nat) (n : Name) (t : RRType) : Prop :=
  ∃ k r, l = Some k ∧ h !! k = Some r ∧ rr_type r = t ∧ rr_name r ≈ n.

Definition rr_is r (n : Name) (t : RRType) : Prop := rr_type r = t ∧ rr_name r ≈ n.

Lemma ptr_is_mono h h' l n t : rr_le h h' → ptr_is h l n t → ptr_is h' l n t.
Proof.
  intros [Hle _] (k & r & -> & E & Ht & Hn). destruct (Hle _ _ E) as (r' & E' & En & Et).
  exists k, r'. rewrite En. split_and!; [done..|congruence|done].
Qed.

Lemma ptr_is_ok h l n t : ptr_is h l n t → ptr_ok h l.
Proof. intros (k & r & ? & ? & _). by exists k, r. Qed.

(** The answer and authority sections, the authoritative flag and the response
    code of an answer to [q] from a zone; [isa] says what a section's element is. *)
Definition answer_shape {A} (isa : A → Name → RRType → Prop) z (q : Question)
  (ans auth : list A) (aa : bool) (rcode : Z) : Prop :=
  (** the record set asked for, with the zone's name servers *)
  (rcode = R_NOERROR ∧ aa = true ∧ (∃ a, ans = [a] ∧ isa a (q_name q) (q_type q)) ∧
   (auth = [] ∨ ∃ ns, auth = [ns] ∧ isa ns (mz_origin z) RR_NS)) ∨
  (** an alias of the name *)
  (rcode = R_NOERROR ∧ aa = true ∧ (∃ a, ans = [a] ∧ isa a (q_name q) RR_CNAME) ∧ auth = []) ∨
  (** the name servers of a zone below this one *)
  (rcode = R_NOERROR ∧ aa = false ∧ ans = [] ∧
   ∃ ns n, auth = [ns] ∧ isa ns n RR_NS ∧ Name_IsSubDomain (q_name q) n = true ∧
           Name_IsSubDomain n (mz_origin z) = true ∧ Name_Equals n (mz_origin z) = false) ∨
  (** no such name or no such data *)
  ((rcode = R_NXDOMAIN ∨ rcode = R_NOERROR) ∧ aa = true ∧ ans = [] ∧
   (∃ soa, auth = [soa] ∧ isa soa (mz_origin z) RR_SOA) ∧
   ∀ d, node_data (q_name q) (mz_domains z) = Some d → d !! q_type q = None ∧ d !! RR_CNAME = None).

Lemma answer_shape_map {A B} (R : A → B → Prop) (isa : A → Name → RRType → Prop)
  (isa' : B → Name → RRType → Prop) z q ans auth ans' auth' aa rcode :
  (∀ a b n t, R a b → isa a n t → isa' b n t) → Forall2 R ans ans' → Forall2 R auth auth' →
  answer_shape isa z q ans auth aa rcode → answer_shape isa' z q ans' auth' aa rcode.
Proof.
  intros HR Ha Hu.
  assert (∀ a n t l l', Forall2 R l l' → l = [a] → isa a n t → ∃ b, l' = [b] ∧ isa' b n t) as H1.
  { intros a n t l l' Hl -> Hi. apply Forall2_cons_inv_l in Hl as (b & l1 & Hb & ->%Forall2_nil_inv_l & ->).
    eauto. }
  assert (∀ l l', Forall2 R l l' → l = [] → l' = []) as H0.
  { intros l l' Hl ->. by apply Forall2_nil_inv_l in Hl. }
  intros [(? & ? & (a & Ea & Hia) & Hns)|[(? & ? & (a & Ea & Hia) & Hns)|[(? & ? & He & ns & n & En & Hin & ?)|
    (? & ? & He & (soa & Es & His) & ?)]]].
  - left. split_and!; [done..|eauto|]. destruct Hns as [Hns|(ns & En & Hin)]; [by eauto|right; eauto].
  - right; left. split_and!; eauto.
  - right; right; left. split_and!; [done..|eauto|].
    destruct (H1 _ _ _ _ _ Hu En Hin) as (b & ? & ?). eauto 10.
  - right; right; right. split_and!; eauto.
Qed.

(** A lookup in a loaded zone. *)
Lemma good_Find h dz name typ opt :
  zone_good h dz → ∃ h' res,
    DynamicZone_Find name typ opt h dz = Ret (h', mkFinderCtx res (Some (dz_zone dz))) ∧
    rr_le h h' ∧ result_sound h' (dz_zone dz) name typ res ∧
    (fr_Type res = FRSuccess → fr_RRset res ≠ None) ∧
    (name = mz_origin (dz_zone dz) → typ = RR_SOA ∨ typ = RR_NS → fr_Type res = FRSuccess).
Proof.
  intros [Hh Hz Hf Hv]. destruct (Find_total h dz name typ opt Hz Hf) as (h' & ctx & E).
  pose proof (loaded_Find _ _ _ _ _ _ _ Hz Hf Hv E) as (? & ? & ?).
  pose proof (DynamicZone_Find_spec _ _ _ _ _ _ _ E Hz) as [Hle Hc].
  destruct (validate_None _ Hv) as (_ & _ & _ & _ & Hemp). rewrite Hemp in Hc. destruct Hc as [_ Hc].
  destruct ctx as [res fd]. cbn in *. subst fd. by eexists _, _.
Qed.

Lemma success_ptr h z name typ res :
  result_sound h z name typ res → fr_Type res = FRSuccess → fr_RRset res ≠ None →
  ptr_is h (fr_RRset res) name typ.
Proof.
  unfold result_sound. intros Hs Hok Hnn. rewrite Hok in Hs.
  destruct (fr_RRset res) as [l|]; [|done]. destruct Hs as (r & ? & ? & ?). by exists l, r.
Qed.

Lemma result_ptr h z name typ res l :
  result_sound h z name typ res → fr_RRset res = Some l → ptr_ok h (Some l).
Proof.
  unfold result_sound, ptr_ok. intros Hs El. rewrite El in Hs. destruct (fr_Type res); naive_solver.
Qed.

Lemma good_additional h dz name typ res :
  zone_good h dz → result_sound h (dz_zone dz) name typ res →
  ∃ h' ls, FinderCtx_GetAdditional (mkFinderCtx res (Some (dz_zone dz))) h = Ret (h', ls) ∧
           rr_le h h' ∧ Forall (ptr_ok h') ls.
Proof.
  intros [Hh Hz Hf Hv] Hs.
  destruct (FinderCtx_GetAdditional_total res (dz_zone dz) h) as (h' & ls & E & ?);
    [done..|intros; by eapply result_ptr|].
  exists h', ls. split_and!; [done| |done]. by eapply FinderCtx_GetAdditional_le.
Qed.

Lemma addAuthAdditional_good h dz qs :
  zone_good h dz → ∃ h' ns addrs, addAuthAdditional dz h qs =
    Ret (h', mkSections (qs_answers qs) (qs_authorities qs ++ [ns]) (qs_additionals qs ++ addrs)) ∧
    rr_le h h' ∧ ptr_is h' ns (mz_origin (dz_zone dz)) RR_NS ∧ Forall (ptr_ok h') addrs.
Proof.
  intros Hg. unfold addAuthAdditional.
  destruct (good_Find h dz (mz_origin (dz_zone dz)) RR_NS DefaultFind Hg)
    as (h1 & res & -> & Hle & Hs & Hnn & Hap). rewrite bind_Ret. cbn [fc_result].
  rewrite decide_True by auto.
  destruct (good_additional h1 dz _ _ _ (zone_good_mono _ _ _ Hle Hg) Hs) as (h2 & ls & -> & Hle2 & Hls).
  rewrite bind_Ret. eexists _, _, _. split_and!; [done|by etrans| |done].
  eapply ptr_is_mono; [exact Hle2|]. apply (success_ptr _ (dz_zone dz)); auto.
Qed.

Lemma addSOA_good h dz qs :
  zone_good h dz → ∃ h' soa, addSOA dz h qs =
    Ret (h', mkSections (qs_answers qs) (qs_authorities qs ++ [soa]) (qs_additionals qs)) ∧
    rr_le h h' ∧ ptr_is h' soa (mz_origin (dz_zone dz)) RR_SOA.
Proof.
  intros Hg. unfold addSOA.
  destruct (good_Find h dz (mz_origin (dz_zone dz)) RR_SOA DefaultFind Hg)
    as (h1 & res & -> & Hle & Hs & Hnn & Hap). rewrite bind_Ret. cbn [fc_result].
  rewrite decide_True by auto. eexists _, _. split_and!; [done..|].
  apply (success_ptr _ (dz_zone dz)); auto.
Qed.

Lemma Query_sections_good h dz mt q res :
  zone_good h dz → result_sound h (dz_zone dz) (q_name q) (q_type q) res →
  (fr_Type res = FRSuccess → fr_RRset res ≠ None) →
  ∃ h' qs aa rcode,
    Query_sections mt q (mkFinderCtx res (Some (dz_zone dz))) dz h = Ret (h', qs, aa, rcode) ∧
    rr_le h h' ∧
    answer_shape (ptr_is h') (dz_zone dz) q (qs_answers qs) (qs_authorities qs) aa rcode ∧
    Forall (ptr_ok h') (qs_answers qs ++ qs_authorities qs ++ qs_additionals qs).
Proof.
  intros Hg Hs Hnn. unfold Query_sections. cbn [fc_result].
  destruct (fr_Type res) eqn:Et.
  - destruct (good_additional h dz _ _ _ Hg Hs) as (h1 & ls & -> & Hle & Hls). rewrite bind_Ret.
    assert (ptr_is h1 (fr_RRset res) (q_name q) (q_type q)) as Hp
      by (eapply ptr_is_mono; [exact Hle|]; apply (success_ptr _ (dz_zone dz)); auto).
    destruct (_ || _).
    + destruct (addAuthAdditional_good h1 dz (mkSections [fr_RRset res] [] ls))
        as (h2 & ns & addrs & -> & Hle2 & Hns & Haddrs); [by eapply zone_good_mono|].
      rewrite bind_Ret. eexists _, _, _, _. cbn. split_and!; [done|by etrans| |].
      * left. split_and!; [done..|eexists; split; [done|by eapply ptr_is_mono]|right; eauto].
      * repeat (apply Forall_cons; split); [by eapply ptr_ok_mono, ptr_is_ok|by eapply ptr_is_ok|].
        apply Forall_app. split; [by eapply ptrs_ok_mono|done].
    + rewrite bind_Ret. eexists _, _, _, _. cbn. split_and!; [done..| |].
      * left. split_and!; [done..|eauto|by left].
      * constructor; [by eapply ptr_is_ok|done].
  - destruct (good_additional h dz _ _ _ Hg Hs) as (h1 & ls & -> & Hle & Hls). rewrite bind_Ret.
    unfold result_sound in Hs. rewrite Et in Hs. destruct Hs as (l & r & -> & Er & Hr & ? & ? & ?).
    assert (ptr_is h1 (Some l) (rr_name r) RR_NS) as Hp
      by (eapply ptr_is_mono; [exact Hle|]; exists l, r; done).
    eexists _, _, _, _. cbn. split_and!; [done..| |constructor; [by eapply ptr_is_ok|done]].
    right; right; left. split_and!; [done..|]. eexists _, _. split; [done|]. done.
  - destruct (addSOA_good h dz (mkSections [] [] []) Hg) as (h1 & soa & -> & Hle & Hp).
    rewrite bind_Ret. unfold result_sound in Hs. rewrite Et in Hs.
    eexists _, _, _, _. cbn. split_and!; [done..| |constructor; [by eapply ptr_is_ok|done]].
    right; right; right. split_and!; [by left|done..|eauto|apply Hs].
  - destruct (addSOA_good h dz (mkSections [] [] []) Hg) as (h1 & soa & -> & Hle & Hp).
    rewrite bind_Ret. unfold result_sound in Hs. rewrite Et in Hs.
    eexists _, _, _, _. cbn. split_and!; [done..| |constructor; [by eapply ptr_is_ok|done]].
    right; right; right. split_and!; [by right|done..|eauto|apply Hs].
  - unfold result_sound in Hs. rewrite Et in Hs. destruct Hs as [(l & r & -> & Er & Hr & Hn) _].
    assert (ptr_is h (Some l) (q_name q) RR_CNAME) as Hp by (exists l, r; done).
    eexists _, _, _, _. cbn. split_and!; [done..| |constructor; [by eapply ptr_is_ok|done]].
    right; left. split_and!; eauto.
  - unfold result_sound in Hs. by rewrite Et in Hs.
Qed.

(** [r] is the record set the pointer leads to. *)
Definition points h (l : option nat) (r : RRset) : Prop := ∃ k, l = Some k ∧ h !! k = Some r.

Definition add_all (s : SectionType) (rs : list RRset) (m : Message) : Message :=
  foldl (λ m r, AddRRset s r m) m rs.

Lemma add_rrsets_total s ls h m :
  Forall (ptr_ok h) ls → ∃ rs, Forall2 (points h) ls rs ∧ add_rrsets s ls h m = Ret (add_all s rs m).
Proof.
  revert m. induction ls as [|l ls IH]; intros m Hp; [by exists []|].
  apply Forall_cons in Hp as [(k & r & -> & E) Hp].
  destruct (IH (AddRRset s r m) Hp) as (rs & Hrs & E'). exists (r :: rs). split.
  - constructor; [by exists k|done].
  - cbn [add_rrsets]. by rewrite (deref_rr_Some _ _ _ E), bind_Ret.
Qed.

(** C3: A query to a zone that was loaded is always answered: no lookup of the
    answer, of the zone's name servers, of its SOA or of additional addresses
    panics, and the response is built from record sets of the zone in one of four
    shapes: the record set asked for with the zone's name servers, an alias, a
    delegation without the authoritative flag, or a negative answer with the
    zone's SOA when the name has neither the type nor an alias. *)
Theorem Query_Process_answers (events : list LoadEvent) h dz h' dz' mt (request : Message) q :
  heap_ok h → Forall (event_in h) events →
  DynamicZone_Load events h dz = Ret (h', dz', None) → m_question request = Some q →
  ∃ h'' ans auth additional aa rcode,
    answer_shape rr_is (dz_zone dz') q ans auth aa rcode ∧
    Query_Process mt request dz' h' = Ret (h'',
      RecalculateSectionRRCount
        (add_all AdditionalSection additional (add_all AuthSection auth (add_all AnswerSection ans
          (set_header (Header_set_rcode rcode (Header_SetFlag FLAG_AA aa
             (m_header (MakeResponse request)))) (MakeResponse request)))))).
Proof.
  intros Hh Hev Hload Hq. pose proof (Load_good _ _ _ _ _ Hh Hev Hload) as Hg. clear Hload Hh Hev.
  unfold Query_Process. rewrite (deref_question_Some _ _ Hq), bind_Ret.
  destruct (good_Find h' dz' (q_name q) (q_type q) DefaultFind Hg)
    as (h1 & res & -> & Hle & Hs & Hnn & _). rewrite bind_Ret.
  destruct (Query_sections_good h1 dz' mt q res) as (h2 & qs & aa & rcode & -> & Hle2 & Hsh & Hp);
    [by eapply zone_good_mono|done..|]. rewrite bind_Ret.
  apply Forall_app in Hp as [Hp1 [Hp2 Hp3]%Forall_app].
  destruct (add_rrsets_total AnswerSection (qs_answers qs) h2
    (set_header (Header_set_rcode rcode (Header_SetFlag FLAG_AA aa
       (m_header (MakeResponse request)))) (MakeResponse request)) Hp1) as (ans & Ha & ->).
  rewrite bind_Ret. edestruct (add_rrsets_total AuthSection) as (auth & Hu & ->); [exact Hp2|].
  rewrite bind_Ret. edestruct (add_rrsets_total AdditionalSection) as (add & _ & ->); [exact Hp3|].
  rewrite bind_Ret. exists h2, ans, auth, add, aa, rcode. split; [|done].
  eapply answer_shape_map; [|exact Ha|exact Hu|exact Hsh].
  intros l r n t (k & -> & Ek) (k' & r' & [= <-] & Ek' & ? & ?). simplify_eq. done.
Qed.
End answers.

(** ** Updates *)

Section updates.
Context {N : G53Name} {NL : G53NameLaws N} {M : G53Msg N} {ML : G53MsgLaws M}
  {ZT : ZoneTree N} {ZL : ZoneTreeLaws ZT}.
Implicit Types (h : gmap nat RRset) (r : RRset) (z tmp : MemoryZone) (dz : DynamicZone).

(** The changes of a transaction add record sets to the store and change none. *)
Lemma alloc_rr_sub r h l h' : alloc_rr r h = (l, h') → h ⊆ h'.
Proof.
  unfold alloc_rr. intros [= <- <-]. apply insert_subseteq, not_elem_of_dom, is_fresh.
Qed.

Lemma add_to_node_sub l r d h h' res : add_to_node l r d h = Ret (h', res) → h ⊆ h'.
Proof.
  unfold add_to_node. destruct (checkRRsetCouldBeAdded d r); [by intros [= <- _]|].
  destruct (rr_type r =? RR_SOA).
  - destruct (mjoin (d !! RR_SOA)); [|by intros [= <- _]].
    destruct (deref_rr _ h) as [o| |]; [|done..]. rewrite bind_Ret.
    destruct (first_serial o) as [a| |]; [|done..]. rewrite bind_Ret.
    destruct (first_serial r) as [b| |]; [|done..]. rewrite bind_Ret. by intros [= <- _].
  - destruct (d !! rr_type r) as [old|]; [|by intros [= <- _]].
    destruct (rr_type r =? RR_CNAME); [by intros [= <- _]|].
    destruct (deref_rr old h) as [ro| |]; [|done..]. rewrite bind_Ret.
    destruct (add_rdatas _ _) as [new dup]. destruct (dup && _); [by intros [= <- _]|].
    destruct (alloc_rr _ h) as [l' h1] eqn:E. intros [= <- _]. by eapply alloc_rr_sub.
Qed.

Lemma addRRset_sub l h z h' z' err : addRRset l h z = Ret (h', z', err) → h ⊆ h'.
Proof.
  unfold addRRset. destruct (deref_rr _ h) as [r| |]; [|done..]. rewrite bind_Ret.
  destruct (checkRRsetValid r z); [by intros [= <- _ _]|].
  lazymatch goal with |- mbind _ ?x = _ → _ => destruct x as [[h1 res]| |] eqn:Er; [|done..] end.
  rewrite bind_Ret. assert (h ⊆ h1).
  { destruct (node_data _ _); [by eapply add_to_node_sub|by injection Er as <- _]. }
  destruct res as [e|d]; [by intros [= <- _ _]|].
  destruct (flag_node _ _ _) as [t'| |]; [|done..]. rewrite bind_Ret. by intros [= <- _ _].
Qed.

Lemma deleteRr_sub r h z h' z' err : deleteRr r h z = Ret (h', z', err) → h ⊆ h'.
Proof.
  unfold deleteRr. destruct (checkRRsetCouldBeDeleted _ _ _) as [e| |]; [|done..].
  rewrite bind_Ret. destruct e; [by intros [= <- _ _]|].
  destruct (getNode _ z) as [d|]; [|by intros [= <- _ _]].
  destruct (d !! rr_type r) as [old|]; [|by intros [= <- _ _]].
  destruct (deref_rr old h) as [ro| |]; [|done..]. rewrite bind_Ret. case_bool_decide.
  - destruct (delete_type _ _ _ _); [|done..]. by intros [= <- _ _].
  - destruct (alloc_rr _ h) as [l h1] eqn:E. intros [= <- _ _]. by eapply alloc_rr_sub.
Qed.

Lemma update_rrset_sub r h tmp h' tmp' err : update_rrset r h tmp = Ret (h', tmp', err) → h ⊆ h'.
Proof.
  unfold update_rrset. destruct (rr_class r =? CLASS_IN).
  - destruct (alloc_rr r h) as [l h1] eqn:E. intros E'. etrans; [by eapply alloc_rr_sub|].
    by eapply addRRset_sub.
  - destruct (rr_type r =? RR_ANY).
    + destruct (deleteDomain _ _); [|done..]. by intros [= <- _ _].
    + destruct (rr_class r =? CLASS_ANY); [|apply deleteRr_sub].
      destruct (deleteRRset _ _ _); [|done..]. by intros [= <- _ _].
Qed.

(** An update whose new record sets are parsed ones. *)
Definition parsed r : Prop := rr_class r = CLASS_IN → rr_ok r.

Lemma update_rrset_ok r h tmp h' tmp' err :
  parsed r → zone_wf h tmp → update_rrset r h tmp = Ret (h', tmp', err) →
  rr_le h h' ∧ mz_origin tmp' = mz_origin tmp ∧ zone_wf h' tmp'.
Proof.
  intros Hr Hz. unfold update_rrset. destruct (rr_class r =? CLASS_IN) eqn:Ec; zbool.
  - destruct (alloc_rr r h) as [l h1] eqn:E. intros E'.
    apply alloc_rr_spec in E as (Hle & _ & _); [|by auto].
    apply addRRset_ok in E' as (? & ? & ?); [|by eapply tree_ok_mono]. split_and!; [by etrans|done..].
  - destruct (rr_type r =? RR_ANY).
    + destruct (deleteDomain _ _) as [[z1 e1]| |] eqn:E; [|done..]. intros [= <- <- <-].
      split; [done|]. by eapply deleteDomain_ok.
    + destruct (rr_class r =? CLASS_ANY); [|by apply deleteRr_ok].
      destruct (deleteRRset _ _ _) as [[z1 e1]| |] eqn:E; [|done..]. intros [= <- <- <-].
      split; [done|]. by eapply deleteRRset_ok.
Qed.

(** ** The SOA entry *)

(** The pointer to the SOA at the origin; nil when there is none. *)
Definition soa_ptr z : option nat :=
  match origin_data z with Some d => mjoin (d !! RR_SOA) | None => None end.

(** The same for a tree whose origin node is in place. *)
Definition tree_soa (o : Name) (t : ztree (gmap Z (option nat))) : option nat :=
  match node_data o t with Some d => mjoin (d !! RR_SOA) | None => None end.

Lemma soa_ptr_tree z t :
  tree_soa (mz_origin z) t = tree_soa (mz_origin z) (mz_domains z) →
  soa_ptr (set_domains t z) = soa_ptr z.
Proof. unfold soa_ptr, origin_data, tree_soa. cbn. by destruct (mz_origin_lost z). Qed.

(** Changing another type's entry, or another name, keeps it. *)
Lemma tree_soa_set o n d d0 t :
  is_Some (zt_node n t) →
  default ∅ (node_data n t) = d0 → mjoin (d !! RR_SOA) = mjoin (d0 !! RR_SOA) →
  tree_soa o (zt_alter (set_data d) n t) = tree_soa o t.
Proof.
  intros Hn <- Hd. unfold tree_soa. destruct (Name_Equals n o) eqn:E.
  - rewrite <- !(node_data_proper n o _ E). rewrite node_data_set_self by done. rewrite Hd.
    by destruct (node_data n t).
  - unfold node_data. by rewrite zt_alter_node, E.
Qed.

Lemma tree_soa_flag o r z t t' : flag_node r z t = Ret t' → tree_soa o t' = tree_soa o t.
Proof.
  unfold flag_node. set (t1 := if _ && _ then _ else t).
  assert (tree_soa o t1 = tree_soa o t) as <-.
  { unfold t1, tree_soa. destruct (_ && _); [|done]. by rewrite node_data_alter. }
  destruct (Name_IsWildCard _); [|by intros [= <-]]. unfold markWildcardParent.
  destruct (Name_Parent _); [|done]. cbn. intros [= <-]. unfold tree_soa.
  by rewrite node_data_alter, node_data_Insert.
Qed.

Lemma addRRset_soa l h z r h' z' err :
  h !! l = Some r → rr_type r ≠ RR_SOA →
  addRRset l h z = Ret (h', z', err) → soa_ptr z' = soa_ptr z.
Proof.
  intros El Ht. unfold addRRset. rewrite (deref_rr_Some _ _ _ El), bind_Ret.
  destruct (checkRRsetValid r z); [by intros [= _ <- _]|].
  set (t := zt_Insert (rr_name r) (mz_domains z)).
  assert (tree_soa (mz_origin z) t = tree_soa (mz_origin z) (mz_domains z)) as Hins
    by (unfold tree_soa, t; by rewrite node_data_Insert).
  lazymatch goal with |- mbind _ ?x = _ → _ => destruct x as [[h1 res]| |] eqn:Er; [|done..] end.
  rewrite bind_Ret. destruct res as [e|d].
  { intros [= _ <- _]. by apply soa_ptr_tree. }
  destruct (flag_node _ _ _) as [t'| |] eqn:Ef; [|done..]. rewrite bind_Ret. intros [= _ <- _].
  apply soa_ptr_tree. rewrite (tree_soa_flag _ _ _ _ _ Ef), <- Hins.
  eapply tree_soa_set; [apply zt_Insert_self|done|].
  destruct (node_data (rr_name r) t) as [d0|] eqn:Ed; cbn [default].
  - apply add_to_node_keys in Er as [l' ->]. by rewrite lookup_insert_ne.
  - injection Er as _ <-. by rewrite lookup_singleton_ne.
Qed.

(** Removing a name that holds no SOA keeps it. *)
Lemma deleteNode_soa n z z' :
  (Name_Equals n (mz_origin z) = true → soa_ptr z = None) →
  deleteNode n z = Ret z' → soa_ptr z' = soa_ptr z.
Proof.
  intros Hn. unfold deleteNode. set (t := zt_Remove n (mz_domains z)).
  lazymatch goal with |- mbind _ ?x = _ → _ => destruct x as [t'| |] eqn:Et; [|done..] end.
  rewrite bind_Ret. intros [= <-].
  assert (tree_soa (mz_origin z) t' = tree_soa (mz_origin z) t) as Ht.
  { unfold unmarkWildcardParent in Et. destruct (Name_IsWildCard n); [|by injection Et as <-].
    destruct (Name_Parent n); [|done]. cbn in Et. injection Et as <-. unfold tree_soa.
    by rewrite node_data_alter. }
  unfold soa_ptr, origin_data in *. cbn. unfold tree_soa in Ht.
  destruct (Name_Equals n (mz_origin z)) eqn:E; cbn [andb].
  - rewrite Hn by done. destruct (_ || _); [done|]. rewrite Ht.
    destruct (node_data (mz_origin z) t) eqn:Ed; [|done]. apply node_data_Remove in Ed as [? _]. congruence.
  - rewrite orb_false_r. destruct (mz_origin_lost z); [done|]. rewrite Ht.
    assert (node_data (mz_origin z) t = node_data (mz_origin z) (mz_domains z)) as ->; [|done].
    destruct (node_data (mz_origin z) t) as [d|] eqn:Ed.
    { by apply node_data_Remove in Ed as [_ ->]. }
    unfold node_data in *. destruct (zt_node (mz_origin z) (mz_domains z)) as [x|] eqn:Ex; [|done].
    cbn. destruct (zn_data x) eqn:Edx; [|done].
    unfold t in Ed. rewrite (zt_Remove_keep _ _ _ _ Ex E) in Ed by congruence. cbn in Ed. congruence.
Qed.

Lemma delete_type_soa n typ d z z' :
  typ ≠ RR_SOA → node_data n (mz_domains z) = Some d →
  delete_type n typ d z = Ret z' → soa_ptr z' = soa_ptr z.
Proof.
  intros Ht Ed. unfold delete_type. set (z1 := set_domains _ z).
  assert (soa_ptr z1 = soa_ptr z) as H1.
  { apply soa_ptr_tree. eapply tree_soa_set; [|done|].
    - unfold node_data in Ed. by destruct (zt_node n _).
    - rewrite Ed. cbn. by rewrite lookup_delete_ne. }
  case_bool_decide as He; [|by intros [= <-]]. intros E. rewrite <- H1.
  eapply deleteNode_soa; [|exact E]. intros En. unfold soa_ptr, origin_data, z1. cbn.
  destruct (mz_origin_lost z); [done|]. rewrite <- (node_data_proper n _ _ En).
  rewrite node_data_set_self; [by rewrite He|]. unfold node_data in Ed. by destruct (zt_node n _).
Qed.

Lemma deleteDomain_soa n z z' err : deleteDomain n z = Ret (z', err) → soa_ptr z' = soa_ptr z.
Proof.
  unfold deleteDomain. destruct (Name_IsSubDomain _ _); cbn [negb]; [|by intros [= <- _]].
  destruct (getNode n z) as [d|] eqn:Ed; [|by intros [= <- _]]. unfold getNode in Ed.
  destruct (Name_Equals n (mz_origin z)) eqn:E.
  - intros [= <- _]. apply soa_ptr_tree. eapply tree_soa_set; [|done|].
    + unfold node_data in Ed. by destruct (zt_node n _).
    + rewrite Ed. cbn [from_option]. rewrite lookup_insert_ne by done. rewrite lookup_singleton_eq. done.
  - destruct (deleteNode n z) as [z1| |] eqn:Ez; [|done..]. intros [= <- _].
    eapply deleteNode_soa; [|exact Ez]. congruence.
Qed.

(** A record set that is not a SOA does not change the SOA entry. *)
Lemma update_rrset_soa r h tmp h' tmp' err :
  rr_type r ≠ RR_SOA → update_rrset r h tmp = Ret (h', tmp', err) → soa_ptr tmp' = soa_ptr tmp.
Proof.
  intros Ht. unfold update_rrset. destruct (rr_class r =? CLASS_IN).
  - destruct (alloc_rr r h) as [l h1] eqn:E. unfold alloc_rr in E. injection E as <- <-.
    apply addRRset_soa with (r := r); [by rewrite lookup_insert_eq|done].
  - destruct (rr_type r =? RR_ANY).
    { destruct (deleteDomain _ _) as [[z1 e1]| |] eqn:E; [|done..]. intros [= _ <- _].
      by eapply deleteDomain_soa. }
    destruct (rr_class r =? CLASS_ANY).
    + unfold deleteRRset. destruct (checkRRsetCouldBeDeleted _ _ _) as [e| |]; [|done..].
      rewrite bind_Ret. destruct e; [by intros [= _ <- _]|].
      destruct (getNode _ tmp) as [d|] eqn:Ed; [|by intros [= _ <- _]].
      destruct (d !! rr_type r); [|by intros [= _ <- _]].
      destruct (delete_type _ _ _ _) as [z1| |] eqn:E; [|done..]. intros [= _ <- _].
      by eapply delete_type_soa.
    + unfold deleteRr. destruct (checkRRsetCouldBeDeleted _ _ _) as [e| |]; [|done..].
      rewrite bind_Ret. destruct e; [by intros [= _ <- _]|].
      destruct (getNode _ tmp) as [d|] eqn:Ed; [|by intros [= _ <- _]].
      destruct (d !! rr_type r) as [old|]; [|by intros [= _ <- _]].
      destruct (deref_rr old h) as [ro| |]; [|done..]. rewrite bind_Ret. case_bool_decide.
      * destruct (delete_type _ _ _ _) as [z1| |] eqn:E; [|done..]. intros [= _ <- _].
        by eapply delete_type_soa.
      * destruct (alloc_rr _ h) as [l h1]. intros [= _ <- _]. apply soa_ptr_tree.
        unfold getNode in Ed. eapply tree_soa_set; [|done|].
        -- unfold node_data in Ed. by destruct (zt_node _ _).
        -- rewrite Ed. cbn. by rewrite lookup_insert_ne.
Qed.

Lemma update_rrsets_ok rrsets h tmp ex md h' tmp' err ex' md' :
  Forall parsed rrsets → zone_wf h tmp →
  update_rrsets rrsets h tmp ex md = Ret (h', tmp', err, ex', md') →
  rr_le h h' ∧ h ⊆ h' ∧ mz_origin tmp' = mz_origin tmp ∧ zone_wf h' tmp' ∧
  (Forall (λ r, rr_type r ≠ RR_SOA) rrsets → ex' = ex ∧ soa_ptr tmp' = soa_ptr tmp).
Proof.
  revert h tmp ex md. induction rrsets as [|r rrsets IH]; intros h tmp ex md Hp Hz; cbn [update_rrsets];
    [intros [= <- <- _ <- _]; done|].
  apply Forall_cons in Hp as [Hr Hp].
  destruct (update_rrset r h tmp) as [[[h1 tmp1] e]| |] eqn:E; [|done..]. rewrite bind_Ret.
  pose proof (update_rrset_sub _ _ _ _ _ _ E) as Hsub.
  pose proof (λ H, update_rrset_soa _ _ _ _ _ _ H E) as Hsoa.
  apply update_rrset_ok in E as (Hle & Ho & Hz1); [|done..].
  assert (∀ ex1 md1, (rr_type r ≠ RR_SOA → ex1 = ex) →
    update_rrsets rrsets h1 tmp1 ex1 md1 = Ret (h', tmp', err, ex', md') →
    rr_le h h' ∧ h ⊆ h' ∧ mz_origin tmp' = mz_origin tmp ∧ zone_wf h' tmp' ∧
    (Forall (λ r, rr_type r ≠ RR_SOA) (r :: rrsets) → ex' = ex ∧ soa_ptr tmp' = soa_ptr tmp)) as Hrec.
  { intros ex1 md1 Hex E. apply IH in E as (? & ? & ? & ? & Hs); [|done..].
    split_and!; [by etrans|by etrans|congruence|done|].
    intros [Hr1 Hrs]%Forall_cons. destruct (Hs Hrs) as [-> ->]. auto. }
  destruct e as [e|].
  - case_bool_decide; [by apply Hrec|]. intros [= <- <- _ <- _]. split_and!; [done..|].
    intros [Hr1 _]%Forall_cons. auto.
  - apply Hrec. intros Ht. apply Z.eqb_neq in Ht. rewrite Ht. by rewrite orb_false_r.
Qed.

(** Record sets stay as they are, but for the serial of a SOA. *)
Definition serial_only h h' : Prop :=
  ∀ l r, h !! l = Some r →
    h' !! l = Some r ∨
    ∃ s, rr_rdatas r = [RdSOA s] ∧ h' !! l = Some (set_rdatas [RdSOA (bump_serial s)] r).

Lemma serial_only_sub h h' : h ⊆ h' → serial_only h h'.
Proof. intros Hs l r E. left. by eapply lookup_weaken. Qed.

Lemma increaseSerialNumber_spec h z h' :
  increaseSerialNumber h z = Ret h' →
  ∃ l r s, soa_ptr z = Some l ∧ h !! l = Some r ∧ rr_rdatas r = [RdSOA s] ∧
           h' = <[l := set_rdatas [RdSOA (bump_serial s)] r]> h.
Proof.
  unfold increaseSerialNumber, soa_ptr. destruct (origin_data z) as [d|]; [|done].
  cbn [from_option_panic]. rewrite bind_Ret.
  destruct (mjoin (d !! RR_SOA)) as [l|] eqn:Ed; [|done]. cbn [from_option_panic]. rewrite bind_Ret.
  unfold deref_rr. cbn [from_option_panic]. rewrite bind_Ret.
  destruct (h !! l) as [r|] eqn:El; [|done]. cbn [from_option_panic]. rewrite bind_Ret.
  destruct (rr_rdatas r) as [|[] []] eqn:Er; try done. intros [= <-]. eauto 10.
Qed.

Lemma Begin_soa dz : validate (dz_zone dz) = None → soa_ptr (Begin dz) = soa_ptr (dz_zone dz).
Proof.
  intros (d & Ed & _)%validate_None. unfold soa_ptr, origin_data, Begin, MemoryZone_clone in *. cbn.
  destruct (mz_origin_lost (dz_zone dz)); [done|]. by rewrite node_data_Insert.
Qed.

Lemma soa_ptr_in h z l : zone_wf h z → soa_ptr z = Some l → ∃ r, h !! l = Some r.
Proof.
  intros Hz. unfold soa_ptr, origin_data. destruct (mz_origin_lost z); [done|].
  destruct (node_data _ _) as [d|] eqn:Ed; [|done].
  destruct (d !! RR_SOA) as [e|] eqn:Ee; [|done]. cbn. intros ->.
  destruct (nk_entry _ _ _ _ (tk_node _ _ _ Hz _ _ Ed) _ _ Ee) as (r & ? & _). eauto.
Qed.

End updates.

(** ** On a zone *)

Lemma demo_good : zone_good demo_heap demo_zone.
Proof. exact (Load_good _ _ _ _ _ demo_rrs_ok demo_events_in demo_loaded). Qed.

Lemma Query_Process_answers_witness :
  ∃ h ans auth additional aa rcode,
    answer_shape rr_is (dz_zone demo_zone) (mkQuestion www_child RR_A CLASS_IN) ans auth aa rcode ∧
    Query_Process ExactMatch (query www_child RR_A) demo_zone demo_heap = Ret (h,
      RecalculateSectionRRCount
        (add_all AdditionalSection additional (add_all AuthSection auth (add_all AnswerSection ans
          (set_header (Header_set_rcode rcode (Header_SetFlag FLAG_AA aa
             (m_header (MakeResponse (query www_child RR_A)))))
             (MakeResponse (query www_child RR_A))))))).
Proof.
  exact (Query_Process_answers demo_events demo_rrs (NewDynamicZone example_com) demo_heap demo_zone
    ExactMatch (query www_child RR_A) _ demo_rrs_ok demo_events_in demo_loaded eq_refl).
Defined.

(** An update of the zone, then a query. *)
Definition update_then {A} (rrsets : list RRset)
  (f : gmap nat RRset → DynamicZone → option string → outcome A) : outcome A :=
  r ← update_zone rrsets demo_heap demo_zone;
  let '(h, dz, err) := r in f h dz err.

Definition demo_update : outcome (gmap nat RRset * DynamicZone * option string) :=
  update_zone [a_rrset www 300 9] demo_heap demo_zone.
Definition demo_updated : gmap nat RRset * DynamicZone * option string :=
  match demo_update with Ret r => r | _ => (∅, demo_zone, Some "") end.

Lemma demo_update_ret :
  update_zone [a_rrset www 300 9] demo_heap demo_zone =
  Ret (demo_updated.1.1, demo_updated.1.2, None).
Proof. by_eval. Qed.


Definition serial_of (h : gmap nat RRset) (dz : DynamicZone) : option (list Rdata) :=
  rr_rdatas <$> (soa_ptr (dz_zone dz) ≫= (h !!.)).

(** The delete forms of an update: a whole record set, and everything of a name. *)
Definition delete_set (n : Name) (t : RRType) : RRset := mkRRset n t CLASS_ANY 0 [].
Definition delete_all (n : Name) : RRset := mkRRset n RR_ANY CLASS_ANY 0 [].

