(* ===== verification/RecursorRun.v ===== *)
(** * The recursor as a running part of the process (src/resolver/recursor: recursor.go, roothint.go)

    The configuration of the recursor, and its goroutines: searches for clients, the
    look-ups of missing server addresses that a referral starts, and the timer that
    enforces the memory limit, all on one store of name servers and one pool of contexts.
    A search is a sequence of steps (choosing servers, an answer, a timeout) between which
    the steps of the others run. *)

From S2P Require Import Prelude GoList GoStd G53 Instances Core Cement Util Chain Auth Recursor.
From Stdlib Require Import Ascii.

Local Open Scope Z_scope.

(** ** roothint.go *)

Definition errInvalidRootHintZoneName : string := "root hint zone name should be root".
Definition errUnsupportRRType : string := "only ns and a is supported in root hint".
Definition memoryCheckInterval : Z := 10 * Second.

Section roots.
Context {N : G53Name} {M : G53Msg N} {T : DomainTree N}.
(** [g53.RRsetFromString]; [inl] is the error text. *)
Context (RRsetFromString : string → string + RRset).

Fixpoint load_hints (lines : list string) (nameServers : list NameServer)
  : outcome (string + list NameServer) :=
  match lines with
  | [] => Ret (inr nameServers)
  | line :: lines =>
      let line := trim_line line in
      if bool_decide (line = "") then load_hints lines nameServers
      else
        match RRsetFromString line with
        | inl err => Ret (inl ("invalid rr " +:+ err))
        | inr rrset =>
            if rr_type rrset =? RR_NS then
              if negb (Name_Equals (rr_name rrset) Name_Root)
              then Ret (inl errInvalidRootHintZoneName) else load_hints lines nameServers
            else if rr_type rrset =? RR_A then
              rd ← index (rr_rdatas rrset) 0;
              load_hints lines (nameServers ++
                [mkNameServer (Some Name_Root) (rr_name rrset) (Rdata_String rd +:+ ":53")
                   (i64 (rr_ttl rrset * Second))])
            else Ret (inl errUnsupportRRType)
        end
  end.

Definition loadRootServer (content : string) : outcome (string + list NameServer) :=
  load_hints (strings_Split content "010"%char) [].

(** ** recursor.go: configuration *)

Definition rootServers : list (string * string) :=
  [("a.root-servers.net.", "198.41.0.4:53"); ("b.root-servers.net.", "192.228.79.201:53");
   ("c.root-servers.net.", "192.33.4.12:53"); ("d.root-servers.net.", "199.7.91.13:53");
   ("e.root-servers.net.", "192.203.230.10:53"); ("f.root-servers.net.", "192.5.5.241:53");
   ("g.root-servers.net.", "192.112.36.4:53"); ("h.root-servers.net.", "198.97.190.53:53");
   ("i.root-servers.net.", "192.36.148.17:53"); ("j.root-servers.net.", "192.58.128.30:53");
   ("k.root-servers.net.", "193.0.14.129:53"); ("l.root-servers.net.", "199.7.83.42:53");
   ("m.root-servers.net.", "202.12.27.33:53")].

(** The servers in the order [order] of the map iteration; the error of the parser is
    dropped, which would leave a nil name. *)
Definition getDefaultRootServers (order : list (string * string)) : outcome (list NameServer) :=
  mapM (λ s, match Name_FromString s.1 with
             | inr name => Ret (mkNameServer (Some Name_Root) name s.2 0)
             | inl _ => Panic "nil name of a root server"
             end) order.

Record RecursorInView : Type := mkRecursorInView {
  ri_Enable : bool;
  ri_View : string;
  ri_RootHintFile : string;
  ri_EdnsSubnetEnable : bool;
}.

Fixpoint load_recursors (readFile : string → string + string) (conf : list RecursorInView)
  (roots : gmap string (list NameServer)) : outcome (gmap string (list NameServer)) :=
  match conf with
  | [] => Ret roots
  | c :: conf =>
      if bool_decide (ri_RootHintFile c = "") then load_recursors readFile conf roots
      else
        match readFile (ri_RootHintFile c) with
        | inl err => Panic ("open root hint file " +:+ ri_RootHintFile c +:+ " failed " +:+ err)
        | inr content =>
            r ← loadRootServer content;
            match r with
            | inl err => Panic ("load root server failed:" +:+ err)
            | inr nameServers => load_recursors readFile conf (<[ri_View c := nameServers]> roots)
            end
        end
  end.

(** [views] are the names of [view.GetViewAndIds()]. *)
Definition Recursor_ReloadConfig (readFile : string → string + string) (order : list (string * string))
  (views : list string) (conf : list RecursorInView) (r : Recursor) : outcome Recursor :=
  roots ← load_recursors readFile conf ∅;
  defaultRootServers ← getDefaultRootServers order;
  Ret (mkRecursor (NewNsasCache 0)
         (foldl (λ m c, <[ri_View c := ri_Enable c]> m) ∅ conf)
         (foldl (λ m c, <[ri_View c := ri_EdnsSubnetEnable c]> m) ∅ conf)
         (foldl (λ m v, match m !! v with Some _ => m | None => <[v := defaultRootServers]> m end)
            roots views)
         (rr_ctxPool r)).

Definition NewRecursor (readFile : string → string + string) (order : list (string * string))
  (views : list string) (conf : list RecursorInView) : outcome Recursor :=
  Recursor_ReloadConfig readFile order views conf
    (mkRecursor (NewNsasCache 0) ∅ ∅ ∅ (newRecursorCtxPool maxInflightQuery)).
End roots.

(** ** recursor.go: the goroutines *)

Section run.
Context {N : G53Name} {M : G53Msg N} {T : DomainTree N}.

(** Where a search is: about to choose servers, or waiting for the answer of some. *)
Inductive SearchPhase : Type :=
  | Choosing
  | Asking (servers : list NameServer).

(** A search with the context it holds.  A look-up of a server's address is a search whose
    answer goes to the store and not to a client. *)
Record Search : Type := mkSearch {
  sh_slot : nat;
  sh_ctx : RecursorCtx;
  sh_phase : SearchPhase;
  sh_lookup : bool;
}.

(** [getMissingNameServer] up to the start of the goroutines: one context per name as long
    as the pool has some. *)
Fixpoint spawn_lookups (ctx : RecursorCtx) (serverNames : list Name) (pool : list (option nat))
  : outcome (list Search * list (option nat)) :=
  match serverNames with
  | [] => Ret ([], pool)
  | name :: serverNames =>
      match getCtx pool with
      | None => spawn_lookups ctx serverNames pool
      | Some (slot, pool) =>
          nameServers ← cloneNameServers (rc_nameServers ctx);
          let newCtx := mkRecursorCtx (mkQuestion name RR_A CLASS_IN) (rc_depth ctx) nameServers in
          r ← spawn_lookups ctx serverNames pool;
          let '(searches, pool) := r in
          Ret (mkSearch slot newCtx Choosing true :: searches, pool)
      end
  end.

Definition getMissingNameServer (ctx : RecursorCtx) (serverNames : list Name) (pool : list (option nat))
  : outcome (list Search * list (option nat)) :=
  if maxQueryDep <? rc_depth ctx then Ret ([], pool) else spawn_lookups ctx serverNames pool.

(** The first part of [handleQuery]: the servers to ask, or [None] for a search that is too
    deep or too old. *)
Definition choose_servers (now elapsed : Z) (ctx : RecursorCtx) (nc : NsasCache)
  : outcome (NsasCache * RecursorCtx * option (list NameServer)) :=
  let ctx := mkRecursorCtx (rc_question ctx) (rc_depth ctx + 1) (rc_nameServers ctx) in
  if (maxQueryDep <=? rc_depth ctx) || ((1 <? rc_depth ctx) && (queryTimeout <? elapsed))
  then Ret (nc, ctx, None)
  else
    r ← SelectNameServers now (q_name (rc_question ctx)) nc;
    let '(nc, known) := r in
    Ret (nc, ctx, Some (match known with [] => rc_nameServers ctx | _ => known end)).

(** [handleResponse]: the final answer or the error, or the names of the servers a referral
    misses. *)
Definition handleResponse (now : Z) (rnd : nat → Z) (ctx : RecursorCtx) (servers : list NameServer)
  (response : Message) (nc : NsasCache) : outcome (NsasCache * ((string + Message) + list Name)) :=
  zone ← server_zone servers;
  t ← ClassifyResponse response;
  match t with
  | ANSWER | NXDOMAIN | NXRRSET =>
      r ← NsasCache_AddZoneNameServer now rnd zone response nc;
      Ret (r.1, inl (inr (set_question (Some (rc_question ctx)) response)))
  | REFERRAL =>
      r ← NsasCache_AddZoneNameServer now rnd zone response nc;
      Ret (r.1, inr r.2.1)
  | _ => Ret (nc, inl (inl errInvalidResponse))
  end.

(** What a look-up does with its answer. *)
Definition store_glue (now : Z) (rnd : nat → Z) (response : Message) (nc : NsasCache) : outcome NsasCache :=
  glue ← getARRsetFromAnswer response;
  match glue with
  | None => Ret nc
  | Some glue => NsasCache_addNameServer now rnd glue FromAuth nc
  end.

(** The recursor with its searches. *)
Record RecProc : Type := mkRecProc {
  rp_rec : Recursor;
  rp_searches : list Search;
}.

Definition set_pool (pool : list (option nat)) (r : Recursor) : Recursor :=
  mkRecursor (rr_nsas r) (rr_enabled r) (rr_ednsSubnetEnable r) (rr_rootForView r) pool.

(** The end of a search: the context goes back to the pool. *)
Definition end_search (sh : Search) (nc : NsasCache) (rest : list Search) (r : Recursor) : RecProc :=
  mkRecProc (set_pool (putCtx (sh_slot sh) (rr_ctxPool r)) (set_nsas nc r)) rest.

(** A client's query that gets a context. *)
Inductive rec_start : RecProc → RecProc → Prop :=
  | rec_start_query view q roots slot pool r searches :
      getCtx (rr_ctxPool r) = Some (slot, pool) →
      getRootServers view r = Ret roots →
      rec_start (mkRecProc r searches)
        (mkRecProc (set_pool pool r)
           (mkSearch slot (mkRecursorCtx q 0 roots) Choosing false :: searches)).

(** The store changes without a search moving: a query to one server ends, or the timer
    enforces the memory limit. *)
Inductive rec_store : RecProc → RecProc → Prop :=
  | rec_rtt server rtt r searches :
      rec_store (mkRecProc r searches)
        (mkRecProc (set_nsas (NsasCache_UpdateRtt server rtt (rr_nsas r)) r) searches)
  | rec_timer now nc r searches :
      EnforceMemoryLimit now (rr_nsas r) = Ret nc →
      rec_store (mkRecProc r searches) (mkRecProc (set_nsas nc r) searches).

(** The steps of the search between [before] and [after]. *)
Inductive search_step : RecProc → RecProc → Prop :=
  | st_choose now elapsed nc ctx servers sh before after r :
      sh_phase sh = Choosing →
      choose_servers now elapsed (sh_ctx sh) (rr_nsas r) = Ret (nc, ctx, Some servers) →
      search_step (mkRecProc r (before ++ sh :: after))
        (mkRecProc (set_nsas nc r)
           (before ++ mkSearch (sh_slot sh) ctx (Asking servers) (sh_lookup sh) :: after))
  | st_give_up now elapsed nc ctx sh before after r :
      sh_phase sh = Choosing →
      choose_servers now elapsed (sh_ctx sh) (rr_nsas r) = Ret (nc, ctx, None) →
      search_step (mkRecProc r (before ++ sh :: after)) (end_search sh nc (before ++ after) r)
  | st_timeout servers sh before after r :
      sh_phase sh = Asking servers →
      search_step (mkRecProc r (before ++ sh :: after))
        (mkRecProc r (before ++ mkSearch (sh_slot sh) (sh_ctx sh) Choosing (sh_lookup sh) :: after))
  | st_referral now rnd servers response nc missing lookups pool sh before after r :
      sh_phase sh = Asking servers → msg_ok response →
      handleResponse now rnd (sh_ctx sh) servers response (rr_nsas r) = Ret (nc, inr missing) →
      getMissingNameServer (sh_ctx sh) missing (rr_ctxPool r) = Ret (lookups, pool) →
      search_step (mkRecProc r (before ++ sh :: after))
        (mkRecProc (set_pool pool (set_nsas nc r))
           (before ++ mkSearch (sh_slot sh) (sh_ctx sh) Choosing (sh_lookup sh) :: lookups ++ after))
  | st_error now rnd servers response nc err sh before after r :
      sh_phase sh = Asking servers → msg_ok response →
      handleResponse now rnd (sh_ctx sh) servers response (rr_nsas r) = Ret (nc, inl (inl err)) →
      search_step (mkRecProc r (before ++ sh :: after)) (end_search sh nc (before ++ after) r)
  | st_answer now rnd servers response answer nc nc' sh before after r :
      sh_phase sh = Asking servers → msg_ok response →
      (∀ g, g ∈ m_answer response → rr_rdatas g ≠ []) →
      handleResponse now rnd (sh_ctx sh) servers response (rr_nsas r) = Ret (nc, inl (inr answer)) →
      (if sh_lookup sh then store_glue now rnd answer nc else Ret nc) = Ret nc' →
      search_step (mkRecProc r (before ++ sh :: after)) (end_search sh nc' (before ++ after) r).

(** Everything that can happen. *)
Definition rec_step (s s' : RecProc) : Prop := rec_start s s' ∨ rec_store s s' ∨ search_step s s'.
End run.

(** ** The context pool *)

Lemma putCtx_perm c pool :
  None ∈ pool → omap id (putCtx c pool) ≡ₚ c :: omap id pool.
Proof.
  induction pool as [|[x|] pool IH]; intros Hin; [by apply elem_of_nil in Hin| |done].
  cbn. rewrite IH; [by rewrite Permutation_swap|]. by apply elem_of_cons in Hin as [|].
Qed.

Lemma putCtx_length c pool : length (putCtx c pool) = length pool.
Proof. induction pool as [|[x|] pool IH]; cbn; by f_equal. Qed.

Lemma take_render_length rs r rs' : take_render rs = Some (r, rs') → length rs' = length rs.
Proof.
  revert r rs'. induction rs as [|[x|] rs IH]; intros r rs'; cbn; [done|naive_solver|].
  destruct (take_render rs) as [[y ys]|]; [|done]. intros [= <- <-]. cbn. f_equal. by eapply IH.
Qed.

Lemma pool_has_room (pool : list (option nat)) :
  (length (omap id pool) < length pool)%nat → None ∈ pool.
Proof.
  induction pool as [|[x|] pool IH]; cbn; [lia| |by constructor].
  intros Hl. constructor. apply IH. lia.
Qed.

Section run_props.
Context {N : G53Name} {L : G53NameLaws N} {M : G53Msg N} {T : DomainTree N} {TL : DomainTreeLaws T}.
Implicit Types (s : RecProc) (sh : Search).
Local Arguments seq : simpl never.

Definition phase_ok sh : Prop :=
  match sh_phase sh with
  | Choosing => 0 ≤ rc_depth (sh_ctx sh) < 20
  | Asking servers => 0 ≤ rc_depth (sh_ctx sh) < 20 ∧ servers_ok servers
  end.

Definition search_ok sh : Prop := phase_ok sh ∧ servers_ok (rc_nameServers (sh_ctx sh)).

(** The store is consistent, every context is in the pool or held by one search, and every
    search has servers to ask and depth left. *)
Record rec_inv s : Prop := mkRecInv {
  ri_nsas : nsas_inv (rr_nsas (rp_rec s));
  ri_length : length (rr_ctxPool (rp_rec s)) = maxInflightQuery;
  ri_slots : omap id (rr_ctxPool (rp_rec s)) ++ (sh_slot <$> rp_searches s) ≡ₚ seq 0 maxInflightQuery;
  ri_searches : Forall search_ok (rp_searches s);
  ri_roots : map_Forall (λ _ ns, Forall (λ x, is_Some (ns_zone x)) ns) (rr_rootForView (rp_rec s));
}.

Lemma spawn_lookups_spec ctx names pool lookups pool' :
  spawn_lookups ctx names pool = Ret (lookups, pool') →
  length pool' = length pool ∧ (sh_slot <$> lookups) ++ omap id pool' ≡ₚ omap id pool ∧
  Forall (λ sh, rc_depth (sh_ctx sh) = rc_depth ctx ∧ sh_phase sh = Choosing ∧
                rc_nameServers (sh_ctx sh) = rc_nameServers ctx) lookups.
Proof.
  revert pool lookups pool'. induction names as [|n names IH]; intros pool lookups pool'; cbn [spawn_lookups].
  { intros [= <- <-]. by split_and!. }
  destruct (getCtx pool) as [[slot pool1]|] eqn:Eg; [|apply IH].
  rewrite outcome_bind_ret. intros (ns & Hc & Hs).
  rewrite outcome_bind_ret in Hs. destruct Hs as ([ls pool2] & Hs & [= <- <-]).
  apply IH in Hs as (Hl & Hp & Hall). unfold getCtx in Eg.
  pose proof (take_render_length _ _ _ Eg). apply take_render_Some in Eg. split_and!; [congruence| |].
  - cbn. by rewrite Hp, Eg.
  - constructor; [|done]. cbn. unfold cloneNameServers in Hc. by destruct (rc_nameServers ctx); simplify_eq.
Qed.

Lemma spawn_lookups_total ctx names pool :
  rc_nameServers ctx ≠ [] → ∃ r, spawn_lookups ctx names pool = Ret r.
Proof.
  intros Hne. revert pool. induction names as [|n names IH]; intros pool; cbn [spawn_lookups]; [eauto|].
  destruct (getCtx pool) as [[slot pool1]|]; [|apply IH]. unfold cloneNameServers.
  destruct (rc_nameServers ctx) as [|x xs]; [done|]. rewrite bind_Ret.
  destruct (IH pool1) as [[ls pool2] ->]. rewrite bind_Ret. eauto.
Qed.

Lemma choose_servers_ok now elapsed ctx nc :
  nsas_inv nc → servers_ok (rc_nameServers ctx) → 0 ≤ rc_depth ctx < 20 →
  ∃ nc' servers, choose_servers now elapsed ctx nc =
      Ret (nc', mkRecursorCtx (rc_question ctx) (rc_depth ctx + 1) (rc_nameServers ctx), servers) ∧
    nsas_inv nc' ∧
    match servers with Some ss => servers_ok ss ∧ rc_depth ctx + 1 < 20 | None => True end.
Proof.
  intros Hinv Hss Hd. unfold choose_servers. cbn [rc_depth rc_question rc_nameServers].
  destruct ((maxQueryDep <=? _) || _) eqn:Edep; [by eexists _, None|].
  apply orb_false_iff in Edep as [Edep _]. unfold maxQueryDep in Edep. zbool. unfold SelectNameServers.
  destruct (selectNameServers_ok (S (list_Len (nc_visitedZone nc))) now (q_name (rc_question ctx)) nc Hinv)
    as (nc1 & known & -> & Hinv1 & _ & Hk); [lia|]. rewrite bind_Ret.
  eexists _, (Some _). split; [done|]. split_and!; [done| |lia].
  destruct known as [|x known]; [done|]. destruct Hk as (z & _ & Hall). split; [done|].
  eapply Forall_impl; [exact Hall|]. intros y [Hy _]. rewrite Hy. by eexists.
Qed.

Lemma handleResponse_ok now rnd ctx servers response nc :
  nsas_inv nc → servers_ok servers → msg_ok response →
  ∃ nc' r, handleResponse now rnd ctx servers response nc = Ret (nc', r) ∧ nsas_inv nc' ∧
    ∀ m, r = inl (inr m) → m = set_question (Some (rc_question ctx)) response.
Proof.
  intros Hinv Hss Hm. unfold handleResponse. destruct (server_zone_ok _ Hss) as [zone ->].
  rewrite bind_Ret. destruct (ClassifyResponse_ok response Hm) as [t ->]. rewrite bind_Ret.
  destruct (AddZoneNameServer_ok now rnd zone response nc Hinv Hm) as (nc' & [ms ks] & E & Hinv').
  destruct t; rewrite ?E, ?bind_Ret; eexists _, _; (split_and!; [done|done|]); naive_solver.
Qed.

Lemma store_glue_ok now rnd answer nc :
  nsas_inv nc → is_Some (m_question answer) → (∀ g, g ∈ m_answer answer → rr_rdatas g ≠ []) →
  ∃ nc', store_glue now rnd answer nc = Ret nc' ∧ nsas_inv nc'.
Proof.
  intros Hinv [q Hq] Hg. unfold store_glue, getARRsetFromAnswer.
  destruct (m_answer answer) as [|g [|]]; [eauto| |eauto].
  destruct (rr_type g =? RR_A); [|eauto]. rewrite (deref_question_Some _ q Hq), !bind_Ret.
  destruct (Name_Equals _ _); [|eauto]. apply addNameServer_ok; [done|]. apply Hg. by left.
Qed.

Lemma getRootServers_ok view r roots :
  map_Forall (λ _ ns, Forall (λ x, is_Some (ns_zone x)) ns) (rr_rootForView r) →
  getRootServers view r = Ret roots → servers_ok roots.
Proof.
  unfold getRootServers, cloneNameServers. intros Hr. destruct (rr_rootForView r !! view) as [ns|] eqn:E; [|done].
  destruct ns as [|x ns]; [done|]. intros [= <-]. split; [done|]. exact (Hr _ _ E).
Qed.

Lemma rec_start_inv s s' : rec_start s s' → rec_inv s → rec_inv s'.
Proof.
  intros [view q roots slot pool r searches Hg Hr] [Hn Hl Hs Hf Hm]. cbn in *. unfold getCtx in Hg.
  pose proof (take_render_length _ _ _ Hg). apply take_render_Some in Hg.
  split; cbn; [done|congruence| |constructor; [|done]|done].
  - rewrite <- Hs, Hg. cbn. by rewrite <- Permutation_middle.
  - split; [cbn; lia|]. by eapply getRootServers_ok.
Qed.

Lemma remove_oldest_inv count nc nc' : nsas_inv nc → remove_oldest count nc = Ret nc' → nsas_inv nc'.
Proof.
  revert nc. induction count as [|count IH]; intros nc Hinv; cbn [remove_oldest]; [by intros [= <-]|].
  destruct (list_Back (nc_visitedZone nc)) as [[id e]|] eqn:Eb; [|done].
  destruct (removeZone_ok nc id e Hinv) as (nc1 & Er & Hinv1 & _).
  { unfold list_Back in Eb. apply last_Some in Eb as [l' ->]. set_solver. }
  change (fst <$> Some (id, e)) with (Some id). rewrite Er, bind_Ret. by apply IH.
Qed.

Lemma EnforceMemoryLimit_inv now nc nc' :
  nsas_inv nc → EnforceMemoryLimit now nc = Ret nc' → nsas_inv nc'.
Proof.
  intros Hinv. unfold EnforceMemoryLimit. destruct (_ <=? _); [by intros [= <-]|].
  destruct (remove_expired_ok ExpiredZoneCheckBatch now (list_Back (nc_visitedZone nc)) nc Hinv)
    as (nc1 & -> & Hinv1 & _).
  { intros x Eb. unfold list_Back in Eb. apply last_Some in Eb as [l' ->]. set_solver. }
  rewrite bind_Ret. by apply remove_oldest_inv.
Qed.

Lemma rec_store_inv s s' : rec_store s s' → rec_inv s → rec_inv s'.
Proof.
  intros [server rtt r searches|now nc r searches He] [Hn Hl Hs Hf Hm]; cbn in *; (split; cbn; [|done..]).
  - by apply UpdateRtt_inv.
  - by eapply EnforceMemoryLimit_inv.
Qed.

(** The end of the search between [before] and [after]. *)
Lemma end_search_inv sh nc before after r :
  rec_inv (mkRecProc r (before ++ sh :: after)) → nsas_inv nc →
  rec_inv (end_search sh nc (before ++ after) r).
Proof.
  intros [Hn Hl Hs Hf Hm] Hnc. cbn in *. apply Forall_app in Hf as [Hb [_ Ha]%Forall_cons].
  assert (None ∈ rr_ctxPool r) as Hroom.
  { apply pool_has_room. apply Permutation_length in Hs.
    rewrite !length_app, length_fmap, length_app, length_seq in Hs. cbn [length] in Hs. lia. }
  split; cbn; [done|by rewrite putCtx_length| |by apply Forall_app|done].
  rewrite putCtx_perm by done. rewrite <- Hs, !fmap_app. cbn. by rewrite <- !Permutation_middle.
Qed.

(** The search between [before] and [after] moves on with its context. *)
Lemma move_search_inv sh sh' nc before after r :
  rec_inv (mkRecProc r (before ++ sh :: after)) → nsas_inv nc → sh_slot sh' = sh_slot sh → search_ok sh' →
  rec_inv (mkRecProc (set_nsas nc r) (before ++ sh' :: after)).
Proof.
  intros [Hn Hl Hs Hf Hm] Hnc Hslot Hok. cbn in *. apply Forall_app in Hf as [Hb [_ Ha]%Forall_cons].
  split; cbn; [done|done| |apply Forall_app; split; [done|by constructor]|done].
  by rewrite <- Hs, !fmap_app, !fmap_cons, Hslot.
Qed.

(** A referral: the look-ups join with contexts of the pool. *)
Lemma spawn_inv sh ctx names lookups pool before after r :
  rec_inv (mkRecProc r (before ++ sh :: after)) → phase_ok (mkSearch 0 ctx Choosing true) →
  servers_ok (rc_nameServers ctx) → getMissingNameServer ctx names (rr_ctxPool r) = Ret (lookups, pool) →
  rec_inv (mkRecProc (set_pool pool r) (before ++ sh :: lookups ++ after)).
Proof.
  intros [Hn Hl Hs Hf Hm] Hd Hss Hg. cbn in *. apply Forall_app in Hf as [Hb [Hsh Ha]%Forall_cons].
  unfold getMissingNameServer in Hg. destruct (_ <? _).
  { simplify_eq. split; cbn; try done. apply Forall_app. split; [done|by constructor]. }
  apply spawn_lookups_spec in Hg as (Hl' & Hp & Hall). split; cbn; [done|congruence| | |done].
  - rewrite <- Hs, <- Hp, !fmap_app, !fmap_cons, !fmap_app. solve_Permutation.
  - apply Forall_app. split; [done|]. constructor; [done|]. apply Forall_app. split; [|done].
    eapply Forall_impl; [exact Hall|]. intros x (Hx1 & Hx2 & Hx3). unfold search_ok, phase_ok.
    by rewrite Hx1, Hx2, Hx3.
Qed.

Lemma search_step_inv s s' : search_step s s' → rec_inv s → rec_inv s'.
Proof.
  intros Hstep Hinv. pose proof (ri_nsas _ Hinv) as Hn. pose proof (ri_searches _ Hinv) as Hf.
  destruct Hstep as [now elapsed nc ctx servers sh before after r Hp Hc
    |now elapsed nc ctx sh before after r Hp Hc|servers sh before after r Hp
    |now rnd servers response nc missing lookups pool sh before after r Hp Hm Hr Hg
    |now rnd servers response nc err sh before after r Hp Hm Hr
    |now rnd servers response answer nc nc' sh before after r Hp Hm Hrd Hr Hgl];
    cbn in *; apply Forall_app in Hf as [_ [[Hph Hss] _]%Forall_cons]; unfold phase_ok in Hph; rewrite Hp in Hph.
  - destruct (choose_servers_ok now elapsed (sh_ctx sh) (rr_nsas r) Hn Hss Hph) as (nc1 & ss & E & Hn1 & Hs1).
    rewrite Hc in E. simplify_eq. destruct Hs1 as [Hs1 Hd]. eapply move_search_inv; [done|done|done|].
    split; [|done]. cbn. split; [lia|done].
  - destruct (choose_servers_ok now elapsed (sh_ctx sh) (rr_nsas r) Hn Hss Hph) as (nc1 & ss & E & Hn1 & _).
    rewrite Hc in E. simplify_eq. by apply end_search_inv.
  - destruct Hph as [Hd Hs]. eapply (move_search_inv sh _ (rr_nsas r)) in Hinv; [by destruct r|done|done|].
    by split.
  - destruct Hph as [Hd Hs].
    destruct (handleResponse_ok now rnd (sh_ctx sh) servers response (rr_nsas r) Hn Hs Hm) as (nc1 & x & E & Hn1 & _).
    rewrite Hr in E. simplify_eq. eapply (spawn_inv _ (sh_ctx sh)); [|exact Hd|exact Hss|exact Hg].
    eapply move_search_inv; [done|done|done|by split].
  - destruct Hph as [_ Hs].
    destruct (handleResponse_ok now rnd (sh_ctx sh) servers response (rr_nsas r) Hn Hs Hm) as (nc1 & x & E & Hn1 & _).
    rewrite Hr in E. simplify_eq. by apply end_search_inv.
  - destruct Hph as [_ Hs].
    destruct (handleResponse_ok now rnd (sh_ctx sh) servers response (rr_nsas r) Hn Hs Hm) as (nc1 & x & E & Hn1 & Hx).
    rewrite Hr in E. simplify_eq. rewrite (Hx _ eq_refl) in Hgl. apply end_search_inv; [done|].
    destruct (sh_lookup sh); [|by simplify_eq].
    destruct (store_glue_ok now rnd (set_question (Some (rc_question (sh_ctx sh))) response) nc1)
      as (nc2 & E2 & ?); [done|by eexists|done|]. rewrite E2 in Hgl. by simplify_eq.
Qed.

Lemma rec_step_inv s s' : rec_step s s' → rec_inv s → rec_inv s'.
Proof.
  intros [H|[H|H]]; [by apply rec_start_inv|by apply rec_store_inv|by apply search_step_inv].
Qed.

(** *** Searches end *)

(** How far a search is from its end: two steps for every depth left. *)
Definition rank sh : Z :=
  match sh_phase sh with
  | Choosing => 2 * (20 - rc_depth (sh_ctx sh))
  | Asking _ => 2 * (20 - rc_depth (sh_ctx sh)) + 1
  end.

(** More than all the look-ups a search can start, one step nearer to the end. *)
Definition weigh sh : Z := 102 ^ rank sh.
Fixpoint weight (searches : list Search) : Z :=
  match searches with [] => 0 | sh :: searches => weigh sh + weight searches end.

Lemma weight_app xs ys : weight (xs ++ ys) = weight xs + weight ys.
Proof. induction xs as [|x xs IH]; cbn [weight app]; lia. Qed.

Lemma weigh_pos sh : search_ok sh → 0 < weigh sh.
Proof.
  intros [Hp _]. unfold weigh, rank. unfold phase_ok in Hp. apply Z.pow_pos_nonneg; [lia|].
  destruct (sh_phase sh); lia.
Qed.

Lemma weight_nonneg searches : Forall search_ok searches → 0 ≤ weight searches.
Proof. induction 1 as [|sh l Hsh _ IH]; [done|]. pose proof (weigh_pos _ Hsh). cbn [weight]. lia. Qed.

Lemma weight_const lookups r : Forall (λ sh, rank sh = r) lookups →
  weight lookups = Z.of_nat (length lookups) * 102 ^ r.
Proof. induction 1 as [|sh l Hsh _ IH]; [done|]. cbn [weight length]. rewrite IH, Nat2Z.inj_succ, Z.mul_succ_l. unfold weigh. rewrite Hsh. lia. Qed.

Lemma pow_drop a b : 0 ≤ a < b → 102 * 102 ^ a ≤ 102 ^ b.
Proof.
  intros [Ha Hb]. replace (102 * 102 ^ a) with (102 ^ (a + 1)) by (rewrite Z.pow_add_r by lia; lia).
  apply Z.pow_le_mono_r; lia.
Qed.

Lemma getMissing_ranks ctx names pool lookups pool' :
  getMissingNameServer ctx names pool = Ret (lookups, pool') → length pool = maxInflightQuery →
  Forall (λ sh, rank sh = 2 * (20 - rc_depth ctx)) lookups ∧ (length lookups ≤ 100)%nat.
Proof.
  unfold getMissingNameServer. destruct (_ <? _); [intros [= <- <-] _; split; [done|cbn; lia]|].
  intros (_ & Hp & Hall)%spawn_lookups_spec Hl. split.
  - eapply Forall_impl; [exact Hall|]. intros sh (H1 & H2 & _). unfold rank. by rewrite H1, H2.
  - apply Permutation_length in Hp. rewrite length_app, length_fmap in Hp.
    enough (length (omap id pool) ≤ length pool)%nat by (unfold maxInflightQuery in Hl; lia).
    clear. induction pool as [|[x|] pool IH]; cbn in *; lia.
Qed.

(** Every step of a search makes the whole lighter. *)
Lemma search_step_weight s s' :
  search_step s s' → rec_inv s → weight (rp_searches s') < weight (rp_searches s).
Proof.
  intros Hstep Hinv. pose proof (ri_searches _ Hinv) as Hf. pose proof (ri_nsas _ Hinv) as Hn.
  pose proof (ri_length _ Hinv) as Hl.
  destruct Hstep as [now elapsed nc ctx servers sh before after r Hp Hc
    |now elapsed nc ctx sh before after r Hp Hc|servers sh before after r Hp
    |now rnd servers response nc missing lookups pool sh before after r Hp Hm Hr Hg
    |now rnd servers response nc err sh before after r Hp Hm Hr
    |now rnd servers response answer nc nc' sh before after r Hp Hm Hrd Hr Hgl];
    cbn [rp_searches rp_rec end_search] in *; apply Forall_app in Hf as [_ [Hsh _]%Forall_cons];
    rewrite ?weight_app; cbn [weight]; pose proof (weigh_pos _ Hsh);
    destruct Hsh as [Hph Hss]; unfold phase_ok in Hph; rewrite Hp in Hph;
    try (rewrite ?weight_app; lia).
  - destruct (choose_servers_ok now elapsed (sh_ctx sh) (rr_nsas r) Hn Hss Hph) as (nc1 & ss & E & _ & Hs1).
    rewrite Hc in E. simplify_eq. unfold weigh, rank. rewrite Hp. cbn [sh_phase sh_ctx rc_depth].
    pose proof (pow_drop (2 * (20 - (rc_depth (sh_ctx sh) + 1)) + 1) (2 * (20 - rc_depth (sh_ctx sh))) ltac:(lia)).
    pose proof (Z.pow_pos_nonneg 102 (2 * (20 - (rc_depth (sh_ctx sh) + 1)) + 1)). lia.
  - unfold weigh, rank. rewrite Hp. cbn [sh_phase sh_ctx rc_depth].
    pose proof (pow_drop (2 * (20 - rc_depth (sh_ctx sh))) (2 * (20 - rc_depth (sh_ctx sh)) + 1) ltac:(lia)).
    pose proof (Z.pow_pos_nonneg 102 (2 * (20 - rc_depth (sh_ctx sh)))). lia.
  - destruct (getMissing_ranks _ _ _ _ _ Hg Hl) as [Hr1 Hlen].
    rewrite weight_app, (weight_const _ _ Hr1).
    unfold weigh, rank. rewrite Hp. cbn [sh_phase sh_ctx rc_depth].
    pose proof (pow_drop (2 * (20 - rc_depth (sh_ctx sh))) (2 * (20 - rc_depth (sh_ctx sh)) + 1) ltac:(lia)).
    pose proof (Z.pow_pos_nonneg 102 (2 * (20 - rc_depth (sh_ctx sh)))). nia.
Qed.

(** *** From the configuration on *)

Definition zoned (ns : list NameServer) : Prop := Forall (λ x, is_Some (ns_zone x)) ns.

Lemma load_hints_zoned RRsetFromString lines ns ns' :
  zoned ns → load_hints RRsetFromString lines ns = Ret (inr ns') → zoned ns'.
Proof.
  revert ns. induction lines as [|line lines IH]; intros ns Hz; cbn [load_hints]; [by intros [= <-]|].
  destruct (bool_decide _); [by apply IH|]. destruct (RRsetFromString _) as [|rrset]; [done|].
  destruct (rr_type rrset =? RR_NS); [destruct (negb _); [done|by apply IH]|].
  destruct (rr_type rrset =? RR_A); [|done]. rewrite outcome_bind_ret. intros (rd & _ & H).
  eapply IH, H. apply Forall_app. split; [done|]. repeat constructor. by eexists.
Qed.

Lemma load_recursors_zoned RRsetFromString readFile conf roots roots' :
  map_Forall (λ _, zoned) roots → load_recursors RRsetFromString readFile conf roots = Ret roots' →
  map_Forall (λ _, zoned) roots'.
Proof.
  revert roots. induction conf as [|c conf IH]; intros roots Hz; cbn [load_recursors]; [by intros [= <-]|].
  destruct (bool_decide _); [by apply IH|]. destruct (readFile _) as [|content]; [done|].
  rewrite outcome_bind_ret. intros ([err|ns] & Hl & H); [done|]. eapply IH, H.
  apply map_Forall_insert_2; [|done]. by eapply load_hints_zoned, Hl; constructor.
Qed.

Lemma getDefaultRootServers_zoned order ns : getDefaultRootServers order = Ret ns → zoned ns.
Proof.
  revert ns. induction order as [|[n a] order IH]; intros ns; cbn; [intros [= <-]; constructor|].
  destruct (Name_FromString n) as [|name]; [done|]. rewrite bind_Ret, outcome_bind_ret.
  intros (ns' & Hm & [= <-]). constructor; [by eexists|]. by apply IH.
Qed.

Lemma add_defaults_zoned views ns m :
  zoned ns → map_Forall (λ _, zoned) m →
  map_Forall (λ _, zoned)
    (foldl (λ m v, match m !! v with Some _ => m | None => <[v := ns]> m end) m views : gmap string _).
Proof.
  intros Hns. revert m. induction views as [|v views IH]; intros m Hm; cbn; [done|]. apply IH.
  destruct (m !! v); [done|]. by apply map_Forall_insert_2.
Qed.

Lemma NewRecursor_inv RRsetFromString readFile order views conf r :
  NewRecursor RRsetFromString readFile order views conf = Ret r → rec_inv (mkRecProc r []).
Proof.
  unfold NewRecursor, Recursor_ReloadConfig. rewrite outcome_bind_ret. intros (roots & Hr & H).
  rewrite outcome_bind_ret in H. destruct H as (ns & Hns & [= <-]).
  split; cbn [rp_rec rp_searches rr_nsas rr_ctxPool rr_rootForView].
  - apply nsas_inv_New.
  - unfold newRecursorCtxPool. by rewrite length_fmap, length_seq.
  - unfold newRecursorCtxPool. cbn [fmap list_fmap]. rewrite app_nil_r.
    generalize (seq 0 maxInflightQuery). intros l. induction l; cbn; by f_equiv.
  - constructor.
  - eapply add_defaults_zoned; [by eapply getDefaultRootServers_zoned|].
    eapply load_recursors_zoned; [|done]. apply map_Forall_empty.
Qed.

(** A run without new queries, with the number of steps of its searches. *)
Inductive rec_run : nat → RecProc → RecProc → Prop :=
  | run_none s : rec_run 0 s s
  | run_store n s s1 s2 : rec_store s s1 → rec_run n s1 s2 → rec_run n s s2
  | run_search n s s1 s2 : search_step s s1 → rec_run n s1 s2 → rec_run (S n) s s2.

Lemma rec_run_weight n s s' : rec_run n s s' → rec_inv s → Z.of_nat n ≤ weight (rp_searches s).
Proof.
  induction 1 as [s|n s s1 s2 Hst _ IH|n s s1 s2 Hst _ IH]; intros Hinv.
  - apply weight_nonneg, Hinv.
  - pose proof (rec_store_inv _ _ Hst Hinv) as Hinv1. specialize (IH Hinv1). by destruct Hst.
  - pose proof (search_step_inv _ _ Hst Hinv) as Hinv1. specialize (IH Hinv1).
    pose proof (search_step_weight _ _ Hst Hinv). lia.
Qed.

(** Every search can move. *)
Lemma search_progress s sh : rec_inv s → sh ∈ rp_searches s → ∃ s', search_step s s'.
Proof.
  intros Hinv (before & after & E)%list_elem_of_split. pose proof (ri_searches _ Hinv) as Hf.
  pose proof (ri_nsas _ Hinv) as Hn. destruct s as [r searches]. cbn in *. subst searches.
  apply Forall_app in Hf as [_ [[Hph Hss] _]%Forall_cons]. unfold phase_ok in Hph.
  destruct (sh_phase sh) as [|servers] eqn:Hp; [|by eexists; eapply st_timeout].
  destruct (choose_servers_ok 0 0 (sh_ctx sh) (rr_nsas r) Hn Hss Hph) as (nc & [ss|] & E & _).
  - eexists. by eapply st_choose.
  - eexists. by eapply st_give_up.
Qed.

End run_props.

(** ** Witnesses *)

Section run_examples.
Definition demo_recursors : list RecursorInView :=
  [mkRecursorInView true "default" "" false; mkRecursorInView true "lan" "hints" true].

(** The file of hints. *)
Definition demo_hint_file (content : string) (path : string) : string + string :=
  if bool_decide (path = "hints") then inr content else inl "no such file".

Definition demo_hint_rr (line : string) : string + RRset :=
  if bool_decide (line = ". NS a.root") then inr (mkRRset Name_Root RR_NS CLASS_IN 60 [RdNS ["a"]])
  else if bool_decide (line = "a.root A") then inr (mkRRset ["a"] RR_A CLASS_IN 60 [RdA [192; 0; 2; 1]])
  else inl "not a record".

Definition demo_recursor (content : string) : Recursor :=
  match NewRecursor demo_hint_rr (demo_hint_file content) rootServers ["default"; "lan"] demo_recursors with
  | Ret r => r
  | _ => mkRecursor (NewNsasCache 0) ∅ ∅ ∅ []
  end.

Definition two_hints : string := ". NS a.root" +:+ String "010" ("a.root A " +:+ String "010" "").

(** A view without a hint file has the thirteen servers of the program, the other the one
    of its file. *)
Example demo_recursor_roots :
  (match getRootServers "default" (demo_recursor two_hints) with Ret ns => length ns | _ => 0%nat end,
   match getRootServers "lan" (demo_recursor two_hints) with
   | Ret ns => (λ s, (ns_addr s, ns_rtt s)) <$> ns
   | _ => []
   end)
  = (13%nat, [("192.0.2.1:53", 60000000000)]).
Proof. by_eval. Qed.

(** A hint file without an address of a root server is accepted, and then every query of
    its view panics for want of servers. *)
Example empty_hints_panic :
  is_ret (NewRecursor demo_hint_rr (demo_hint_file ". NS a.root") rootServers ["default"; "lan"] demo_recursors) = true ∧
  getRootServers "lan" (demo_recursor ". NS a.root") = Panic "clone empty name servers".
Proof. split; by_eval. Qed.

Definition demo_started : RecProc :=
  match getCtx (rr_ctxPool (demo_recursor two_hints)), getRootServers "lan" (demo_recursor two_hints) with
  | Some (slot, pool), Ret roots =>
      mkRecProc (set_pool pool (demo_recursor two_hints))
        [mkSearch slot (mkRecursorCtx (mkQuestion www RR_A CLASS_IN) 0 roots) Choosing false]
  | _, _ => mkRecProc (demo_recursor two_hints) []
  end.

End run_examples.
