(* ===== verification/Xfr.v ===== *)
(** * Zone transfers (src/xfr)

    A notify from a master starts a transfer.  The answer is run through a state
    machine of the package cement/fsm, whose callbacks change the zone inside a
    transaction; the transaction is committed when the machine accepts every
    record set. *)

From S2P Require Import Prelude GoStd G53 Instances Core Cement Acl ViewSelector Zone Auth.

Local Open Scope Z_scope.

(** ** cement/fsm, as an interface *)

Record FsmEvent : Type := mkFsmEvent {
  fe_Name : string;
  fe_Src : list string;
  fe_Dst : string;
}.

Inductive EventError : Type :=
  | InvalidEventError
  | CanceledError (err : string)
  | NoTransitionError.

(** A callback gets the state the event started from and the event's argument; it
    may cancel the event with an error. *)
Definition Callback (S A : Type) : Type := string → A → S → outcome (S * option string).

Record FsmSpec (S A : Type) : Type := mkFsm {
  fs_events : list FsmEvent;
  fs_before : string → option (Callback S A);
  fs_after : string → option (Callback S A);
}.
Arguments mkFsm {S A}. Arguments fs_events {S A}. Arguments fs_before {S A}. Arguments fs_after {S A}.

(** Where an event leads from a state. *)
Definition transition {S A} (spec : FsmSpec S A) (current event : string) : option string :=
  fe_Dst <$> find_first (λ e, bool_decide (fe_Name e = event) &&
                              existsb (λ s, bool_decide (s = current)) (fe_Src e)) (fs_events spec).

Definition run_callback {S A} (cb : option (Callback S A)) (src : string) (a : A) (s : S)
  : outcome (S * option string) :=
  match cb with Some cb => cb src a s | None => Ret (s, None) end.

Class Fsm : Type := {
  (** [sm.Event(event, arg)] on a machine in state [current]; the callbacks' state,
      the machine's state and the error. *)
  fsm_Event {S A} : FsmSpec S A → string → string → A → S → outcome (S * string * option EventError);
}.

Class FsmLaws (F : Fsm) : Prop := {
  (** An event without a transition changes nothing; a canceled one stays in the
      state; an event that leads back runs its callbacks and reports
      [NoTransitionError]. *)
  fsm_Event_eq {S A} (spec : FsmSpec S A) current event a s :
    fsm_Event spec current event a s =
      match transition spec current event with
      | None => Ret (s, current, Some InvalidEventError)
      | Some dst =>
          r ← run_callback (fs_before spec event) current a s;
          let '(s, cancel) := r in
          match cancel with
          | Some err => Ret (s, current, Some (CanceledError err))
          | None =>
              r ← run_callback (fs_after spec event) current a s;
              Ret (r.1, dst, if bool_decide (dst = current) then Some NoTransitionError else None)
          end
      end;
}.

(** ** xfr/fsm.go *)

Definition errSerialNumberIsWrong : string := "serial number should in sequence".
Definition errWrapperSOAIsNotInPair : string := "serial number of wrapper soa should in pair".
Definition errSOAShouldHasOneRR : string := "soa rrset in axfr should has one rr".
Definition errIXFRDataSectionFormatError : string := "ixfr data section format isn't valid".

Inductive xfrType : Type := AXFR | IXFR.

Section xfr.
Context {N : G53Name} {M : G53Msg N} {ZT : ZoneTree N} {DT : DomainTree N} {F : Fsm}.

(** [XFRSMGenertor] without its type: the serials, and the transaction's zone with
    the store of record sets. *)
Record XFRState : Type := mkXFR {
  xs_latestSerial : Z;
  xs_currentSerial : Z;
  xs_rrs : gmap nat RRset;
  xs_tx : MemoryZone;
}.

Definition set_tx (h : gmap nat RRset) (tx : MemoryZone) (s : XFRState) : XFRState :=
  mkXFR (xs_latestSerial s) (xs_currentSerial s) h tx.

(** The argument of an event: a serial or a record set. *)
Inductive XArg : Type := ArgSerial (serial : Z) | ArgRRset (rrset : RRset).

Definition arg_serial (a : XArg) : outcome Z :=
  match a with ArgSerial n => Ret n | _ => Panic "interface conversion: not uint32" end.
Definition arg_rrset (a : XArg) : outcome RRset :=
  match a with ArgRRset r => Ret r | _ => Panic "interface conversion: not *g53.RRset" end.

(** [g.updator.Add(g.tx, rrset)] and [g.updator.DeleteRRset(g.tx, rrset)]; their
    errors are dropped. *)
Definition tx_Add (rrset : RRset) (s : XFRState) : outcome XFRState :=
  let '(l, h) := alloc_rr rrset (xs_rrs s) in
  r ← addRRset l h (xs_tx s);
  let '(h, tx, _) := r in
  Ret (set_tx h tx s).
Definition tx_DeleteRRset (rrset : RRset) (s : XFRState) : outcome XFRState :=
  r ← deleteRRset rrset (xs_rrs s) (xs_tx s);
  Ret (set_tx (xs_rrs s) r.1 s).

Definition ixfr_before_wrapper : Callback XFRState XArg := λ src a s,
  serial ← arg_serial a;
  if bool_decide (src = "init") then
    Ret (mkXFR serial (xs_currentSerial s) (xs_rrs s) (xs_tx s), None)
  else if negb (xs_latestSerial s =? serial) then Ret (s, Some errWrapperSOAIsNotInPair)
  else Ret (s, None).

Definition ixfr_before_mid : Callback XFRState XArg := λ src a s,
  serial ← arg_serial a;
  if bool_decide (src = "start") || bool_decide (src = "add_section") then
    Ret (s, if serial =? xs_currentSerial s then None else Some errSerialNumberIsWrong)
  else if negb (serial =? u32 (xs_currentSerial s + 1)) then Ret (s, Some errSerialNumberIsWrong)
  else
    h ← increaseSerialNumber (xs_rrs s) (xs_tx s);
    Ret (mkXFR (xs_latestSerial s) (u32 (xs_currentSerial s + 1)) h (xs_tx s), None).

Definition ixfr_after_none : Callback XFRState XArg := λ src a s,
  rrset ← arg_rrset a;
  s ← (if bool_decide (src = "delete_section") then tx_DeleteRRset rrset s else tx_Add rrset s);
  Ret (s, None).

Definition genIXFRStateMachine : FsmSpec XFRState XArg :=
  mkFsm
    [mkFsmEvent "get_wrapper_soa" ["init"] "start";
     mkFsmEvent "get_mid_soa" ["start"] "delete_section";
     mkFsmEvent "get_mid_soa" ["delete_section"] "add_section";
     mkFsmEvent "get_mid_soa" ["add_section"] "delete_section";
     mkFsmEvent "get_wrapper_soa" ["add_section"] "done";
     mkFsmEvent "get_none_soa" ["delete_section"] "delete_section";
     mkFsmEvent "get_none_soa" ["add_section"] "add_section"]
    (λ e, if bool_decide (e = "get_wrapper_soa") then Some ixfr_before_wrapper
          else if bool_decide (e = "get_mid_soa") then Some ixfr_before_mid else None)
    (λ e, if bool_decide (e = "get_none_soa") then Some ixfr_after_none else None).

Definition axfr_before_wrapper : Callback XFRState XArg := λ src a s,
  soa ← arg_rrset a;
  serial ← first_serial soa;
  if negb (serial =? xs_latestSerial s) then Ret (s, Some errSerialNumberIsWrong)
  else if bool_decide (src = "init") then s ← tx_Add soa s; Ret (s, None)
  else Ret (s, None).

Definition axfr_after_none : Callback XFRState XArg := λ _ a s,
  rrset ← arg_rrset a;
  s ← tx_Add rrset s;
  Ret (s, None).

Definition genAXFRStateMachine : FsmSpec XFRState XArg :=
  mkFsm
    [mkFsmEvent "get_wrapper_soa" ["init"] "start";
     mkFsmEvent "get_none_soa" ["start"] "add_section";
     mkFsmEvent "get_none_soa" ["add_section"] "add_section";
     mkFsmEvent "get_wrapper_soa" ["add_section"] "done"]
    (λ e, if bool_decide (e = "get_wrapper_soa") then Some axfr_before_wrapper else None)
    (λ e, if bool_decide (e = "get_none_soa") then Some axfr_after_none else None).

(** The error text of an event. *)
Definition event_error (e : EventError) : string :=
  match e with
  | InvalidEventError => "event inappropriate in current state"
  | CanceledError err => err
  | NoTransitionError => "no transition"
  end.

(** The loop over the rdatas of a SOA record set at position [i] of [n]. *)
Fixpoint ixfr_soas (i n j m : nat) (rdatas : list Rdata) (current : string) (s : XFRState)
  : outcome (XFRState * string * option string) :=
  match rdatas with
  | [] => Ret (s, current, None)
  | RdSOA soa :: rdatas =>
      let wrapper := (bool_decide (i = 0%nat) && bool_decide (j = 0%nat)) ||
                     (bool_decide (i = (n - 1)%nat) && bool_decide (j = (m - 1)%nat)) in
      let event := if wrapper then "get_wrapper_soa" else "get_mid_soa" in
      r ← fsm_Event genIXFRStateMachine current event (ArgSerial (soa_serial soa)) s;
      let '(s, current, err) := r in
      match err with
      | Some err => Ret (s, current, Some (event_error err))
      | None => ixfr_soas i n (S j) m rdatas current s
      end
  | _ :: _ => Panic "interface conversion: not *g53.SOA"
  end.

(** The loop over the answers; a nil error of [get_none_soa] is dereferenced. *)
Fixpoint ixfr_answers (i n : nat) (answers : list RRset) (current : string) (s : XFRState)
  : outcome (XFRState * string * option string) :=
  match answers with
  | [] => Ret (s, current, None)
  | rrset :: answers =>
      if rr_type rrset =? RR_SOA then
        r ← ixfr_soas i n 0 (length (rr_rdatas rrset)) (rr_rdatas rrset) current s;
        let '(s, current, err) := r in
        match err with
        | Some err => Ret (s, current, Some err)
        | None => ixfr_answers (S i) n answers current s
        end
      else
        r ← fsm_Event genIXFRStateMachine current "get_none_soa" (ArgRRset rrset) s;
        let '(s, current, err) := r in
        match err with
        | Some NoTransitionError => ixfr_answers (S i) n answers current s
        | Some _ => Ret (s, current, Some errIXFRDataSectionFormatError)
        | None => Panic "nil pointer dereference: err"
        end
  end.

Definition runIXFRFSM (answers : list RRset) (s : XFRState)
  : outcome (XFRState * string * option string) :=
  ixfr_answers 0 (length answers) answers "init" s.

Fixpoint axfr_answers (i n : nat) (answers : list RRset) (current : string) (s : XFRState)
  : outcome (XFRState * string * option string) :=
  match answers with
  | [] => Ret (s, current, None)
  | rrset :: answers =>
      if (rr_type rrset =? RR_SOA) && negb (length (rr_rdatas rrset) =? 1)%nat
      then Ret (s, current, Some errSOAShouldHasOneRR)
      else
        r ← (if rr_type rrset =? RR_SOA then
               if bool_decide (i = 0%nat) || bool_decide (i = (n - 1)%nat)
               then fsm_Event genAXFRStateMachine current "get_wrapper_soa" (ArgRRset rrset) s
               else Ret (s, current, None)
             else fsm_Event genAXFRStateMachine current "get_none_soa" (ArgRRset rrset) s);
        let '(s, current, err) := r in
        match err with
        | None | Some NoTransitionError => axfr_answers (S i) n answers current s
        | Some err => Ret (s, current, Some (event_error err))
        end
  end.

Definition runAXFRFSM (answers : list RRset) (s : XFRState)
  : outcome (XFRState * string * option string) :=
  axfr_answers 0 (length answers) answers "init" s.

(** [Run] of the machine of [GenStateMachine]. *)
Definition Run (typ : xfrType) (answers : list RRset) (s : XFRState)
  : outcome (XFRState * string * option string) :=
  match typ with IXFR => runIXFRFSM answers s | AXFR => runAXFRFSM answers s end.

(** ** xfr/runner.go *)

(** One attempt: whether it ran through. *)
Definition xfr_attempt (typ : xfrType) (currentSerial latestSerial : Z) (answers : list RRset)
  (h : gmap nat RRset) (dz : DynamicZone) : outcome (gmap nat RRset * DynamicZone * bool) :=
  r ← Run typ answers (mkXFR latestSerial currentSerial h (Begin dz));
  let '(s, _, err) := r in
  match err with
  | None => Ret (xs_rrs s, (Commit (xs_tx s) dz).1, true)
  | Some _ => Ret (xs_rrs s, RollBack dz, false)
  end.

(** A failed incremental transfer is tried as a full one, with the same answers. *)
Definition updateZoneUseXFR (typ : xfrType) (currentSerial latestSerial : Z)
  (answers : list RRset) (h : gmap nat RRset) (dz : DynamicZone)
  : outcome (gmap nat RRset * DynamicZone) :=
  r ← xfr_attempt typ currentSerial latestSerial answers h dz;
  let '(h, dz, ok) := r in
  match ok, typ with
  | false, IXFR => r ← xfr_attempt AXFR currentSerial latestSerial answers h dz; Ret r.1
  | _, _ => Ret (h, dz)
  end.

(** The zones under transfer by view. *)
Abbreviation XFRRunner := (gmap string (list Name)).

Definition addZoneToTransfer (view : string) (zone : Name) (t : XFRRunner) : XFRRunner * bool :=
  let zones := default [] (t !! view) in
  if existsb (λ z, Name_Equals z zone) zones then (t, false)
  else (<[view := zones ++ [zone]]> t, true).

Fixpoint remove_first (zone : Name) (zones : list Name) : list Name :=
  match zones with
  | [] => []
  | z :: zones => if Name_Equals z zone then zones else z :: remove_first zone zones
  end.

Definition removeZoneFromTransfer (view : string) (zone : Name) (t : XFRRunner) : XFRRunner :=
  <[view := remove_first zone (default [] (t !! view))]> t.

(** A transfer to start: [go h.doXFR(view, targetZone, latestSerial, master)]. *)
Record Transfer : Type := mkTransfer {
  tr_view : string;
  tr_zone : nat;
  tr_latestSerial : Z;
  tr_master : string;
}.

(** [ipString] is [net.IP.String()].  The response and the transfer, if any. *)
Definition HandleNotify (ipString : IP → string) (au : AuthState) (t : XFRRunner) (client : Client)
  : outcome (XFRRunner * option (Message * Transfer)) :=
  let notify := c_request client in
  match m_answer notify with
  | [soa] =>
      if negb (rr_type soa =? RR_SOA) then Ret (t, None)
      else
        let targetZoneName := rr_name soa in
        match GetZone (c_view client) targetZoneName au with
        | (targetZone, ExactMatch) =>
            let '(t, added) := addZoneToTransfer (c_view client) targetZoneName t in
            if negb added then Ret (t, None)
            else
              latestSerial ← first_serial soa;
              l ← from_option_panic "nil pointer dereference: zone" targetZone;
              dz ← deref_zone l au;
              if IsMaster dz then Ret (t, None)
              else
                ip ← Client_IP client;
                let master := ipString ip +:+ ":53" in
                if existsb (λ m, bool_decide (m = master)) (Masters dz)
                then Ret (t, Some (MakeResponse notify,
                                   mkTransfer (c_view client) l latestSerial master))
                else Ret (t, None)
        | _ => Ret (t, None)
        end
  | _ => Ret (t, None)
  end.

(** xfr.go: notifies of clients without a view are dropped. *)
Definition XFRHandler_HandleQuery (viewAndIds : gmap string Z) (selectors : list ViewSelector)
  (ipString : IP → string) (au : AuthState) (t : XFRRunner) (h : Heap) (client : Client)
  : outcome (XFRRunner * Heap * Client * option (Message * Transfer)) :=
  r ← SelectorMgr_SelectView viewAndIds selectors h client;
  let '(h, client, found) := r in
  if found : bool then
    r ← HandleNotify ipString au t client; Ret (r.1, h, client, r.2)
  else Ret (t, h, client, None).

(** [exchange] is the connection to the master, the query for the given kind of
    transfer and the first message of the answer: [inl false] is an error of the
    connection, [inl true] a message that cannot be parsed; the answer section is
    read before that error is looked at.  [CompareSerial] is the library's. *)
Definition doXFR (CompareSerial : Z → Z → Z)
  (exchange : string → xfrType → bool + Message) (tr : Transfer) (t : XFRRunner) (au : AuthState)
  : outcome (XFRRunner * AuthState) :=
  dz ← deref_zone (tr_zone tr) au;
  let name := mz_origin (dz_zone dz) in
  let finish au := (removeZoneFromTransfer (tr_view tr) name t, au) in
  r ← DynamicZone_Find name RR_SOA DefaultFind (au_rrs au) dz;
  let '(h, ctx) := r in
  let au := set_rrs h au in
  r ← (match fr_RRset (fc_result ctx) with
       | None => Ret (Some (AXFR, 0))
       | Some l =>
           soa ← deref_rr (Some l) h;
           currentSerial ← first_serial soa;
           Ret (if CompareSerial currentSerial (tr_latestSerial tr) =? -1
                then Some (IXFR, currentSerial) else None)
       end);
  match r with
  | None => Ret (finish au)
  | Some (typ, currentSerial) =>
      match exchange (tr_master tr) typ with
      | inl false => Ret (finish au)
      | inl true => Panic "nil pointer dereference: resp"
      | inr resp =>
          r ← updateZoneUseXFR typ currentSerial (tr_latestSerial tr) (m_answer resp) h dz;
          let '(h, dz) := r in
          Ret (finish (put_zone (tr_zone tr) dz (set_rrs h au)))
      end
  end.
End xfr.

(** ** A state machine *)

#[export] Instance plain_fsm : Fsm := {|
  fsm_Event S A spec current event a s :=
    match transition spec current event with
    | None => Ret (s, current, Some InvalidEventError)
    | Some dst =>
        r ← run_callback (fs_before spec event) current a s;
        let '(s, cancel) := r in
        match cancel with
        | Some err => Ret (s, current, Some (CanceledError err))
        | None =>
            r ← run_callback (fs_after spec event) current a s;
            Ret (r.1, dst, if bool_decide (dst = current) then Some NoTransitionError else None)
        end
    end;
|}.

#[export] Instance plain_fsm_laws : FsmLaws plain_fsm.
Proof. by split. Qed.
