(* ===== verification/XfrSpec.v ===== *)
(** * What zone transfers do

    A complete incremental transfer applies its differences in order and ends in
    the final state of the machine; the table of zones under transfer lets a zone
    in again after its transfer, but keeps it for ever after a notify that is not
    acted upon; and three ways in which a transfer leaves wrong data. *)

From S2P Require Import Prelude GoStd G53 Instances Core Cement Acl Zone ZoneInv ZoneSpec Auth Xfr.

Local Open Scope Z_scope.

Section ixfr.
Context {N : G53Name} {M : G53Msg N} {ZT : ZoneTree N} {F : Fsm} {FL : FsmLaws F}.

(** ** The events of an answer *)

Inductive XEvent : Type :=
  | EvWrapper (serial : Z)
  | EvMid (serial : Z)
  | EvRR (rrset : RRset).

(** The SOA records at position [i] of [n], numbered from [j] of [m]. *)
Fixpoint soa_events (i n j m : nat) (rdatas : list Rdata) : option (list XEvent) :=
  match rdatas with
  | [] => Some []
  | RdSOA soa :: rdatas =>
      let wrapper := (bool_decide (i = 0%nat) && bool_decide (j = 0%nat)) ||
                     (bool_decide (i = (n - 1)%nat) && bool_decide (j = (m - 1)%nat)) in
      cons ((if wrapper then EvWrapper else EvMid) (soa_serial soa)) <$> soa_events i n (S j) m rdatas
  | _ :: _ => None
  end.

Fixpoint answer_events (i n : nat) (answers : list RRset) : option (list XEvent) :=
  match answers with
  | [] => Some []
  | r :: answers =>
      if rr_type r =? RR_SOA then
        e1 ← soa_events i n 0 (length (rr_rdatas r)) (rr_rdatas r);
        e2 ← answer_events (S i) n answers;
        Some (e1 ++ e2)
      else cons (EvRR r) <$> answer_events (S i) n answers
  end.

(** The machine on a list of events. *)
Fixpoint run_events (evs : list XEvent) (current : string) (s : XFRState)
  : outcome (XFRState * string * option string) :=
  match evs with
  | [] => Ret (s, current, None)
  | EvRR rrset :: evs =>
      r ← fsm_Event genIXFRStateMachine current "get_none_soa" (ArgRRset rrset) s;
      let '(s, current, err) := r in
      match err with
      | Some NoTransitionError => run_events evs current s
      | Some _ => Ret (s, current, Some errIXFRDataSectionFormatError)
      | None => Panic "nil pointer dereference: err"
      end
  | EvWrapper serial :: evs =>
      r ← fsm_Event genIXFRStateMachine current "get_wrapper_soa" (ArgSerial serial) s;
      let '(s, current, err) := r in
      match err with
      | Some err => Ret (s, current, Some (event_error err))
      | None => run_events evs current s
      end
  | EvMid serial :: evs =>
      r ← fsm_Event genIXFRStateMachine current "get_mid_soa" (ArgSerial serial) s;
      let '(s, current, err) := r in
      match err with
      | Some err => Ret (s, current, Some (event_error err))
      | None => run_events evs current s
      end
  end.

(** Sequencing of runs that may stop with an error. *)
Definition run_then (r : outcome (XFRState * string * option string))
  (k : string → XFRState → outcome (XFRState * string * option string)) :=
  r ← r;
  let '(s, current, err) := r in
  match err with Some err => Ret (s, current, Some err) | None => k current s end.

Lemma run_events_app e1 e2 current s :
  run_events (e1 ++ e2) current s = run_then (run_events e1 current s) (run_events e2).
Proof.
  unfold run_then.
  revert current s. induction e1 as [|e e1 IH]; intros current s; [done|].
  destruct e; cbn [app run_events];
    (destruct (fsm_Event _ _ _ _ _) as [[[s1 c1] err]| |]; [|done..]); rewrite !bind_Ret;
    destruct err as [[]|]; rewrite ?bind_Ret; auto.
Qed.

Lemma ixfr_soas_events i n j m rdatas evs current s :
  soa_events i n j m rdatas = Some evs →
  ixfr_soas i n j m rdatas current s = run_events evs current s.
Proof.
  revert j evs current s. induction rdatas as [|d rdatas IH]; intros j evs current s; cbn; [by intros [= <-]|].
  destruct d as [| | | | | | |soa|]; try done.
  destruct (soa_events i n (S j) m rdatas) as [evs'|] eqn:E; [|done]. intros [= <-].
  destruct (_ || _); cbn [run_events];
    (destruct (fsm_Event _ _ _ _ _) as [[[s1 c1] err]| |]; [|done..]); rewrite !bind_Ret;
    destruct err; eauto.
Qed.

Lemma ixfr_answers_events i n answers evs current s :
  answer_events i n answers = Some evs →
  ixfr_answers i n answers current s = run_events evs current s.
Proof.
  revert i evs current s. induction answers as [|r answers IH]; intros i evs current s;
    cbn [answer_events ixfr_answers]; [by intros [= <-]|].
  destruct (rr_type r =? RR_SOA).
  - destruct (soa_events _ _ _ _ _) as [e1|] eqn:E1; [|done]. cbn.
    destruct (answer_events (S i) n answers) as [e2|] eqn:E2; [|done]. cbn. intros [= <-].
    rewrite run_events_app, (ixfr_soas_events _ _ _ _ _ _ _ _ E1). unfold run_then.
    destruct (run_events e1 current s) as [[[s1 c1] err]| |]; [|done..]. rewrite !bind_Ret.
    destruct err; eauto.
  - destruct (answer_events (S i) n answers) as [e2|] eqn:E2; [|done]. intros [= <-].
    cbn [run_events]. destruct (fsm_Event _ _ _ _ _) as [[[s1 c1] err]| |]; [|done..].
    rewrite !bind_Ret. destruct err as [[]|]; eauto.
Qed.

(** ** The differences of a transfer *)

Record diff : Type := mkDiff {
  df_del : list RRset;
  df_add : list RRset;
}.

Fixpoint diff_events (cur : Z) (diffs : list diff) : list XEvent :=
  match diffs with
  | [] => []
  | d :: diffs =>
      EvMid cur :: (EvRR <$> df_del d) ++
      EvMid (u32 (cur + 1)) :: (EvRR <$> df_add d) ++ diff_events (u32 (cur + 1)) diffs
  end.

Fixpoint apply_all (f : RRset → XFRState → outcome XFRState) (rs : list RRset) (s : XFRState)
  : outcome XFRState :=
  match rs with
  | [] => Ret s
  | r :: rs => s ← f r s; apply_all f rs s
  end.

(** Deletions, one step of the serial, additions. *)
Definition apply_diff (d : diff) (s : XFRState) : outcome XFRState :=
  s ← apply_all tx_DeleteRRset (df_del d) s;
  h ← increaseSerialNumber (xs_rrs s) (xs_tx s);
  apply_all tx_Add (df_add d)
    (mkXFR (xs_latestSerial s) (u32 (xs_currentSerial s + 1)) h (xs_tx s)).

Fixpoint apply_diffs (diffs : list diff) (s : XFRState) : outcome XFRState :=
  match diffs with
  | [] => Ret s
  | d :: diffs => s ← apply_diff d s; apply_diffs diffs s
  end.

(** ** Single events *)

(** Decides the tests on state and event names that an event makes. *)
Ltac names :=
  repeat (match goal with
  | |- context [bool_decide (@eq string ?a ?b)] =>
      first [rewrite (bool_decide_true (a = b)) by reflexivity
            |rewrite (bool_decide_false (a = b)) by discriminate]
  end; cbn -[tx_DeleteRRset tx_Add increaseSerialNumber run_events diff_events]).

Lemma ev_none section r s :
  section = "delete_section" ∨ section = "add_section" →
  fsm_Event genIXFRStateMachine section "get_none_soa" (ArgRRset r) s =
    (s ← (if bool_decide (section = "delete_section") then tx_DeleteRRset r s else tx_Add r s);
     Ret (s, section, Some NoTransitionError)).
Proof.
  rewrite fsm_Event_eq. unfold transition. intros [-> | ->]; cbn -[tx_DeleteRRset tx_Add]; names.
  - by destruct (tx_DeleteRRset r s).
  - by destruct (tx_Add r s).
Qed.

Lemma run_nones section rs evs s :
  section = "delete_section" ∨ section = "add_section" →
  run_events ((EvRR <$> rs) ++ evs) section s =
    (s ← apply_all (if bool_decide (section = "delete_section") then tx_DeleteRRset else tx_Add) rs s;
     run_events evs section s).
Proof.
  intros Hs. revert s. induction rs as [|r rs IH]; intros s; [done|].
  cbn [fmap list_fmap app run_events apply_all]. rewrite ev_none by done.
  destruct (bool_decide (section = "delete_section")).
  - destruct (tx_DeleteRRset r s) as [s1| |]; [|done..]. rewrite !bind_Ret. apply IH.
  - destruct (tx_Add r s) as [s1| |]; [|done..]. rewrite !bind_Ret. apply IH.
Qed.

Lemma ev_mid_open section s :
  section = "start" ∨ section = "add_section" →
  fsm_Event genIXFRStateMachine section "get_mid_soa" (ArgSerial (xs_currentSerial s)) s =
    Ret (s, "delete_section", None).
Proof.
  rewrite fsm_Event_eq. unfold transition. intros [-> | ->]; cbn; names; by rewrite Z.eqb_refl.
Qed.

Lemma ev_mid_switch s :
  fsm_Event genIXFRStateMachine "delete_section" "get_mid_soa"
    (ArgSerial (u32 (xs_currentSerial s + 1))) s =
  (h ← increaseSerialNumber (xs_rrs s) (xs_tx s);
   Ret (mkXFR (xs_latestSerial s) (u32 (xs_currentSerial s + 1)) h (xs_tx s), "add_section", None)).
Proof.
  rewrite fsm_Event_eq. unfold transition. cbn -[increaseSerialNumber]. names.
  rewrite Z.eqb_refl. cbn -[increaseSerialNumber]. names.
  by destruct (increaseSerialNumber _ _).
Qed.

(** The transaction operations leave the serials of the machine alone. *)
Lemma apply_all_serials f rs s s' :
  f = tx_DeleteRRset ∨ f = tx_Add → apply_all f rs s = Ret s' →
  xs_latestSerial s' = xs_latestSerial s ∧ xs_currentSerial s' = xs_currentSerial s.
Proof.
  intros Hf. revert s. induction rs as [|r rs IH]; intros s; cbn [apply_all]; [by intros [= <-]|].
  destruct (f r s) as [s1| |] eqn:E; [|done..]. rewrite bind_Ret. intros E'.
  apply IH in E' as [-> ->]. destruct Hf as [-> | ->].
  - unfold tx_DeleteRRset in E. destruct (deleteRRset _ _ _); [|done..]. rewrite bind_Ret in E.
    by injection E as <-.
  - unfold tx_Add in E. destruct (alloc_rr _ _) as [l h]. destruct (addRRset _ _ _) as [[[? ?] ?]| |]; [|done..].
    rewrite bind_Ret in E. by injection E as <-.
Qed.

(** The machine on one difference. *)
Lemma run_diff section d evs s :
  section = "start" ∨ section = "add_section" →
  run_events (EvMid (xs_currentSerial s) :: (EvRR <$> df_del d) ++
              EvMid (u32 (xs_currentSerial s + 1)) :: (EvRR <$> df_add d) ++ evs) section s =
  (s ← apply_diff d s; run_events evs "add_section" s).
Proof.
  intros Hs. cbn [run_events]. rewrite (ev_mid_open section s) by done. rewrite bind_Ret.
  rewrite run_nones by auto. rewrite bool_decide_true by done. unfold apply_diff.
  destruct (apply_all tx_DeleteRRset (df_del d) s) as [s1| |] eqn:E; [|done..]. rewrite !bind_Ret.
  apply apply_all_serials in E as [_ Ec]; [|by auto]. cbn [run_events]. rewrite <- Ec.
  rewrite ev_mid_switch.
  destruct (increaseSerialNumber _ _) as [h| |]; [|done..]. rewrite !bind_Ret.
  rewrite run_nones by auto. done.
Qed.

Lemma apply_diff_serials d s s' :
  apply_diff d s = Ret s' →
  xs_latestSerial s' = xs_latestSerial s ∧ xs_currentSerial s' = u32 (xs_currentSerial s + 1).
Proof.
  unfold apply_diff. destruct (apply_all _ _ s) as [s1| |] eqn:E1; [|done..]. rewrite bind_Ret.
  destruct (increaseSerialNumber _ _) as [h| |]; [|done..]. rewrite bind_Ret. intros E2.
  apply apply_all_serials in E1 as [<- <-]; [|by auto]. by apply apply_all_serials in E2; [|auto].
Qed.

Lemma run_diffs section diffs latest s :
  section = "start" ∧ diffs ≠ [] ∨ section = "add_section" → xs_latestSerial s = latest →
  run_events (diff_events (xs_currentSerial s) diffs ++ [EvWrapper latest]) section s =
  (s ← apply_diffs diffs s; Ret (s, "done", None)).
Proof.
  revert section s. induction diffs as [|d diffs IH]; intros section s Hs Hl.
  - destruct Hs as [[_ ?]| ->]; [done|]. cbn. rewrite fsm_Event_eq. unfold transition. cbn. names.
    rewrite Hl, Z.eqb_refl. cbn. names. done.
  - cbn [diff_events apply_diffs app]. rewrite <- app_assoc. cbn [app]. rewrite <- app_assoc.
    rewrite run_diff by naive_solver.
    destruct (apply_diff d s) as [s1| |] eqn:E; [|done..]. rewrite !bind_Ret.
    apply apply_diff_serials in E as [El Ec]. rewrite <- Ec. apply IH; [by auto|congruence].
Qed.

End ixfr.

(** ** Zones under transfer *)

Section inflight.
Context {N : G53Name} {NL : G53NameLaws N} {M : G53Msg N} {ZT : ZoneTree N} {DT : DomainTree N} {F : Fsm}.
Implicit Types (t : gmap string (list Name)).

Definition in_flight t (view : string) (zone : Name) : bool :=
  existsb (λ z, Name_Equals z zone) (default [] (t !! view)).

Fixpoint distinct (zs : list Name) : Prop :=
  match zs with
  | [] => True
  | z :: zs => existsb (λ z', Name_Equals z' z) zs = false ∧ distinct zs
  end.

(** No zone of a view is listed twice. *)
Definition inflight_ok t : Prop := ∀ view, distinct (default [] (t !! view)).

Lemma existsb_Equals_proper zs a b :
  a ≈ b → existsb (λ z, Name_Equals z a) zs = existsb (λ z, Name_Equals z b) zs.
Proof. intros E. induction zs as [|z zs IH]; [done|]. cbn. by rewrite IH, E. Qed.

Lemma in_flight_proper t view a b : a ≈ b → in_flight t view a = in_flight t view b.
Proof. apply existsb_Equals_proper. Qed.

Lemma distinct_snoc zs a :
  distinct zs → existsb (λ z, Name_Equals z a) zs = false → distinct (zs ++ [a]).
Proof.
  induction zs as [|z zs IH]; cbn; [done|]. rewrite orb_false_iff. intros [Hz Hd] [Ha Hn].
  split; [|auto]. rewrite existsb_app, Hz. cbn. rewrite orb_false_r.
  apply not_true_iff_false. intros E%Equals_sym. congruence.
Qed.

Lemma remove_first_gone zs a :
  distinct zs → existsb (λ z, Name_Equals z a) (remove_first a zs) = false.
Proof.
  induction zs as [|z zs IH]; cbn; [done|]. intros [Hz Hd].
  destruct (Name_Equals z a) eqn:E; cbn; [|by rewrite E, IH].
  by rewrite <- (existsb_Equals_proper zs z a E).
Qed.

Lemma remove_first_incl zs a b :
  existsb (λ z, Name_Equals z b) zs = false →
  existsb (λ z, Name_Equals z b) (remove_first a zs) = false.
Proof.
  induction zs as [|z zs IH]; cbn; [done|]. rewrite orb_false_iff. intros [H1 H2].
  destruct (Name_Equals z a); [done|]. cbn. rewrite H1. auto.
Qed.

Lemma remove_first_distinct zs a : distinct zs → distinct (remove_first a zs).
Proof.
  induction zs as [|z zs IH]; cbn; [done|]. intros [Hz Hd].
  destruct (Name_Equals z a); [done|]. split; [by apply remove_first_incl|auto].
Qed.

Lemma default_insert t view view' zs :
  default [] (<[view := zs]> t !! view') = if decide (view' = view) then zs else default [] (t !! view').
Proof.
  case_decide; [subst; by rewrite lookup_insert_eq|by rewrite lookup_insert_ne].
Qed.

Lemma addZoneToTransfer_spec view zone t t' b :
  addZoneToTransfer view zone t = (t', b) → inflight_ok t →
  inflight_ok t' ∧ in_flight t' view zone = true ∧ b = negb (in_flight t view zone) ∧
  (b = false → t' = t).
Proof.
  unfold addZoneToTransfer, in_flight. intros E Hok.
  destruct (existsb _ (default [] (t !! view))) eqn:Ex; injection E as <- <-; [done|].
  split_and!; [|rewrite default_insert, decide_True by done|done..].
  - intros v. rewrite default_insert. case_decide; [subst; by apply distinct_snoc|apply Hok].
  - rewrite existsb_app. cbn. by rewrite Equals_refl, orb_true_r.
Qed.

Lemma removeZoneFromTransfer_spec view zone t :
  inflight_ok t →
  inflight_ok (removeZoneFromTransfer view zone t) ∧
  in_flight (removeZoneFromTransfer view zone t) view zone = false.
Proof.
  intros Hok. unfold removeZoneFromTransfer. split.
  - intros v. rewrite default_insert. case_decide; [subst; by apply remove_first_distinct|apply Hok].
  - unfold in_flight. rewrite default_insert, decide_True by done. by apply remove_first_gone.
Qed.

(** However a transfer ends, if it ends, its zone is taken out of the table of
    transfers, so the next notify for the zone is let in again, and the table never
    lists a zone twice. *)
Theorem doXFR_releases CompareSerial exchange (tr : Transfer) t au t' au' dz :
  inflight_ok t → au_zones au !! tr_zone tr = Some dz →
  doXFR CompareSerial exchange tr t au = Ret (t', au') →
  inflight_ok t' ∧ (addZoneToTransfer (tr_view tr) (mz_origin (dz_zone dz)) t').2 = true.
Proof.
  intros Hok Hdz. unfold doXFR, deref_zone. rewrite Hdz. cbn [from_option_panic]. rewrite bind_Ret.
  pose proof (removeZoneFromTransfer_spec (tr_view tr) (mz_origin (dz_zone dz)) t Hok) as [H1 H2].
  assert (inflight_ok (removeZoneFromTransfer (tr_view tr) (mz_origin (dz_zone dz)) t) ∧
    (addZoneToTransfer (tr_view tr) (mz_origin (dz_zone dz))
       (removeZoneFromTransfer (tr_view tr) (mz_origin (dz_zone dz)) t)).2 = true) as Hdone.
  { split; [done|]. unfold addZoneToTransfer. unfold in_flight in H2. by rewrite H2. }
  destruct (DynamicZone_Find _ _ _ _ _) as [[h ctx]| |]; [|done..]. rewrite bind_Ret.
  lazymatch goal with |- mbind _ ?x = _ → _ => destruct x as [[[typ cur]|]| |]; [| |done..] end;
    rewrite bind_Ret; [|by intros [= <- _]].
  destruct (exchange _ _) as [[]|resp]; [done|by intros [= <- _]|].
  destruct (updateZoneUseXFR _ _ _ _ _ _) as [[h' dz']| |]; [|done..]. rewrite bind_Ret.
  by intros [= <- _].
Qed.

(** What a notify does.  A transfer is started only for a known zone that is a
    slave, on a notify from one of its masters, and only when none is under way for
    the zone; its zone is then in the table of transfers.  A notify for a known
    zone that is refused as coming from a stranger or for a master zone has entered
    the zone in the table all the same: from then on every notify for the zone in
    that view is ignored. *)
Theorem HandleNotify_spec (ipString : IP → string) au t client t' res :
  inflight_ok t → HandleNotify ipString au t client = Ret (t', res) →
  inflight_ok t' ∧
  (∀ resp tr, res = Some (resp, tr) →
     ∃ soa dz ip, m_answer (c_request client) = [soa] ∧
       GetZone (c_view client) (rr_name soa) au = (Some (tr_zone tr), ExactMatch) ∧
       au_zones au !! tr_zone tr = Some dz ∧ IsMaster dz = false ∧
       Client_IP client = Ret ip ∧ ipString ip +:+ ":53" ∈ dz_masters dz ∧
       in_flight t (c_view client) (rr_name soa) = false ∧
       in_flight t' (c_view client) (rr_name soa) = true) ∧
  (res = None → t' = t ∨
     ∃ soa, m_answer (c_request client) = [soa] ∧
     ∀ au2 client2 soa2, c_view client2 = c_view client →
       m_answer (c_request client2) = [soa2] → rr_name soa2 ≈ rr_name soa →
       HandleNotify ipString au2 t' client2 = Ret (t', None)).
Proof.
  intros Hok. unfold HandleNotify at 1.
  destruct (m_answer (c_request client)) as [|soa [|]] eqn:Ea; try (intros [= <- <-]; split_and!; [done|done|by left]).
  destruct (rr_type soa =? RR_SOA); cbn [negb]; [|intros [= <- <-]; split_and!; [done|done|by left]].
  destruct (GetZone (c_view client) (rr_name soa) au) as [tz []] eqn:Ez; try (intros [= <- <-]; split_and!; [done|done|by left]).
  destruct (addZoneToTransfer _ _ _) as [t1 added] eqn:Eadd.
  apply addZoneToTransfer_spec in Eadd as (Hok1 & Hin1 & -> & Hsame); [|done].
  destruct (in_flight t (c_view client) (rr_name soa)) eqn:Hin; cbn [negb].
  { intros [= <- <-]. rewrite Hsame by done. split_and!; [done|done|by left]. }
  assert (∀ au2 client2 soa2, c_view client2 = c_view client →
     m_answer (c_request client2) = [soa2] → rr_name soa2 ≈ rr_name soa →
     HandleNotify ipString au2 t1 client2 = Ret (t1, None)) as Hblock.
  { intros au2 client2 soa2 Hv Ha Hn. unfold HandleNotify. rewrite Ha.
    destruct (rr_type soa2 =? RR_SOA); [|done]. cbn [negb].
    unfold addZoneToTransfer. cbv zeta. rewrite Hv.
    rewrite (existsb_Equals_proper _ _ _ Hn). unfold in_flight in Hin1. rewrite Hin1.
    by destruct (GetZone (c_view client) (rr_name soa2) au2) as [? []]. }
  assert (∀ r : option (Message * Transfer), r = None → t1 = t ∨
     ∃ soa0, [soa] = [soa0] ∧ ∀ au2 client2 soa2, c_view client2 = c_view client →
       m_answer (c_request client2) = [soa2] → rr_name soa2 ≈ rr_name soa0 →
       HandleNotify ipString au2 t1 client2 = Ret (t1, None)) as Hno.
  { intros r _. right. by exists soa. }
  destruct (first_serial soa) as [latest| |]; [|done..]. rewrite bind_Ret.
  destruct tz as [l|]; [|done]. cbn [from_option_panic]. rewrite bind_Ret.
  unfold deref_zone. destruct (au_zones au !! l) as [dz|] eqn:El; [|done]. cbn [from_option_panic].
  rewrite bind_Ret. destruct (IsMaster dz) eqn:Em; [intros [= <- <-]; split_and!; [done|done|apply Hno]|].
  destruct (Client_IP client) as [ip| |] eqn:Eip; [|done..]. rewrite bind_Ret.
  destruct (existsb _ _) eqn:Ex; intros [= <- <-]; [|split_and!; [done|done|apply Hno]].
  split; [done|]. split; [|done]. intros resp tr [= <- <-]. exists soa, dz, ip. cbn.
  apply existsb_Exists in Ex as (m & Hm & ->%bool_decide_eq_true).
  unfold Masters in Hm. rewrite Em in Hm. by split_and!.
Qed.
End inflight.

(** ** On a zone *)

Definition soa_at (serial : Z) : RRset :=
  mkRRset example_com RR_SOA CLASS_IN 300 [RdSOA (mkSOA example_com serial 60)].
Definition one_a (n : Name) (last : Z) : RRset :=
  mkRRset n RR_A CLASS_IN 300 [RdA [192; 0; 2; last]].

Definition slave_load : outcome (gmap nat RRset * DynamicZone * option string) :=
  DynamicZone_Load (LoadRR <$> seq 0 3)
    (list_to_map (imap pair [soa_at 1; ns_rrset example_com ns_name; a_rrset ns_name 300 1]))
    (NewDynamicZone example_com).
Definition slave_zone : DynamicZone :=
  match slave_load with Ret (_, dz, _) => dz | _ => NewDynamicZone example_com end.
Definition slave_rrs : gmap nat RRset := match slave_load with Ret (h, _, _) => h | _ => ∅ end.

(** The addresses of [ns_name] and the serial after a transfer. *)
Definition after_xfr (typ : xfrType) (current latest : Z) (answers : list RRset)
  : outcome (ResultType * option (list Rdata) * option (list Rdata)) :=
  r ← updateZoneUseXFR typ current latest answers slave_rrs slave_zone;
  let '(h, dz) := r in
  r ← DynamicZone_Find ns_name RR_A DefaultFind h dz;
  let '(h, ctx) := r in
  r ← DynamicZone_Find example_com RR_SOA DefaultFind h dz;
  let '(h, soa) := r in
  Ret (fr_Type (fc_result ctx), rr_rdatas <$> (fr_RRset (fc_result ctx) ≫= (h !!.)),
       rr_rdatas <$> (fr_RRset (fc_result soa) ≫= (h !!.))).

Definition serial_is (n : Z) : option (list Rdata) := Some [RdSOA (mkSOA example_com n 60)].

(** Three ways a transfer leaves wrong data.  An incremental transfer that
    deletes one of two addresses deletes both.  An answer cut off inside a
    difference is committed: the deletions are done, the additions and the serial
    are missing.  A full transfer starts from the old zone, so names the master no
    longer has stay. *)
Theorem xfr_hazards :
  after_xfr IXFR 1 2 [soa_at 2; soa_at 1; one_a ns_name 1; soa_at 2; soa_at 2] =
    Ret (FRNXDomain, None, serial_is 2) ∧
  after_xfr IXFR 1 2 [soa_at 2; soa_at 1; one_a ns_name 1] = Ret (FRNXDomain, None, serial_is 1) ∧
  after_xfr AXFR 1 5 [soa_at 5; ns_rrset example_com ns_name; soa_at 5] =
    Ret (FRSuccess, Some [RdA [192; 0; 2; 2]; RdA [192; 0; 2; 1]], serial_is 5).
Proof. split_and!; by_eval. Qed.

Definition demo_diffs : list diff := [mkDiff [one_a ns_name 1] [one_a ns_name 2]].
Definition demo_answers : list RRset :=
  [soa_at 2; soa_at 1; one_a ns_name 1; soa_at 2; one_a ns_name 2; soa_at 2].
Definition demo_xfr : XFRState := mkXFR 2 1 slave_rrs (Begin slave_zone).


Definition demo_auth : AuthState :=
  mkAuth slave_rrs {[0%nat := SetMasters ["192.0.2.9:53"] slave_zone]}
    {["default" := match dt_Insert example_com 0%nat dt_New with inr t => t | inl _ => dt_New end]}.
Definition demo_ip (ip : IP) : string := show_ip ip.
Definition demo_notify (last : Z) : Client :=
  mkClient (Some (UDPAddr [192; 0; 2; last] 53)) None false
    (answer example_com RR_SOA [soa_at 2]) None "default" 0 false false 0.

(** A notify of a stranger, then one of the master: no transfer starts. *)
Lemma notify_leak_example :
  (r ← HandleNotify demo_ip demo_auth ∅ (demo_notify 9); Ret (bool_decide (is_Some r.2))) = Ret true ∧
  (r ← HandleNotify demo_ip demo_auth ∅ (demo_notify 66);
   r ← HandleNotify demo_ip demo_auth r.1 (demo_notify 9); Ret (bool_decide (is_Some r.2))) = Ret false.
Proof. split; by_eval. Qed.

Definition demo_stranger : gmap string (list Name) * option (Message * Transfer) :=
  match HandleNotify demo_ip demo_auth ∅ (demo_notify 66) with Ret r => r | _ => (∅, None) end.

Lemma demo_stranger_ret :
  HandleNotify demo_ip demo_auth ∅ (demo_notify 66) = Ret (demo_stranger.1, demo_stranger.2).
Proof. by_eval. Qed.

Lemma inflight_ok_empty : inflight_ok (∅ : gmap string (list Name)).
Proof. intros view. by rewrite lookup_empty. Qed.

Lemma HandleNotify_spec_witness : inflight_ok demo_stranger.1.
Proof.
  destruct (HandleNotify_spec demo_ip demo_auth ∅ (demo_notify 66) _ _ inflight_ok_empty demo_stranger_ret)
    as (H & _). exact H.
Defined.

Definition demo_transfer : Transfer := mkTransfer "default" 0 2 "192.0.2.9:53".
Definition no_answer (_ : string) (_ : xfrType) : bool + Message := inl false.
Definition demo_done : gmap string (list Name) * AuthState :=
  match doXFR (λ a b, if a <? b then -1 else 0) no_answer demo_transfer
          {["default" := [example_com]]} demo_auth with
  | Ret r => r
  | _ => (∅, demo_auth)
  end.

Lemma demo_done_ret :
  doXFR (λ a b, if a <? b then -1 else 0) no_answer demo_transfer
    {["default" := [example_com]]} demo_auth = Ret (demo_done.1, demo_done.2).
Proof. by_eval. Qed.

Lemma inflight_ok_one : inflight_ok ({["default" := [example_com]]} : gmap string (list Name)).
Proof.
  intros view. destruct (decide (view = "default")) as [->|].
  - by rewrite lookup_singleton_eq.
  - by rewrite lookup_singleton_ne.
Qed.

Lemma doXFR_releases_witness :
  inflight_ok demo_done.1 ∧ (addZoneToTransfer "default" example_com demo_done.1).2 = true.
Proof.
  exact (doXFR_releases _ no_answer demo_transfer _ demo_auth _ _
    (SetMasters ["192.0.2.9:53"] slave_zone) inflight_ok_one eq_refl demo_done_ret).
Defined.
