(* ===== verification/LocalData.v ===== *)
(** * Local policies (src/localdata, src/resolver/fakeauth, src/responsetransfer/hijack)

    Policies by view and name answer queries with configured data: a missing name,
    no data, an exception, or record sets.  The fake authority asks them before the
    zones; the hijack handler asks them after the resolvers when the name does not
    exist.  Policies are shared by pointer with the trees of the views, so they live
    in a store; responses live in the message heap, because record sets are added
    to the client's response in place. *)

From S2P Require Import Prelude GoStd G53 Instances Core HttpCmd Cement Util Chain.
From Stdlib Require Import Ascii.

Local Open Scope Z_scope.

Definition ErrInvalidPolicy : CmdError := NewError LocalDataErrCodeStart "policy data isn't valid".
Definition ErrDuplicatePolicy : CmdError := NewError (LocalDataErrCodeStart + 1) "duplicate policy".
Definition ErrRedirectRRInvalid : string := "redirect rr should in format name, type, ttl, rdata".

Section localdata.
Context {N : G53Name} {M : G53Msg N} {DT : DomainTree N}.

(** ** localdata/localpolicy.go *)

Inductive PolicyKind : Type :=
  | NXDomainPolicy
  | NXRRsetPolicy
  | ExceptionDomain
  | LocalRRset (rrsets : list RRset).

(** A policy with its [basePolicy]. *)
Record LocalPolicy : Type := mkPolicy {
  lp_name : Name;
  lp_isZoneMatch : bool;
  lp_kind : PolicyKind;
}.

Definition set_kind (k : PolicyKind) (p : LocalPolicy) : LocalPolicy :=
  mkPolicy (lp_name p) (lp_isZoneMatch p) k.

Definition newLocalRRset (name : Name) (isZoneMatch : bool) (typ : string) (ttl : Z)
  (rdataStr : string) : string + LocalPolicy :=
  match TypeFromString typ with
  | None => inl "unknown rr type"
  | Some rrType =>
      match RdataFromString rrType rdataStr with
      | inl err => inl err
      | inr rdata =>
          inr (mkPolicy name isZoneMatch
                 (LocalRRset [mkRRset name rrType CLASS_IN (u32 ttl) [rdata]]))
      end
  end.

(** A response with a code and no records. *)
Definition empty_response (rcode : Z) (client : Client) : Message :=
  let m := MakeResponse (c_request client) in
  set_header (Header_set_rcode rcode (m_header m)) m.

(** The record set of a local policy goes to the end of the answer, under the name
    asked for; the answer count becomes its size. *)
Definition add_local (qname : Name) (rrset : RRset) (m : Message) : Message :=
  let h := Header_set_rcode R_NOERROR (Header_set_ancount (u16 (RRCount rrset)) (m_header m)) in
  set_section AnswerSection (m_answer m ++ [set_rr_name qname rrset]) (set_header h m).

(** The response a policy gives; nil when it gives none. *)
Definition GetMessage (p : LocalPolicy) (client : Client) (qname : Name) (h : Heap)
  : outcome (Heap * option nat) :=
  match lp_kind p with
  | NXDomainPolicy =>
      let '(l, h) := heap_alloc (empty_response R_NXDOMAIN client) h in Ret (h, Some l)
  | NXRRsetPolicy =>
      let '(l, h) := heap_alloc (empty_response R_NOERROR client) h in Ret (h, Some l)
  | ExceptionDomain => Ret (h, None)
  | LocalRRset rrsets =>
      let '(l, h) := match c_response client with
                     | Some l => (l, h)
                     | None => heap_alloc (MakeResponse (c_request client)) h
                     end in
      m ← deref l h;
      q ← deref_question (c_request client);
      match find_first (λ r, rr_type r =? q_type q) rrsets with
      | None => Ret (h, None)
      | Some rrset => Ret (<[l := add_local qname rrset m]> h, Some l)
      end
  end.

(** [for _, rdata := range new.Rdatas { old.AddRdata(rdata) }] up to an error; the
    rdatas before it have been added. *)
Fixpoint add_local_rdatas (rds : list Rdata) (old : RRset) : RRset * bool :=
  match rds with
  | [] => (old, true)
  | d :: rds =>
      match AddRdata d old with
      | Some old => add_local_rdatas rds old
      | None => (old, false)
      end
  end.

(** [addRRset]; the flag says whether it succeeded. *)
Fixpoint LocalRRset_addRRset (new : RRset) (rrsets : list RRset) : list RRset * bool :=
  match rrsets with
  | [] => ([new], true)
  | old :: rrsets =>
      if rr_type old =? rr_type new then
        let '(old, ok) := add_local_rdatas (rr_rdatas new) old in
        if ok : bool then (set_ttl (rr_ttl new) old :: rrsets, true) else (old :: rrsets, false)
      else
        let '(rrsets, ok) := LocalRRset_addRRset new rrsets in (old :: rrsets, ok)
  end.

(** The loop of [deleteRRset] over the [n] places of the slice's array.  Removing
    the set at place [i] moves the later ones down by one, in the array too, and
    the length [k] of [p.rrsets] shrinks. *)
Fixpoint delete_places (new : RRset) (fuel i k : nat) (arr : list RRset) : list RRset :=
  match fuel with
  | O => take k arr
  | S fuel =>
      match arr !! i with
      | None => take k arr
      | Some old =>
          if rr_type old =? rr_type new then
            let old := foldl (λ r d, RemoveRdata d r) old (rr_rdatas new) in
            let arr := <[i := old]> arr in
            if RRCount old =? 0 then
              let kept := take i arr ++ drop (S i) (take k arr) in
              delete_places new fuel (S i) (k - 1) (kept ++ drop (k - 1) arr)
            else delete_places new fuel (S i) k arr
          else delete_places new fuel (S i) k arr
      end
  end.

Definition LocalRRset_deleteRRset (new : RRset) (rrsets : list RRset) : list RRset :=
  delete_places new (length rrsets) 0 (length rrsets) rrsets.

(** ** localdata/localpolicybuilder.go *)

Definition LPNXDomain : string := "nxdomain".
Definition LPNXRRset : string := "nodata".
Definition LPExceptionDomain : string := "passthru".
Definition LPLocalRRset : string := "redirect".

Definition BuildLocalPolicy (lPType data : string) : outcome (string + LocalPolicy) :=
  let fields := strings_Split data " "%char in
  name ← index fields 0;
  match NameStripFirstWildcard name with
  | (_, inl err) => Ret (inl err)
  | (isZoneMatch, inr origin) =>
      let policy k := Ret (inr (mkPolicy origin isZoneMatch k)) in
      if bool_decide (lPType = LPNXDomain) then policy NXDomainPolicy
      else if bool_decide (lPType = LPNXRRset) then policy NXRRsetPolicy
      else if bool_decide (lPType = LPExceptionDomain) then policy ExceptionDomain
      else if bool_decide (lPType = LPLocalRRset) then
        match fields with
        | _ :: ttl :: typ :: ((_ :: _) as rdata) =>
            match strconv_Atoi ttl with
            | None => Ret (inl "invalid syntax")
            | Some ttl =>
                Ret (newLocalRRset origin isZoneMatch typ ttl (strings_Join rdata " "))
            end
        | _ => Ret (inl ErrRedirectRRInvalid)
        end
      else Panic "unknown policy type"
  end.

(** ** localdata/localdata.go *)

Record LocalData : Type := mkLocalData {
  ld_policies : gmap string (dtree nat);
  ld_store : gmap nat LocalPolicy;
}.

Definition NewLocalData : LocalData := mkLocalData ∅ ∅.

Definition deref_policy (l : nat) (ld : LocalData) : outcome LocalPolicy :=
  from_option_panic "invalid memory address" (ld_store ld !! l).

(** localdata/dnsutil.go: the name at the end of the alias chain so far. *)
Definition realQueryName (client : Client) (h : Heap) : outcome Name :=
  q ← deref_question (c_request client);
  match c_response client with
  | None => Ret (q_name q)
  | Some l =>
      m ← deref l h;
      match last (m_answer m) with
      | None => Ret (q_name q)
      | Some rrset =>
          if negb (rr_type rrset =? RR_CNAME) then Ret (q_name q)
          else
            rd ← index (rr_rdatas rrset) 0;
            match rd with
            | RdCName n => Ret n
            | _ => Panic "interface conversion: not *g53.CName"
            end
      end
  end.

(** The policies above a name, deepest first: the first that matches its zone and
    gives a message. *)
Fixpoint ask_parents (parents : list (Name * nat)) (client : Client) (qname : Name)
  (ld : LocalData) (h : Heap) : outcome (Heap * option nat) :=
  match parents with
  | [] => Ret (h, None)
  | (_, l) :: parents =>
      p ← deref_policy l ld;
      if lp_isZoneMatch p then
        r ← GetMessage p client qname h;
        let '(h, msg) := r in
        match msg with
        | Some _ => Ret (h, msg)
        | None => ask_parents parents client qname ld h
        end
      else ask_parents parents client qname ld h
  end.

Definition ResponseWithLocalData (ld : LocalData) (h : Heap) (client : Client)
  : outcome (Heap * Client * bool) :=
  match ld_policies ld !! c_view client with
  | None => Ret (h, client, false)
  | Some ps =>
      qname ← realQueryName client h;
      let '(parents, match_) := dt_SearchParents qname ps in
      r ← (match match_, parents with
           | ExactMatch, (_, l) :: _ => p ← deref_policy l ld; GetMessage p client qname h
           | ExactMatch, [] => Panic "top of an empty chain"
           | ClosestEncloser, _ => ask_parents parents client qname ld h
           | NotFound, _ => Ret (h, None)
           end);
      let '(h, resp) := r in
      match resp with
      | Some l => Ret (h, set_response (Some l) client, true)
      | None => Ret (h, client, false)
      end
  end.

Definition add_rrsets_to (new : list RRset) (rrsets : list RRset) : list RRset * bool :=
  foldl (λ acc r, if acc.2 : bool then LocalRRset_addRRset r acc.1 else acc) (rrsets, true) new.

Definition put_policy (view : string) (ps : dtree nat) (l : nat) (p : LocalPolicy) (ld : LocalData)
  : LocalData :=
  mkLocalData (<[view := ps]> (ld_policies ld)) (<[l := p]> (ld_store ld)).

(** A tree is made for a new view; the error of [Insert] is dropped.  [AddRdata]
    fails on a duplicate. *)
Definition addPolicy (view : string) (p : LocalPolicy) (ld : LocalData)
  : outcome (LocalData * option CmdError) :=
  let ps := default dt_New (ld_policies ld !! view) in
  let ld := mkLocalData (<[view := ps]> (ld_policies ld)) (ld_store ld) in
  match dt_SearchParents (lp_name p) ps with
  | ((_, l) :: _, ExactMatch) =>
      oldp ← deref_policy l ld;
      match lp_kind oldp, lp_kind p with
      | LocalRRset old, LocalRRset new =>
          let '(rrsets, ok) := add_rrsets_to new old in
          Ret (put_policy view ps l (set_kind (LocalRRset rrsets) oldp) ld,
               if ok : bool then None
               else Some (Error_AddDetail ErrDuplicatePolicy "duplicate rdata"))
      | _, _ => Ret (ld, Some ErrDuplicatePolicy)
      end
  | ([], ExactMatch) => Panic "top of an empty chain"
  | _ =>
      let l := fresh (dom (ld_store ld)) in
      match dt_Insert (lp_name p) l ps with
      | inr ps => Ret (put_policy view ps l p ld, None)
      | inl _ => Ret (ld, None)
      end
  end.

Definition removePolicy (view : string) (p : LocalPolicy) (ld : LocalData)
  : outcome (LocalData * option CmdError) :=
  match ld_policies ld !! view with
  | None => Ret (ld, Some ErrUnknownView)
  | Some ps =>
      let gone := mkLocalData (<[view := dt_Delete (lp_name p) ps]> (ld_policies ld)) (ld_store ld) in
      match dt_SearchParents (lp_name p) ps with
      | ((_, l) :: _, ExactMatch) =>
          oldp ← deref_policy l ld;
          match lp_kind oldp, lp_kind p with
          | LocalRRset target, LocalRRset toRemove =>
              let rrsets := foldl (λ rs r, LocalRRset_deleteRRset r rs) target toRemove in
              if bool_decide (rrsets = []) then
                Ret (mkLocalData (ld_policies gone)
                       (<[l := set_kind (LocalRRset rrsets) oldp]> (ld_store ld)), None)
              else Ret (put_policy view ps l (set_kind (LocalRRset rrsets) oldp) ld, None)
          | LocalRRset _, _ => Ret (ld, None)
          | _, _ => Ret (gone, None)
          end
      | ([], ExactMatch) => Panic "top of an empty chain"
      | _ => Ret (ld, None)
      end
  end.

(** The loops of [AddPolicies] and [RemovePolicies] stop at the first error. *)
Fixpoint change_policies (f : string → LocalPolicy → LocalData → outcome (LocalData * option CmdError))
  (view typ : string) (datas : list string) (ld : LocalData)
  : outcome (LocalData * option CmdError) :=
  match datas with
  | [] => Ret (ld, None)
  | data :: datas =>
      p ← BuildLocalPolicy typ data;
      match p with
      | inl err => Ret (ld, Some (Error_AddDetail ErrInvalidPolicy err))
      | inr p =>
          r ← f view p ld;
          let '(ld, err) := r in
          match err with
          | Some err => Ret (ld, Some err)
          | None => change_policies f view typ datas ld
          end
      end
  end.

Definition AddPolicies : string → string → list string → LocalData → outcome (LocalData * option CmdError) :=
  change_policies addPolicy.
Definition RemovePolicies : string → string → list string → LocalData → outcome (LocalData * option CmdError) :=
  change_policies removePolicy.

(** ** resolver/fakeauth *)

Record LocalDataConf : Type := mkLocalDataConf {
  ldc_View : string;
  ldc_NXDomain : list string;
  ldc_NXRRset : list string;
  ldc_Exception : list string;
  ldc_Redirect : list string;
}.

(** Policies of the configuration; an error panics. *)
Definition load_policies (what view typ : string) (datas : list string) (ld : LocalData)
  : outcome LocalData :=
  r ← AddPolicies view typ datas ld;
  match r with
  | (ld, None) => Ret ld
  | (_, Some err) => Panic ("invalid " +:+ what +:+ ":" +:+ err_Info err)
  end.

Fixpoint load_fakeauth (conf : list LocalDataConf) (ld : LocalData) : outcome LocalData :=
  match conf with
  | [] => Ret ld
  | c :: conf =>
      ld ← load_policies "nxdomain" (ldc_View c) LPNXDomain (ldc_NXDomain c) ld;
      ld ← load_policies "nxrrset" (ldc_View c) LPNXRRset (ldc_NXRRset c) ld;
      ld ← load_policies "exception" (ldc_View c) LPExceptionDomain (ldc_Exception c) ld;
      ld ← load_policies "redirect" (ldc_View c) LPLocalRRset (ldc_Redirect c) ld;
      load_fakeauth conf ld
  end.

Definition FakeAuth_ReloadConfig (conf : list LocalDataConf) : outcome LocalData :=
  load_fakeauth conf NewLocalData.

Definition FakeAuth_Resolve {W} (ld : LocalData) (next : option (Handler (Heap * W)))
  : Handler (Heap * W) := λ s client,
  let '(h, w) := s in
  r ← ResponseWithLocalData ld h client;
  let '(h, client, found) := r in
  if found : bool then Ret ((h, w), set_cache_answer false client)
  else Resolver_PassToNext next (h, w) client.

Record LocalPolicyData : Type := mkLocalPolicyData {
  lpd_Policy : string;
  lpd_View : string;
  lpd_Data : string;
}.

Inductive LocalDataCmd : Type :=
  | AddLocalData (d : LocalPolicyData)
  | DeleteLocalData (d : LocalPolicyData)
  | UpdateLocalData (old new : LocalPolicyData).

(** The error of the removal in an update is dropped. *)
Definition FakeAuth_HandleCmd (cmd : LocalDataCmd) (ld : LocalData)
  : outcome (LocalData * option CmdError) :=
  match cmd with
  | AddLocalData d => AddPolicies (lpd_View d) (lpd_Policy d) [lpd_Data d] ld
  | DeleteLocalData d => RemovePolicies (lpd_View d) (lpd_Policy d) [lpd_Data d] ld
  | UpdateLocalData old new =>
      r ← RemovePolicies (lpd_View old) (lpd_Policy old) [lpd_Data old] ld;
      AddPolicies (lpd_View new) (lpd_Policy new) [lpd_Data new] r.1
  end.

(** ** responsetransfer/hijack *)

Fixpoint Hijack_load (conf : list (string * list string)) (ld : LocalData) : outcome LocalData :=
  match conf with
  | [] => Ret ld
  | (view, redirect) :: conf =>
      ld ← load_policies "redirect" view LPLocalRRset redirect ld; Hijack_load conf ld
  end.

Definition Hijack_ReloadConfig (conf : list (string * list string)) : outcome LocalData :=
  Hijack_load conf NewLocalData.

Definition Hijack_TransferResponse (ld : LocalData) (h : Heap) (client : Client)
  : outcome (Heap * Client) :=
  go_on ← (match c_response client with
           | None => Ret true
           | Some l => m ← deref l h; Ret (h_rcode (m_header m) =? R_NXDOMAIN)
           end);
  if go_on : bool then r ← ResponseWithLocalData ld h client; Ret r.1 else Ret (h, client).

Inductive HijackCmd : Type :=
  | AddRedirectRR (view name ttl typ rdata : string)
  | DeleteRedirectRR (view name typ rdata : string)
  | UpdateRedirectRR (view name typ oldRdata newTtl newRdata : string).

Definition Hijack_HandleCmd (cmd : HijackCmd) (ld : LocalData)
  : outcome (LocalData * option CmdError) :=
  match cmd with
  | AddRedirectRR view name ttl typ rdata =>
      AddPolicies view LPLocalRRset [strings_Join [name; ttl; typ; rdata] " "] ld
  | DeleteRedirectRR view name typ rdata =>
      RemovePolicies view LPLocalRRset [strings_Join [name; "0"; typ; rdata] " "] ld
  | UpdateRedirectRR view name typ oldRdata newTtl newRdata =>
      r ← RemovePolicies view LPLocalRRset [strings_Join [name; "0"; typ; oldRdata] " "] ld;
      AddPolicies view LPLocalRRset [strings_Join [name; newTtl; typ; newRdata] " "] r.1
  end.
End localdata.
