(* ===== verification/LocalDataSpec.v ===== *)
(** * What local policies promise

    The answer a query gets from the policies of its view, and the invariant of
    the policy store under every sequence of additions and removals. *)

From S2P Require Import Prelude GoStd G53 Instances Core HttpCmd Cement Util Chain LocalData.
From Stdlib Require Import Ascii.

Local Open Scope Z_scope.

(** ** Removing a record set from a policy *)

Section delete_rrset.
Context {N : G53Name} {M : G53Msg N} {ML : G53MsgLaws M}.

Definition strip_rdatas (new old : RRset) : RRset :=
  foldl (λ r d, RemoveRdata d r) old (rr_rdatas new).

(** The plain meaning of [deleteRRset]: the set of the type loses the rdatas and
    goes away when none is left. *)
Definition plain_delete (new : RRset) (rrsets : list RRset) : list RRset :=
  omap (λ old,
    if rr_type old =? rr_type new then
      let old := strip_rdatas new old in if RRCount old =? 0 then None else Some old
    else Some old) rrsets.

Lemma strip_rdatas_type new old : rr_type (strip_rdatas new old) = rr_type old.
Proof.
  unfold strip_rdatas. revert old. induction (rr_rdatas new) as [|d ds IH]; [done|].
  intros old. cbn. rewrite IH. apply RemoveRdata_frame.
Qed.

Lemma delete_places_none new fuel i k arr :
  (∀ j r, (i ≤ j)%nat → arr !! j = Some r → rr_type r ≠ rr_type new) →
  delete_places new fuel i k arr = take k arr.
Proof.
  revert i. induction fuel as [|fuel IH]; intros i H; cbn; [done|].
  destruct (arr !! i) as [old|] eqn:E; [|done].
  rewrite (proj2 (Z.eqb_neq _ _)) by (by apply (H i)). apply IH. intros j r Hj. apply H. lia.
Qed.

Lemma delete_places_seek new d i pre old post k :
  Forall (λ r, rr_type r ≠ rr_type new) pre → (i + d = length pre)%nat →
  ∀ fuel, delete_places new (d + fuel) i k (pre ++ old :: post) =
          delete_places new fuel (length pre) k (pre ++ old :: post).
Proof.
  intros Hpre. revert i. induction d as [|d IH]; intros i Hi fuel; [by rewrite <- Hi, Nat.add_0_r|].
  cbn. destruct (lookup_lt_is_Some_2 pre i) as [r Hr]; [lia|].
  rewrite (lookup_app_l_Some _ _ _ _ Hr). rewrite Forall_lookup in Hpre.
  rewrite (proj2 (Z.eqb_neq _ _)) by (by apply (Hpre i)). apply IH. lia.
Qed.

Lemma plain_delete_none new rrsets :
  Forall (λ r, rr_type r ≠ rr_type new) rrsets → plain_delete new rrsets = rrsets.
Proof.
  induction 1 as [|r rrsets Hr _ IH]; [done|]. cbn.
  rewrite (proj2 (Z.eqb_neq _ _)) by done. by f_equal.
Qed.

Lemma plain_delete_app new rs1 rs2 :
  plain_delete new (rs1 ++ rs2) = plain_delete new rs1 ++ plain_delete new rs2.
Proof. unfold plain_delete. apply omap_app. Qed.

Lemma split_type t (rrsets : list RRset) :
  NoDup (rr_type <$> rrsets) →
  Forall (λ r, rr_type r ≠ t) rrsets ∨
  ∃ pre old post, rrsets = pre ++ old :: post ∧ rr_type old = t ∧
    Forall (λ r, rr_type r ≠ t) pre ∧ Forall (λ r, rr_type r ≠ t) post.
Proof.
  intros Hnd. destruct (decide (Forall (λ r, rr_type r ≠ t) rrsets)) as [|Hex]; [by left|right].
  apply not_Forall_Exists in Hex; [|apply _]. apply Exists_exists in Hex as (old & Hin & Ht).
  apply list_elem_of_split in Hin as (pre & post & ->). exists pre, old, post.
  assert (rr_type old = t) as <- by (by destruct (decide (rr_type old = t))).
  rewrite fmap_app, fmap_cons in Hnd. apply NoDup_app in Hnd as (_ & Hpre & Hpost).
  apply NoDup_cons in Hpost as [Hpost _]. split_and!; [done..| |].
  - apply Forall_forall. intros r Hr E. apply (Hpre (rr_type r)); [by apply list_elem_of_fmap_2|].
    rewrite E. left.
  - apply Forall_forall. intros r Hr E. apply Hpost. rewrite <- E. by apply list_elem_of_fmap_2.
Qed.

(** The loop that shrinks the slice while it ranges over it does what it means to
    when the sets have distinct types. *)
Lemma deleteRRset_plain new rrsets :
  NoDup (rr_type <$> rrsets) → LocalRRset_deleteRRset new rrsets = plain_delete new rrsets.
Proof.
  intros Hnd. unfold LocalRRset_deleteRRset.
  destruct (split_type (rr_type new) rrsets Hnd) as [Hn|(pre & old & post & -> & Ht & Hpre & Hpost)].
  { rewrite plain_delete_none, delete_places_none, firstn_all; [done| |done].
    rewrite Forall_lookup in Hn. intros j r _. apply Hn. }
  rewrite plain_delete_app, (plain_delete_none _ pre), length_app by done. cbn [length].
  rewrite (delete_places_seek new (length pre) 0) by done. cbn [delete_places plain_delete omap list_omap].
  rewrite list_lookup_middle, Ht, Z.eqb_refl by done. fold (strip_rdatas new old).
  rewrite insert_app_r_alt, Nat.sub_diag by lia. change (<[0%nat:=strip_rdatas new old]> (old :: post)) with (strip_rdatas new old :: post).
  fold (plain_delete new post). rewrite plain_delete_none by done.
  rewrite Forall_lookup in Hpost. destruct (RRCount (strip_rdatas new old) =? 0).
  - rewrite take_app_length, take_ge by (rewrite length_app; cbn; lia).
    rewrite drop_app_ge by lia. replace (S (length pre) - length pre)%nat with 1%nat by lia.
    change (drop 1 (strip_rdatas new old :: post)) with post. rewrite delete_places_none.
    + rewrite take_app_le by (rewrite length_app; lia). apply take_ge. rewrite length_app. lia.
    + intros j r Hj E. rewrite <- app_assoc, lookup_app_r in E by lia.
      apply lookup_app_Some in E as [E|[Hl E]]; [by apply (Hpost _ _ E)|].
      rewrite drop_app_ge, lookup_drop in E by lia.
      replace (length pre + S (length post) - 1 - length pre + (j - length pre - length post))%nat
        with (S (j - length pre - 1)) in E by lia.
      by apply (Hpost _ _ E).
  - rewrite delete_places_none.
    + apply take_ge. rewrite length_app. cbn. lia.
    + intros j r Hj E. rewrite lookup_app_r in E by lia.
      replace (j - length pre)%nat with (S (j - length pre - 1)) in E by lia.
      by apply (Hpost _ _ E).
Qed.
End delete_rrset.

(** ** The answer to a query *)

Section local_answers.
Context {N : G53Name} {NL : G53NameLaws N} {M : G53Msg N} {ML : G53MsgLaws M}
        {DT : DomainTree N} {DTL : DomainTreeLaws DT}.

(** A policy answers a question for this type. *)
Definition gives (qtype : RRType) (p : LocalPolicy) : bool :=
  match lp_kind p with
  | NXDomainPolicy | NXRRsetPolicy => true
  | ExceptionDomain => false
  | LocalRRset rrsets => existsb (λ r, rr_type r =? qtype) rrsets
  end.

(** The answer of a policy, added to the message [base]. *)
Definition policy_reply (p : LocalPolicy) (client : Client) (qname : Name) (qtype : RRType)
  (base m : Message) : Prop :=
  match lp_kind p with
  | NXDomainPolicy => m = empty_response R_NXDOMAIN client
  | NXRRsetPolicy => m = empty_response R_NOERROR client
  | ExceptionDomain => False
  | LocalRRset rrsets => ∃ r, r ∈ rrsets ∧ rr_type r = qtype ∧ m = add_local qname r base
  end.

(** The message the policies work on: the client's response or an empty one. *)
Definition base_response (client : Client) (h : Heap) : option Message :=
  match c_response client with
  | Some l => h !! l
  | None => Some (MakeResponse (c_request client))
  end.

(** The reply is written over the client's response or at a new address; nothing
    else that was on the heap changes. *)
Definition answered (p : LocalPolicy) (client : Client) (qname : Name) (qtype : RRType)
  (base : Message) (h h' : Heap) (l : nat) : Prop :=
  ∃ h1 m, h ⊆ h1 ∧ h' = <[l := m]> h1 ∧ policy_reply p client qname qtype base m ∧
    (c_response client = Some l ∨ h1 !! l = None).

Lemma heap_alloc_sub m h : h ⊆ (heap_alloc m h).2.
Proof. cbn. apply insert_subseteq, (heap_alloc_fresh m). Qed.

Lemma base_response_mono client h h' m :
  h ⊆ h' → base_response client h = Some m → base_response client h' = Some m.
Proof. unfold base_response. destruct (c_response client); [|done]. intros. by eapply lookup_weaken. Qed.

Lemma GetMessage_spec p client qname h q base :
  m_question (c_request client) = Some q → base_response client h = Some base →
  ∃ h' r, GetMessage p client qname h = Ret (h', r) ∧
    match r with
    | Some l => gives (q_type q) p = true ∧ answered p client qname (q_type q) base h h' l
    | None => gives (q_type q) p = false ∧ h ⊆ h'
    end.
Proof.
  intros Hq Hb. unfold GetMessage, gives, answered, policy_reply, base_response in *.
  destruct (lp_kind p) as [| | |rrsets].
  - do 2 eexists. split; [done|]. split; [done|]. do 2 eexists. split_and!; [done..|].
    right. apply (heap_alloc_fresh (empty_response R_NXDOMAIN client)).
  - do 2 eexists. split; [done|]. split; [done|]. do 2 eexists. split_and!; [done..|].
    right. apply (heap_alloc_fresh (empty_response R_NOERROR client)).
  - by exists h, None.
  - rewrite (deref_question_Some _ _ Hq). cbn.
    assert (∀ l h0, h ⊆ h0 → h0 !! l = Some base → c_response client = Some l ∨ h !! l = None →
      (∀ m, <[l := m]> h0 = <[l := m]> h) →
      ∃ h' r, match find_first (λ r, rr_type r =? q_type q) rrsets with
        | Some rrset => Ret (<[l := add_local qname rrset base]> h0, Some l)
        | None => Ret (h0, None)
        end = Ret (h', r) ∧
      match r with
      | Some l => existsb (λ r, rr_type r =? q_type q) rrsets = true ∧
          ∃ h1 m, h ⊆ h1 ∧ h' = <[l:=m]> h1 ∧
            (∃ r, r ∈ rrsets ∧ rr_type r = q_type q ∧ m = add_local qname r base) ∧
            (c_response client = Some l ∨ h1 !! l = None)
      | None => existsb (λ r, rr_type r =? q_type q) rrsets = false ∧ h ⊆ h'
      end) as Hfin.
    { intros l h0 Hsub Hl Hor Hins.
      destruct (find_first _ rrsets) as [rrset|] eqn:Ef; do 2 eexists; (split; [done|]).
      - apply find_first_Some in Ef as (l1 & l2 & -> & Ht & _). split.
        + apply existsb_Exists. exists rrset. set_solver.
        + apply Z.eqb_eq in Ht. exists h, (add_local qname rrset base). rewrite Hins. split_and!; [done..| |done].
          exists rrset. set_solver.
      - split; [|done]. apply find_first_None in Ef. apply not_true_is_false.
        rewrite existsb_Exists. intros (r & Hin & Ht).
        rewrite Forall_forall in Ef. specialize (Ef r Hin). cbn in Ef. congruence. }
    destruct (c_response client) as [l|] eqn:Er; cbn.
    + rewrite (deref_Some _ _ _ Hb). cbn. apply Hfin; auto.
    + injection Hb as <-. unfold deref. rewrite lookup_insert_eq. cbn. apply Hfin.
      * apply (heap_alloc_sub (MakeResponse (c_request client))).
      * apply lookup_insert_eq.
      * right. apply (heap_alloc_fresh (MakeResponse (c_request client))).
      * intros m. by rewrite insert_insert_eq.
Qed.

(** ** The policies of a store *)

(** The policy stored at a name of a view. *)
Definition policy_at (ld : LocalData) (view : string) (n : Name) : option LocalPolicy :=
  t ← ld_policies ld !! view; l ← dt_get n t; ld_store ld !! l.

Definition pointers_ok (ld : LocalData) : Prop :=
  ∀ view t n l, ld_policies ld !! view = Some t → dt_get n t = Some l → is_Some (ld_store ld !! l).

(** A policy concerns a name when it is stored there, or else, when nothing is,
    when it is stored above the name and covers its zone. *)
Definition concerns (ld : LocalData) (view : string) (qname m : Name) (p : LocalPolicy) : Prop :=
  policy_at ld view m = Some p ∧ Name_IsSubDomain qname m = true ∧
  match policy_at ld view qname with
  | Some _ => m ≈ qname
  | None => lp_isZoneMatch p = true
  end.

Definition zone_gives (ld : LocalData) (qtype : RRType) (l : nat) : Prop :=
  ∃ p, ld_store ld !! l = Some p ∧ lp_isZoneMatch p = true ∧ gives qtype p = true.

Lemma ask_parents_spec ld client qname q base parents h :
  m_question (c_request client) = Some q → base_response client h = Some base →
  Forall (λ x, is_Some (ld_store ld !! x.2)) parents →
  ∃ h' r, ask_parents parents client qname ld h = Ret (h', r) ∧
    match r with
    | Some l => ∃ pre m lp p post, parents = pre ++ (m, lp) :: post ∧
        Forall (λ x, ~ zone_gives ld (q_type q) x.2) pre ∧
        ld_store ld !! lp = Some p ∧ lp_isZoneMatch p = true ∧ gives (q_type q) p = true ∧
        answered p client qname (q_type q) base h h' l
    | None => Forall (λ x, ~ zone_gives ld (q_type q) x.2) parents ∧ h ⊆ h'
    end.
Proof.
  intros Hq. revert h. induction parents as [|[m lp] parents IH]; intros h Hb Hall.
  { exists h, None. split; [done|]. by split. }
  apply Forall_cons in Hall as [[p Hp] Hall]. cbn in Hp. cbn [ask_parents].
  unfold deref_policy. rewrite Hp. cbn.
  assert (∀ h0, h ⊆ h0 → ~ zone_gives ld (q_type q) lp →
    ∃ h' r, ask_parents parents client qname ld h0 = Ret (h', r) ∧
    match r with
    | Some l => ∃ pre m0 lp0 p post, (m, lp) :: parents = pre ++ (m0, lp0) :: post ∧
        Forall (λ x, ~ zone_gives ld (q_type q) x.2) pre ∧
        ld_store ld !! lp0 = Some p ∧ lp_isZoneMatch p = true ∧ gives (q_type q) p = true ∧
        answered p client qname (q_type q) base h h' l
    | None => Forall (λ x, ~ zone_gives ld (q_type q) x.2) ((m, lp) :: parents) ∧ h ⊆ h'
    end) as Hskip.
  { intros h0 Hsub Hno. destruct (IH h0) as (h' & r & E & H); [by eapply base_response_mono|done|].
    exists h', r. split; [done|]. destruct r as [l|].
    - destruct H as (pre & m0 & lp0 & p0 & post & -> & ? & ? & ? & ? & h1 & m1 & ? & ?).
      exists ((m, lp) :: pre), m0, lp0, p0, post. split_and!; [done|by constructor|done..|].
      exists h1, m1. split; [by etrans|done].
    - destruct H. split; [by constructor|by etrans]. }
  destruct (lp_isZoneMatch p) eqn:Ez; [|apply Hskip; [done|]; intros (? & ? & ? & ?); congruence].
  destruct (GetMessage_spec p client qname h q base Hq Hb) as (h' & r & -> & H). cbn.
  destruct r as [l|]; destruct H as [Hg H].
  - exists h', (Some l). split; [done|]. by exists [], m, lp, p, parents.
  - apply Hskip; [done|]. intros (? & ? & ? & ?). congruence.
Qed.

(** What the policies of the view's tree answer. *)
Definition local_answer (ld : LocalData) (h : Heap) (client : Client) (qname : Name) (t : dtree nat)
  : outcome (Heap * option nat) :=
  let '(parents, match_) := dt_SearchParents qname t in
  match match_, parents with
  | ExactMatch, (_, l) :: _ => p ← deref_policy l ld; GetMessage p client qname h
  | ExactMatch, [] => Panic "top of an empty chain"
  | ClosestEncloser, _ => ask_parents parents client qname ld h
  | NotFound, _ => Ret (h, None)
  end.

Definition local_answer_spec (ld : LocalData) (h : Heap) (client : Client) (q : Question)
  (qname : Name) (base : Message) (h' : Heap) (r : option nat) : Prop :=
  match r with
  | Some l => ∃ m p, concerns ld (c_view client) qname m p ∧ gives (q_type q) p = true ∧
      (∀ m' p', concerns ld (c_view client) qname m' p' → gives (q_type q) p' = true →
                Name_IsSubDomain m m' = true) ∧
      answered p client qname (q_type q) base h h' l
  | None => (∀ m p, concerns ld (c_view client) qname m p → gives (q_type q) p = false) ∧ h ⊆ h'
  end.

Lemma policy_at_tree ld view t m p :
  ld_policies ld !! view = Some t →
  policy_at ld view m = Some p ↔ ∃ l, dt_get m t = Some l ∧ ld_store ld !! l = Some p.
Proof. intros Ht. unfold policy_at. rewrite Ht. cbn. apply bind_Some. Qed.

Lemma local_answer_exact ld h client q qname base t lp :
  pointers_ok ld → m_question (c_request client) = Some q → base_response client h = Some base →
  ld_policies ld !! c_view client = Some t → dt_get qname t = Some lp →
  ∃ h' r, local_answer ld h client qname t = Ret (h', r) ∧ local_answer_spec ld h client q qname base h' r.
Proof.
  intros Hok Hq Hb Et Hg. unfold local_answer.
  destruct (SearchParents_exact qname t lp Hg) as (m & chain & -> & He).
  destruct (Hok _ _ _ _ Et Hg) as [p Hp]. unfold deref_policy. cbn. rewrite Hp. cbn.
  assert (policy_at ld (c_view client) qname = Some p) as Hat by (apply (policy_at_tree _ _ t); eauto).
  assert (∀ m' p', concerns ld (c_view client) qname m' p' → p' = p ∧ m' ≈ qname) as Hone.
  { intros m' p' (Hm' & _ & He'). rewrite Hat in He'. split; [|done].
    apply (policy_at_tree _ _ t _ _ Et) in Hm' as (l & Hl & Hp').
    rewrite (dt_get_Equals t m' qname He') in Hl. congruence. }
  destruct (GetMessage_spec p client qname h q base Hq Hb) as (h' & r & -> & H).
  exists h', r. split; [done|]. destruct r as [l|]; destruct H as [Hgv H].
  - exists qname, p. split_and!; [|done| |done].
    + unfold concerns. rewrite Hat. split_and!; [done|apply IsSubDomain_refl|done].
    + intros m' p' [_ ->]%Hone _. apply IsSubDomain_refl.
  - split; [|done]. by intros m' p' [-> _]%Hone.
Qed.

Lemma local_answer_parents ld h client q qname base t :
  pointers_ok ld → m_question (c_request client) = Some q → base_response client h = Some base →
  ld_policies ld !! c_view client = Some t → dt_get qname t = None →
  ∃ h' r, local_answer ld h client qname t = Ret (h', r) ∧ local_answer_spec ld h client q qname base h' r.
Proof.
  intros Hok Hq Hb Et Hg. unfold local_answer.
  assert (policy_at ld (c_view client) qname = None) as Hat.
  { unfold policy_at. rewrite Et. cbn. by rewrite Hg. }
  pose proof (SearchParents_other qname t Hg) as Hres.
  pose proof (chain_first qname t (zone_gives ld (q_type q))) as Hfirst.
  pose proof (chain_none qname t (zone_gives ld (q_type q))) as Hnone.
  pose proof (dt_SearchParents_sound qname t) as Hsound.
  destruct (dt_SearchParents qname t) as [chain res]. cbn [fst snd] in *. subst res.
  destruct (ask_parents_spec ld client qname q base chain h Hq Hb) as (h' & r & E & H).
  { apply Forall_forall. intros [m lp] Hin. eapply Hok; [done|]. by apply (Hsound _ _ Hin). }
  exists h', r. split; [destruct chain as [|[m0 l0] chain]; [by injection E as <- <-|done]|].
  unfold local_answer_spec, concerns. rewrite Hat. destruct r as [l|].
  - destruct H as (pre & m & lp & p & post & -> & Hpre & Hp & Hz & Hgv & H).
    destruct (Hsound m lp) as [Hgm Hsm]; [set_solver|]. exists m, p.
    split_and!; [apply (policy_at_tree _ _ t); eauto|done|done|done| |done].
    intros m' p' ((l' & Hl' & Hp')%(policy_at_tree _ _ t _ _ Et) & Hs & Hz') Hg'.
    eapply Hfirst; [done..|]. by exists p'.
  - destruct H as [Hno Hsub]. split; [|done].
    intros m' p' ((l' & Hl' & Hp')%(policy_at_tree _ _ t _ _ Et) & Hs & Hz').
    apply not_true_is_false. intros Hg'. by eapply (Hnone Hno m' l' Hl' Hs); exists p'.
Qed.

(** C16: the answer from local data.  A policy stored at the (redirected) name asked for
    decides alone; otherwise the deepest covering policy above the name that has
    something to say for the type, past exceptions and record sets of other types.
    The answer is written over the client's response or to a new message and nothing
    else changes; without such a policy the client is not answered. *)
Theorem ResponseWithLocalData_spec ld h client q qname base :
  pointers_ok ld → m_question (c_request client) = Some q →
  realQueryName client h = Ret qname → base_response client h = Some base →
  ∃ h' client' found, ResponseWithLocalData ld h client = Ret (h', client', found) ∧
    if found then
      ∃ m p l, concerns ld (c_view client) qname m p ∧ gives (q_type q) p = true ∧
        (∀ m' p', concerns ld (c_view client) qname m' p' → gives (q_type q) p' = true →
                  Name_IsSubDomain m m' = true) ∧
        client' = set_response (Some l) client ∧ answered p client qname (q_type q) base h h' l
    else (∀ m p, concerns ld (c_view client) qname m p → gives (q_type q) p = false) ∧
         client' = client ∧ h ⊆ h'.
Proof.
  intros Hok Hq Hn Hb. unfold ResponseWithLocalData.
  destruct (ld_policies ld !! c_view client) as [t|] eqn:Et.
  2:{ exists h, client, false. split; [done|]. split; [|done].
      intros m p (E & _). unfold policy_at in E. by rewrite Et in E. }
  rewrite Hn, bind_Ret.
  assert (∃ h' r, local_answer ld h client qname t = Ret (h', r) ∧
    local_answer_spec ld h client q qname base h' r) as (h' & r & E & H).
  { destruct (dt_get qname t) as [lp|] eqn:Hg.
    - by eapply local_answer_exact.
    - by eapply local_answer_parents. }
  unfold local_answer in E. destruct (dt_SearchParents qname t) as [chain res].
  rewrite E, bind_Ret. destruct r as [l|]; do 3 eexists; (split; [done|]).
  - destruct H as (m & p & H1 & H2 & H3 & H4). by exists m, p, l.
  - by destruct H.
Qed.
End local_answers.

(** ** The store under additions and removals *)

Section local_store.
Context {N : G53Name} {NL : G53NameLaws N} {M : G53Msg N} {ML : G53MsgLaws M}
        {DT : DomainTree N} {DTL : DomainTreeLaws DT}.

(** The record sets of a policy: some, of distinct types, none empty. *)
Definition rrsets_ok (rrsets : list RRset) : Prop :=
  rrsets ≠ [] ∧ NoDup (rr_type <$> rrsets) ∧ Forall (λ r, rr_rdatas r ≠ []) rrsets.

Definition kind_ok (k : PolicyKind) : Prop :=
  match k with LocalRRset rrsets => rrsets_ok rrsets | _ => True end.

Definition stored (ld : LocalData) (view : string) (n : Name) (l : nat) : Prop :=
  ∃ t, ld_policies ld !! view = Some t ∧ dt_get n t = Some l.

(** Every pointer of a tree leads to a well-formed policy for its name, and no two
    places share a policy. *)
Definition ld_ok (ld : LocalData) : Prop :=
  (∀ view n l, stored ld view n l →
     ∃ p, ld_store ld !! l = Some p ∧ lp_name p ≈ n ∧ kind_ok (lp_kind p)) ∧
  (∀ view n view' n' l, stored ld view n l → stored ld view' n' l → view = view' ∧ n ≈ n').

Lemma ld_ok_pointers ld : ld_ok ld → pointers_ok ld.
Proof.
  intros [H _] view t n l Ht Hl. destruct (H view n l) as (p & Hp & _); [by exists t|eauto].
Qed.

Lemma add_local_rdatas_frame rds old :
  rr_type (add_local_rdatas rds old).1 = rr_type old ∧
  (rr_rdatas old ≠ [] → rr_rdatas (add_local_rdatas rds old).1 ≠ []).
Proof.
  revert old. induction rds as [|d rds IH]; intros old; cbn; [done|].
  destruct (AddRdata d old) as [old'|] eqn:E; [|done].
  apply AddRdata_frame in E as (_ & Ht & _ & _ & Hp). destruct (IH old') as [IHt IHn].
  split; [congruence|]. intros _. apply IHn. intros E. rewrite E in Hp.
  by apply Permutation_nil_l in Hp.
Qed.

Lemma merge_ok new rrsets :
  rr_rdatas new ≠ [] → NoDup (rr_type <$> rrsets) → Forall (λ r, rr_rdatas r ≠ []) rrsets →
  rrsets_ok (LocalRRset_addRRset new rrsets).1 ∧
  rr_type <$> (LocalRRset_addRRset new rrsets).1 ⊆ rr_type new :: (rr_type <$> rrsets).
Proof.
  intros Hne. induction rrsets as [|old rrsets IH]; cbn [LocalRRset_addRRset].
  { intros _ _. split; [|set_solver]. split_and!; [done| |by constructor].
    cbn. apply NoDup_singleton. }
  rewrite fmap_cons. intros [Hni Hnd]%NoDup_cons [Ho Hall]%Forall_cons.
  destruct (Z.eqb_spec (rr_type old) (rr_type new)) as [Ht|Ht].
  - destruct (add_local_rdatas_frame (rr_rdatas new) old) as [Et En]. specialize (En Ho).
    destruct (add_local_rdatas (rr_rdatas new) old) as [old' ok]. cbn in Et, En.
    assert (∀ o, rr_type o = rr_type old → rr_rdatas o ≠ [] →
      rrsets_ok (o :: rrsets) ∧ rr_type <$> o :: rrsets ⊆ rr_type new :: (rr_type <$> old :: rrsets)) as H.
    { intros o E1 E2. rewrite !fmap_cons, E1. split; [|set_solver]. split_and!; [done| |by constructor].
      rewrite fmap_cons, E1. by constructor. }
    destruct ok; by apply H.
  - destruct IH as [(_ & IHd & IHa) IHs]; [done..|].
    destruct (LocalRRset_addRRset new rrsets) as [rs ok]. cbn [fst snd] in *. split.
    + split_and!; [done| |by constructor]. rewrite fmap_cons. constructor; [set_solver|done].
    + set_solver.
Qed.

Lemma add_rrsets_to_ok new rrsets :
  Forall (λ r, rr_rdatas r ≠ []) new → rrsets_ok rrsets → rrsets_ok (add_rrsets_to new rrsets).1.
Proof.
  unfold add_rrsets_to. generalize true. revert rrsets.
  induction new as [|r new IH]; intros rrsets ok Hall Hok; [done|].
  apply Forall_cons in Hall as [Hr Hall]. cbn [foldl fst snd]. destruct ok; [|by apply IH].
  destruct (merge_ok r rrsets) as [H _]; [done|apply Hok..|].
  destruct (LocalRRset_addRRset r rrsets) as [rs ok']. by apply IH.
Qed.

(** The plain meaning of [addRRset]: the set of the type takes the rdatas and the ttl
    (up to a duplicate rdata, which is an error), a new type goes to the end. *)
Definition merge_into (new old : RRset) : RRset :=
  if rr_type old =? rr_type new then
    let r := add_local_rdatas (rr_rdatas new) old in
    if r.2 then set_ttl (rr_ttl new) r.1 else r.1
  else old.
Definition plain_add (new : RRset) (rrsets : list RRset) : list RRset :=
  if existsb (λ old, rr_type old =? rr_type new) rrsets then merge_into new <$> rrsets
  else rrsets ++ [new].
Definition plain_add_ok (new : RRset) (rrsets : list RRset) : bool :=
  forallb (λ old, implb (rr_type old =? rr_type new) (add_local_rdatas (rr_rdatas new) old).2) rrsets.
Definition plain_merge (new rrsets : list RRset) : list RRset * bool :=
  foldl (λ acc r, if acc.2 : bool then (plain_add r acc.1, plain_add_ok r acc.1) else acc)
    (rrsets, true) new.

Lemma merge_others new rrsets :
  Forall (λ r, rr_type r ≠ rr_type new) rrsets →
  merge_into new <$> rrsets = rrsets ∧ plain_add_ok new rrsets = true ∧
  existsb (λ old, rr_type old =? rr_type new) rrsets = false.
Proof.
  induction 1 as [|r rrsets Hr _ (IH1 & IH2 & IH3)]; [done|]. cbn. unfold merge_into at 1.
  rewrite (proj2 (Z.eqb_neq _ _) Hr). cbn. fold (plain_add_ok new rrsets).
  rewrite IH2, IH3. split_and!; [|done..]. f_equal. apply IH1.
Qed.

Lemma addRRset_plain new rrsets :
  NoDup (rr_type <$> rrsets) →
  LocalRRset_addRRset new rrsets = (plain_add new rrsets, plain_add_ok new rrsets).
Proof.
  unfold plain_add. induction rrsets as [|old rrsets IH]; [done|].
  rewrite fmap_cons. intros [Hni Hnd]%NoDup_cons. cbn [LocalRRset_addRRset existsb]. rewrite fmap_cons.
  unfold plain_add_ok. cbn [forallb]. fold (plain_add_ok new rrsets).
  destruct (Z.eqb_spec (rr_type old) (rr_type new)) as [Ht|Ht]; cbn [orb implb].
  - destruct (merge_others new rrsets) as (H1 & H2 & _).
    { apply Forall_forall. intros r Hr E. apply Hni. rewrite Ht, <- E. by apply list_elem_of_fmap_2. }
    rewrite H1, H2, andb_true_r. unfold merge_into. rewrite Ht, Z.eqb_refl.
    destruct (add_local_rdatas (rr_rdatas new) old) as [o ok]. by destruct ok.
  - rewrite (IH Hnd). unfold merge_into at 2. rewrite (proj2 (Z.eqb_neq _ _) Ht).
    cbn [andb]. by destruct (existsb _ rrsets).
Qed.

Lemma add_rrsets_to_plain new rrsets :
  Forall (λ r, rr_rdatas r ≠ []) new → rrsets_ok rrsets → add_rrsets_to new rrsets = plain_merge new rrsets.
Proof.
  unfold add_rrsets_to, plain_merge. generalize true. revert rrsets.
  induction new as [|r new IH]; intros rrsets ok Hall Hok; [done|].
  apply Forall_cons in Hall as [Hr Hall]. cbn [foldl fst snd]. destruct ok; [|by apply IH].
  destruct (merge_ok r rrsets) as [H _]; [done|apply Hok..|].
  rewrite addRRset_plain in * by apply Hok. by apply IH.
Qed.

Lemma plain_delete_ok new rrsets :
  NoDup (rr_type <$> rrsets) → Forall (λ r, rr_rdatas r ≠ []) rrsets →
  NoDup (rr_type <$> plain_delete new rrsets) ∧
  Forall (λ r, rr_rdatas r ≠ []) (plain_delete new rrsets) ∧
  rr_type <$> plain_delete new rrsets ⊆ rr_type <$> rrsets.
Proof.
  induction rrsets as [|old rrsets IH]; [done|]. cbn [plain_delete omap list_omap].
  fold (plain_delete new rrsets). rewrite fmap_cons.
  intros [Hni Hnd]%NoDup_cons [Ho Hall]%Forall_cons. destruct IH as (IHd & IHa & IHs); [done..|].
  assert (∀ o, rr_type o = rr_type old → rr_rdatas o ≠ [] →
    NoDup (rr_type <$> o :: plain_delete new rrsets) ∧
    Forall (λ r, rr_rdatas r ≠ []) (o :: plain_delete new rrsets) ∧
    rr_type <$> o :: plain_delete new rrsets ⊆ rr_type old :: (rr_type <$> rrsets)) as H.
  { intros o E1 E2. rewrite fmap_cons, E1. split_and!; [|by constructor|set_solver].
    constructor; [set_solver|done]. }
  destruct (rr_type old =? rr_type new); [|by apply H].
  destruct (RRCount (strip_rdatas new old) =? 0) eqn:Ec.
  - split_and!; [done..|set_solver].
  - apply H; [apply strip_rdatas_type|]. intros E. unfold RRCount in Ec. by rewrite E in Ec.
Qed.

Lemma delete_all_ok new rrsets :
  NoDup (rr_type <$> rrsets) → Forall (λ r, rr_rdatas r ≠ []) rrsets →
  NoDup (rr_type <$> foldl (λ rs r, LocalRRset_deleteRRset r rs) rrsets new) ∧
  Forall (λ r, rr_rdatas r ≠ []) (foldl (λ rs r, LocalRRset_deleteRRset r rs) rrsets new).
Proof.
  revert rrsets. induction new as [|r new IH]; intros rrsets Hnd Hall; [done|]. cbn.
  rewrite deleteRRset_plain by done. destruct (plain_delete_ok r rrsets Hnd Hall) as (? & ? & _).
  by apply IH.
Qed.

(** The store changes at one name of one view. *)
Definition cell_update (ld : LocalData) (view : string) (n : Name) (o : option LocalPolicy)
  (ld' : LocalData) : Prop :=
  ∀ v m, policy_at ld' v m = if decide (v = view ∧ n ≈ m) then o else policy_at ld v m.

Lemma policy_at_Some ld v n p :
  policy_at ld v n = Some p ↔ ∃ l, stored ld v n l ∧ ld_store ld !! l = Some p.
Proof.
  unfold policy_at, stored. split.
  - intros (t & Ht & (l & Hl & Hp)%bind_Some)%bind_Some. eauto.
  - intros (l & (t & Ht & Hl) & Hp). rewrite Ht. cbn. by rewrite Hl.
Qed.

Lemma stored_proper ld v n m l : n ≈ m → stored ld v n l → stored ld v m l.
Proof. intros E (t & Ht & Hl). exists t. by rewrite <- (dt_get_Equals t n m E). Qed.

Lemma stored_fun ld v n l l' : stored ld v n l → stored ld v n l' → l = l'.
Proof. intros (t & Ht & Hl) (t' & Ht' & Hl'). congruence. Qed.

Lemma policy_at_stored ld v n l : stored ld v n l → policy_at ld v n = ld_store ld !! l.
Proof. intros (t & Ht & Hl). unfold policy_at. rewrite Ht. cbn. by rewrite Hl. Qed.

Lemma policy_at_None ld v n : (∀ l, ~ stored ld v n l) → policy_at ld v n = None.
Proof.
  intros H. destruct (policy_at ld v n) as [p|] eqn:E; [|done].
  apply policy_at_Some in E as (l & Hl & _). by destruct (H l).
Qed.

(** Two stores with the same pointers, where the policies agree. *)
Lemma policy_at_same ld ld' v n :
  (∀ l, stored ld' v n l ↔ stored ld v n l) →
  (∀ l, stored ld v n l → ld_store ld' !! l = ld_store ld !! l) →
  policy_at ld' v n = policy_at ld v n.
Proof.
  intros Hs Hp. destruct (policy_at ld v n) as [p|] eqn:E.
  - apply policy_at_Some in E as (l & Hl & E). apply policy_at_Some. exists l.
    rewrite Hs, Hp; auto.
  - destruct (policy_at ld' v n) as [p'|] eqn:E'; [|done].
    apply policy_at_Some in E' as (l & Hl%Hs & E'). rewrite (policy_at_stored ld v n l Hl) in E.
    rewrite (Hp l Hl) in E'. congruence.
Qed.

Lemma set_policy_ok ld view n l p k :
  ld_ok ld → stored ld view n l → ld_store ld !! l = Some p → kind_ok k →
  let ld' := mkLocalData (ld_policies ld) (<[l := set_kind k p]> (ld_store ld)) in
  ld_ok ld' ∧ cell_update ld view n (Some (set_kind k p)) ld'.
Proof.
  intros [Hok Hinj] Hl Hp Hk ld'. split; [split|].
  - intros v m l' Hs. destruct (Hok v m l' Hs) as (p' & Hp' & Hn & Hk'). cbn [ld_store ld'].
    destruct (decide (l = l')) as [<-|Hne].
    + rewrite lookup_insert_eq. eexists. split; [done|]. rewrite Hp in Hp'. by simplify_eq.
    + rewrite lookup_insert_ne by done. eauto.
  - exact Hinj.
  - intros v m. destruct (decide _) as [[-> He]|Hne].
    + apply policy_at_Some. exists l. cbn. rewrite lookup_insert_eq.
      split; [|done]. by apply (stored_proper ld view n m l He).
    + apply policy_at_same; [done|]. intros l' Hl'. cbn. apply lookup_insert_ne. intros <-.
      destruct (Hinj _ _ _ _ _ Hl Hl') as [-> ?]. by apply Hne.
Qed.

Lemma insert_policy_ok ld view ps ps' l p :
  ld_ok ld → ld_policies ld !! view = Some ps → dt_get (lp_name p) ps = None →
  l ∉ dom (ld_store ld) → kind_ok (lp_kind p) → dt_Insert (lp_name p) l ps = inr ps' →
  ld_ok (put_policy view ps' l p ld) ∧
  cell_update ld view (lp_name p) (Some p) (put_policy view ps' l p ld).
Proof.
  intros [Hok Hinj] Hv Hg Hl Hk Hi.
  destruct (dt_Insert_new (lp_name p) l ps Hg) as (t & E & Ht). rewrite Hi in E. injection E as <-.
  assert (∀ v m l', stored (put_policy view ps' l p ld) v m l' ↔
    if decide (v = view ∧ lp_name p ≈ m) then l' = l else stored ld v m l') as Hst.
  { intros v m l'. unfold stored, put_policy. cbn. destruct (decide (v = view)) as [->|Hne].
    - rewrite lookup_insert_eq. destruct (decide _) as [[_ He]|Hn].
      + split; [intros (? & [= <-] & E)|intros ->; exists ps'; split; [done|]]; rewrite Ht in *;
          unfold name_eq in He; rewrite He in *; congruence.
      + assert (Name_Equals (lp_name p) m = false) as He
          by (apply not_true_is_false; intros ?; by apply Hn).
        split; [intros (? & [= <-] & E); exists ps|intros (? & ? & E); exists ps'];
          (split; [done|]); rewrite Ht, He in *; congruence.
    - rewrite lookup_insert_ne by done. rewrite decide_False by naive_solver. done. }
  assert (∀ v m l', stored ld v m l' → l' ≠ l) as Hfr.
  { intros v m l' Hs ->. destruct (Hok _ _ _ Hs) as (? & E & _). apply Hl. by apply elem_of_dom. }
  assert (∀ v m l', stored ld v m l' → ld_store (put_policy view ps' l p ld) !! l' = ld_store ld !! l')
    as Hsame by (intros v m l' Hs; cbn; by rewrite lookup_insert_ne by (symmetry; eauto)).
  split; [split|].
  - intros v m l' Hs. pose proof Hs as Hs'. rewrite Hst in Hs'. destruct (decide _) as [[-> He]|Hne].
    + subst l'. exists p. cbn. by rewrite lookup_insert_eq.
    + rewrite (Hsame _ _ _ Hs'). eauto.
  - intros v m v' m' l'. rewrite !Hst.
    destruct (decide (v = view ∧ _)) as [[-> He]|], (decide (v' = view ∧ _)) as [[-> He']|].
    + intros _ _. split; [done|]. by rewrite <- He.
    + intros -> Hs. by destruct (Hfr _ _ _ Hs).
    + intros Hs ->. by destruct (Hfr _ _ _ Hs).
    + eauto.
  - intros v m. destruct (decide _) as [Hc|Hc].
    + apply policy_at_Some. exists l. rewrite Hst, decide_True by done. cbn. by rewrite lookup_insert_eq.
    + apply policy_at_same; [|by eauto]. intros l'. by rewrite Hst, decide_False.
Qed.

Lemma delete_policy_ok ld view ps n l store' :
  ld_ok ld → ld_policies ld !! view = Some ps → dt_get n ps = Some l →
  (∀ l', l' ≠ l → store' !! l' = ld_store ld !! l') →
  let ld' := mkLocalData (<[view := dt_Delete n ps]> (ld_policies ld)) store' in
  ld_ok ld' ∧ cell_update ld view n None ld'.
Proof.
  intros [Hok Hinj] Hv Hg Hst ld'.
  assert (∀ v m l', stored ld' v m l' ↔ stored ld v m l' ∧ ~ (v = view ∧ n ≈ m)) as Hs.
  { intros v m l'. unfold stored. cbn. destruct (decide (v = view)) as [->|Hne].
    - rewrite lookup_insert_eq. split.
      + intros (? & [= <-] & E). rewrite dt_get_Delete in E.
        destruct (Name_Equals n m) eqn:He; [done|]. split; [eauto|]. unfold name_eq. intros [_ ?]. congruence.
      + intros [(t & Ht & E) Hc]. eexists. split; [done|]. rewrite dt_get_Delete.
        destruct (Name_Equals n m) eqn:He; [by destruct Hc|congruence].
    - rewrite lookup_insert_ne by done. naive_solver. }
  assert (stored ld view n l) as Hl by (by exists ps).
  assert (∀ v m l', stored ld v m l' → ~ (v = view ∧ n ≈ m) → store' !! l' = ld_store ld !! l') as Hsame.
  { intros v m l' Hs' Hc. apply Hst. intros ->. apply Hc.
    destruct (Hinj _ _ _ _ _ Hs' Hl) as [-> E]. by rewrite E. }
  split; [split|].
  - intros v m l' [H Hc]%Hs. cbn. rewrite (Hsame _ _ _ H Hc). eauto.
  - intros v m v' m' l' [H _]%Hs [H' _]%Hs. eauto.
  - intros v m. destruct (decide _) as [Hc|Hc].
    + apply policy_at_None. intros l' [_ ?]%Hs. done.
    + apply policy_at_same; [|by eauto]. intros l'. rewrite Hs. naive_solver.
Qed.

(** Making a tree for a view changes nothing. *)
Lemma new_view_ok ld view :
  ld_policies ld !! view = None → ld_ok ld →
  let ld' := mkLocalData (<[view := dt_New]> (ld_policies ld)) (ld_store ld) in
  ld_ok ld' ∧ ∀ v m, policy_at ld' v m = policy_at ld v m.
Proof.
  intros Hv [Hok Hinj] ld'.
  assert (∀ v m l, stored ld' v m l ↔ stored ld v m l) as Hs.
  { intros v m l. unfold stored. cbn. destruct (decide (v = view)) as [->|Hne].
    - rewrite lookup_insert_eq, Hv. split; [|by intros (? & ? & ?)].
      intros (? & [= <-] & E). by rewrite dt_get_New in E.
    - by rewrite lookup_insert_ne. }
  split; [split|].
  - intros v m l ?%Hs. eauto.
  - intros v m v' m' l ?%Hs ?%Hs. eauto.
  - intros v m. by apply policy_at_same.
Qed.

(** ** Additions and removals refine updates of one cell *)

Definition spec_add (p : LocalPolicy) (o : option LocalPolicy) : LocalPolicy * option CmdError :=
  match o with
  | None => (p, None)
  | Some oldp =>
      match lp_kind oldp, lp_kind p with
      | LocalRRset old, LocalRRset new =>
          (set_kind (LocalRRset (plain_merge new old).1) oldp,
           if (plain_merge new old).2 then None
           else Some (Error_AddDetail ErrDuplicatePolicy "duplicate rdata"))
      | _, _ => (oldp, Some ErrDuplicatePolicy)
      end
  end.

Definition spec_remove (p : LocalPolicy) (o : option LocalPolicy) : option LocalPolicy :=
  match o with
  | None => None
  | Some oldp =>
      match lp_kind oldp, lp_kind p with
      | LocalRRset target, LocalRRset toRemove =>
          let rrsets := foldl (λ rs r, plain_delete r rs) target toRemove in
          if bool_decide (rrsets = []) then None else Some (set_kind (LocalRRset rrsets) oldp)
      | LocalRRset _, _ => Some oldp
      | _, _ => None
      end
  end.

Lemma cell_update_id ld view n ld' o :
  (∀ v m, policy_at ld' v m = policy_at ld v m) → policy_at ld view n = o →
  cell_update ld view n o ld'.
Proof.
  intros H E v m. rewrite H. destruct (decide _) as [[-> He]|]; [|done].
  unfold policy_at in *. destruct (ld_policies ld !! view) as [t|]; [|done]. cbn in *.
  by rewrite <- (dt_get_Equals t n m He).
Qed.

Lemma addPolicy_refines view p ld :
  ld_ok ld → kind_ok (lp_kind p) →
  ∃ ld', addPolicy view p ld = Ret (ld', (spec_add p (policy_at ld view (lp_name p))).2) ∧
    ld_ok ld' ∧ is_Some (ld_policies ld' !! view) ∧
    cell_update ld view (lp_name p) (Some (spec_add p (policy_at ld view (lp_name p))).1) ld'.
Proof.
  intros Hok Hk. unfold addPolicy.
  set (ps := default dt_New (ld_policies ld !! view)).
  set (ld1 := mkLocalData (<[view := ps]> (ld_policies ld)) (ld_store ld)).
  assert (ld_ok ld1 ∧ ∀ v m, policy_at ld1 v m = policy_at ld v m) as [Hok1 Hat].
  { subst ld1 ps. destruct (ld_policies ld !! view) as [t|] eqn:Ev; cbn.
    - rewrite insert_id by done. by destruct ld.
    - by apply new_view_ok. }
  assert (ld_policies ld1 !! view = Some ps) as Hv by apply lookup_insert_eq.
  rewrite <- Hat. clearbody ld1.
  assert (∀ o ld', cell_update ld1 view (lp_name p) o ld' → cell_update ld view (lp_name p) o ld')
    as Hup by (intros o ld' H v m; by rewrite H, Hat).
  destruct (dt_get (lp_name p) ps) as [l|] eqn:Hg.
  - destruct (SearchParents_exact _ ps l Hg) as (m & chain & -> & _).
    assert (stored ld1 view (lp_name p) l) as Hl by (by exists ps).
    destruct (proj1 Hok1 _ _ _ Hl) as (oldp & Hp & Hn & Hko). unfold deref_policy.
    rewrite (policy_at_stored _ _ _ _ Hl), Hp. cbn.
    assert (∃ ld', Ret (ld1, Some ErrDuplicatePolicy) = Ret (ld', Some ErrDuplicatePolicy) ∧ ld_ok ld' ∧
      is_Some (ld_policies ld' !! view) ∧ cell_update ld view (lp_name p) (Some oldp) ld') as Hdup.
    { exists ld1. split_and!; [done..|by eauto|]. apply Hup, cell_update_id; [done|].
      by rewrite (policy_at_stored _ _ _ _ Hl). }
    destruct (lp_kind oldp) as [| | |old] eqn:Eo, (lp_kind p) as [| | |new] eqn:En; try done.
    destruct (set_policy_ok ld1 view (lp_name p) l oldp (LocalRRset (add_rrsets_to new old).1))
      as [H1 H2]; [done..| |].
    { apply add_rrsets_to_ok; [apply Hk|done]. }
    rewrite add_rrsets_to_plain in * by (apply Hk || done).
    destruct (plain_merge new old) as [rrsets ok]. cbn in *. eexists. split; [done|].
    unfold put_policy. rewrite (insert_id _ _ _ Hv). split_and!; [done|by eauto|by apply Hup].
  - pose proof (SearchParents_other _ ps Hg) as Hres.
    destruct (dt_Insert_new (lp_name p) (fresh (dom (ld_store ld1))) ps Hg) as (ps' & Hi & _).
    destruct (insert_policy_ok ld1 view ps ps' (fresh (dom (ld_store ld1))) p) as [H1 H2];
      [done..|apply is_fresh|done|done|].
    assert (policy_at ld1 view (lp_name p) = None) as ->
      by (apply policy_at_None; intros l (t & Ht & Hl); congruence).
    destruct (dt_SearchParents (lp_name p) ps) as [chain r]. cbn in Hres. subst r. rewrite Hi.
    eexists. split; [|split_and!; [exact H1| |apply Hup, H2]].
    + by destruct chain as [|[]].
    + cbn. rewrite lookup_insert_eq. eauto.
Qed.

Lemma delete_all_plain new rrsets :
  NoDup (rr_type <$> rrsets) → Forall (λ r, rr_rdatas r ≠ []) rrsets →
  foldl (λ rs r, LocalRRset_deleteRRset r rs) rrsets new = foldl (λ rs r, plain_delete r rs) rrsets new.
Proof.
  revert rrsets. induction new as [|r new IH]; intros rrsets Hnd Hall; [done|]. cbn.
  rewrite deleteRRset_plain by done. destruct (plain_delete_ok r rrsets Hnd Hall) as (? & ? & _).
  by apply IH.
Qed.

Lemma removePolicy_refines view p ld :
  ld_ok ld →
  ∃ ld', removePolicy view p ld =
      Ret (ld', if decide (is_Some (ld_policies ld !! view)) then None else Some ErrUnknownView) ∧
    ld_ok ld' ∧ cell_update ld view (lp_name p) (spec_remove p (policy_at ld view (lp_name p))) ld'.
Proof.
  intros Hok. unfold removePolicy. destruct (ld_policies ld !! view) as [ps|] eqn:Hv.
  2:{ exists ld. rewrite decide_False by (by intros []). split_and!; [done..|].
      apply cell_update_id; [done|]. unfold policy_at. by rewrite Hv. }
  rewrite decide_True by eauto. destruct (dt_get (lp_name p) ps) as [l|] eqn:Hg.
  - destruct (SearchParents_exact _ ps l Hg) as (m & chain & -> & _).
    assert (stored ld view (lp_name p) l) as Hl by (by exists ps).
    destruct (proj1 Hok _ _ _ Hl) as (oldp & Hp & Hn & Hko). unfold deref_policy.
    rewrite (policy_at_stored _ _ _ _ Hl), Hp. cbn.
    pose proof (λ s, delete_policy_ok ld view ps (lp_name p) l s Hok Hv Hg) as Hdel. cbn zeta in Hdel.
    destruct (lp_kind oldp) as [| | |target] eqn:Eo;
      [eexists; split; [done|]; by apply Hdel..|].
    destruct (lp_kind p) as [| | |new] eqn:En; [eexists; split; [done|]; split; [done|];
      apply cell_update_id; [done|by rewrite (policy_at_stored _ _ _ _ Hl)]..|].
    destruct Hko as (Hne & Hnd & Hall). destruct (delete_all_ok new target Hnd Hall) as [Hd1 Hd2].
    rewrite <- (delete_all_plain new target Hnd Hall).
    set (rrsets := foldl (λ rs r, LocalRRset_deleteRRset r rs) target new) in *.
    case_bool_decide as He; (eexists; split; [done|]).
    + apply Hdel. intros l' Hl'. by rewrite lookup_insert_ne.
    + unfold put_policy. rewrite (insert_id _ _ _ Hv). by apply set_policy_ok.
  - pose proof (SearchParents_other _ ps Hg) as Hres.
    assert (policy_at ld view (lp_name p) = None) as Hnone
      by (apply policy_at_None; intros l (t & Ht & Hl); congruence).
    destruct (dt_SearchParents (lp_name p) ps) as [chain r]. cbn in Hres. subst r.
    exists ld. split; [by destruct chain as [|[]]|]. split; [done|]. rewrite Hnone.
    by apply cell_update_id.
Qed.

(** ** Every execution *)

Definition policy_types : list string := [LPNXDomain; LPNXRRset; LPExceptionDomain; LPLocalRRset].

Lemma BuildLocalPolicy_ok typ data p :
  BuildLocalPolicy typ data = Ret (inr p) → kind_ok (lp_kind p).
Proof.
  unfold BuildLocalPolicy, newLocalRRset. destruct (index _ 0) as [name| |]; cbn; [|done..].
  destruct (NameStripFirstWildcard name) as [zm [err|origin]]; [done|].
  repeat case_bool_decide; try by intros [= <-].
  destruct (strings_Split data " "%char) as [|? [|ttl [|ty [|x rest]]]]; try done.
  destruct (strconv_Atoi ttl); [|done]. destruct (TypeFromString ty); [|done].
  destruct (RdataFromString _ _); [done|]. intros [= <-]. cbn.
  split_and!; [done|apply NoDup_singleton|by repeat constructor].
Qed.

Lemma BuildLocalPolicy_total typ data :
  typ ∈ policy_types → ∃ r, BuildLocalPolicy typ data = Ret r.
Proof.
  intros Hin. unfold BuildLocalPolicy.
  pose proof (strings_Split_nonempty data " "%char) as Hne.
  destruct (strings_Split data " "%char) as [|name rest]; [done|]. cbn.
  destruct (NameStripFirstWildcard name) as [zm [err|origin]]; [by eauto|].
  repeat case_bool_decide; try by eauto.
  - destruct rest as [|ttl [|ty [|x rest]]]; try by eauto. destruct (strconv_Atoi ttl); eauto.
  - exfalso. unfold policy_types in Hin. set_solver.
Qed.

Definition keeps_ok (f : string → LocalPolicy → LocalData → outcome (LocalData * option CmdError)) : Prop :=
  ∀ view p ld, ld_ok ld → kind_ok (lp_kind p) → ∃ ld' err, f view p ld = Ret (ld', err) ∧ ld_ok ld'.

Lemma addPolicy_keeps_ok : keeps_ok addPolicy.
Proof.
  intros view p ld Hok Hk. destruct (addPolicy_refines view p ld Hok Hk) as (ld' & E & H & _). eauto.
Qed.

Lemma removePolicy_keeps_ok : keeps_ok removePolicy.
Proof.
  intros view p ld Hok _. destruct (removePolicy_refines view p ld Hok) as (ld' & E & H & _). eauto.
Qed.

Lemma change_policies_ok f view typ datas ld :
  keeps_ok f → ld_ok ld → typ ∈ policy_types →
  ∃ ld' err, change_policies f view typ datas ld = Ret (ld', err) ∧ ld_ok ld'.
Proof.
  intros Hf. revert ld. induction datas as [|data datas IH]; intros ld Hok Ht; cbn; [by eauto|].
  destruct (BuildLocalPolicy_total typ data Ht) as [[e|p] E]; rewrite E; cbn; [by eauto|].
  destruct (Hf view p ld Hok) as (ld' & err & -> & Hok'); [by eapply BuildLocalPolicy_ok|].
  cbn. destruct err; [by eauto|]. by apply IH.
Qed.

Lemma change_policies_inv f view typ datas ld ld' err :
  keeps_ok f → ld_ok ld → change_policies f view typ datas ld = Ret (ld', err) → ld_ok ld'.
Proof.
  intros Hf. revert ld. induction datas as [|data datas IH]; intros ld Hok; cbn; [by intros [= <- _]|].
  destruct (BuildLocalPolicy typ data) as [[e|p]| |] eqn:E; cbn; try done; [by intros [= <- _]|].
  destruct (Hf view p ld Hok) as (ld1 & [e|] & -> & Hok'); [by eapply BuildLocalPolicy_ok| |]; cbn.
  - by intros [= <- _].
  - by apply IH.
Qed.

(** What configurations and commands do to a policy store, failed ones too. *)
Inductive local_reachable : LocalData → Prop :=
  | local_new : local_reachable NewLocalData
  | local_add view typ datas ld ld' err :
      local_reachable ld → AddPolicies view typ datas ld = Ret (ld', err) → local_reachable ld'
  | local_remove view typ datas ld ld' err :
      local_reachable ld → RemovePolicies view typ datas ld = Ret (ld', err) → local_reachable ld'.

Lemma local_reachable_inv ld : local_reachable ld → ld_ok ld.
Proof.
  induction 1 as [|view typ datas ld ld' err _ IH E|view typ datas ld ld' err _ IH E].
  - split; [intros v n l (? & ? & _)|intros v n v' n' l (? & ? & _)]; done.
  - by apply (change_policies_inv _ _ _ _ _ _ _ addPolicy_keeps_ok IH E).
  - by apply (change_policies_inv _ _ _ _ _ _ _ removePolicy_keeps_ok IH E).
Qed.


(** C17: adding and removing a policy refine updates of one cell of a map from views and
    names to policies: a new name gets the policy, record sets are merged by type and
    taken away rdata by rdata, a policy without record sets left disappears, anything
    else stored at the name is a duplicate; no other name or view is touched. *)
Theorem local_policies_refine ld view typ data p :
  local_reachable ld → BuildLocalPolicy typ data = Ret (inr p) →
  (∃ ld', addPolicy view p ld = Ret (ld', (spec_add p (policy_at ld view (lp_name p))).2) ∧
     cell_update ld view (lp_name p) (Some (spec_add p (policy_at ld view (lp_name p))).1) ld') ∧
  (∃ ld', removePolicy view p ld =
       Ret (ld', if decide (is_Some (ld_policies ld !! view)) then None else Some ErrUnknownView) ∧
     cell_update ld view (lp_name p) (spec_remove p (policy_at ld view (lp_name p))) ld').
Proof.
  intros Hok%local_reachable_inv Hk%BuildLocalPolicy_ok. split.
  - destruct (addPolicy_refines view p ld Hok Hk) as (ld' & ? & _ & _ & ?). eauto.
  - destruct (removePolicy_refines view p ld Hok) as (ld' & ? & _ & ?). eauto.
Qed.
End local_store.

(** ** The repository's own scenario, and two surprises *)

Section local_examples.

Definition local_client (view name : string) (t : RRType) : Client :=
  match Name_FromString name with
  | inr n => mkClient None None false (query n t) None view 0 false true 0
  | inl _ => mkClient None None false (query [] t) None view 0 false true 0
  end.

Definition demo_local (typ : string) (datas : list string) (ld : LocalData) : LocalData :=
  match AddPolicies "v1" typ datas ld with Ret (ld, _) => ld | _ => ld end.

(** The policies of localpolicy_test.go. *)
Definition playboy : LocalData :=
  demo_local LPLocalRRset
    ["cc.playboy.xxx. 60 A 1.1.1.1"; "cc.playboy.xxx. 60 A 2.2.2.2"; "cc.playboy.xxx. 60 A 3.3.3.3";
     "*.dd.playboy.xxx. 3600 AAAA ::1"; "dd.playboy.cn. 3600 MX 5 mxbiz1.qq.com."]
  (demo_local LPExceptionDomain ["zdns.playboy.xxx."; "www.playboy.com."]
  (demo_local LPNXRRset ["*.playboy.com."; "*.playboy.net."]
  (demo_local LPNXDomain ["*.playboy.xxx."; "*.playboy.cn."] NewLocalData))).

(** Whether a query is answered, with which code and how many records. *)
Definition ask_local (ld : LocalData) (view name : string) (t : RRType) : option (Z * nat) :=
  match ResponseWithLocalData ld ∅ (local_client view name t) with
  | Ret (h, client, true) =>
      m ← c_response client ≫= (h !!.);
      Some (h_rcode (m_header m), length (mjoin (rr_rdatas <$> m_answer m)))
  | _ => None
  end.

Definition remove_local (data : list string) (ld : LocalData) : LocalData :=
  match RemovePolicies "v1" LPLocalRRset data ld with Ret (ld, _) => ld | _ => ld end.

Example playboy_test :
  ask_local playboy "v1" "cccxx.playboy.xxx." RR_A = Some (R_NXDOMAIN, 0%nat) ∧
  ask_local playboy "v1" "Zdns.playboy.xxx." RR_A = None ∧
  ask_local playboy "v1" "cc.playboy.xxx." RR_A = Some (R_NOERROR, 3%nat) ∧
  ask_local playboy "v1" "a.dd.playboy.xxx." RR_AAAA = Some (R_NOERROR, 1%nat) ∧
  ask_local playboy "v1" "a.dd.playboy.xxx." RR_A = Some (R_NXDOMAIN, 0%nat) ∧
  ask_local playboy "v2" "a.dd.playboy.xxx." RR_A = None ∧
  ask_local playboy "v1" "dd.playboy.cn." RR_MX = Some (R_NOERROR, 1%nat) ∧
  ask_local (remove_local ["cc.playboy.xxx. 60 A 2.2.2.2"] playboy) "v1" "cc.playboy.xxx." RR_A =
    Some (R_NOERROR, 2%nat) ∧
  ask_local (remove_local ["cc.playboy.xxx. 60 A 2.2.2.2"; "cc.playboy.xxx. 60 A 1.1.1.1";
                           "cc.playboy.xxx. 60 A 3.3.3.3"] playboy) "v1" "cc.playboy.xxx." RR_A =
    Some (R_NXDOMAIN, 0%nat).
Proof. split_and!; by_eval. Qed.

(** Two surprises of local policies.  An exception for a subtree does not shield the
    names below it from a policy higher up, though an exception at the name itself
    does; and a command with a policy kind that is not one of the four panics instead
    of being refused. *)
Theorem local_surprises :
  let ld := demo_local LPExceptionDomain ["*.ok.playboy.xxx."; "ok2.playboy.xxx."] playboy in
  ask_local ld "v1" "www.ok.playboy.xxx." RR_A = Some (R_NXDOMAIN, 0%nat) ∧
  ask_local ld "v1" "ok2.playboy.xxx." RR_A = None ∧
  FakeAuth_HandleCmd (AddLocalData (mkLocalPolicyData "nxrrset" "v1" "a.b.")) ld =
    Panic "unknown policy type".
Proof. split_and!; by_eval. Qed.

Lemma demo_local_reachable typ datas ld :
  local_reachable ld → local_reachable (demo_local typ datas ld).
Proof.
  intros H. unfold demo_local. destruct (AddPolicies "v1" typ datas ld) as [[ld' err]| |] eqn:E; [|done..].
  by eapply local_add.
Qed.

Lemma playboy_reachable : local_reachable playboy.
Proof. unfold playboy. do 4 apply demo_local_reachable. apply local_new. Qed.


Definition cc_policy : LocalPolicy :=
  mkPolicy ["cc"; "playboy"; "xxx"] false
    (LocalRRset [mkRRset ["cc"; "playboy"; "xxx"] RR_A CLASS_IN 60 [RdA [1; 1; 1; 1]]]).

Lemma local_policies_refine_witness :
  ∃ ld', addPolicy "v1" cc_policy playboy =
      Ret (ld', (spec_add cc_policy (policy_at playboy "v1" (lp_name cc_policy))).2).
Proof.
  destruct (local_policies_refine playboy "v1" LPLocalRRset "cc.playboy.xxx. 60 A 1.1.1.1" cc_policy
              playboy_reachable) as [(ld' & E & _) _]; [by_eval|].
  exists ld'. exact E.
Defined.

Definition cccxx : Client := local_client "v1" "cccxx.playboy.xxx." RR_A.
Definition cccxx_question : Question := mkQuestion ["cccxx"; "playboy"; "xxx"] RR_A CLASS_IN.

Lemma ResponseWithLocalData_spec_witness :
  ∃ h' client' found, ResponseWithLocalData playboy ∅ cccxx = Ret (h', client', found).
Proof.
  destruct (ResponseWithLocalData_spec playboy ∅ cccxx cccxx_question ["cccxx"; "playboy"; "xxx"]
              (MakeResponse (c_request cccxx))) as (h' & client' & found & E & _).
  - apply ld_ok_pointers, local_reachable_inv, playboy_reachable.
  - by_eval.
  - by_eval.
  - by_eval.
  - exists h', client', found. exact E.
Defined.
End local_examples.
