(* ===== verification/Stub.v ===== *)
(** * Stub zones (src/resolver/stub)

    Views have zones whose queries go to configured masters.  A query below a stub
    zone is sent to the zone's only master, or to all of them at once, and the first
    answer wins.  The network is a parameter: what a query from a sender to a server
    ends in, and which of several queries end before the timeout, in which order. *)

From S2P Require Import Prelude GoStd G53 Instances Core HttpCmd Cement Util Chain.

Local Open Scope Z_scope.

Definition ErrAddStubZoneFailed : CmdError := NewError StubZoneErrCodeStart "add stub zone failed".
Definition ErrDeleteStubZoneFailed : CmdError :=
  NewError (StubZoneErrCodeStart + 1) "delete stub zone failed".
Definition ErrUpdateStubZoneFailed : CmdError :=
  NewError (StubZoneErrCodeStart + 2) "update stub zone failed".

Definition sendTimeout : Z := 3 * Second.

Section stub.
Context {N : G53Name} {M : G53Msg N} {DT : DomainTree N}.

(** The network.  [nt_resolve] is [net.ResolveUDPAddr], [nt_exchange] what
    [sender.Query] returns, and [nt_ended] the servers whose queries end within
    [sendTimeout], in the order they end. *)
Record StubNet : Type := mkStubNet {
  nt_resolve : string → option string;
  nt_exchange : UDPSender → string → Message → string + Message;
  nt_ended : UDPSender → list string → list string;
}.

Record StubZoneManager : Type := mkStubZoneManager {
  sz_stubZones : gmap string (dtree (list string));
  sz_sender : option UDPSender;
}.

Definition set_stubZones (zs : gmap string (dtree (list string))) (z : StubZoneManager) : StubZoneManager :=
  mkStubZoneManager zs (sz_sender z).
Definition set_sender (s : UDPSender) (z : StubZoneManager) : StubZoneManager :=
  mkStubZoneManager (sz_stubZones z) (Some s).

(** ** stub.go *)

(** The zones of one view's configuration; the tree of an unknown view is nil. *)
Fixpoint load_stub_zones (zones : list (string * list string)) (tree : option (dtree (list string)))
  : outcome (option (dtree (list string))) :=
  match zones with
  | [] => Ret tree
  | (name, masters) :: zones =>
      match Name_FromString name with
      | inl err => Panic ("stub zone name" +:+ name +:+ " failed:" +:+ err)
      | inr origin =>
          t ← from_option_panic "nil pointer dereference: DomainTree" tree;
          match dt_Insert origin masters t with
          | inl err => Panic ("load stub zone " +:+ name +:+ " failed:" +:+ err)
          | inr t => load_stub_zones zones (Some t)
          end
      end
  end.

Fixpoint load_stubs (conf : list (string * list (string * list string)))
  (stubZones : gmap string (dtree (list string))) : outcome (gmap string (dtree (list string))) :=
  match conf with
  | [] => Ret stubZones
  | (view, zones) :: conf =>
      tree ← load_stub_zones zones (stubZones !! view);
      load_stubs conf (match tree with Some t => <[view := t]> stubZones | None => stubZones end)
  end.

(** [views] are the keys of [GetViewAndIds()]. *)
Definition Stub_ReloadConfig (views : list string) (conf : list (string * list (string * list string)))
  (z : StubZoneManager) : outcome StubZoneManager :=
  zs ← load_stubs conf (list_to_map ((λ v, (v, dt_New)) <$> views));
  Ret (set_stubZones zs z).

Definition getMasters (viewName : string) (name : Name) (z : StubZoneManager)
  : option (list string) * SearchResult :=
  match sz_stubZones z !! viewName with
  | None => (None, NotFound)
  | Some zones =>
      match dt_Search name zones with
      | (_, NotFound) => (None, NotFound)
      | (masters, result) => (masters, result)
      end
  end.

(** The first successful answer in the order the queries end. *)
Fixpoint first_answer (nt : StubNet) (sender : UDPSender) (request : Message) (ended : list string)
  : option Message :=
  match ended with
  | [] => None
  | master :: ended =>
      match nt_exchange nt sender master request with
      | inr resp => Some resp
      | inl _ => first_answer nt sender request ended
      end
  end.

(** The sender is the manager's, whichever query set it last. *)
Definition Stub_handleQuery (nt : StubNet) (z : StubZoneManager) (request : Message)
  (masters : list string) : outcome (string + Message) :=
  match masters with
  | [master] =>
      sender ← from_option_panic "nil pointer dereference: sender" (sz_sender z);
      Ret (nt_exchange nt sender master request)
  | [] => Ret (inl "query timeout")
  | _ =>
      sender ← from_option_panic "nil pointer dereference: sender" (sz_sender z);
      Ret (match first_answer nt sender request (nt_ended nt sender masters) with
           | Some response => inr response
           | None => inl "query timeout"
           end)
  end.

Abbreviation StubState W := (StubZoneManager * QuerySources * Heap * W)%type.

Definition Stub_Resolve {W} (nt : StubNet) (next : option (Handler (StubState W)))
  : Handler (StubState W) := λ s client,
  let '(z, qs, h, w) := s in
  match NewUDPSender (nt_resolve nt) (GetQuerySource (c_view client) qs) sendTimeout with
  | inl _ => Ret (s, client)
  | inr sender =>
      let z := set_sender sender z in
      referral ← (match c_response client with
                  | None => Ret false
                  | Some l => m ← deref l h; t ← ClassifyResponse m; Ret (bool_decide (t = REFERRAL))
                  end);
      if referral : bool then Ret ((z, qs, h, w), client)
      else
        q ← deref_question (c_request client);
        match getMasters (c_view client) (q_name q) z with
        | (Some masters, _) =>
            r ← Stub_handleQuery nt z (c_request client) masters;
            let response :=
              match r with
              | inr response => response
              | inl _ =>
                  let m := MakeResponse (c_request client) in
                  set_header (Header_set_rcode R_SERVFAIL (m_header m)) m
              end in
            let '(l, h) := heap_alloc response h in
            Ret ((z, qs, h, w), set_response (Some l) (set_cache_answer false client))
        | (None, _) => Resolver_PassToNext next (z, qs, h, w) client
        end
  end.

(** ** cmdhandler.go *)

Definition with_origin (zoneName : string)
  (f : Name → outcome (StubZoneManager * option CmdError)) (z : StubZoneManager)
  : outcome (StubZoneManager * option CmdError) :=
  match Name_FromString zoneName with
  | inl err => Ret (z, Some (Error_AddDetail ErrInvalidName err))
  | inr origin => f origin
  end.

Definition addStubZone (viewName zoneName : string) (masters : list string) (z : StubZoneManager)
  : outcome (StubZoneManager * option CmdError) :=
  with_origin zoneName (λ origin,
    match sz_stubZones z !! viewName with
    | None => Ret (z, Some (Error_AddDetail ErrUnknownView viewName))
    | Some zones =>
        match dt_Insert origin masters zones with
        | inl err => Ret (z, Some (Error_AddDetail ErrAddStubZoneFailed err))
        | inr zones => Ret (set_stubZones (<[viewName := zones]> (sz_stubZones z)) z, None)
        end
    end) z.

(** An unknown view gives a nil tree, and its methods dereference it. *)
Definition deleteStubZone (viewName zoneName : string) (z : StubZoneManager)
  : outcome (StubZoneManager * option CmdError) :=
  with_origin zoneName (λ origin,
    zones ← from_option_panic "nil pointer dereference: DomainTree" (sz_stubZones z !! viewName);
    Ret (set_stubZones (<[viewName := dt_Delete origin zones]> (sz_stubZones z)) z, None)) z.

Definition updateStubZone (viewName zoneName : string) (masters : list string) (z : StubZoneManager)
  : outcome (StubZoneManager * option CmdError) :=
  with_origin zoneName (λ origin,
    zones ← from_option_panic "nil pointer dereference: DomainTree" (sz_stubZones z !! viewName);
    let zones := dt_Delete origin zones in
    match dt_Insert origin masters zones with
    | inl err => Ret (set_stubZones (<[viewName := zones]> (sz_stubZones z)) z,
                      Some (Error_AddDetail ErrUpdateStubZoneFailed err))
    | inr zones => Ret (set_stubZones (<[viewName := zones]> (sz_stubZones z)) z, None)
    end) z.

Inductive StubCmd : Type :=
  | AddStubZone (view name : string) (masters : list string)
  | DeleteStubZone (view name : string)
  | UpdateStubZone (view name : string) (masters : list string).

Definition Stub_HandleCmd (cmd : StubCmd) (z : StubZoneManager)
  : outcome (StubZoneManager * option CmdError) :=
  match cmd with
  | AddStubZone view name masters => addStubZone view name masters z
  | DeleteStubZone view name => deleteStubZone view name z
  | UpdateStubZone view name masters => updateStubZone view name masters z
  end.

(** ** Concurrent queries

    Queries run [Resolve] at the same time and share the field [sender].  A query of
    a view with a source address stores its sender, and later sends through whatever
    the field holds. *)

Inductive StubPhase : Type :=
  | Begun
  | SenderSet
  | SentFrom (source : option string).

Record StubQueries : Type := mkStubQueries {
  sq_sender : option UDPSender;
  sq_queries : list (string * StubPhase);
}.

Inductive stub_step (nt : StubNet) (qs : QuerySources) : StubQueries → StubQueries → Prop :=
  | step_set_sender s i view sender :
      sq_queries s !! i = Some (view, Begun) →
      NewUDPSender (nt_resolve nt) (GetQuerySource view qs) sendTimeout = inr sender →
      stub_step nt qs s (mkStubQueries (Some sender) (<[i := (view, SenderSet)]> (sq_queries s)))
  | step_send s i view sender :
      sq_queries s !! i = Some (view, SenderSet) → sq_sender s = Some sender →
      stub_step nt qs s
        (mkStubQueries (sq_sender s) (<[i := (view, SentFrom (us_LocalAddr sender))]> (sq_queries s))).
End stub.

(** ** Properties *)

Section stub_props.
Context {N : G53Name} {NL : G53NameLaws N} {M : G53Msg N} {ML : G53MsgLaws M}
        {DT : DomainTree N} {DTL : DomainTreeLaws DT}.

(** The masters of a zone of a view. *)
Definition stub_at (z : StubZoneManager) (view : string) (n : Name) : option (list string) :=
  t ← sz_stubZones z !! view; dt_get n t.

Lemma getMasters_spec view name z :
  match (getMasters view name z).1 with
  | Some masters => ∃ m, stub_at z view m = Some masters ∧ Name_IsSubDomain name m = true ∧
      ∀ m' ms', stub_at z view m' = Some ms' → Name_IsSubDomain name m' = true →
                Name_IsSubDomain m m' = true
  | None => ∀ m ms, stub_at z view m = Some ms → Name_IsSubDomain name m = false
  end.
Proof.
  unfold getMasters, stub_at, dt_Search. destruct (sz_stubZones z !! view) as [t|]; [|done]. cbn.
  pose proof (dt_SearchParents_result name t) as Hr.
  pose proof (dt_SearchParents_sound name t) as Hs.
  pose proof (chain_first name t (λ _, True)) as Hf.
  pose proof (chain_none name t (λ _, True)) as Hn.
  destruct (dt_SearchParents name t) as [[|[m v] chain] r]; cbn in *; subst r; cbn.
  - intros m ms Hg. apply not_true_is_false. intros Hsub. by eapply (Hn ltac:(constructor) m ms).
  - assert (∃ m, dt_get m t = Some v ∧ Name_IsSubDomain name m = true ∧
      ∀ m' ms', dt_get m' t = Some ms' → Name_IsSubDomain name m' = true → Name_IsSubDomain m m' = true) as H.
    { destruct (Hs m v) as [Hg Hsub]; [left|]. exists m. split_and!; [done..|].
      intros m' ms' Hg' Hs'. by eapply (Hf [] m v chain). }
    by destruct (Name_Equals m name).
Qed.

(** The answer the masters give: the only master's, or that of the master whose
    query ended first with success. *)
Definition masters_answer (nt : StubNet) (sender : UDPSender) (request : Message)
  (masters : list string) (resp : Message) : Prop :=
  match masters with
  | [] => False
  | [master] => nt_exchange nt sender master request = inr resp
  | _ => ∃ pre master post, nt_ended nt sender masters = pre ++ master :: post ∧
      Forall (λ m, ∃ err, nt_exchange nt sender m request = inl err) pre ∧
      nt_exchange nt sender master request = inr resp
  end.

Lemma first_answer_spec nt sender request ended :
  match first_answer nt sender request ended with
  | Some resp => ∃ pre master post, ended = pre ++ master :: post ∧
      Forall (λ m, ∃ err, nt_exchange nt sender m request = inl err) pre ∧
      nt_exchange nt sender master request = inr resp
  | None => Forall (λ m, ∃ err, nt_exchange nt sender m request = inl err) ended
  end.
Proof.
  induction ended as [|master ended IH]; cbn; [constructor|].
  destruct (nt_exchange nt sender master request) as [err|resp] eqn:E; [|by exists [], master, ended].
  destruct (first_answer nt sender request ended) as [resp|].
  - destruct IH as (pre & m & post & -> & Hpre & Hm). exists (master :: pre), m, post.
    split_and!; [done| |done]. constructor; eauto.
  - constructor; eauto.
Qed.

Lemma Stub_handleQuery_spec nt z sender request masters :
  sz_sender z = Some sender →
  ∃ r, Stub_handleQuery nt z request masters = Ret r ∧
    match r with
    | inr resp => masters_answer nt sender request masters resp
    | inl _ => ∀ resp, ~ masters_answer nt sender request masters resp
    end.
Proof.
  intros Hs. unfold Stub_handleQuery, masters_answer. rewrite Hs. cbn.
  destruct masters as [|master [|m2 masters]].
  - eexists. split; [done|]. by intros resp [].
  - eexists. split; [done|]. destruct (nt_exchange _ _ _ _); [by intros resp|done].
  - pose proof (first_answer_spec nt sender request (nt_ended nt sender (master :: m2 :: masters))) as H.
    destruct (first_answer _ _ _ _) as [resp|]; eexists; (split; [done|]); [done|].
    intros resp (pre & m & post & E & _ & Hm). rewrite E in H.
    apply Forall_app in H as [_ [[err He] _]%Forall_cons]. congruence.
Qed.

(** A query through the stub zones.  Below the deepest enclosing stub zone of its
    view it is sent, from the view's source address, to the zone's master or masters,
    and the client gets the first good answer or a server failure, not to be cached;
    outside every stub zone the next resolver gets the query. *)
Theorem Stub_Resolve_spec {W} nt next z qs h (w : W) client sender q :
  NewUDPSender (nt_resolve nt) (GetQuerySource (c_view client) qs) sendTimeout = inr sender →
  c_response client = None → m_question (c_request client) = Some q →
  (∃ m masters resp l,
     stub_at z (c_view client) m = Some masters ∧ Name_IsSubDomain (q_name q) m = true ∧
     (∀ m' ms', stub_at z (c_view client) m' = Some ms' → Name_IsSubDomain (q_name q) m' = true →
                Name_IsSubDomain m m' = true) ∧
     Stub_Resolve nt next (z, qs, h, w) client =
       Ret ((set_sender sender z, qs, <[l := resp]> h, w),
            set_response (Some l) (set_cache_answer false client)) ∧ h !! l = None ∧
     (masters_answer nt sender (c_request client) masters resp ∨
      (∀ r, ~ masters_answer nt sender (c_request client) masters r) ∧
      h_rcode (m_header resp) = R_SERVFAIL ∧ h_id (m_header resp) = h_id (m_header (c_request client)) ∧
      m_question resp = Some q ∧ m_answer resp = [])) ∨
  ((∀ m ms, stub_at z (c_view client) m = Some ms → Name_IsSubDomain (q_name q) m = false) ∧
   Stub_Resolve nt next (z, qs, h, w) client =
     Resolver_PassToNext next (set_sender sender z, qs, h, w) client).
Proof.
  intros Hs Hr Hq. unfold Stub_Resolve. rewrite Hs, Hr. cbn. rewrite (deref_question_Some _ _ Hq). cbn.
  pose proof (getMasters_spec (c_view client) (q_name q) (set_sender sender z)) as Hm.
  destruct (getMasters _ _ _) as [[masters|] res]; cbn in Hm; [left|by right].
  destruct Hm as (m & Hat & Hsub & Hdeep).
  destruct (Stub_handleQuery_spec nt (set_sender sender z) sender (c_request client) masters)
    as (r & -> & Hans); [done|]. cbn.
  pose proof (heap_alloc_fresh (c_request client) h) as Hfresh. cbn in Hfresh.
  destruct r as [err|resp]; do 4 eexists; (split_and!; [done..| | |]);
    [done|done| |done|done|by left].
  right. split; [done|]. cbn. rewrite MakeResponse_id, MakeResponse_question.
  split_and!; [done..|]. apply (MakeResponse_sections _ AnswerSection).
Qed.

Definition stub_update (z : StubZoneManager) (view : string) (n : Name) (o : option (list string))
  (z' : StubZoneManager) : Prop :=
  ∀ v m, stub_at z' v m = if decide (v = view ∧ n ≈ m) then o else stub_at z v m.

Lemma stub_update_tree z view n o t t' :
  sz_stubZones z !! view = Some t →
  (∀ m, dt_get m t' = if Name_Equals n m then o else dt_get m t) →
  stub_update z view n o (set_stubZones (<[view := t']> (sz_stubZones z)) z).
Proof.
  intros Hv Ht v m. unfold stub_at, set_stubZones. cbn [sz_stubZones].
  destruct (decide (v = view)) as [->|Hne].
  - rewrite lookup_insert_eq, Hv. cbn. rewrite Ht.
    destruct (decide (n ≈ m)) as [E|E].
    + rewrite decide_True by done. unfold name_eq in E. by rewrite E.
    + rewrite decide_False by naive_solver. by rewrite (not_true_is_false _ E).
  - rewrite lookup_insert_ne by done. by rewrite decide_False by naive_solver.
Qed.

(** The commands on stub zones of a known view: adding sets the masters of a zone that
    has none and is refused otherwise, deleting and updating always succeed and change
    that zone of that view only.  For an unknown view adding is refused, while deleting
    and updating dereference a nil tree and panic. *)
Theorem stub_commands_spec view name masters z n :
  Name_FromString name = inr n →
  match sz_stubZones z !! view with
  | Some _ =>
      (stub_at z view n = None →
        ∃ z', addStubZone view name masters z = Ret (z', None) ∧ stub_update z view n (Some masters) z') ∧
      (is_Some (stub_at z view n) →
        ∃ err, addStubZone view name masters z = Ret (z, Some (Error_AddDetail ErrAddStubZoneFailed err))) ∧
      (∃ z', deleteStubZone view name z = Ret (z', None) ∧ stub_update z view n None z') ∧
      (∃ z', updateStubZone view name masters z = Ret (z', None) ∧ stub_update z view n (Some masters) z')
  | None =>
      addStubZone view name masters z = Ret (z, Some (Error_AddDetail ErrUnknownView view)) ∧
      is_ret (deleteStubZone view name z) = false ∧ is_ret (updateStubZone view name masters z) = false
  end.
Proof.
  intros Hn. unfold addStubZone, deleteStubZone, updateStubZone, with_origin. rewrite Hn.
  destruct (sz_stubZones z !! view) as [t|] eqn:Hv; [|done]. cbn.
  assert (stub_at z view n = dt_get n t) as -> by (unfold stub_at; by rewrite Hv).
  split_and!.
  - intros Hg. destruct (dt_Insert_new n masters t Hg) as (t' & -> & Ht').
    eexists. split; [done|]. by eapply stub_update_tree.
  - intros Hg. destruct (dt_Insert_dup n masters t Hg) as (err & ->). eauto.
  - eexists. split; [done|]. eapply stub_update_tree; [done|]. intros m. apply dt_get_Delete.
  - destruct (dt_Insert_new n masters (dt_Delete n t)) as (t' & -> & Ht').
    { rewrite dt_get_Delete. by rewrite Equals_refl. }
    eexists. split; [done|]. eapply stub_update_tree; [done|]. intros m. rewrite Ht', dt_get_Delete.
    by destruct (Name_Equals n m).
Qed.
End stub_props.

Section stub_examples.

(** Two masters: the first refuses, the second answers. *)
Definition demo_net : StubNet :=
  mkStubNet (λ _, None)
    (λ _ server request, if bool_decide (server = "192.0.2.2:53") then inr (MakeResponse request)
                         else inl "refused")
    (λ _ servers, servers).

Definition demo_stub : StubZoneManager :=
  mkStubZoneManager {[ "v1" := [(example_com, ["192.0.2.1:53"; "192.0.2.2:53"])] ]} None.
Definition demo_stub_client : Client :=
  mkClient None None false (query www RR_A) None "v1" 0 false true 0.

Lemma Stub_Resolve_spec_witness :
  ∃ l resp, Stub_Resolve demo_net None (demo_stub, ∅, ∅, ()) demo_stub_client =
    Ret ((set_sender (mkUDPSender None sendTimeout) demo_stub, ∅, {[ l := resp ]}, ()),
         set_response (Some l) (set_cache_answer false demo_stub_client)).
Proof.
  destruct (Stub_Resolve_spec demo_net None demo_stub ∅ ∅ () demo_stub_client
              (mkUDPSender None sendTimeout) (mkQuestion www RR_A CLASS_IN))
    as [(m & masters & resp & l & _ & _ & _ & E & _)|[H _]]; [by_eval..| |].
  - exists l, resp. exact E.
  - exfalso. specialize (H example_com ["192.0.2.1:53"; "192.0.2.2:53"]).
    assert (true = false) as Hf by exact (H ltac:(by_eval)). done.
Defined.

Lemma stub_commands_spec_witness :
  ∃ z', updateStubZone "v1" "example.com" ["192.0.2.9:53"] demo_stub = Ret (z', None).
Proof.
  destruct (stub_commands_spec "v1" "example.com" ["192.0.2.9:53"] demo_stub example_com)
    as (_ & _ & _ & z' & E & _); [by_eval|].
  exists z'. exact E.
Defined.

(** Queries of different views race on the sender.  With a source address configured
    for view b only, a query of view a that is overtaken between storing its sender and
    using it is sent from the source address of view b; run alone it is sent from its
    own. *)
Theorem stub_sender_race :
  let qs : QuerySources := {[ "b" := "198.51.100.7:0" ]} in
  rtc (stub_step demo_net qs)
    (mkStubQueries None [("a", Begun); ("b", Begun)])
    (mkStubQueries (Some (mkUDPSender (Some "198.51.100.7:0") sendTimeout))
       [("a", SentFrom (Some "198.51.100.7:0")); ("b", SentFrom (Some "198.51.100.7:0"))]) ∧
  rtc (stub_step demo_net qs)
    (mkStubQueries None [("a", Begun)])
    (mkStubQueries (Some (mkUDPSender None sendTimeout)) [("a", SentFrom None)]).
Proof.
  split.
  - eapply rtc_l; [apply (step_set_sender _ _ _ 0 "a" (mkUDPSender None sendTimeout)); by_eval|].
    eapply rtc_l; [apply (step_set_sender _ _ _ 1 "b" (mkUDPSender (Some "198.51.100.7:0") sendTimeout)); by_eval|].
    eapply rtc_l; [apply (step_send _ _ _ 0 "a" (mkUDPSender (Some "198.51.100.7:0") sendTimeout)); by_eval|].
    eapply rtc_l; [apply (step_send _ _ _ 1 "b" (mkUDPSender (Some "198.51.100.7:0") sendTimeout)); by_eval|].
    apply rtc_refl.
  - eapply rtc_l; [apply (step_set_sender _ _ _ 0 "a" (mkUDPSender None sendTimeout)); by_eval|].
    eapply rtc_l; [apply (step_send _ _ _ 0 "a" (mkUDPSender None sendTimeout)); by_eval|].
    apply rtc_refl.
Qed.
End stub_examples.
