(* ===== verification/RespTransfer.v ===== *)
(** * Transfers of responses (src/responsetransfer: transfer.go, aaaafilter, sortlist)

    Handlers that change a response on its way back to the client: the AAAA filter
    drops IPv6 addresses for the clients of some access lists, the sort list puts
    the addresses a client prefers first.  (The third, hijack, is in LocalData.)
    Both work on the message the client's response points to. *)

From S2P Require Import Prelude GoStd G53 Instances Core HttpCmd Cement Schedule Acl.

Local Open Scope Z_scope.

(** [sort.Sort] with [Less] comparing keys: it puts the keys in order and promises
    nothing about elements with equal keys. *)
Class GoSort : Type := sort_Sort : ∀ A, (A → Z) → list A → list A.
Arguments sort_Sort {_ A}.

Class GoSortLaws (G : GoSort) : Prop := {
  sort_Sort_perm {A} (key : A → Z) l : sort_Sort key l ≡ₚ l;
  sort_Sort_sorted {A} (key : A → Z) l :
    StronglySorted (λ x y, key x ≤ key y) (sort_Sort key l);
}.

(** The lists of each view's filter, and each view's preference lists by source. *)
Abbreviation AaaaFilter := (gmap string (list string)).
Abbreviation UserAddrBasedSorter := (gmap string (nrtree (nrtree Z))).

Section transfer.
Context {N : G53Name} {R : NetRadix} {G : GoSort}.

(** ** transfer.go *)

(** What the interface [Transfer] does to the heap and the client. *)
Abbreviation TransferResponse := (Heap → Client → outcome (Heap * Client)).

Definition transferAdaptor_HandleQuery {W} (transfer : W → TransferResponse)
  (next : option (Handler (Heap * W))) : Handler (Heap * W) := λ s client,
  r ← PassToNext next s client;
  let '((h, w), client) := r in
  r ← transfer w h client;
  Ret ((r.1, w), r.2).

(** ** aaaafilter *)

Definition AaaaFilter_ReloadConfig (conf : list (string * list string)) : AaaaFilter :=
  foldl (λ m c, <[c.1 := c.2]> m) ∅ conf.

(** The first list that matches ends the loop. *)
Fixpoint any_acl (acls : list string) (client : Client) (am : AclManager) : outcome bool :=
  match acls with
  | [] => Ret false
  | aclName :: acls =>
      ip ← Client_IP client;
      if AclManager_Find aclName ip am then Ret true else any_acl acls client am
  end.

Definition isTransferEnable (f : AaaaFilter) (am : AclManager) (client : Client) : outcome bool :=
  match f !! c_view client with
  | None => Ret false
  | Some acls => any_acl acls client am
  end.

Fixpoint no_aaaa (rrsets : list RRset) : list RRset :=
  match rrsets with
  | [] => []
  | rrset :: rrsets =>
      if negb (rr_type rrset =? RR_AAAA) then rrset :: no_aaaa rrsets else no_aaaa rrsets
  end.

Definition removeAaaaInSection (section : SectionType) (response : Message) : Message :=
  set_section section (no_aaaa (Sections response section)) response.

Definition removeAaaaRecords (response : Message) : Message :=
  removeAaaaInSection AdditionalSection (removeAaaaInSection AnswerSection response).

Definition AaaaFilter_TransferResponse (am : AclManager) (f : AaaaFilter) : TransferResponse :=
  λ h client,
  enabled ← isTransferEnable f am client;
  if enabled : bool then
    match c_response client with
    | None => Ret (h, client)
    | Some l =>
        m ← deref l h;
        if h_rcode (m_header m) =? R_NOERROR then Ret (<[l := removeAaaaRecords m]> h, client)
        else Ret (h, client)
    end
  else Ret (h, client).

Definition updateViewAcls (view : string) (acls : list string) (f : AaaaFilter) : AaaaFilter :=
  match acls with
  | [] => delete view f
  | _ => <[view := acls]> f
  end.

(** ** sortlist *)

Definition ErrAddSortListFailed : CmdError := NewError SortListErrCodeStart "add sort list failed".
Definition ErrDeleteSortListFailed : CmdError :=
  NewError (SortListErrCodeStart + 1) "delete sort list failed".
Definition ErrUpdateSortListFailed : CmdError :=
  NewError (SortListErrCodeStart + 2) "update sort list failed".
Definition ErrUnknownSortlist : string := "unknown sort list".

Definition maxOrderCnt : Z := 65535.

(** Networks that do not parse are skipped. *)
Definition newOrderTree (preferedIps : list string) : nrtree Z :=
  foldl (λ t p, match nr_Add p.2 (Z.of_nat p.1) t with inr t => t | inl _ => t end)
    nr_New (imap pair preferedIps).

Definition rdata_host (t : RRType) (rd : Rdata) : outcome IP :=
  if t =? RR_A then
    match rd with RdA host => Ret host | _ => Panic "interface conversion: not *g53.A" end
  else
    match rd with RdAAAA host => Ret host | _ => Panic "interface conversion: not *g53.AAAA" end.

Definition host_order (orderTree : nrtree Z) (host : IP) : Z :=
  match nr_SearchBest host orderTree with Some order => order | None => maxOrderCnt end.

(** The rdatas with their places; the map of the source is from rdatas to places. *)
Fixpoint rr_orders (orderTree : nrtree Z) (t : RRType) (rdatas : list Rdata)
  : outcome (list (Rdata * Z)) :=
  match rdatas with
  | [] => Ret []
  | rd :: rdatas =>
      host ← rdata_host t rd;
      rest ← rr_orders orderTree t rdatas;
      Ret ((rd, host_order orderTree host) :: rest)
  end.

Definition Sort (view : string) (sourceIP : IP) (sorter : UserAddrBasedSorter) (rrset : RRset)
  : outcome RRset :=
  if (length (rr_rdatas rrset) <? 2)%nat
     || (negb (rr_type rrset =? RR_A) && negb (rr_type rrset =? RR_AAAA)) then Ret rrset
  else
    match sorter !! view with
    | None => Ret rrset
    | Some sourceTree =>
        match nr_SearchBest sourceIP sourceTree with
        | None => Ret rrset
        | Some orderTree =>
            orders ← rr_orders orderTree (rr_type rrset) (rr_rdatas rrset);
            Ret (set_rdatas (fst <$> sort_Sort snd orders) rrset)
        end
    end.

Fixpoint sort_answers (sorter : UserAddrBasedSorter) (client : Client) (answers : list RRset)
  : outcome (list RRset) :=
  match answers with
  | [] => Ret []
  | rrset :: answers =>
      ip ← Client_IP client;
      rrset ← Sort (c_view client) ip sorter rrset;
      answers ← sort_answers sorter client answers;
      Ret (rrset :: answers)
  end.

(** The new sets are written into the slice of answers of this message; a copy of the
    message that shares the slice is not followed. *)
Definition SortList_TransferResponse (sorter : UserAddrBasedSorter) : TransferResponse :=
  λ h client,
  match c_response client with
  | None => Ret (h, client)
  | Some l =>
      m ← deref l h;
      answers ← sort_answers sorter client (m_answer m);
      Ret (<[l := set_section AnswerSection answers m]> h, client)
  end.

(** A tree is made for a new view before the source is tried. *)
Definition addSorter (view sourceIp : string) (preferedIps : list string) (sorter : UserAddrBasedSorter)
  : UserAddrBasedSorter * option string :=
  let orderTree := newOrderTree preferedIps in
  let sourceTree := default nr_New (sorter !! view) in
  match nr_Add sourceIp orderTree sourceTree with
  | inl err => (<[view := sourceTree]> sorter, Some err)
  | inr sourceTree => (<[view := sourceTree]> sorter, None)
  end.

Definition deleteSorter (view sourceIp : string) (sorter : UserAddrBasedSorter)
  : UserAddrBasedSorter * option string :=
  match sorter !! view with
  | None => (sorter, Some ErrUnknownSortlist)
  | Some tree =>
      match nr_Delete sourceIp tree with
      | inl err => (sorter, Some err)
      | inr tree => (<[view := tree]> sorter, None)
      end
  end.

Definition updateSorter (view sourceIp : string) (preferedIps : list string)
  (sorter : UserAddrBasedSorter) : UserAddrBasedSorter * option string :=
  let orderTree := newOrderTree preferedIps in
  match sorter !! view with
  | None => (sorter, Some ErrUnknownSortlist)
  | Some sourceTree =>
      match nr_Delete sourceIp sourceTree with
      | inl err => (sorter, Some err)
      | inr sourceTree =>
          match nr_Add sourceIp orderTree sourceTree with
          | inl err => (<[view := sourceTree]> sorter, Some err)
          | inr sourceTree => (<[view := sourceTree]> sorter, None)
          end
      end
  end.

Fixpoint Sorter_load (conf : list (string * string * list string)) (sorter : UserAddrBasedSorter)
  : outcome UserAddrBasedSorter :=
  match conf with
  | [] => Ret sorter
  | (view, sourceIp, preferedIps) :: conf =>
      match addSorter view sourceIp preferedIps sorter with
      | (_, Some err) => Panic ("sortlist load config failed:" +:+ err)
      | (sorter, None) => Sorter_load conf sorter
      end
  end.

Definition Sorter_ReloadConfig (conf : list (string * string * list string)) : outcome UserAddrBasedSorter :=
  Sorter_load conf ∅.

Inductive SortListCmd : Type :=
  | AddSortList (view sourceIp : string) (preferedIps : list string)
  | DeleteSortList (view sourceIp : string)
  | UpdateSortList (view sourceIp : string) (preferedIps : list string).

Definition Sorter_HandleCmd (cmd : SortListCmd) (sorter : UserAddrBasedSorter)
  : UserAddrBasedSorter * option CmdError :=
  let report e (r : UserAddrBasedSorter * option string) := (r.1, Error_AddDetail e <$> r.2) in
  match cmd with
  | AddSortList view sourceIp preferedIps =>
      report ErrAddSortListFailed (addSorter view sourceIp preferedIps sorter)
  | DeleteSortList view sourceIp => report ErrDeleteSortListFailed (deleteSorter view sourceIp sorter)
  | UpdateSortList view sourceIp preferedIps =>
      report ErrDeleteSortListFailed (updateSorter view sourceIp preferedIps sorter)
  end.
End transfer.

(** ** An instance of [sort.Sort] *)

Definition key_le {A} (key : A → Z) : relation A := λ x y, key x ≤ key y.
#[export] Instance key_le_dec {A} (key : A → Z) : RelDecision (key_le key).
Proof. intros x y. unfold key_le. apply _. Defined.
#[export] Instance key_le_total {A} (key : A → Z) : Total (key_le key).
Proof. intros x y. unfold key_le. lia. Qed.
#[export] Instance key_le_trans {A} (key : A → Z) : Transitive (key_le key).
Proof. intros x y z. unfold key_le. lia. Qed.

#[export] Instance merge_GoSort : GoSort := λ A key l, merge_sort (key_le key) l.

#[export] Instance merge_GoSort_laws : GoSortLaws merge_GoSort.
Proof.
  split; intros A key l; unfold sort_Sort, merge_GoSort.
  - apply merge_sort_Permutation.
  - apply (StronglySorted_merge_sort (key_le key)).
Qed.
