(* ===== verification/RespTransferSpec.v ===== *)
(** * What the response transfers promise

    The AAAA filter and the sort list on every branch, and what becomes of cached
    messages when transfers sit above the cache. *)

From S2P Require Import Prelude GoStd G53 Instances Core HttpCmd Cement Schedule Acl Cache CacheHandler Util Chain Dns64 LocalData RespTransfer.
From Stdlib Require Import Ascii.

Local Open Scope Z_scope.

Section filter_spec.
Context {N : G53Name} {R : NetRadix}.

Lemma any_acl_spec acls client am ip :
  Client_IP client = Ret ip →
  any_acl acls client am = Ret (existsb (λ a, AclManager_Find a ip am) acls).
Proof.
  intros Hip. induction acls as [|a acls IH]; cbn; [done|]. rewrite Hip. cbn.
  by destruct (AclManager_Find a ip am).
Qed.

Lemma no_aaaa_filter rrsets : no_aaaa rrsets = base.filter (λ r, rr_type r ≠ RR_AAAA) rrsets.
Proof.
  induction rrsets as [|r rrsets IH]; [done|]. cbn [no_aaaa]. rewrite filter_cons, IH.
  destruct (Z.eqb_spec (rr_type r) RR_AAAA); [by rewrite decide_False by naive_solver|].
  by rewrite decide_True.
Qed.

(** The client belongs to a list of its view. *)
Definition filtered (f : AaaaFilter) (am : AclManager) (ip : IP) (client : Client) : Prop :=
  ∃ acls a, f !! c_view client = Some acls ∧ a ∈ acls ∧ AclManager_Find a ip am = true.

(** The AAAA filter.  When the client's address is in one of the access lists of its
    view and the response is not an error, exactly the AAAA record sets leave the answer
    and additional sections, the others keep their order, and the header (counts too)
    and the other sections stay; otherwise nothing changes.  No other message changes. *)
Theorem aaaa_filter_spec f am h client ip l m :
  Client_IP client = Ret ip → c_response client = Some l → h !! l = Some m →
  ∃ m', AaaaFilter_TransferResponse am f h client = Ret (<[l := m']> h, client) ∧
    (filtered f am ip client → h_rcode (m_header m) = R_NOERROR →
       m_answer m' = base.filter (λ r, rr_type r ≠ RR_AAAA) (m_answer m) ∧
       m_additional m' = base.filter (λ r, rr_type r ≠ RR_AAAA) (m_additional m) ∧
       m_auth m' = m_auth m ∧ m_header m' = m_header m ∧ m_question m' = m_question m) ∧
    (~ filtered f am ip client ∨ h_rcode (m_header m) ≠ R_NOERROR → m' = m).
Proof.
  intros Hip Hr Hm. unfold AaaaFilter_TransferResponse, isTransferEnable, filtered.
  assert (∃ b, (match f !! c_view client with None => Ret false | Some acls => any_acl acls client am end)
    = Ret b ∧ (b = true ↔ ∃ acls a, f !! c_view client = Some acls ∧ a ∈ acls ∧ AclManager_Find a ip am = true))
    as (b & -> & Hb).
  { destruct (f !! c_view client) as [acls|]; [|exists false; naive_solver].
    rewrite (any_acl_spec _ _ _ ip Hip). eexists. split; [done|]. rewrite existsb_Exists. naive_solver. }
  rewrite Hr. cbn [mbind outcome_bind]. rewrite (deref_Some _ _ _ Hm). cbn [mbind outcome_bind].
  destruct b; [destruct (Z.eqb_spec (h_rcode (m_header m)) R_NOERROR) as [Hc|Hc]|].
  - eexists. split; [done|]. cbn. rewrite !no_aaaa_filter. split; [done|]. intros [[]|]; [by apply Hb|done].
  - exists m. rewrite insert_id by done. split; [done|]. split; [congruence|done].
  - exists m. rewrite insert_id by done. split; [done|]. split; [|done]. intros H _. by apply Hb in H.
Qed.
End filter_spec.

Section sort_spec.
Context {N : G53Name} {R : NetRadix} {RL : NetRadixLaws R} {G : GoSort} {GL : GoSortLaws G}.

(** The address a record holds. *)
Definition host_of (t : RRType) (rd : Rdata) : option IP :=
  match rd with
  | RdA host => if t =? RR_A then Some host else None
  | RdAAAA host => if t =? RR_AAAA then Some host else None
  | _ => None
  end.

(** The place of a record: that of the preferred network its address is in. *)
Definition place (orderTree : nrtree Z) (t : RRType) (rd : Rdata) : Z :=
  from_option (host_order orderTree) maxOrderCnt (host_of t rd).

Lemma rdata_host_of t rd host : host_of t rd = Some host → rdata_host t rd = Ret host.
Proof.
  unfold host_of, rdata_host. destruct rd; try done.
  - by destruct (t =? RR_A); intros [= ->].
  - destruct (Z.eqb_spec t RR_AAAA) as [->|]; [|done]. by intros [= ->].
Qed.

Lemma rr_orders_spec orderTree t rdatas :
  Forall (λ rd, is_Some (host_of t rd)) rdatas →
  rr_orders orderTree t rdatas = Ret ((λ rd, (rd, place orderTree t rd)) <$> rdatas).
Proof.
  induction 1 as [|rd rdatas [host Hh] _ IH]; [done|]. cbn.
  rewrite (rdata_host_of _ _ _ Hh). cbn. rewrite IH. cbn. unfold place at 2. by rewrite Hh.
Qed.

Lemma sorted_keys {A} (f : A → Z) (l : list (A * Z)) :
  Forall (λ x, x.2 = f x.1) l → StronglySorted (λ x y, x.2 ≤ y.2) l →
  StronglySorted (λ x y, f x ≤ f y) (fst <$> l).
Proof.
  intros Hf. induction 1 as [|x l _ IH Hall]; cbn; [constructor|].
  apply Forall_cons in Hf as [Hx Hf]. constructor; [by apply IH|].
  apply Forall_fmap. rewrite Forall_forall in *. intros y Hy. cbn. rewrite <- Hx, <- (Hf y Hy).
  by apply Hall.
Qed.

(** A network of the preferred list at an index. *)
Definition preferred (ips : list string) (i : nat) (net : Network) : Prop :=
  ∃ s, ips !! i = Some s ∧ net_parse s = inr net.

Lemma newOrderTree_snoc ips s :
  newOrderTree (ips ++ [s]) =
  match nr_Add s (Z.of_nat (length ips)) (newOrderTree ips) with
  | inr t => t | inl _ => newOrderTree ips end.
Proof.
  unfold newOrderTree. rewrite imap_app, foldl_app. cbn. by rewrite Nat.add_0_r.
Qed.

Lemma newOrderTree_nets ips :
  (∀ net o, (net, o) ∈ nr_nets (newOrderTree ips) → ∃ i, o = Z.of_nat i ∧ preferred ips i net) ∧
  (∀ i net, preferred ips i net → ∃ o, (net, o) ∈ nr_nets (newOrderTree ips)).
Proof.
  induction ips as [|s ips [IH1 IH2]] using rev_ind.
  { split; [|by intros i net (s & E & _)]. intros net o. unfold newOrderTree. cbn. rewrite nr_nets_New.
    by intros []%elem_of_nil. }
  rewrite newOrderTree_snoc.
  assert (∀ i net, preferred ips i net → preferred (ips ++ [s]) i net) as Hmono.
  { intros i net (s' & E & Hp). exists s'. split; [|done]. by apply lookup_app_l_Some. }
  assert (∀ i net, preferred (ips ++ [s]) i net → preferred ips i net ∨ net_parse s = inr net) as Hinv.
  { intros i net (s' & [E|[_ E]]%lookup_app_Some & Hp); [left; by exists s'|].
    apply list_lookup_singleton_Some in E as [_ <-]. by right. }
  destruct (net_parse s) as [err|net0] eqn:Hp.
  - rewrite (nr_Add_err _ _ _ _ Hp). split.
    + intros net o (i & -> & Hi)%IH1. eauto.
    + intros i net [Hi|?]%Hinv; [by eapply IH2|done].
  - destruct (nr_Add_ok s net0 (Z.of_nat (length ips)) (newOrderTree ips) Hp) as (t & -> & Ht). split.
    + intros net o [[= -> ->]|[Hin _]]%Ht.
      * exists (length ips). split; [done|]. exists s. split; [|done]. by apply list_lookup_middle.
      * apply IH1 in Hin as (i & -> & Hi). eauto.
    + intros i net Hi. destruct (decide (net = net0)) as [->|Hne].
      * eexists. apply Ht. by left.
      * apply Hinv in Hi as [Hi|?]; [|congruence]. apply IH2 in Hi as [o Ho].
        exists o. apply Ht. by right.
Qed.

(** Where an address stands: at the index of a preferred network that holds it, or
    behind all when none does. *)
Lemma host_order_spec ips host :
  (∃ i net, host_order (newOrderTree ips) host = Z.of_nat i ∧ preferred ips i net ∧
            net_contains net host = true) ∨
  (host_order (newOrderTree ips) host = maxOrderCnt ∧
   ∀ i net, preferred ips i net → net_contains net host = false).
Proof.
  unfold host_order. destruct (newOrderTree_nets ips) as [H1 H2].
  destruct (nr_SearchBest host (newOrderTree ips)) as [o|] eqn:E; [left|right].
  - apply nr_SearchBest_sound in E as (net & Hin & Hc). apply H1 in Hin as (i & -> & Hi). eauto.
  - split; [done|]. intros i net Hi. apply not_true_is_false. intros Hc.
    destruct (H2 i net Hi) as [o Ho].
    destruct (nr_SearchBest_complete host _ _ _ Ho Hc) as [? E']. congruence.
Qed.

(** The sort list.  For a client whose address has a preference list, the addresses
    of an answer are put in the order of the preferred networks they are in, those in
    none last; the record set keeps its name, type, class, ttl and, up to order, its
    addresses. *)
Theorem Sort_spec view ip (sorter : UserAddrBasedSorter) tree ips rrset :
  sorter !! view = Some tree → nr_SearchBest ip tree = Some (newOrderTree ips) →
  rr_type rrset = RR_A ∨ rr_type rrset = RR_AAAA → (2 ≤ length (rr_rdatas rrset))%nat →
  Forall (λ rd, is_Some (host_of (rr_type rrset) rd)) (rr_rdatas rrset) →
  ∃ rdatas, Sort view ip sorter rrset = Ret (set_rdatas rdatas rrset) ∧
    rdatas ≡ₚ rr_rdatas rrset ∧
    StronglySorted (λ x y, place (newOrderTree ips) (rr_type rrset) x
                           ≤ place (newOrderTree ips) (rr_type rrset) y) rdatas ∧
    Forall (λ rd, ∃ host, host_of (rr_type rrset) rd = Some host ∧
      ((∃ i net, place (newOrderTree ips) (rr_type rrset) rd = Z.of_nat i ∧ preferred ips i net ∧
                 net_contains net host = true) ∨
       (place (newOrderTree ips) (rr_type rrset) rd = maxOrderCnt ∧
        ∀ i net, preferred ips i net → net_contains net host = false))) rdatas.
Proof.
  intros Hv Hs Ht Hl Hh. unfold Sort.
  rewrite (proj2 (Nat.ltb_ge _ _)) by done.
  replace (negb (rr_type rrset =? RR_A) && negb (rr_type rrset =? RR_AAAA)) with false
    by (by destruct Ht as [-> | ->]).
  cbn [orb]. rewrite Hv, Hs, (rr_orders_spec _ _ _ Hh). cbn.
  set (t := newOrderTree ips). set (l := (λ rd, (rd, place t (rr_type rrset) rd)) <$> rr_rdatas rrset).
  assert (sort_Sort snd l ≡ₚ l) as Hp by apply sort_Sort_perm.
  assert (fst <$> sort_Sort snd l ≡ₚ rr_rdatas rrset) as Hp'.
  { rewrite Hp. subst l. rewrite <- list_fmap_compose. by rewrite list_fmap_id. }
  eexists. split; [done|]. split_and!; [done| |].
  - apply (sorted_keys (place t (rr_type rrset))); [|apply sort_Sort_sorted].
    rewrite Hp. subst l. apply Forall_fmap, Forall_forall. by intros.
  - rewrite Hp'. eapply Forall_impl; [done|]. cbn. intros rd [host Hhost]. exists host.
    split; [done|]. unfold place. rewrite Hhost. cbn. apply host_order_spec.
Qed.
End sort_spec.

(** ** Witnesses, and transfers above the cache *)

Section transfer_examples.

Definition v6_rrset (n : Name) : RRset :=
  mkRRset n RR_AAAA CLASS_IN 60 [RdAAAA [32; 1; 13; 184; 0; 0; 0; 0; 0; 0; 0; 0; 0; 0; 0; 1]].

(** A resolver that knows the IPv6 address of every name. *)
Definition v6_resolver (client : Client) : option Message :=
  q ← m_question (c_request client);
  Some (plain_Recalculate (answer (q_name q) RR_AAAA [v6_rrset (q_name q)])).

Definition demo_acls : AclManager :=
  match AclManager_add 0 "v4only" ["10.0.0"] (mkAclManager ∅ ∅ [] true) with
  | Ret (am, _) => am
  | _ => mkAclManager ∅ ∅ [] true
  end.

Definition demo_aaaa : AaaaFilter := {[ "default" := ["v4only"] ]}.

Definition demo_from (ip : IP) (t : RRType) : Client :=
  mkClient (Some (UDPAddr ip 53)) None false (query www t) None "default" 0 false false 0.

(** The answers clients at some addresses get for a name, through a transfer, the
    cache and a resolver. *)
Fixpoint transfer_session (transfer : Heap → Client → outcome (Heap * Client))
  (resolver : Client → option Message) (clients : list Client)
  (s : Heap * gmap string MessageCache) : list (list RRset) * (Heap * gmap string MessageCache) :=
  match clients with
  | [] => ([], s)
  | client :: clients =>
      match transferAdaptor_HandleQuery (λ _, transfer) (Some (over_cache 0 resolver)) s client with
      | Ret (s, client) =>
          let '(rest, s') := transfer_session transfer resolver clients s in
          (from_option m_answer [] (c_response client ≫= (s.1 !!.)) :: rest, s')
      | _ => ([], s)
      end
  end.

(** The AAAA filter above the cache filters for everybody.  The cache keeps the message
    it hands up after a miss, and the filter rewrites it in place: when a client of the
    access list asks first, the IPv6 address is gone from the cache and clients outside
    the list no longer get it, though they do when one of them asks first. *)
Theorem aaaa_filter_corrupts_cache :
  (transfer_session (AaaaFilter_TransferResponse demo_acls demo_aaaa) v6_resolver
     [demo_from [10; 0; 0; 1] RR_AAAA; demo_from [10; 9; 9; 9] RR_AAAA] (∅, demo_dns64_caches)).1 =
    [[]; []] ∧
  (transfer_session (AaaaFilter_TransferResponse demo_acls demo_aaaa) v6_resolver
     [demo_from [10; 9; 9; 9] RR_AAAA; demo_from [10; 0; 0; 1] RR_AAAA; demo_from [10; 9; 9; 9] RR_AAAA]
     (∅, demo_dns64_caches)).1 = [[v6_rrset www]; []; [v6_rrset www]].
Proof. split; by_eval. Qed.

Definition demo_redirects : LocalData :=
  match AddPolicies "default" LPLocalRRset ["www.example.com. 60 A 192.0.2.80"] NewLocalData with
  | Ret (ld, _) => ld
  | _ => NewLocalData
  end.

(** No name exists. *)
Definition nx_resolver (client : Client) : option Message :=
  q ← m_question (c_request client);
  Some (mkMessage (Header_set_rcode R_NXDOMAIN hdr0) (Some q) [] [soa_rrset example_com 60 60] [] None).

Definition redirected : RRset := mkRRset www RR_A CLASS_IN 60 [RdA [192; 0; 2; 80]].

(** A redirection outlives its removal.  Hijack writes the redirected address into the
    cached negative answer, so when the redirection has been deleted clients still get
    it from the cache; with an empty cache they get nothing. *)
Theorem hijack_sticks_in_cache :
  let s := transfer_session (Hijack_TransferResponse demo_redirects) nx_resolver
             [demo_from [10; 0; 0; 1] RR_A] (∅, demo_dns64_caches) in
  s.1 = [[redirected]] ∧
  (transfer_session (Hijack_TransferResponse NewLocalData) nx_resolver
     [demo_from [10; 0; 0; 1] RR_A] s.2).1 = [[redirected]] ∧
  (transfer_session (Hijack_TransferResponse NewLocalData) nx_resolver
     [demo_from [10; 0; 0; 1] RR_A] (∅, demo_dns64_caches)).1 = [[]].
Proof. split_and!; by_eval. Qed.

Definition demo_sorter : UserAddrBasedSorter :=
  (addSorter "v1" "1.1.1" ["2.2"; "3.3"; "4.4"] ∅).1.
Definition demo_unsorted : RRset :=
  mkRRset www RR_A CLASS_IN 3600 [RdA [1; 1; 1; 1]; RdA [4; 4; 4; 4]; RdA [3; 3; 3; 3]; RdA [2; 2; 2; 2]].

(** The scenario of useraddrbasedsorter_test.go. *)
Example sortlist_test :
  Sort "v1" [1; 1; 1; 3] demo_sorter demo_unsorted =
    Ret (set_rdatas [RdA [2; 2; 2; 2]; RdA [3; 3; 3; 3]; RdA [4; 4; 4; 4]; RdA [1; 1; 1; 1]] demo_unsorted) ∧
  Sort "v1" [1; 1; 1; 3] (updateSorter "v1" "1.1.1" ["3.3"; "2.2"; "4.4"] demo_sorter).1 demo_unsorted =
    Ret (set_rdatas [RdA [3; 3; 3; 3]; RdA [2; 2; 2; 2]; RdA [4; 4; 4; 4]; RdA [1; 1; 1; 1]] demo_unsorted) ∧
  Sort "v1" [1; 1; 1; 3] (deleteSorter "v1" "1.1.1" demo_sorter).1 demo_unsorted = Ret demo_unsorted.
Proof. split_and!; by_eval. Qed.

Definition demo_sources : nrtree (nrtree Z) :=
  match demo_sorter !! "v1" with Some t => t | None => nr_New end.

Lemma Sort_spec_witness :
  ∃ rdatas, Sort "v1" [1; 1; 1; 3] demo_sorter demo_unsorted = Ret (set_rdatas rdatas demo_unsorted).
Proof.
  destruct (Sort_spec "v1" [1; 1; 1; 3] demo_sorter demo_sources ["2.2"; "3.3"; "4.4"] demo_unsorted)
    as (rdatas & E & _); [by_eval|by_eval|by left|cbn; lia| |].
  - repeat constructor; eexists; reflexivity.
  - exists rdatas. exact E.
Defined.

Lemma aaaa_filter_spec_witness :
  ∃ m', AaaaFilter_TransferResponse demo_acls demo_aaaa {[ 0%nat := answer www RR_AAAA [v6_rrset www] ]}
      (set_response (Some 0%nat) (demo_from [10; 0; 0; 1] RR_AAAA)) =
    Ret (<[0%nat := m']> {[ 0%nat := answer www RR_AAAA [v6_rrset www] ]},
         set_response (Some 0%nat) (demo_from [10; 0; 0; 1] RR_AAAA)).
Proof.
  destruct (aaaa_filter_spec demo_aaaa demo_acls {[ 0%nat := answer www RR_AAAA [v6_rrset www] ]}
    (set_response (Some 0%nat) (demo_from [10; 0; 0; 1] RR_AAAA)) [10; 0; 0; 1] 0%nat
    (answer www RR_AAAA [v6_rrset www])) as (m' & E & _); [by_eval..|].
  exists m'. exact E.
Defined.
End transfer_examples.
