(* ===== verification/Server.v ===== *)
(** * The server (src/server, src/metrics)

    Readers put datagrams and TCP messages into a bounded channel; handler
    routines take them out, run the query chain and send the response.  One turn
    of a handler is a function; the goroutines and what they share (the channel,
    the pool of buffers, the count of connections) are a step relation. *)

From S2P Require Import Prelude GoStd G53 Instances Core Util.

Local Open Scope Z_scope.

(** ** metrics *)

Definition Metrics_DefaultView : string := "default".
Definition TotalView : string := "any".

(** Counters of the process, in all and by view, and the gauges of the last second. *)
Record Metrics : Type := mkMetrics {
  mt_viewQps : gmap string Z;
  mt_RequestCount : Z;
  mt_RequestCountByView : gmap string Z;
  mt_ResponseCount : Z;
  mt_ResponseCountByView : gmap string Z;
  mt_UpdateCount : Z;
  mt_UpdateCountByView : gmap string Z;
  mt_QPS : Z;
  mt_QPSByView : gmap string Z;
}.

Definition inc (k : string) (m : gmap string Z) : gmap string Z :=
  <[k := default 0 (m !! k) + 1]> m.

(** A view without a counter is not counted. *)
Definition recordQps (view : string) (m : gmap string Z) : gmap string Z :=
  match m !! view with
  | Some c => <[view := u64 (c + 1)]> m
  | None => m
  end.

Definition Metrics_ReloadConfig (views : list string) (m : Metrics) : Metrics :=
  mkMetrics (foldl (λ qps v, <[v := 0]> qps) {[ Metrics_DefaultView := 0; TotalView := 0 ]} views)
    (mt_RequestCount m) (mt_RequestCountByView m) (mt_ResponseCount m) (mt_ResponseCountByView m)
    (mt_UpdateCount m) (mt_UpdateCountByView m) (mt_QPS m) (mt_QPSByView m).

(** One turn of [Run]: the counters of the second become gauges and start again. *)
Definition Metrics_tick (m : Metrics) : Metrics :=
  mkMetrics ((λ _, 0) <$> mt_viewQps m)
    (mt_RequestCount m) (mt_RequestCountByView m) (mt_ResponseCount m) (mt_ResponseCountByView m)
    (mt_UpdateCount m) (mt_UpdateCountByView m)
    (default (mt_QPS m) (mt_viewQps m !! TotalView))
    (delete TotalView (mt_viewQps m) ∪ mt_QPSByView m).

Definition RecordMetrics `{G53Name} (client : Client) (m : Metrics) : Metrics :=
  let opcode := h_opcode (m_header (c_request client)) in
  let responded := bool_decide (is_Some (c_response client)) in
  let view := c_view client in
  if opcode =? OP_QUERY then
    mkMetrics (recordQps view (recordQps TotalView (mt_viewQps m)))
      (mt_RequestCount m + 1) (inc view (mt_RequestCountByView m))
      (if responded then mt_ResponseCount m + 1 else mt_ResponseCount m)
      (if responded then inc view (mt_ResponseCountByView m) else mt_ResponseCountByView m)
      (mt_UpdateCount m) (mt_UpdateCountByView m) (mt_QPS m) (mt_QPSByView m)
  else if (opcode =? OP_UPDATE) && responded then
    mkMetrics (mt_viewQps m) (mt_RequestCount m) (mt_RequestCountByView m)
      (mt_ResponseCount m) (mt_ResponseCountByView m)
      (mt_UpdateCount m + 1)
      (if bool_decide (view ≠ "") then inc view (mt_UpdateCountByView m) else mt_UpdateCountByView m)
      (mt_QPS m) (mt_QPSByView m)
  else m.

(** ** server.go: one turn of a handler routine *)

(** A [message]: a buffer of the pool is named by a number, a connection too. *)
Record SrvMsg : Type := mkSrvMsg {
  sm_usingTCP : bool;
  sm_addr : NetAddr;
  sm_destAddr : NetAddr;
  sm_conn : nat;
  sm_buf : nat;
  sm_data : list Z;
}.

Section serve.
Context {N : G53Name} {M : G53Msg N} {D : G53Wire N} {W : Type}.

(** [Rend], the encoder of the DNS library, and the two chains. *)
Context (Rend : Message → list Z) (queryHandler : Handler (Heap * Metrics * W))
        (xfrHandler : option (Handler (Heap * Metrics * W))).

(** [ctx.Reset()] and the fields set from the message. *)
Definition new_client (now : Z) (request : Message) (msg : SrvMsg) : Client :=
  mkClient (Some (sm_addr msg)) (Some (sm_destAddr msg)) (sm_usingTCP msg) request None
    "default" 0 false true now.

(** A routine has one context for all its messages: [Client.reset] clears what the last one
    left, but for [UsingTCP]; [request] stands for the nil that the routine replaces before
    anything reads it. *)
Definition Client_reset (now : Z) (request : Message) (c : Client) : Client :=
  mkClient None None (c_using_tcp c) request None "default" 0 false true now.

Definition next_client (now : Z) (request : Message) (msg : SrvMsg) (c : Client) : Client :=
  let c := Client_reset now request c in
  mkClient (Some (sm_addr msg)) (Some (sm_destAddr msg)) (sm_usingTCP msg) request (c_response c)
    (c_view c) (c_view_id c) (c_cache_hit c) (c_cache_answer c) (c_create_time c).

(** Nothing of the last client is left. *)
Lemma next_client_new now request msg c : next_client now request msg c = new_client now request msg.
Proof. done. Qed.

Definition dispatch : Handler (Heap * Metrics * W) := λ s client,
  let opcode := h_opcode (m_header (c_request client)) in
  if opcode =? OP_QUERY then queryHandler s client
  else match xfrHandler with
       | Some xfr => if opcode =? OP_NOTIFY then xfr s client else Ret (s, client)
       | None => Ret (s, client)
       end.

(** The bytes of the response, if one is sent. *)
Definition serve_message (now : Z) (msg : SrvMsg) (s : Heap * Metrics * W)
  : outcome (Heap * Metrics * W * option (list Z)) :=
  match MessageFromWire (sm_data msg) with
  | inl _ => Ret (s, None)
  | inr request =>
      r ← dispatch s (new_client now request msg);
      let '((h, mt, w), client) := r in
      let mt := RecordMetrics client mt in
      match c_response client with
      | None => Ret ((h, mt, w), None)
      | Some l =>
          m ← deref l h;
          let m := RecalculateSectionRRCount m in
          Ret ((<[l := m]> h, mt, w), Some (Rend m))
      end
  end.

(** The ways a turn on a message can end, whatever the state of the handlers is: a
    panic is recovered and the handler routine replaced. *)
Inductive SrvResult : Type :=
  | Answered (response : list Z)
  | Unanswered
  | Crashed.

Definition message_serves (msg : SrvMsg) (r : SrvResult) : Prop :=
  ∃ now s, match serve_message now msg s with
           | Ret (_, Some response) => r = Answered response
           | Ret (_, None) => r = Unanswered
           | Panic _ => r = Crashed
           | Hang _ => False
           end.
End serve.

(** ** transport.go: the goroutines *)

Definition maxConcurrentTCPConn : Z := 512.
Definition maxQueryLen : nat := 512.
Definition defaultHandlerCount : nat := 1024.

Inductive ConnPhase : Type :=
  | Reading
  | Waiting
  | Abandoned.

Record Server : Type := mkServer {
  (** [messageChan] and its capacity *)
  sv_queue : list SrvMsg;
  sv_cap : nat;
  (** handler routines: waiting, and serving a message *)
  sv_idle : nat;
  sv_busy : list SrvMsg;
  (** the accepting goroutines: has the limit been checked for a connection? *)
  sv_listeners : list bool;
  sv_tcpConnCount : Z;
  sv_conns : gmap nat ConnPhase;
  (** the buffers of the UDP readers, the pool, and how many were made *)
  sv_readers : list nat;
  sv_pool : list nat;
  sv_made : nat;
}.

Definition NewServer (handlerCount listeners readers : nat) : Server :=
  let n := if (handlerCount =? 0)%nat then defaultHandlerCount else handlerCount in
  mkServer [] n n [] (replicate listeners false) 0 ∅ (seq 0 readers) [] readers.

Definition set_conns (f : gmap nat ConnPhase → gmap nat ConnPhase) (d : Z) (s : Server) : Server :=
  mkServer (sv_queue s) (sv_cap s) (sv_idle s) (sv_busy s) (sv_listeners s)
    (sv_tcpConnCount s + d) (f (sv_conns s)) (sv_readers s) (sv_pool s) (sv_made s).

(** [releaseConn] *)
Definition releaseConn (conn : nat) (s : Server) : Server := set_conns (delete conn) (-1) s.

Definition set_listener (i : nat) (b : bool) (s : Server) : Server :=
  mkServer (sv_queue s) (sv_cap s) (sv_idle s) (sv_busy s) (<[i := b]> (sv_listeners s))
    (sv_tcpConnCount s) (sv_conns s) (sv_readers s) (sv_pool s) (sv_made s).

Definition enqueue (m : SrvMsg) (s : Server) : Server :=
  mkServer (sv_queue s ++ [m]) (sv_cap s) (sv_idle s) (sv_busy s) (sv_listeners s)
    (sv_tcpConnCount s) (sv_conns s) (sv_readers s) (sv_pool s) (sv_made s).

(** [udpBufPool.Put(buf)]: dropped when the pool, of the channel's size, is full. *)
Definition put_buf (b : nat) (s : Server) : Server :=
  if (length (sv_pool s) <? sv_cap s)%nat then
    mkServer (sv_queue s) (sv_cap s) (sv_idle s) (sv_busy s) (sv_listeners s)
      (sv_tcpConnCount s) (sv_conns s) (sv_readers s) (sv_pool s ++ [b]) (sv_made s)
  else s.

(** Reader [i] takes its next buffer with [udpBufPool.Get()]. *)
Definition get_buf (i : nat) (s : Server) : Server :=
  match sv_pool s with
  | b :: pool =>
      mkServer (sv_queue s) (sv_cap s) (sv_idle s) (sv_busy s) (sv_listeners s)
        (sv_tcpConnCount s) (sv_conns s) (<[i := b]> (sv_readers s)) pool (sv_made s)
  | [] =>
      mkServer (sv_queue s) (sv_cap s) (sv_idle s) (sv_busy s) (sv_listeners s)
        (sv_tcpConnCount s) (sv_conns s) (<[i := sv_made s]> (sv_readers s)) [] (S (sv_made s))
  end.

(** One turn of the UDP reader [i]: [data] is what [ReadFromUDP] put into its
    buffer, or nothing when it failed. *)
Definition runUDP_turn (i : nat) (addr dest : NetAddr) (conn : nat) (data : option (list Z)) (s : Server)
  : Server :=
  match sv_readers s !! i with
  | None => s
  | Some b =>
      let ok := match data with
                | Some d => (0 <? length d)%nat && (length d <? maxQueryLen)%nat
                | None => false
                end in
      let s := if ok && (length (sv_queue s) <? sv_cap s)%nat
               then enqueue (mkSrvMsg false addr dest conn b (default [] data)) s
               else put_buf b s in
      get_buf i s
  end.

(** A handler routine becomes idle, and one that crashed starts another. *)
Definition handler_done (busy : list SrvMsg) (s : Server) : Server :=
  mkServer (sv_queue s) (sv_cap s) (S (sv_idle s)) busy (sv_listeners s)
    (sv_tcpConnCount s) (sv_conns s) (sv_readers s) (sv_pool s) (sv_made s).

(** [SendResponse] and [FinishQuery].  The source releases a TCP connection only when
    it sends a response; [Abandoned] marks one that nobody will release. *)
Definition finish (m : SrvMsg) (r : SrvResult) (s : Server) : Server :=
  let s := if sm_usingTCP m then
             match r with
             | Answered _ => releaseConn (sm_conn m) s
             | _ => set_conns (<[sm_conn m := Abandoned]>) 0 s
             end
           else s in
  match r with
  | Crashed => s
  | _ => if sm_usingTCP m then s else put_buf (sm_buf m) s
  end.

Section steps.
(** The ways serving a message can end, as [message_serves] has them. *)
Context (serves : SrvMsg → SrvResult → Prop).

Inductive srv_step : Server → Server → Prop :=
  (** A connection is accepted: the count is read, and the connection closed at
      once when the limit is reached. *)
  | step_check s i :
      sv_listeners s !! i = Some false → sv_tcpConnCount s < maxConcurrentTCPConn →
      srv_step s (set_listener i true s)
  | step_refuse s i :
      sv_listeners s !! i = Some false → maxConcurrentTCPConn ≤ sv_tcpConnCount s → srv_step s s
  | step_accept s i conn :
      sv_listeners s !! i = Some true → sv_conns s !! conn = None →
      srv_step s (set_conns (<[conn := Reading]>) 1 (set_listener i false s))
  | step_read_error s conn :
      sv_conns s !! conn = Some Reading → srv_step s (releaseConn conn s)
  | step_tcp s conn addr dest data :
      sv_conns s !! conn = Some Reading → (length (sv_queue s) < sv_cap s)%nat →
      srv_step s (set_conns (<[conn := Waiting]>) 0 (enqueue (mkSrvMsg true addr dest conn 0 data) s))
  | step_udp s i addr dest conn data :
      (i < length (sv_readers s))%nat → srv_step s (runUDP_turn i addr dest conn data s)
  | step_take s m queue idle :
      sv_queue s = m :: queue → sv_idle s = S idle →
      srv_step s (mkServer queue (sv_cap s) idle (m :: sv_busy s) (sv_listeners s)
        (sv_tcpConnCount s) (sv_conns s) (sv_readers s) (sv_pool s) (sv_made s))
  | step_finish s m busy1 busy2 r :
      sv_busy s = busy1 ++ m :: busy2 → serves m r →
      srv_step s (finish m r (handler_done (busy1 ++ busy2) s)).
End steps.

(** [getAllIPs]: the addresses of the interfaces to listen on. *)
Definition IsLoopback (ip : IP) : bool :=
  match IP_To4 ip with
  | Some ip4 => bool_decide (head ip4 = Some 127)
  | None => bool_decide (ip = replicate 15 0 ++ [1])
  end.

(** [ip.IsGlobalUnicast()] of package net, on addresses of either length. *)
Definition IsGlobalUnicast (ip : IP) : bool :=
  let v4 := IP_To4 ip in
  let b i := default 0 (default ip v4 !! i) in
  let unspecified := forallb (λ x, x =? 0) (default ip v4) in
  let multicast := match v4 with Some _ => Z.land (b 0%nat) 240 =? 224 | None => b 0%nat =? 255 end in
  let linkLocal := match v4 with
                   | Some _ => (b 0%nat =? 169) && (b 1%nat =? 254)
                   | None => (b 0%nat =? 254) && (Z.land (b 1%nat) 192 =? 128)
                   end in
  ((length ip =? 4)%nat || (length ip =? 16)%nat) &&
  negb (bool_decide (v4 = Some [255; 255; 255; 255])) && negb unspecified &&
  negb (IsLoopback ip) && negb multicast && negb linkLocal.

Fixpoint getAllIPs (isV4 : bool) (addrs : list IP) : list IP :=
  match addrs with
  | [] => []
  | addr :: addrs =>
      let rest := getAllIPs isV4 addrs in
      if isV4 then
        match IP_To4 addr with
        | None => rest
        | Some ip => if IsLoopback ip then rest else ip :: rest
        end
      else if bool_decide (is_Some (IP_To4 addr)) || negb (IsGlobalUnicast addr) || IsLoopback addr
           then rest else addr :: rest
  end.
