(* ===== verification/ServerSpec.v ===== *)
(** * What the server promises

    One turn of a handler, the invariant of the goroutines in every interleaving,
    and the loss of TCP connections that are not answered. *)

From S2P Require Import Prelude GoStd G53 Instances Core Util Server.

Local Open Scope Z_scope.

(** ** Serving one message *)

Section serve_spec.
Context {N : G53Name} {M : G53Msg N} {D : G53Wire N} {W : Type}
        (Rend : Message → list Z) (queryHandler : Handler (Heap * Metrics * W))
        (xfrHandler : option (Handler (Heap * Metrics * W))).

(** What is sent for a message.  Bytes that are no message, and messages that are
    neither queries nor notifies, get no response (updates neither); a query gets the
    response its chain leaves, with its counts recomputed, and none when it leaves none;
    a panic of the chain is a panic of the handler. *)
Theorem serve_message_spec now msg h mt (w : W) :
  match MessageFromWire (sm_data msg) with
  | inl _ => serve_message Rend queryHandler xfrHandler now msg (h, mt, w) = Ret (h, mt, w, None)
  | inr request =>
      let client := new_client now request msg in
      (h_opcode (m_header request) = OP_QUERY →
        ∀ h' mt' w' client', queryHandler (h, mt, w) client = Ret (h', mt', w', client') →
        match c_response client' with
        | None => serve_message Rend queryHandler xfrHandler now msg (h, mt, w) =
                    Ret (h', RecordMetrics client' mt', w', None)
        | Some l => ∀ m, h' !! l = Some m →
            serve_message Rend queryHandler xfrHandler now msg (h, mt, w) =
              Ret (<[l := RecalculateSectionRRCount m]> h', RecordMetrics client' mt', w',
                   Some (Rend (RecalculateSectionRRCount m)))
        end) ∧
      (h_opcode (m_header request) = OP_QUERY → ∀ why, queryHandler (h, mt, w) client = Panic why →
        serve_message Rend queryHandler xfrHandler now msg (h, mt, w) = Panic why) ∧
      (h_opcode (m_header request) ≠ OP_QUERY → h_opcode (m_header request) ≠ OP_NOTIFY →
        serve_message Rend queryHandler xfrHandler now msg (h, mt, w) =
          Ret (h, RecordMetrics client mt, w, None))
  end.
Proof.
  unfold serve_message, dispatch. destruct (MessageFromWire (sm_data msg)) as [err|request]; [done|].
  cbn zeta. split_and!.
  - intros Ho h' mt' w' client' E. cbn [new_client c_request]. rewrite Ho. cbn [Z.eqb OP_QUERY].
    rewrite E, bind_Ret. destruct (c_response client') as [l|]; [|done].
    intros m Hm. by rewrite (deref_Some _ _ _ Hm).
  - intros Ho why E. cbn [new_client c_request]. rewrite Ho. cbn [Z.eqb OP_QUERY]. by rewrite E.
  - intros H1 H2. cbn [new_client c_request]. rewrite (proj2 (Z.eqb_neq _ _) H1).
    destruct xfrHandler; [rewrite (proj2 (Z.eqb_neq _ _) H2)|]; done.
Qed.
End serve_spec.

(** ** The goroutines in every interleaving *)

Section server_inv.
Context (serves : SrvMsg → SrvResult → Prop).

Definition conn_of (m : SrvMsg) : option nat := if sm_usingTCP m then Some (sm_conn m) else None.
Definition buf_of (m : SrvMsg) : option nat := if sm_usingTCP m then None else Some (sm_buf m).

(** The connections of the messages on their way, and the buffers in use or free. *)
Definition waiting (s : Server) : list nat := omap conn_of (sv_queue s) ++ omap conn_of (sv_busy s).
Definition bufs (s : Server) : list nat :=
  sv_readers s ++ omap buf_of (sv_queue s) ++ omap buf_of (sv_busy s) ++ sv_pool s.

Definition checked (s : Server) : nat := length (base.filter (λ b, b = true) (sv_listeners s)).

(** The count of connections is right and bounded, and every message on its way has its
    connection open to itself. *)
Definition conns_inv (s : Server) : Prop :=
  sv_tcpConnCount s = Z.of_nat (size (sv_conns s)) ∧
  sv_tcpConnCount s + Z.of_nat (checked s) ≤ maxConcurrentTCPConn - 1 + Z.of_nat (length (sv_listeners s)) ∧
  NoDup (waiting s) ∧ Forall (λ c, sv_conns s !! c = Some Waiting) (waiting s).

Definition work_inv (handlers : nat) (s : Server) : Prop :=
  (length (sv_queue s) ≤ sv_cap s)%nat ∧ (sv_idle s + length (sv_busy s))%nat = handlers.

(** No buffer is in two places. *)
Definition bufs_inv (s : Server) : Prop :=
  NoDup (bufs s) ∧ Forall (λ b, b < sv_made s)%nat (bufs s).

(** *** What the parts of a step leave alone *)

(** The part of the state that has nothing to do with buffers. *)
Definition control (s : Server) :=
  (sv_queue s, sv_cap s, sv_idle s, sv_busy s, sv_listeners s, sv_tcpConnCount s, sv_conns s).

Lemma control_put_buf b s : control (put_buf b s) = control s.
Proof. unfold put_buf. by destruct (_ <? _)%nat. Qed.

Lemma control_get_buf i s : control (get_buf i s) = control s.
Proof. unfold get_buf. by destruct (sv_pool s). Qed.

Lemma control_runUDP i addr dest conn data s :
  control (runUDP_turn i addr dest conn data s) = control s ∨
  ∃ b, (length (sv_queue s) < sv_cap s)%nat ∧
    control (runUDP_turn i addr dest conn data s) =
    control (enqueue (mkSrvMsg false addr dest conn b (default [] data)) s).
Proof.
  unfold runUDP_turn. destruct (sv_readers s !! i) as [b|]; [|by left]. rewrite control_get_buf.
  destruct (_ && _) eqn:E; [right|left; apply control_put_buf].
  exists b. split; [|done]. apply andb_true_iff in E as [_ E]. by apply Nat.ltb_lt in E.
Qed.

Lemma control_finish m r s :
  control (finish m r s) =
  control (if sm_usingTCP m then
             match r with
             | Answered _ => releaseConn (sm_conn m) s
             | _ => set_conns (<[sm_conn m := Abandoned]>) 0 s
             end
           else s).
Proof.
  unfold finish. destruct (sm_usingTCP m), r; rewrite ?control_put_buf; done.
Qed.

Lemma conns_inv_control s s' : control s' = control s → conns_inv s → conns_inv s'.
Proof.
  unfold control, conns_inv, waiting, checked. intros [= Hq Hc Hi Hb Hl Ht Hs].
  by rewrite Hq, Hb, Hl, Ht, Hs.
Qed.

Lemma work_inv_control n s s' : control s' = control s → work_inv n s → work_inv n s'.
Proof. unfold control, work_inv. intros [= Hq Hc Hi Hb Hl Ht Hs]. by rewrite Hq, Hc, Hi, Hb. Qed.

(** *** Queue and handlers *)

Lemma work_inv_step n s s' : srv_step serves s s' → work_inv n s → work_inv n s'.
Proof.
  unfold work_inv. destruct 1 as [| | | |s conn addr dest data Hr Hl|s i addr dest conn data Hi
    |s m queue idle Hq Hi|s m b1 b2 r Hb Hs]; cbn; intros [H1 H2]; try done.
  - rewrite length_app. cbn. lia.
  - destruct (control_runUDP i addr dest conn data s) as [E|(b & Hl & E)].
    + by apply (work_inv_control n s).
    + apply (work_inv_control n _ _ E). split; cbn; [|done]. rewrite length_app. cbn. lia.
  - rewrite Hq, Hi in *. cbn in *. lia.
  - apply (work_inv_control n _ _ (control_finish _ _ _)). rewrite Hb, length_app in H2. cbn in H2.
    destruct (sm_usingTCP m), r; split; cbn; rewrite ?length_app; lia.
Qed.

(** *** Connections *)

Lemma insert_split {A} (l : list A) (i : nat) x y :
  l !! i = Some x → ∃ l1 l2, l = l1 ++ x :: l2 ∧ <[i := y]> l = l1 ++ y :: l2.
Proof.
  intros (l1 & l2 & -> & ->)%list_elem_of_split_length. exists l1, l2. split; [done|].
  by rewrite insert_app_r_alt, Nat.sub_diag.
Qed.

Lemma checked_insert (ls : list bool) (i : nat) (b b' : bool) :
  ls !! i = Some b →
  (length (base.filter (λ x, x = true) (<[i := b']> ls)) + (if b then 1 else 0) =
   length (base.filter (λ x, x = true) ls) + (if b' then 1 else 0))%nat.
Proof.
  intros Hl. destruct (insert_split ls i b b' Hl) as (l1 & l2 & -> & ->).
  rewrite !filter_app, !filter_cons, !length_app. destruct b, b'; repeat case_decide; try done; cbn; lia.
Qed.

Lemma checked_le (s : Server) : (checked s ≤ length (sv_listeners s))%nat.
Proof. apply length_filter. Qed.

Lemma conns_inv_check s i :
  sv_listeners s !! i = Some false → sv_tcpConnCount s < maxConcurrentTCPConn →
  conns_inv s → conns_inv (set_listener i true s).
Proof.
  intros Hl Hc (H1 & H2 & H3 & H4). split_and!; [done| |done..].
  pose proof (checked_le (set_listener i true s)). unfold checked in *. cbn in *. lia.
Qed.

(** Opening a connection that no message waits for. *)
Lemma conns_inv_accept s i conn :
  sv_listeners s !! i = Some true → sv_conns s !! conn = None →
  conns_inv s → conns_inv (set_conns (<[conn := Reading]>) 1 (set_listener i false s)).
Proof.
  intros Hl Hc (H1 & H2 & H3 & H4). split_and!; cbn; [| |done|].
  - rewrite map_size_insert_None by done. lia.
  - pose proof (checked_insert _ _ _ false Hl). unfold checked in *. cbn in *.
    rewrite length_insert. lia.
  - eapply Forall_impl; [done|]. cbn. intros c Hw. rewrite lookup_insert_ne; [done|congruence].
Qed.

Lemma conns_inv_read_error s conn :
  sv_conns s !! conn = Some Reading → conns_inv s → conns_inv (releaseConn conn s).
Proof.
  intros Hc (H1 & H2 & H3 & H4). assert (size (sv_conns s) ≠ 0%nat).
  { intros E%map_size_empty_inv. by rewrite E in Hc. }
  split_and!; cbn; [| |done|].
  - rewrite map_size_delete_Some by eauto. lia.
  - unfold checked in *. cbn. lia.
  - eapply Forall_impl; [done|]. cbn. intros c Hw. rewrite lookup_delete_ne; [done|congruence].
Qed.

Lemma conns_inv_tcp s conn addr dest data :
  sv_conns s !! conn = Some Reading → conns_inv s →
  conns_inv (set_conns (<[conn := Waiting]>) 0 (enqueue (mkSrvMsg true addr dest conn 0 data) s)).
Proof.
  intros Hc (H1 & H2 & H3 & H4).
  assert (conn ∉ waiting s) as Hn.
  { intros Hin. rewrite Forall_forall in H4. specialize (H4 _ Hin). cbn in H4. congruence. }
  set (s' := set_conns _ _ _).
  assert (waiting s' ≡ₚ conn :: waiting s) as Hp.
  { unfold waiting. cbn. rewrite omap_app. cbn. rewrite <- app_assoc. cbn. by rewrite <- Permutation_middle. }
  split_and!.
  - cbn. rewrite map_size_insert_Some by eauto. lia.
  - unfold checked in *. cbn. lia.
  - rewrite Hp. by constructor.
  - rewrite Hp. constructor; [cbn; apply lookup_insert_eq|]. eapply Forall_impl; [done|].
    cbn. intros c Hw. rewrite lookup_insert_ne; [done|congruence].
Qed.

(** A served message leaves the list of those on their way, with its connection. *)
Lemma conns_inv_finish s m b1 b2 r :
  sv_busy s = b1 ++ m :: b2 → conns_inv s → conns_inv (finish m r (handler_done (b1 ++ b2) s)).
Proof.
  intros Hb (H1 & H2 & H3 & H4). apply (conns_inv_control _ _ (control_finish _ _ _)).
  set (s1 := handler_done (b1 ++ b2) s).
  assert (waiting s ≡ₚ omap conn_of [m] ++ waiting s1) as Hp.
  { unfold waiting. cbn. rewrite Hb, !omap_app. cbn. destruct (conn_of m) as [c|]; [|done].
    cbn. by rewrite !app_assoc, <- Permutation_middle. }
  rewrite Hp in H3, H4. cbn [omap list_omap] in H3, H4. unfold conn_of in H3 at 1, H4 at 1.
  destruct (sm_usingTCP m) eqn:Et; cbn in H3, H4; [|by split_and!].
  apply NoDup_cons in H3 as [Hn H3]. apply Forall_cons in H4 as [Hc H4].
  assert (∀ c, c ∈ waiting s1 → c ≠ sm_conn m) as Hne by (intros c Hin ->; done).
  assert (size (sv_conns s) ≠ 0%nat).
  { intros E%map_size_empty_inv. by rewrite E in Hc. }
  destruct r as [resp| |]; split_and!; cbn; try done; try (unfold checked in *; cbn; lia);
    try (rewrite ?map_size_insert_Some, ?map_size_delete_Some by eauto; lia);
    (apply Forall_forall; intros c Hin; rewrite Forall_forall in H4; specialize (H4 _ Hin));
    rewrite ?lookup_delete_ne, ?lookup_insert_ne by (symmetry; by apply Hne); done.
Qed.

Lemma conns_inv_step s s' : srv_step serves s s' → conns_inv s → conns_inv s'.
Proof.
  destruct 1 as [s i Hl Hc| |s i conn Hl Hc|s conn Hc|s conn addr dest data Hc Hq
    |s i addr dest conn data Hi|s m queue idle Hq Hi|s m b1 b2 r Hb Hs]; intros Hinv.
  - by apply conns_inv_check.
  - done.
  - by apply conns_inv_accept.
  - by apply conns_inv_read_error.
  - by apply conns_inv_tcp.
  - destruct (control_runUDP i addr dest conn data s) as [E|(b & Hl & E)];
      apply (conns_inv_control _ _ E); [done|].
    destruct Hinv as (H1 & H2 & H3 & H4). unfold conns_inv, waiting, checked in *. cbn.
    rewrite omap_app. cbn. by rewrite app_nil_r.
  - destruct Hinv as (H1 & H2 & H3 & H4).
    set (s' := mkServer _ _ _ _ _ _ _ _ _ _).
    assert (waiting s' ≡ₚ waiting s) as Hp.
    { unfold waiting. cbn. rewrite Hq. cbn. destruct (conn_of m); [|done]. cbn.
      by rewrite <- Permutation_middle. }
    split_and!; [done|done|by rewrite Hp|by rewrite Hp].
  - by apply conns_inv_finish.
Qed.

(** *** Buffers *)

Abbreviation cnt x l := (count_occ Nat.eq_dec l x).
#[local] Arguments count_occ : simpl never.

Lemma cnt_cons x y l : cnt x (y :: l) = ((if decide (x = y) then 1 else 0) + cnt x l)%nat.
Proof. case_decide; [by apply count_occ_cons_eq|by apply count_occ_cons_neq]. Qed.

Ltac count := rewrite ?omap_app, ?count_occ_app, ?cnt_cons, ?count_occ_nil in *;
  repeat case_decide; subst; try congruence; lia.

Lemma NoDup_cnt l : NoDup l ↔ ∀ x, (cnt x l ≤ 1)%nat.
Proof. rewrite NoDup_ListNoDup. apply NoDup_count_occ. Qed.

Lemma elem_cnt x l : x ∈ l ↔ (0 < cnt x l)%nat.
Proof. rewrite list_elem_of_In. apply count_occ_In. Qed.

(** Buffers may get lost, and one may be made. *)
Lemma bufs_inv_le s s' (d : nat) :
  (d ≤ 1)%nat → sv_made s' = (sv_made s + d)%nat →
  (∀ x, cnt x (bufs s') ≤ cnt x (bufs s) + (if decide (x = sv_made s) then d else 0))%nat →
  bufs_inv s → bufs_inv s'.
Proof.
  intros Hd Hm Hle [Hnd Hlt]. rewrite NoDup_cnt in Hnd. rewrite Forall_forall in Hlt.
  assert (cnt (sv_made s) (bufs s) = 0)%nat as H0.
  { destruct (Nat.eq_dec (cnt (sv_made s) (bufs s)) 0) as [|Hne]; [done|].
    assert (sv_made s ∈ bufs s) as Hin by (apply elem_cnt; lia). specialize (Hlt _ Hin). cbn in Hlt. lia. }
  split.
  - apply NoDup_cnt. intros x. specialize (Hle x). specialize (Hnd x).
    case_decide; [subst x|]; lia.
  - apply Forall_forall. intros x Hx%elem_cnt. specialize (Hle x). rewrite Hm.
    destruct (decide (x = sv_made s)) as [->|]; [|assert (x ∈ bufs s) by (apply elem_cnt; lia);
      assert (x < sv_made s)%nat by (by apply Hlt)]; lia.
Qed.

Definition others (s : Server) : list nat :=
  omap buf_of (sv_queue s) ++ omap buf_of (sv_busy s) ++ sv_pool s.

Lemma cnt_get_buf i s b x :
  sv_readers s !! i = Some b →
  (cnt x (bufs (get_buf i s)) + (if decide (x = b) then 1 else 0) =
   cnt x (bufs s) + (if decide (x = sv_made s) then sv_made (get_buf i s) - sv_made s else 0))%nat ∧
  (sv_made s ≤ sv_made (get_buf i s) ≤ S (sv_made s))%nat.
Proof.
  intros Hb. unfold get_buf, bufs. destruct (sv_pool s) as [|b' pool]; cbn [sv_readers sv_queue sv_busy sv_pool sv_made].
  - destruct (insert_split _ _ _ (sv_made s) Hb) as (r1 & r2 & -> & ->). split; [|lia].
    count.
  - destruct (insert_split _ _ _ b' Hb) as (r1 & r2 & -> & ->). split; [|lia].
    count.
Qed.

Lemma cnt_put_buf b s x :
  (cnt x (bufs (put_buf b s)) ≤ cnt x (bufs s) + (if decide (x = b) then 1 else 0))%nat ∧
  sv_made (put_buf b s) = sv_made s ∧ sv_readers (put_buf b s) = sv_readers s.
Proof.
  unfold put_buf. destruct (_ <? _)%nat; [|split_and!; [lia|done|done]].
  split_and!; [|done|done]. unfold bufs. cbn. count.
Qed.

Lemma bufs_inv_udp i addr dest conn data s :
  bufs_inv s → bufs_inv (runUDP_turn i addr dest conn data s).
Proof.
  intros Hinv. unfold runUDP_turn. destruct (sv_readers s !! i) as [b|] eqn:Hb; [|done].
  set (ok := match data with Some _ => _ | None => _ end).
  set (s1 := if ok && _ then _ else _).
  assert (∀ x, (cnt x (bufs s1) ≤ cnt x (bufs s) + (if decide (x = b) then 1 else 0))%nat) as H1.
  { intros x. subst s1. destruct (ok && _); [|apply cnt_put_buf].
    unfold bufs. cbn. rewrite omap_app. cbn. count. }
  assert (sv_made s1 = sv_made s ∧ sv_readers s1 = sv_readers s) as [Hm Hr].
  { subst s1. destruct (ok && _); [done|]. apply (cnt_put_buf b s 0). }
  assert (sv_readers s1 !! i = Some b) as Hb1 by (by rewrite Hr).
  pose proof (λ x, cnt_get_buf i s1 b x Hb1) as Hget. rewrite Hm in Hget.
  apply (bufs_inv_le s _ (sv_made (get_buf i s1) - sv_made s)); [..|done].
  - destruct (Hget 0%nat). lia.
  - destruct (Hget 0%nat). lia.
  - intros x. destruct (Hget x) as [E _]. specialize (H1 x). repeat case_decide; lia.
Qed.

Lemma bufs_inv_same s s' :
  sv_made s' = sv_made s → (∀ x, (cnt x (bufs s') ≤ cnt x (bufs s))%nat) → bufs_inv s → bufs_inv s'.
Proof.
  intros Hm Hle. apply (bufs_inv_le s s' 0); [lia|lia|]. intros x. specialize (Hle x). lia.
Qed.

Lemma bufs_inv_step s s' : srv_step serves s s' → bufs_inv s → bufs_inv s'.
Proof.
  destruct 1 as [| | | |s conn addr dest data Hc Hq|s i addr dest conn data Hi
    |s m queue idle Hq Hi|s m b1 b2 r Hb Hs]; try done.
  - apply bufs_inv_same; [done|]. intros x. unfold bufs. cbn. by rewrite omap_app, app_nil_r.
  - apply bufs_inv_udp.
  - apply bufs_inv_same; [done|]. intros x. unfold bufs. cbn. rewrite Hq. cbn.
    destruct (buf_of m); count.
  - set (s1 := handler_done (b1 ++ b2) s).
    assert (∀ x, (cnt x (bufs s1) + cnt x (omap buf_of [m]) = cnt x (bufs s))%nat) as H1.
    { intros x. unfold bufs. cbn [s1 sv_readers sv_queue sv_busy sv_pool handler_done].
      rewrite Hb, !omap_app. cbn. destruct (buf_of m); count. }
    unfold finish, buf_of in *. cbn [omap list_omap] in H1. destruct (sm_usingTCP m) eqn:Et;
      cbn beta iota in H1; setoid_rewrite count_occ_nil in H1 || setoid_rewrite cnt_cons in H1.
    + assert (∀ f d, bufs (set_conns f d s1) = bufs s1) as Hsame by done.
      destruct r; (apply bufs_inv_same; [done|]; intros x; specialize (H1 x);
        unfold releaseConn; rewrite Hsame; lia).
    + assert (bufs_inv s → bufs_inv (put_buf (sm_buf m) s1)) as Hput.
      { apply bufs_inv_same; [apply (cnt_put_buf _ s1 0)|]. intros x. specialize (H1 x).
        destruct (cnt_put_buf (sm_buf m) s1 x) as [H2 _]. count. }
      destruct r; [done|done|]. apply bufs_inv_same; [done|]. intros x. specialize (H1 x). lia.
Qed.

(** *** All together *)

Lemma constants_step s s' :
  srv_step serves s s' → sv_cap s' = sv_cap s ∧ length (sv_listeners s') = length (sv_listeners s).
Proof.
  assert (∀ s s' : Server, control s' = control s →
    sv_cap s' = sv_cap s ∧ length (sv_listeners s') = length (sv_listeners s)) as Hc.
  { intros s1 s2. unfold control. intros [= _ E1 _ _ E2 _ _]. by rewrite E1, E2. }
  destruct 1 as [| | | | |s i addr dest conn data Hi| |s m b1 b2 r Hb Hs]; cbn;
    rewrite ?length_insert; try done.
  - destruct (control_runUDP i addr dest conn data s) as [E|(b & Hl & E)]; [by apply Hc|].
    by apply (Hc (enqueue (mkSrvMsg false addr dest conn b (default [] data)) s)).
  - destruct (Hc _ _ (control_finish m r (handler_done (b1 ++ b2) s))) as [-> ->].
    by destruct (sm_usingTCP m), r.
Qed.

Definition handler_count (handlerCount : nat) : nat :=
  if (handlerCount =? 0)%nat then defaultHandlerCount else handlerCount.

Lemma new_server_inv handlerCount listeners readers :
  let s := NewServer handlerCount listeners readers in
  conns_inv s ∧ work_inv (handler_count handlerCount) s ∧ bufs_inv s.
Proof.
  unfold NewServer. fold (handler_count handlerCount). split; [|split].
  - split; [done|]. split; [|split; [apply NoDup_nil_2|by constructor]].
    unfold checked. cbn [sv_tcpConnCount sv_listeners]. rewrite length_replicate.
    assert (base.filter (λ b, b = true) (replicate listeners false) = []) as ->; [|unfold maxConcurrentTCPConn; cbn; lia].
    induction listeners as [|n IH]; [done|]. cbn [replicate]. by rewrite filter_cons_False.
  - split; cbn; lia.
  - split; unfold bufs; cbn; rewrite app_nil_r; [apply NoDup_seq|].
    apply Forall_forall. intros x Hx%elem_of_seq. lia.
Qed.

Lemma server_reachable_inv handlerCount listeners readers s :
  rtc (srv_step serves) (NewServer handlerCount listeners readers) s →
  conns_inv s ∧ work_inv (handler_count handlerCount) s ∧ bufs_inv s ∧
  sv_cap s = handler_count handlerCount ∧ length (sv_listeners s) = listeners.
Proof.
  intros Hr. pattern s. revert s Hr. apply rtc_ind_r.
  - destruct (new_server_inv handlerCount listeners readers) as (H1 & H2 & H3).
    split_and!; [done..|apply length_replicate].
  - intros s1 s2 _ Hs (H1 & H2 & H3 & H4 & H5). destruct (constants_step _ _ Hs) as [-> ->].
    split_and!; [by eapply conns_inv_step|by eapply work_inv_step|by eapply bufs_inv_step|done..].
Qed.

(** C29: the goroutines of the server in every interleaving.  The number of handler routines
    stays what it was, crashes included; the channel never holds more messages than its
    size; the count of TCP connections is that of the open ones and exceeds the limit by
    less than the number of listeners; every message on its way has a connection of its
    own; and no datagram buffer is read into while a query in it waits or is served. *)
Theorem server_invariant handlerCount listeners readers s :
  rtc (srv_step serves) (NewServer handlerCount listeners readers) s →
  (sv_idle s + length (sv_busy s))%nat = handler_count handlerCount ∧
  (length (sv_queue s) ≤ handler_count handlerCount)%nat ∧
  sv_tcpConnCount s = Z.of_nat (size (sv_conns s)) ∧
  sv_tcpConnCount s ≤ maxConcurrentTCPConn - 1 + Z.of_nat listeners ∧
  NoDup (omap conn_of (sv_queue s ++ sv_busy s)) ∧
  Forall (λ c, sv_conns s !! c = Some Waiting) (omap conn_of (sv_queue s ++ sv_busy s)) ∧
  NoDup (sv_readers s ++ omap buf_of (sv_queue s ++ sv_busy s) ++ sv_pool s).
Proof.
  intros Hr. apply server_reachable_inv in Hr as ((H1 & H2 & H3 & H4) & (H5 & H6) & [H7 _] & H8 & H9).
  unfold waiting, bufs in *. rewrite !omap_app, <- app_assoc. split_and!; try done; try lia; congruence.
Qed.

(** ** Connections nobody releases *)

Lemma abandoned_step s s' c :
  conns_inv s → srv_step serves s s' → sv_conns s !! c = Some Abandoned → sv_conns s' !! c = Some Abandoned.
Proof.
  intros Hinv Hs Hc. destruct Hs as [| |s i conn Hl Hn|s conn Hr|s conn addr dest data Hr Hq
    |s i addr dest conn data Hi| |s m b1 b2 r Hb Hs]; cbn; try done.
  - rewrite lookup_insert_ne; [done|congruence].
  - rewrite lookup_delete_ne; [done|congruence].
  - rewrite lookup_insert_ne; [done|congruence].
  - destruct (control_runUDP i addr dest conn data s) as [E|(b & Hl & E)]; injection E as _ _ _ _ _ _ ->;
      done.
  - pose proof (control_finish m r (handler_done (b1 ++ b2) s)) as E. injection E as _ _ _ _ _ _ ->.
    destruct (sm_usingTCP m) eqn:Et; [|done].
    assert (sv_conns s !! sm_conn m = Some Waiting) as Hw.
    { destruct Hinv as (_ & _ & _ & H4). rewrite Forall_forall in H4. apply H4. unfold waiting.
      rewrite Hb, !omap_app. cbn. unfold conn_of at 3. rewrite Et. set_solver. }
    assert (sm_conn m ≠ c) by congruence.
    destruct r; cbn; rewrite ?lookup_delete_ne, ?lookup_insert_ne by done; done.
Qed.

Fixpoint abandoned (n : nat) : gmap nat ConnPhase :=
  match n with O => ∅ | S n => <[n := Abandoned]> (abandoned n) end.

Lemma abandoned_lookup n k : abandoned n !! k = if decide (k < n)%nat then Some Abandoned else None.
Proof.
  induction n as [|n IH]; cbn.
  - by rewrite decide_False by lia.
  - destruct (decide (k = n)) as [->|]; [rewrite lookup_insert_eq, decide_True by lia; done|].
    rewrite lookup_insert_ne, IH by done. repeat case_decide; lia || done.
Qed.

Lemma abandoned_size n : size (abandoned n) = n.
Proof.
  induction n as [|n IH]; [done|]. cbn. rewrite map_size_insert_None; [by f_equal|].
  by rewrite abandoned_lookup, decide_False by lia.
Qed.

(** The server after [n] connections were not answered. *)
Definition leaky (handlerCount listeners readers n : nat) : Server :=
  let s := NewServer handlerCount listeners readers in
  mkServer [] (sv_cap s) (sv_idle s) [] (sv_listeners s) (Z.of_nat n) (abandoned n)
    (sv_readers s) (sv_pool s) (sv_made s).

Lemma leak_one bad handlerCount listeners readers n :
  (∀ m, sm_data m = bad → serves m Unanswered) → Z.of_nat n < maxConcurrentTCPConn →
  rtc (srv_step serves) (leaky handlerCount (S listeners) readers n)
    (leaky handlerCount (S listeners) readers (S n)).
Proof.
  intros Hbad Hn. unfold leaky, NewServer. fold (handler_count handlerCount). cbn [replicate].
  assert (∃ k, handler_count handlerCount = S k) as [k Hk].
  { unfold handler_count, defaultHandlerCount. destruct handlerCount as [|k]; cbn; eauto. }
  rewrite Hk. cbn.
  eapply rtc_l; [by apply (step_check _ _ 0)|]. cbn.
  eapply rtc_l; [apply (step_accept _ _ 0 n); [done|]; cbn;
    rewrite abandoned_lookup, decide_False by lia; done|]. cbn.
  eapply rtc_l; [apply (step_tcp _ _ n (TCPAddr [] 0) (TCPAddr [] 0) bad);
    [cbn; apply lookup_insert_eq|cbn; lia]|]. cbn.
  eapply rtc_l; [by eapply step_take|]. cbn.
  eapply rtc_l; [apply (step_finish _ _ (mkSrvMsg true (TCPAddr [] 0) (TCPAddr [] 0) n 0 bad) [] [] Unanswered);
    [done|by apply Hbad]|].
  unfold finish, set_conns, handler_done. cbn. rewrite !insert_insert_eq. replace (Z.of_nat n + 1 + 0 + 0) with (Z.of_nat (S n)) by lia.
  apply rtc_refl.
Qed.

(** C30: TCP service ends after 512 messages that get no response.  Only sending a response
    releases a connection, so 512 connections whose message is not answered (bytes that
    are no DNS message are enough) bring the server, with an empty channel and all
    handlers idle, to a state from which every further connection is refused, whatever
    happens. *)
Theorem tcp_service_ends bad handlerCount listeners readers :
  (∀ m, sm_data m = bad → serves m Unanswered) →
  ∃ s, rtc (srv_step serves) (NewServer handlerCount (S listeners) readers) s ∧
    sv_queue s = [] ∧ sv_busy s = [] ∧
    ∀ s', rtc (srv_step serves) s s' → maxConcurrentTCPConn ≤ sv_tcpConnCount s'.
Proof.
  intros Hbad. assert (∀ n, Z.of_nat n ≤ maxConcurrentTCPConn →
    rtc (srv_step serves) (NewServer handlerCount (S listeners) readers)
      (leaky handlerCount (S listeners) readers n)) as Hreach.
  { induction n as [|n IH]; intros Hn; [apply rtc_refl|].
    etrans; [apply IH; lia|]. apply (leak_one bad); [done|lia]. }
  exists (leaky handlerCount (S listeners) readers 512). split_and!; [apply Hreach; done|done|done|].
  intros s' Hr.
  assert (conns_inv s' ∧ ∀ c, (c < 512)%nat → sv_conns s' !! c = Some Abandoned) as [[H1 _] Hc].
  { pattern s'. revert s' Hr. apply rtc_ind_r.
    - split; [by apply (server_reachable_inv handlerCount (S listeners) readers), Hreach|].
      intros c Hc. cbn [leaky sv_conns]. by rewrite abandoned_lookup, decide_True.
    - intros s1 s2 _ Hs [Hi Hc]. split; [by eapply conns_inv_step|]. intros c Hlt.
      eapply abandoned_step; [done..|by apply Hc]. }
  assert (abandoned 512 ⊆ sv_conns s') as Hsub.
  { apply map_subseteq_spec. intros c p. rewrite abandoned_lookup. case_decide; [|done].
    intros [= <-]. by apply Hc. }
  apply map_subseteq_size in Hsub. rewrite abandoned_size in Hsub. rewrite H1.
  unfold maxConcurrentTCPConn. lia.
Qed.
End server_inv.

(** ** Metrics *)

Section metrics_spec.

Definition total (m : gmap string Z) : Z := map_fold (λ _ n acc, n + acc) 0 m.

Lemma total_insert_None (m : gmap string Z) k n : m !! k = None → total (<[k := n]> m) = n + total m.
Proof. intros Hk. unfold total. rewrite map_fold_insert_L; [done| |done]. intros. lia. Qed.

Lemma total_inc k m : total (inc k m) = total m + 1.
Proof.
  unfold inc. destruct (m !! k) as [n|] eqn:E; cbn [default].
  - assert (total m = n + total (delete k m)) as ->.
    { rewrite <- (insert_delete_id m k n E) at 1. apply total_insert_None, lookup_delete_eq. }
    rewrite <- insert_delete_eq, total_insert_None by apply lookup_delete_eq. cbn. lia.
  - rewrite total_insert_None by done. lia.
Qed.

Inductive metrics_step `{G53Name} : Metrics → Metrics → Prop :=
  | metrics_record client m : metrics_step m (RecordMetrics client m)
  | metrics_reload views m : metrics_step m (Metrics_ReloadConfig views m)
  | metrics_second m : metrics_step m (Metrics_tick m).

Definition NewMetrics : Metrics := mkMetrics ∅ 0 ∅ 0 ∅ 0 ∅ 0 ∅.

(** The request and response counters by view add up to the totals, through any
    sequence of queries, reconfigurations and ticks of the clock. *)
Theorem metrics_add_up `{G53Name} m :
  rtc metrics_step NewMetrics m →
  total (mt_RequestCountByView m) = mt_RequestCount m ∧
  total (mt_ResponseCountByView m) = mt_ResponseCount m ∧
  mt_ResponseCount m ≤ mt_RequestCount m ∧ total (mt_UpdateCountByView m) ≤ mt_UpdateCount m.
Proof.
  intros Hr. pattern m. revert m Hr. apply rtc_ind_r; [done|].
  intros m1 m2 _ Hs (H1 & H2 & H3 & H4). destruct Hs as [client m| |]; try done.
  unfold RecordMetrics. destruct (_ =? OP_QUERY); [|destruct (_ && _)]; cbn; rewrite ?total_inc.
  - case_bool_decide; rewrite ?total_inc; lia.
  - repeat case_bool_decide; rewrite ?total_inc; lia.
  - lia.
Qed.
End metrics_spec.

(** ** Witnesses *)

Section server_examples.

(** A server whose chain answers nothing. *)
Definition mute : SrvMsg → SrvResult → Prop :=
  message_serves (W := unit) (λ _, []) (λ s client, Ret (s, client)) None.

Lemma mute_bad m : sm_data m = [] → mute m Unanswered.
Proof. intros E. exists 0, (∅, NewMetrics, ()). unfold serve_message. by rewrite E. Qed.

Lemma tcp_service_ends_witness :
  ∃ s, rtc (srv_step mute) (NewServer 4 1 1) s ∧ sv_queue s = [] ∧ sv_busy s = [] ∧
    ∀ s', rtc (srv_step mute) s s' → maxConcurrentTCPConn ≤ sv_tcpConnCount s'.
Proof. exact (tcp_service_ends mute [] 4 0 1 mute_bad). Defined.

Definition demo_srv_next : Server := runUDP_turn 0 (UDPAddr [] 0) (UDPAddr [] 0) 0 (Some [1; 2]) (NewServer 4 1 1).

Lemma server_invariant_witness :
  (sv_idle demo_srv_next + length (sv_busy demo_srv_next))%nat = 4%nat ∧
  NoDup (sv_readers demo_srv_next ++ omap buf_of (sv_queue demo_srv_next ++ sv_busy demo_srv_next)
         ++ sv_pool demo_srv_next).
Proof.
  destruct (server_invariant mute 4 1 1 demo_srv_next) as (H1 & _ & _ & _ & _ & _ & H7).
  - apply rtc_once. apply step_udp. cbn. lia.
  - split; [exact H1|exact H7].
Defined.

Lemma metrics_add_up_witness :
  total (mt_RequestCountByView (RecordMetrics (mkClient None None false (query www RR_A) None "v" 0 false true 0) NewMetrics)) = 1.
Proof.
  refine (proj1 (metrics_add_up (RecordMetrics (mkClient None None false (query www RR_A) None "v" 0 false true 0) NewMetrics) _)).
  apply rtc_once. apply metrics_record.
Defined.

(** A second datagram gets a buffer of its own. *)
Example two_datagrams :
  omap buf_of (sv_queue (runUDP_turn 0 (UDPAddr [] 0) (UDPAddr [] 0) 0 (Some [3]) demo_srv_next)) = [0; 1]%nat ∧
  sv_readers (runUDP_turn 0 (UDPAddr [] 0) (UDPAddr [] 0) 0 (Some [3]) demo_srv_next) = [2]%nat.
Proof. done. Qed.
End server_examples.
