(* ===== verification/ServerStop.v ===== *)
(** * Stopping the server (src/server/cmdhandler.go, server.go, src/cmd/vanguard)

    [stop] closes the channel that every handler routine listens to beside the channel of
    messages, waits until the routines have ended, and makes a new channel.  The command
    Stop, the command Reconfig and the handler of interrupts all call it, the latter from
    another goroutine than the commands.  Here are the routines, the readers and the callers
    of [stop] in every interleaving: a stop returns, nothing is served after it, and two of
    them at a time are one too many. *)

From S2P Require Import Prelude GoStd G53 Instances Core Util Server ServerSpec.

Local Open Scope nat_scope.

(** Where a caller of [stop] is: before the call of [close], in [wg.Wait], before the new
    channel is made, back, or ended by the panic of closing a closed channel. *)
Inductive Caller : Type :=
  | Calling
  | WaitingForRoutines
  | Waited
  | Returned
  | Failed.

#[export] Instance Caller_eq_dec : EqDecision Caller.
Proof. solve_decision. Defined.

(** The server with the counter of the wait group, whether [stopChan] is closed, and the
    callers. *)
Record Stopping : Type := mkStopping {
  sp_server : Server;
  sp_wg : nat;
  sp_closed : bool;
  sp_callers : list Caller;
}.

(** The message [m] goes to a routine. *)
Definition take_message (m : SrvMsg) (queue : list SrvMsg) (idle : nat) (s : Server) : Server :=
  mkServer queue (sv_cap s) idle (m :: sv_busy s) (sv_listeners s) (sv_tcpConnCount s) (sv_conns s)
    (sv_readers s) (sv_pool s) (sv_made s).

(** A routine that chose the stop channel is gone. *)
Definition routine_ends (idle : nat) (s : Server) : Server :=
  mkServer (sv_queue s) (sv_cap s) idle (sv_busy s) (sv_listeners s) (sv_tcpConnCount s) (sv_conns s)
    (sv_readers s) (sv_pool s) (sv_made s).

Section stop.
Context (serves : SrvMsg → SrvResult → Prop).

(** The steps of the handler routines.  With both channels ready [select] takes either.  A
    routine whose turn panics starts another one before it is done, so that the counter
    stays. *)
Inductive routine_step : Stopping → Stopping → Prop :=
  | rt_take s wg closed callers m queue idle :
      sv_queue s = m :: queue → sv_idle s = S idle →
      routine_step (mkStopping s wg closed callers) (mkStopping (take_message m queue idle s) wg closed callers)
  | rt_finish s wg closed callers m busy1 busy2 r :
      sv_busy s = busy1 ++ m :: busy2 → serves m r →
      routine_step (mkStopping s wg closed callers)
        (mkStopping (finish m r (handler_done (busy1 ++ busy2) s)) wg closed callers)
  | rt_exit s wg callers idle :
      sv_idle s = S idle →
      routine_step (mkStopping s wg true callers) (mkStopping (routine_ends idle s) (wg - 1) true callers).

(** The steps of the callers. *)
Inductive caller_step : Stopping → Stopping → Prop :=
  | cl_close s wg callers i :
      callers !! i = Some Calling →
      caller_step (mkStopping s wg false callers) (mkStopping s wg true (<[i := WaitingForRoutines]> callers))
  | cl_close_closed s wg callers i :
      callers !! i = Some Calling →
      caller_step (mkStopping s wg true callers) (mkStopping s wg true (<[i := Failed]> callers))
  | cl_wait s closed callers i :
      callers !! i = Some WaitingForRoutines →
      caller_step (mkStopping s 0 closed callers) (mkStopping s 0 closed (<[i := Waited]> callers))
  | cl_renew s wg closed callers i :
      callers !! i = Some Waited →
      caller_step (mkStopping s wg closed callers) (mkStopping s wg false (<[i := Returned]> callers)).

(** What happens once no message comes in any more. *)
Definition quiet_step (x y : Stopping) : Prop := routine_step x y ∨ caller_step x y.

(** The readers and acceptors of the sockets besides. *)
Inductive stop_step : Stopping → Stopping → Prop :=
  | st_goroutine s s' wg closed callers :
      srv_step (λ _ _, False) s s' →
      stop_step (mkStopping s wg closed callers) (mkStopping s' wg closed callers)
  | st_quiet x y : quiet_step x y → stop_step x y.

(** ** The invariant *)

Definition live (s : Server) : nat := sv_idle s + length (sv_busy s).

(** A caller that has closed the channel and not made a new one. *)
Definition holding (c : Caller) : bool :=
  match c with WaitingForRoutines | Waited => true | _ => false end.

Definition holders (callers : list Caller) : nat := length (base.filter (λ c, holding c = true) callers).

(** The counter is the number of routines; the channel is closed while one caller holds it,
    and never two; who has waited has seen the last routine end; and a call fails only when
    another is under way or done. *)
Record stop_inv (x : Stopping) : Prop := mkStopInv {
  si_wg : sp_wg x = live (sp_server x);
  si_closed : holders (sp_callers x) = if sp_closed x then 1 else 0;
  si_done : Waited ∈ sp_callers x ∨ Returned ∈ sp_callers x → live (sp_server x) = 0;
  si_failed : Failed ∈ sp_callers x → sp_closed x = true ∨ Returned ∈ sp_callers x;
}.

Lemma holders_insert (callers : list Caller) i c c' :
  callers !! i = Some c →
  holders (<[i := c']> callers) + (if holding c then 1 else 0) = holders callers + (if holding c' then 1 else 0).
Proof.
  intros E. unfold holders. rewrite insert_take_drop by (by eapply lookup_lt_Some).
  rewrite <- (take_drop_middle callers i c E) at 3. rewrite !filter_app, !filter_cons, !length_app.
  destruct (holding c), (holding c'); repeat case_decide; cbn; try done; lia.
Qed.

(** The other steps of the goroutines keep the number of routines. *)
Lemma goroutine_live s s' : srv_step (λ _ _, False) s s' → live s' = live s.
Proof.
  unfold live. destruct 1 as [| | | |s conn addr dest data Hr Hl|s i addr dest conn data Hi
    |s m queue idle Hq Hi|s m b1 b2 r Hb []]; cbn; try done.
  - destruct (control_runUDP i addr dest conn data s) as [E|(b & _ & E)]; injection E as _ _ -> -> _ _ _; done.
  - rewrite Hi. lia.
Qed.

Lemma finish_live m r busy1 busy2 s :
  sv_busy s = busy1 ++ m :: busy2 → live (finish m r (handler_done (busy1 ++ busy2) s)) = live s.
Proof.
  intros Hb. pose proof (control_finish m r (handler_done (busy1 ++ busy2) s)) as E. injection E as _ _ Ei Eb _ _ _.
  unfold live. rewrite Ei, Eb, Hb.
  destruct (sm_usingTCP m), r; cbn; rewrite !length_app; cbn; lia.
Qed.

Lemma routine_step_inv x y : routine_step x y → stop_inv x → stop_inv y.
Proof.
  destruct 1 as [s wg closed callers m queue idle Hq Hi|s wg closed callers m b1 b2 r Hb Hs|s wg callers idle Hi];
    intros [H1 H2 H3 H4]; split; cbn in *; try done.
  - unfold live in *. cbn. lia.
  - intros Hd. specialize (H3 Hd). unfold live in *. cbn. lia.
  - by rewrite (finish_live _ _ _ _ _ Hb).
  - by rewrite (finish_live _ _ _ _ _ Hb).
  - unfold live in *. cbn. lia.
  - intros Hd. specialize (H3 Hd). unfold live in *. cbn. lia.
Qed.

Lemma insert_elem (callers : list Caller) i c c' : c ∈ <[i := c']> callers → c = c' ∨ c ∈ callers.
Proof.
  intros [j Hj]%list_elem_of_lookup. destruct (decide (i = j)) as [->|Hne].
  - apply list_lookup_insert_Some in Hj as [(_ & -> & _)|[? _]]; [by left|done].
  - rewrite list_lookup_insert_ne in Hj by done. right. by eapply list_elem_of_lookup_2.
Qed.

Lemma insert_keeps (callers : list Caller) i c c' c0 :
  callers !! i = Some c0 → c ≠ c0 → c ∈ callers → c ∈ <[i := c']> callers.
Proof.
  intros Hi Hne [j Hj]%list_elem_of_lookup. apply (list_elem_of_lookup_2 _ j). rewrite list_lookup_insert_ne; [done|].
  intros ->. congruence.
Qed.

Lemma caller_step_inv x y : caller_step x y → stop_inv x → stop_inv y.
Proof.
  destruct 1 as [s wg callers i Hi|s wg callers i Hi|s closed callers i Hi|s wg closed callers i Hi];
    intros [H1 H2 H3 H4]; split; cbn [sp_wg sp_server sp_closed sp_callers] in *; auto.
  - pose proof (holders_insert _ _ _ WaitingForRoutines Hi) as Hh; cbn [holding] in Hh. lia.
  - intros [Hin|Hin]; apply insert_elem in Hin as [?|?]; auto; done.
  - pose proof (holders_insert _ _ _ Failed Hi) as Hh; cbn [holding] in Hh. lia.
  - intros [Hin|Hin]; apply insert_elem in Hin as [?|?]; auto; done.
  - pose proof (holders_insert _ _ _ Waited Hi) as Hh; cbn [holding] in Hh. destruct closed; lia.
  - intros [?|Hin]%insert_elem; [done|]. destruct (H4 Hin) as [?|?]; [by left|right]. by eapply insert_keeps.
  - pose proof (holders_insert _ _ _ Returned Hi) as Hh; cbn [holding] in Hh. destruct closed; lia.
  - intros _. apply H3. left. by eapply list_elem_of_lookup_2.
  - intros _. right. apply (list_elem_of_lookup_2 _ i), list_lookup_insert_eq. by eapply lookup_lt_Some.
Qed.

Lemma stop_step_inv x y : stop_step x y → stop_inv x → stop_inv y.
Proof.
  destruct 1 as [s s' wg closed callers Hs|x y [Hs|Hs]]; [|by apply routine_step_inv|by apply caller_step_inv].
  intros [H1 H2 H3 H4]. split; cbn in *; rewrite ?(goroutine_live _ _ Hs); done.
Qed.

(** ** Termination *)

Definition caller_rank (c : Caller) : nat :=
  match c with Calling => 3 | WaitingForRoutines => 2 | Waited => 1 | _ => 0 end.

(** What is left to do: a message is taken, served and leaves a routine to end. *)
Definition work_left (x : Stopping) : nat :=
  3 * length (sv_queue (sp_server x)) + 2 * length (sv_busy (sp_server x)) + sv_idle (sp_server x) +
  sum_list (caller_rank <$> sp_callers x).

Lemma rank_insert (callers : list Caller) i c c' :
  callers !! i = Some c → caller_rank c' < caller_rank c →
  sum_list (caller_rank <$> <[i := c']> callers) < sum_list (caller_rank <$> callers).
Proof.
  intros E Hlt. rewrite insert_take_drop by (by eapply lookup_lt_Some).
  rewrite <- (take_drop_middle callers i c E) at 3. rewrite !fmap_app.
  cbn. clear E. induction (take i callers) as [|x l IH]; cbn; lia.
Qed.

Lemma quiet_step_work x y : quiet_step x y → work_left y < work_left x.
Proof.
  unfold work_left. intros [[s wg closed callers m queue idle Hq Hi|s wg closed callers m b1 b2 r Hb Hs
    |s wg callers idle Hi]|[s wg callers i Hi|s wg callers i Hi|s closed callers i Hi|s wg closed callers i Hi]];
    cbn [sp_server sp_callers].
  - cbn. rewrite Hq, Hi. cbn. lia.
  - pose proof (control_finish m r (handler_done (b1 ++ b2) s)) as E. injection E as Eq _ Ei Eb _ _ _. rewrite Eq, Ei, Eb, Hb.
    destruct (sm_usingTCP m), r; cbn; rewrite !length_app; cbn; lia.
  - cbn. rewrite Hi. lia.
  - pose proof (rank_insert _ _ _ WaitingForRoutines Hi ltac:(cbn; lia)). lia.
  - pose proof (rank_insert _ _ _ Failed Hi ltac:(cbn; lia)). lia.
  - pose proof (rank_insert _ _ _ Waited Hi ltac:(cbn; lia)). lia.
  - pose proof (rank_insert _ _ _ Returned Hi ltac:(cbn; lia)). lia.
Qed.

Lemma quiet_steps_bounded n x y : nsteps quiet_step n x y → n + work_left y ≤ work_left x.
Proof. induction 1 as [|n x y z Hs _ IH]; [lia|]. apply quiet_step_work in Hs. lia. Qed.

(** A caller that is not done can go on, or a routine can. *)
Lemma caller_progress x i c :
  (∀ m, ∃ r, serves m r) → stop_inv x → sp_callers x !! i = Some c → caller_rank c ≠ 0 → ∃ y, quiet_step x y.
Proof.
  intros Hserves [H1 H2 _ _] Hi Hc. destruct x as [s wg closed callers].
  cbn [sp_wg sp_server sp_closed sp_callers] in *. destruct c; try done.
  - destruct closed; eexists; right; by econstructor.
  - assert (closed = true) as ->.
    { destruct closed; [done|]. pose proof (holders_insert _ _ _ Failed Hi) as Hh; cbn [holding] in Hh. lia. }
    destruct (sv_idle s) as [|idle] eqn:Ei; [|eexists; left; by econstructor].
    destruct (sv_busy s) as [|m busy] eqn:Eb.
    + assert (wg = 0) as -> by (unfold live in H1; rewrite Ei, Eb in H1; done). eexists; right; by econstructor.
    + destruct (Hserves m) as [r Hr]. eexists. left. by apply (rt_finish s wg true callers m [] busy r).
  - eexists; right; by econstructor.
Qed.

(** ** A stop *)

(** A server with [k] calls of [stop] to come. *)
Definition stoppable (s : Server) (k : nat) : Stopping := mkStopping s (live s) false (replicate k Calling).

Lemma stoppable_inv s k : stop_inv (stoppable s k).
Proof.
  assert (∀ c, c ∈ replicate k Calling → c = Calling) as Hc by (intros c [-> _]%elem_of_replicate; done).
  split; cbn [stoppable sp_wg sp_server sp_closed sp_callers]; [done| | |].
  - unfold holders. clear Hc. induction k as [|k IH]; [done|]. cbn [replicate].
    by rewrite filter_cons_False.
  - by intros [?%Hc|?%Hc].
  - by intros ?%Hc.
Qed.

Lemma reachable_stop_inv s k x : rtc stop_step (stoppable s k) x → stop_inv x ∧ length (sp_callers x) = k.
Proof.
  intros Hr. pattern x. revert x Hr. apply rtc_ind_r; [split; [apply stoppable_inv|apply length_replicate]|].
  intros x y _ Hs [Hi Hl]. split; [by eapply stop_step_inv|]. rewrite <- Hl.
  destruct Hs as [|? ? [Hs|Hs]]; [done|..]; destruct Hs; cbn; rewrite ?length_insert; done.
Qed.

Lemma quiet_rtc x y : rtc quiet_step x y → rtc stop_step x y.
Proof. induction 1 as [|x y z Hs _ IH]; [done|]. by eapply rtc_l; [apply st_quiet|]. Qed.

(** C31: a stop returns.  Take any server, any number of calls of [stop] and any interleaving
    of them with the routines and the readers.  A caller that returned has seen the last
    routine end: no routine is left and no message is being served.  A single call never
    fails.  Once no message comes in any more, and if every turn of a routine ends, the rest
    is bounded: in at most three steps for each message that waits, two for each that is
    served, one for each routine and three for each caller everything has come to rest, and
    then every call has returned or failed, and at least one has returned. *)
Theorem stop_returns s k x :
  (∀ m, ∃ r, serves m r) → rtc stop_step (stoppable s k) x →
  (Returned ∈ sp_callers x → live (sp_server x) = 0) ∧
  (k = 1 → Failed ∉ sp_callers x) ∧
  (∀ n y, nsteps quiet_step n x y → n ≤ work_left x) ∧
  (∀ y, rtc quiet_step x y → (∀ z, ¬ quiet_step y z) →
     Forall (λ c, c = Returned ∨ c = Failed) (sp_callers y) ∧
     (0 < k → Returned ∈ sp_callers y ∧ live (sp_server y) = 0)).
Proof.
  intros Hserves Hr. destruct (reachable_stop_inv _ _ _ Hr) as [Hx Hlen]. split_and!.
  - intros Hin. apply Hx. by right.
  - intros -> Hf. pose proof (si_failed _ Hx Hf) as Hc. pose proof (si_closed _ Hx) as Hh.
    destruct (sp_callers x) as [|c [|]]; [done| |done]. apply list_elem_of_singleton in Hf as <-.
    destruct Hc as [Hc|Hc%list_elem_of_singleton]; [|done]. by rewrite Hc in Hh.
  - intros n y Hn%quiet_steps_bounded. lia.
  - intros y Hq Hstuck. destruct (reachable_stop_inv s k y) as [Hy Hleny];
      [etrans; [exact Hr|by apply quiet_rtc]|].
    assert (Forall (λ c, c = Returned ∨ c = Failed) (sp_callers y)) as Hall.
    { apply Forall_lookup. intros i c Hi. destruct (decide (caller_rank c = 0)) as [Hc|Hc]; [destruct c; auto; done|].
      destruct (caller_progress _ _ _ Hserves Hy Hi Hc) as [z Hz]. by destruct (Hstuck z). }
    split; [done|]. intros Hk. assert (Returned ∈ sp_callers y) as Hin; [|split; [done|]; apply Hy; by right].
    destruct (sp_callers y) as [|c cs] eqn:Ec; [cbn in Hleny; lia|]. apply Forall_cons in Hall as [[-> | ->] Hall]; [by left|].
    pose proof (si_failed _ Hy) as Hf. rewrite Ec in Hf. destruct Hf as [Hc|]; [by left| |done].
    pose proof (si_closed _ Hy) as Hh. rewrite Hc, Ec in Hh. exfalso. revert Hh. unfold holders.
    rewrite filter_cons_False by done. clear -Hall. induction Hall as [|c' cs Hc' _ IH]; [done|].
    rewrite filter_cons_False; [done|by destruct Hc' as [->| ->]].
Qed.

(** An interrupt while a command waits for the routines to end: the second call closes the
    closed channel, and the process panics instead of ending in order. *)
Lemma stop_twice s : ∃ x, rtc stop_step (stoppable s 2) x ∧ sp_callers x = [WaitingForRoutines; Failed].
Proof.
  eexists. split.
  - eapply rtc_l; [apply st_quiet; right; by apply (cl_close s (live s) [Calling; Calling] 0)|].
    eapply rtc_l; [apply st_quiet; right; by apply (cl_close_closed s (live s) [WaitingForRoutines; Calling] 1)|].
    apply rtc_refl.
  - done.
Qed.
End stop.

(** A server with two routines, one of which serves a message, and a message that waits. *)
Section stop_examples.
Definition any_turn (_ : SrvMsg) (_ : SrvResult) : Prop := True.
Definition stop_msg : SrvMsg := mkSrvMsg false (UDPAddr [10; 0; 0; 1]%Z 5353) (UDPAddr [10; 0; 0; 2]%Z 53) 0 0 [1%Z].
Definition busy_server : Server := mkServer [stop_msg] 2 1 [stop_msg] [] 0 ∅ [1] [] 2.

Lemma stop_returns_witness :
  work_left (stoppable busy_server 1) = 9 ∧
  ∀ y, rtc (quiet_step any_turn) (stoppable busy_server 1) y → (∀ z, ¬ quiet_step any_turn y z) →
    Returned ∈ sp_callers y ∧ live (sp_server y) = 0.
Proof.
  split; [done|]. intros y Hy Hstuck.
  destruct (stop_returns any_turn busy_server 1 (stoppable busy_server 1)) as (_ & _ & _ & H);
    [intros m; by exists Unanswered|done|]. destruct (H y Hy Hstuck) as [_ H1]. apply H1. lia.
Defined.
End stop_examples.
