(* ===== verification/MetricsVars.v ===== *)
(** * The vectors of the metrics (src/metrics/vars.go, metrics.go, counter.go)

    What the process counts is shown through a library: twelve vectors, each with a name and
    the names of its labels, are put into a registry, and every event picks a sample by its
    label values.  A vector registered twice, or one used with the wrong number of label
    values, panics.  Here the library is a class with its documented laws; the theorems show
    that the twelve vectors can be registered, that no event panics, and that the samples are
    the counters and gauges [Metrics] of Server.v has, with the hits of the cache besides. *)

From Stdlib Require Import Ascii.
From S2P Require Import Prelude GoStd G53 Instances Core Util Cache CacheHandler Server ServerSpec.

Local Open Scope Z_scope.

(** ** vars.go *)

Definition Namespace : string := "zdns".
Definition Subsystem : string := "vanguard".

(** The options of a vector and its labels. *)
Record Desc : Type := mkDesc {
  d_Namespace : string;
  d_Subsystem : string;
  d_Name : string;
  d_Help : string;
  d_labels : list string;
}.

#[export] Instance Desc_eq_dec : EqDecision Desc.
Proof. solve_decision. Defined.

Definition RequestCount : Desc :=
  mkDesc Namespace Subsystem "request_count_total" "Counter of DNS requests made all views." ["module"].
Definition RequestCountByView : Desc :=
  mkDesc Namespace Subsystem "request_count_by_view" "Counter of DNS requests made per view." ["module"; "view"].
Definition ResponseCount : Desc :=
  mkDesc Namespace Subsystem "response_count_total" "Counter of DNS responses made all views." ["module"].
Definition ResponseCountByView : Desc :=
  mkDesc Namespace Subsystem "response_count_by_view" "Counter of DNS responses made per view." ["module"; "view"].
Definition UpdateCount : Desc :=
  mkDesc Namespace Subsystem "update_count_total" "Counter of DNS update made all views." ["module"].
Definition UpdateCountByView : Desc :=
  mkDesc Namespace Subsystem "update_count_by_view" "Counter of DNS update made per view." ["module"; "view"].
Definition QPS : Desc :=
  mkDesc Namespace Subsystem "qps" "requests per second made all views." ["module"].
Definition QPSByView : Desc :=
  mkDesc Namespace Subsystem "qps_by_view" "requests per second made per view." ["module"; "view"].
Definition CacheSize : Desc :=
  mkDesc Namespace Subsystem "cache_size_total" "The number of elements in the cache made all views." ["module"].
Definition CacheSizeByView : Desc :=
  mkDesc Namespace Subsystem "cache_size_by_view" "The number of elements in the cache made per view."
    ["module"; "view"].
Definition CacheHits : Desc :=
  mkDesc Namespace Subsystem "cache_hits_total" "The count of cache hits all views." ["module"].
Definition CacheHitsByView : Desc :=
  mkDesc Namespace Subsystem "cache_hits_by_view" "The count of cache hits per view." ["module"; "view"].

(** ** The library *)

(** The characters a name of a metric may have: letters, digits, [_] and [:], the first no
    digit. *)
Definition name_char (c : ascii) : bool :=
  let n := Z.of_N (N_of_ascii c) in
  ((97 <=? n) && (n <=? 122)) || ((65 <=? n) && (n <=? 90)) || (n =? 95) || (n =? 58).
Definition digit_char (c : ascii) : bool :=
  let n := Z.of_N (N_of_ascii c) in (48 <=? n) && (n <=? 57).
Definition metric_name (s : string) : bool :=
  match String.list_ascii_of_string s with
  | [] => false
  | c :: rest => name_char c && forallb (λ c, name_char c || digit_char c) rest
  end.

(** The values of labels may be any text; one without bytes over 127 is. *)
Definition plain_ascii (s : string) : bool :=
  forallb (λ c, Z.of_N (N_of_ascii c) <? 128) (String.list_ascii_of_string s).

(** What the package says of its registry and its vectors.  [value] is the value a sample
    has; one that was never touched shows zero. *)
Class Prometheus : Type := {
  BuildFQName : string → string → string → string;
  Registry : Type;
  NewRegistry : Registry;
  registered : Registry → list string;
  MustRegister : Desc → Registry → outcome Registry;
  Samples : Type;
  label_value : string → bool;
  value : Samples → Desc → list string → Z;
  Inc : Desc → list string → Samples → outcome Samples;
  SetTo : Desc → list string → Z → Samples → outcome Samples;
  fq_joined ns sub name : ns ≠ "" → sub ≠ "" → name ≠ "" →
    BuildFQName ns sub name = (ns +:+ "_" +:+ sub +:+ "_" +:+ name)%string;
  registry_empty : registered NewRegistry = [];
  register_ok d r :
    let fq := BuildFQName (d_Namespace d) (d_Subsystem d) (d_Name d) in
    metric_name fq = true → Forall (λ l, metric_name l = true) (d_labels d) → NoDup (d_labels d) →
    fq ∉ registered r → ∃ r', MustRegister d r = Ret r' ∧ registered r' = registered r ++ [fq];
  ascii_value v : plain_ascii v = true → label_value v = true;
  inc_ok d vs s : length vs = length (d_labels d) → Forall (λ v, label_value v = true) vs →
    ∃ s', Inc d vs s = Ret s' ∧
      ∀ d' vs', value s' d' vs' = value s d' vs' + if decide (d' = d ∧ vs' = vs) then 1 else 0;
  set_ok d vs x s : length vs = length (d_labels d) → Forall (λ v, label_value v = true) vs →
    ∃ s', SetTo d vs x s = Ret s' ∧
      ∀ d' vs', value s' d' vs' = if decide (d' = d ∧ vs' = vs) then x else value s d' vs';
}.

(** ** counter.go *)

Record Counter : Type := mkCounter { count : Z }.
Definition newCounter : Counter := mkCounter 0.
Definition Counter_Clear (c : Counter) : Counter := mkCounter 0.
Definition Counter_Count (c : Counter) : Z := count c.
Definition Counter_Inc (c : Counter) : Counter := mkCounter (u64 (count c + 1)).

(** The counters of the views, as [ReloadConfig] makes them and [recordQps] counts. *)
Abbreviation ViewQps := (gmap string Counter).

Definition reload_qps (views : list string) : ViewQps :=
  foldl (λ qps v, <[v := newCounter]> qps) {[ Metrics_DefaultView := newCounter; TotalView := newCounter ]} views.

Definition record_qps (view : string) (qps : ViewQps) : ViewQps :=
  match qps !! view with
  | Some c => <[view := Counter_Inc c]> qps
  | None => qps
  end.

(** ** metrics.go *)

Section vectors.
Context `{P : Prometheus}.

(** The object [gMetrics] and the samples of the package's vectors. *)
Record Gauged : Type := mkGauged {
  ga_reg : Registry;
  ga_viewQps : ViewQps;
  ga_samples : Samples;
}.

Definition all_vectors : list Desc :=
  [RequestCount; ResponseCount; UpdateCount; QPS; CacheSize; CacheHits;
   RequestCountByView; ResponseCountByView; UpdateCountByView; QPSByView; CacheSizeByView; CacheHitsByView].

Fixpoint register_vectors (ds : list Desc) (r : Registry) : outcome Registry :=
  match ds with
  | [] => Ret r
  | d :: ds => r ← MustRegister d r; register_vectors ds r
  end.

Definition Metrics_New (views : list string) (s : Samples) : outcome Gauged :=
  reg ← register_vectors all_vectors NewRegistry;
  Ret (mkGauged reg (reload_qps views) s).

(** The samples an answered or unanswered message counts for. *)
Definition record_samples {N : G53Name} (client : Client) (s : Samples) : outcome Samples :=
  let opcode := h_opcode (m_header (c_request client)) in
  let view := c_view client in
  if opcode =? OP_QUERY then
    s ← Inc RequestCount ["server"] s;
    s ← Inc RequestCountByView ["server"; view] s;
    match c_response client with
    | Some _ =>
        s ← Inc ResponseCount ["server"] s;
        Inc ResponseCountByView ["server"; view] s
    | None => Ret s
    end
  else if opcode =? OP_UPDATE then
    match c_response client with
    | Some _ =>
        s ← Inc UpdateCount ["server"] s;
        if bool_decide (view ≠ "") then Inc UpdateCountByView ["server"; view] s else Ret s
    | None => Ret s
    end
  else Ret s.

(** [RecordMetrics] in full. *)
Definition RecordMetrics_vectors {N : G53Name} (client : Client) (g : Gauged) : outcome Gauged :=
  let qps := if h_opcode (m_header (c_request client)) =? OP_QUERY
             then record_qps (c_view client) (record_qps TotalView (ga_viewQps g)) else ga_viewQps g in
  s ← record_samples client (ga_samples g);
  Ret (mkGauged (ga_reg g) qps s).

(** A turn of [Run], over the views in the order the loop meets them. *)
Definition tick_view (v : string * Counter) (s : Samples) : outcome Samples :=
  if bool_decide (v.1 = TotalView) then SetTo QPS ["server"] (Counter_Count v.2) s
  else SetTo QPSByView ["server"; v.1] (Counter_Count v.2) s.

Fixpoint tick_views (vs : list (string * Counter)) (s : Samples) : outcome Samples :=
  match vs with
  | [] => Ret s
  | v :: vs => s ← tick_view v s; tick_views vs s
  end.

Definition Run_tick (order : list (string * Counter)) (g : Gauged) : outcome Gauged :=
  s ← tick_views order (ga_samples g);
  Ret (mkGauged (ga_reg g) (Counter_Clear <$> ga_viewQps g) s).

Definition RecordCacheHit (view : string) (s : Samples) : outcome Samples :=
  s ← Inc CacheHits ["cache"] s;
  Inc CacheHitsByView ["cache"; view] s.

Definition RecordCacheSize (view : string) (size totalSize : Z) (s : Samples) : outcome Samples :=
  s ← SetTo CacheSize ["cache"] totalSize s;
  SetTo CacheSizeByView ["cache"; view] size s.

(** [Cache.HandleQuery] with the call that counts its hits. *)
Definition Cache_HandleQuery_counting {N : G53Name} {M : G53Msg N} {W} (now : Z)
  (next : option (Handler (Caches * Heap * (Samples * W)))) : Handler (Caches * Heap * (Samples * W)) :=
  λ s client,
  let '(c, h, (sm, w)) := s in
  r ← Cache_get now client h c;
  let '(h, c, found) := r in
  match found with
  | Some l =>
      sm ← RecordCacheHit (c_view client) sm;
      m ← deref l h;
      let '(l', h) := heap_alloc (cached_reply (c_request client) m) h in
      Ret (c, h, (sm, w), set_response (Some l') (set_cache_hit true client))
  | None =>
      r ← PassToNext next (c, h, (sm, w)) (set_cache_hit false client);
      let '((c, h, w), client) := r in
      match c_response client with
      | Some l =>
          if c_cache_answer client then
            r ← Cache_AddMessage now (c_view client) l h c;
            let '(h, c) := r in Ret (c, h, w, client)
          else Ret (c, h, w, client)
      | None => Ret (c, h, w, client)
      end
  end.
End vectors.

(** ** Registration *)

Section registration.
Context `{P : Prometheus}.

Definition fq (d : Desc) : string := BuildFQName (d_Namespace d) (d_Subsystem d) (d_Name d).

(** A vector that the registry takes when its name is new. *)
Definition good_vector (d : Desc) : Prop :=
  metric_name (fq d) = true ∧ Forall (λ l, metric_name l = true) (d_labels d) ∧ NoDup (d_labels d).

Lemma register_vectors_ok ds r :
  Forall good_vector ds → NoDup (registered r ++ (fq <$> ds)) →
  ∃ r', register_vectors ds r = Ret r' ∧ registered r' = registered r ++ (fq <$> ds).
Proof.
  intros Hg. revert r. induction Hg as [|d ds (H1 & H2 & H3) _ IH]; intros r Hn; cbn.
  - exists r. by rewrite app_nil_r.
  - destruct (register_ok d r H1 H2 H3) as (r1 & -> & Hr1).
    { apply NoDup_app in Hn as (_ & Hn & _). intros Hin. apply (Hn _ Hin). by left. }
    destruct (IH r1) as (r' & E & Hr'); [by rewrite Hr1, <- (assoc_L (++))|].
    exists r'. split; [exact E|]. by rewrite Hr', Hr1, <- (assoc_L (++)).
Qed.

Lemma fq_text d : d_Namespace d = Namespace → d_Subsystem d = Subsystem → d_Name d ≠ "" →
  fq d = ("zdns_vanguard_" +:+ d_Name d)%string.
Proof. intros H1 H2 H3. unfold fq. rewrite H1, H2, fq_joined by done. done. Qed.

Lemma fq_all : fq <$> all_vectors = (λ d, "zdns_vanguard_" +:+ d_Name d)%string <$> all_vectors.
Proof. cbn. rewrite !fq_text by done. done. Qed.

Lemma all_vectors_good : Forall good_vector all_vectors.
Proof.
  assert (Forall (λ d, d_Namespace d = Namespace ∧ d_Subsystem d = Subsystem ∧ d_Name d ≠ "" ∧
    metric_name ("zdns_vanguard_" +:+ d_Name d)%string = true ∧
    forallb metric_name (d_labels d) = true ∧ NoDup (d_labels d)) all_vectors) as H.
  { repeat constructor; try done; by apply (bool_decide_unpack _). }
  eapply Forall_impl; [exact H|]. intros d (H1 & H2 & H3 & H4 & H5 & H6). split_and!; [by rewrite fq_text|..|done].
  apply Forall_forall. intros l Hl. by apply (proj1 (forallb_forall _ _) H5), list_elem_of_In.
Qed.

Lemma Metrics_New_ok views s : ∃ g, Metrics_New views s = Ret g ∧ registered (ga_reg g) = fq <$> all_vectors ∧
  ga_viewQps g = reload_qps views ∧ ga_samples g = s.
Proof.
  destruct (register_vectors_ok all_vectors NewRegistry all_vectors_good) as (r & E & Hr).
  - rewrite registry_empty, fq_all. by apply (bool_decide_unpack _).
  - unfold Metrics_New. rewrite E. eexists. split; [done|]. by rewrite registry_empty in Hr.
Qed.
End registration.

(** ** The samples are the counters *)

Section samples.
Context `{P : Prometheus} {N : G53Name}.

(** The samples of [g] are the counters and gauges [m]. *)
Record shows (g : Gauged) (m : Metrics) : Prop := mkShows {
  sh_viewQps : count <$> ga_viewQps g = mt_viewQps m;
  sh_request : value (ga_samples g) RequestCount ["server"] = mt_RequestCount m;
  sh_requestByView v : value (ga_samples g) RequestCountByView ["server"; v] = default 0 (mt_RequestCountByView m !! v);
  sh_response : value (ga_samples g) ResponseCount ["server"] = mt_ResponseCount m;
  sh_responseByView v :
    value (ga_samples g) ResponseCountByView ["server"; v] = default 0 (mt_ResponseCountByView m !! v);
  sh_update : value (ga_samples g) UpdateCount ["server"] = mt_UpdateCount m;
  sh_updateByView v : value (ga_samples g) UpdateCountByView ["server"; v] = default 0 (mt_UpdateCountByView m !! v);
  sh_qps : value (ga_samples g) QPS ["server"] = mt_QPS m;
  sh_qpsByView v : value (ga_samples g) QPSByView ["server"; v] = default 0 (mt_QPSByView m !! v);
}.

(** The label values of the package's own. *)
Lemma server_value : label_value "server" = true. Proof. by apply ascii_value. Qed.
Lemma cache_value : label_value "cache" = true. Proof. by apply ascii_value. Qed.

Lemma default_inc v k m : default 0 (inc k m !! v) = default 0 (m !! v) + if decide (v = k) then 1 else 0.
Proof.
  unfold inc. case_decide as E.
  - subst. by rewrite lookup_insert_eq.
  - rewrite lookup_insert_ne by done. lia.
Qed.

(** The next event of a vector, and the values after it. *)
Ltac next_event :=
  match goal with
  | |- context [Inc ?d ?vs ?s] =>
      let H := fresh "Hv" in
      destruct (inc_ok d vs s) as (? & -> & H);
        [done|repeat constructor; auto using server_value, cache_value|rewrite ?bind_Ret]
  | |- context [SetTo ?d ?vs ?x ?s] =>
      let H := fresh "Hv" in
      destruct (set_ok d vs x s) as (? & -> & H);
        [done|repeat constructor; auto using server_value, cache_value|rewrite ?bind_Ret]
  end.
Ltac values :=
  cbn [ga_samples]; intros;
  repeat match goal with H : _ ∈ _ :: _ |- _ => apply elem_of_cons in H as [->|H] end;
  try match goal with H : _ ∈ [] |- _ => by apply not_elem_of_nil in H end;
  rewrite ?default_inc;
  repeat match goal with H : ∀ d' vs', value ?s d' vs' = _ |- context [value ?s _ _] => rewrite !H end;
  repeat match goal with
  | |- context [decide (?P ∧ ?Q)] => destruct (decide (P ∧ Q)) as [[? ?]|?]
  | |- context [decide (?x = ?y)] => destruct (decide (x = y))
  end;
  repeat match goal with H : ∀ v, value _ _ _ = default 0 _ |- _ => rewrite H end;
  simplify_eq; try discriminate; try (exfalso; tauto); try congruence; try lia.

Lemma record_qps_count view (qps : ViewQps) : count <$> record_qps view qps = recordQps view (count <$> qps).
Proof.
  unfold record_qps, recordQps. rewrite lookup_fmap. destruct (qps !! view); cbn; [|done]. by rewrite fmap_insert.
Qed.

Lemma record_qps_some view (qps : ViewQps) v : is_Some (record_qps view qps !! v) → is_Some (qps !! v).
Proof.
  unfold record_qps. destruct (qps !! view) eqn:E; [|done]. destruct (decide (v = view)) as [->|]; [by rewrite E|].
  by rewrite lookup_insert_ne.
Qed.

Lemma record_shows client g m :
  shows g m → label_value (c_view client) = true →
  ∃ g', RecordMetrics_vectors client g = Ret g' ∧ shows g' (RecordMetrics client m) ∧ ga_reg g' = ga_reg g ∧
    ∀ d vs, d ∈ [CacheHits; CacheHitsByView; CacheSize; CacheSizeByView] →
      value (ga_samples g') d vs = value (ga_samples g) d vs.
Proof.
  intros [] Hview. unfold RecordMetrics_vectors, record_samples, RecordMetrics.
  destruct (h_opcode _ =? OP_QUERY) eqn:Eq; [|destruct (h_opcode _ =? OP_UPDATE) eqn:Eu];
    destruct (c_response client) eqn:Er; try (destruct (decide (c_view client ≠ "")) as [Ev|Ev];
      [rewrite !(bool_decide_eq_true_2 _ Ev)|rewrite !(bool_decide_eq_false_2 _ Ev)]);
    rewrite ?bool_decide_true, ?bool_decide_false by (by try apply is_Some_None); cbn [andb];
    repeat next_event; (eexists; split; [done|]; split; [split|split; [done|]]); cbn.
  all: rewrite ?record_qps_count; try congruence.
  all: values.
Qed.

Lemma tick_views_ok vs s :
  NoDup vs.*1 → Forall (λ v, label_value v.1 = true) vs →
  ∃ s', tick_views vs s = Ret s' ∧
    value s' QPS ["server"] = default (value s QPS ["server"]) (Counter_Count <$> (list_to_map vs : ViewQps) !! TotalView) ∧
    (∀ v, value s' QPSByView ["server"; v] =
       if decide (v = TotalView) then value s QPSByView ["server"; v]
       else default (value s QPSByView ["server"; v]) (Counter_Count <$> (list_to_map vs : ViewQps) !! v)) ∧
    ∀ d a, d ≠ QPS → d ≠ QPSByView → value s' d a = value s d a.
Proof.
  intros Hn Hl. revert s. induction Hl as [|[w c] vs Hw _ IH]; intros s.
  { exists s. split_and!; try done. intros v. by case_decide. }
  apply NoDup_cons in Hn as [Hw' Hn]. specialize (IH Hn). cbn in Hw, Hw'.
  assert ((list_to_map vs : ViewQps) !! w = None) as Hw0 by by apply not_elem_of_list_to_map.
  cbn [tick_views tick_view fst snd]. unfold tick_view; cbn [fst snd].
  case_bool_decide as Et; next_event; destruct (IH x) as (s' & E & H1 & H2 & H3);
    exists s'; (split; [done|]); cbn [list_to_map foldr]; split_and!.
  all: rewrite ?H1; intros; rewrite ?H2, ?H3 by done.
  all: cbn [fst snd]; try destruct (decide (v = TotalView)) as [->|Hv']; try (destruct (decide (v = w)) as [->|]).
  all: subst; rewrite ?lookup_insert_eq, ?lookup_insert_ne, ?Hw0 by done; try done; cbn [default fmap option_fmap option_map].
  all: by values.
Qed.

(** The views of the counters are label values the library takes. *)
Definition labelled (qps : ViewQps) : Prop := ∀ v, is_Some (qps !! v) → label_value v = true.

Lemma tick_shows order g m :
  order ≡ₚ map_to_list (ga_viewQps g) → labelled (ga_viewQps g) → shows g m →
  ∃ g', Run_tick order g = Ret g' ∧ shows g' (Metrics_tick m) ∧ ga_reg g' = ga_reg g ∧
    ∀ d vs, d ∈ [CacheHits; CacheHitsByView; CacheSize; CacheSizeByView] →
      value (ga_samples g') d vs = value (ga_samples g) d vs.
Proof.
  intros Ho Hl []. destruct (tick_views_ok order (ga_samples g)) as (s' & E & H1 & H2 & H3).
  { rewrite Ho. apply NoDup_fst_map_to_list. }
  { rewrite Ho. apply Forall_forall. intros [v c] Hv%elem_of_map_to_list. apply Hl. by exists c. }
  assert (list_to_map order = ga_viewQps g) as Eo.
  { rewrite <- (list_to_map_to_list (ga_viewQps g)). apply list_to_map_proper; [|done].
    rewrite Ho. apply NoDup_fst_map_to_list. }
  rewrite Eo in H1, H2. unfold Run_tick. rewrite E. eexists. split; [done|].
  split; [|split; [done|]]; [split; cbn|cbn; intros; apply H3; intros ->; by set_solver].
  all: rewrite ?H1; intros; rewrite ?H2, ?H3 by done; auto.
  - rewrite <- sh_viewQps0, <- !map_fmap_compose. done.
  - rewrite <- sh_viewQps0, lookup_fmap, <- sh_qps0. done.
  - rewrite lookup_union, sh_qpsByView0, <- sh_viewQps0. case_decide as Ev.
    + subst. rewrite lookup_delete_eq. by destruct (mt_QPSByView m !! TotalView).
    + rewrite lookup_delete_ne, lookup_fmap by done.
      by destruct (ga_viewQps g !! v), (mt_QPSByView m !! v).
Qed.

Lemma hit_shows view g m :
  label_value view = true → shows g m →
  ∃ s', RecordCacheHit view (ga_samples g) = Ret s' ∧ shows (mkGauged (ga_reg g) (ga_viewQps g) s') m ∧
    value s' CacheHits ["cache"] = value (ga_samples g) CacheHits ["cache"] + 1 ∧
    (∀ v, value s' CacheHitsByView ["cache"; v] =
       value (ga_samples g) CacheHitsByView ["cache"; v] + if decide (v = view) then 1 else 0) ∧
    ∀ d vs, d ∈ [CacheSize; CacheSizeByView] → value s' d vs = value (ga_samples g) d vs.
Proof.
  intros Hview []. unfold RecordCacheHit. repeat next_event. eexists. split; [done|]. split; [split|split_and!].
  all: cbn [ga_samples ga_viewQps]; try done; values.
Qed.

(** ** Runs *)

(** What the process counts. *)
Inductive Event : Type :=
  | EvServed (client : Client)
  | EvHit (view : string)
  | EvSecond
  | EvReload (views : list string).

(** The order in which a loop over the counters meets them. *)
Context (order : ViewQps → list (string * Counter)).

Definition run_event (g : Gauged) (e : Event) : outcome Gauged :=
  match e with
  | EvServed client => RecordMetrics_vectors client g
  | EvHit view => s ← RecordCacheHit view (ga_samples g); Ret (mkGauged (ga_reg g) (ga_viewQps g) s)
  | EvSecond => Run_tick (order (ga_viewQps g)) g
  | EvReload views => Ret (mkGauged (ga_reg g) (reload_qps views) (ga_samples g))
  end.

Fixpoint run_events (es : list Event) (g : Gauged) : outcome Gauged :=
  match es with
  | [] => Ret g
  | e :: es => g ← run_event g e; run_events es g
  end.

(** The same on the counters. *)
Definition metrics_event (m : Metrics) (e : Event) : Metrics :=
  match e with
  | EvServed client => RecordMetrics client m
  | EvHit _ => m
  | EvSecond => Metrics_tick m
  | EvReload views => Metrics_ReloadConfig views m
  end.

Definition hit_view (e : Event) : option string := match e with EvHit view => Some view | _ => None end.
Definition hits (es : list Event) : list string := omap hit_view es.
Definition hits_of (v : string) (es : list Event) : Z := Z.of_nat (length (base.filter (λ w, w = v) (hits es))).

(** The views of the event are label values. *)
Definition event_labelled (e : Event) : Prop :=
  match e with
  | EvServed client => label_value (c_view client) = true
  | EvHit view => label_value view = true
  | EvSecond => True
  | EvReload views => Forall (λ v, label_value v = true) views
  end.

Lemma reload_qps_lookup views v : is_Some (reload_qps views !! v) → v = Metrics_DefaultView ∨ v = TotalView ∨ v ∈ views.
Proof.
  unfold reload_qps. assert (∀ (q : ViewQps), is_Some (foldl (λ qps v, <[v := newCounter]> qps) q views !! v) →
    is_Some (q !! v) ∨ v ∈ views) as H.
  { induction views as [|w views IH]; intros q; [by left|]. cbn. intros [Hq|?]%IH; [|right; by right].
    destruct (decide (v = w)) as [->|]; [right; by left|]. rewrite lookup_insert_ne in Hq by done. by left. }
  intros [Hq|?]%H; [|by right; right]. rewrite lookup_insert_is_Some, lookup_singleton_is_Some in Hq.
  destruct Hq as [?|[_ ?]]; auto.
Qed.

Lemma reload_labelled views : Forall (λ v, label_value v = true) views → labelled (reload_qps views).
Proof.
  intros Hv v [->|[->|Hin]]%reload_qps_lookup; [by apply ascii_value|by apply ascii_value|].
  by eapply Forall_forall in Hv.
Qed.

Lemma reload_count views m : count <$> reload_qps views = mt_viewQps (Metrics_ReloadConfig views m).
Proof.
  unfold reload_qps. cbn. assert (∀ q : ViewQps, count <$> foldl (λ qps v, <[v := newCounter]> qps) q views =
    foldl (λ qps v, <[v := 0]> qps) (count <$> q) views) as H.
  { induction views as [|v views IH]; intros q; [done|]. cbn. by rewrite IH, fmap_insert. }
  rewrite H. reflexivity.
Qed.

(** What a run keeps: the samples are the counters, the hits are those of the run, and the
    size of the cache is as it was. *)
Record run_shows (es : list Event) (g0 g : Gauged) (m : Metrics) : Prop := mkRunShows {
  rs_shows : shows g m;
  rs_labelled : labelled (ga_viewQps g);
  rs_reg : ga_reg g = ga_reg g0;
  rs_hits : value (ga_samples g) CacheHits ["cache"] =
    value (ga_samples g0) CacheHits ["cache"] + Z.of_nat (length (hits es));
  rs_hitsByView v : value (ga_samples g) CacheHitsByView ["cache"; v] =
    value (ga_samples g0) CacheHitsByView ["cache"; v] + hits_of v es;
  rs_size d vs : d ∈ [CacheSize; CacheSizeByView] → value (ga_samples g) d vs = value (ga_samples g0) d vs;
}.

(** An event that is no hit leaves the samples of the cache alone. *)
Lemma no_hit_shows e g g' m :
  hit_view e = None → shows g' m → labelled (ga_viewQps g') → ga_reg g' = ga_reg g →
  (∀ d vs, d ∈ [CacheHits; CacheHitsByView; CacheSize; CacheSizeByView] →
     value (ga_samples g') d vs = value (ga_samples g) d vs) →
  run_shows [e] g g' m.
Proof.
  intros He Hs Hl Hr Hv. assert (hits [e] = []) as Eh by (unfold hits; cbn; by rewrite He).
  split; [done..|rewrite Eh|intros v; unfold hits_of; rewrite Eh|intros d vs Hd; apply Hv; set_solver]; cbn;
    rewrite Hv; [lia|set_solver|lia|set_solver].
Qed.

Lemma run_event_shows g m e :
  (∀ q, order q ≡ₚ map_to_list q) → event_labelled e → shows g m → labelled (ga_viewQps g) →
  ∃ g', run_event g e = Ret g' ∧ run_shows [e] g g' (metrics_event m e).
Proof.
  intros Ho He Hs Hl. destruct e as [client|view| |views]; cbn [event_labelled run_event metrics_event] in *.
  - destruct (record_shows client g m Hs He) as (g' & E & H1 & H2 & H3). exists g'. split; [done|].
    assert (ga_viewQps g' = if h_opcode (m_header (c_request client)) =? OP_QUERY
      then record_qps (c_view client) (record_qps TotalView (ga_viewQps g)) else ga_viewQps g) as Eq.
    { unfold RecordMetrics_vectors in E. ret_step E. by injection E as <-. }
    apply no_hit_shows; try done. rewrite Eq. intros v Hv. case_match; [|by apply Hl]. by do 2 apply record_qps_some in Hv; apply Hl.
  - destruct (hit_shows view g m He Hs) as (s' & -> & H1 & H2 & H3 & H4). eexists. split; [done|].
    split; try done. intros v. cbn [ga_samples]. rewrite H3. unfold hits_of. change (hits [EvHit view]) with [view].
    destruct (decide (v = view)) as [->|]; [rewrite filter_cons_True by done|rewrite filter_cons_False by congruence]; done.
  - destruct (tick_shows (order (ga_viewQps g)) g m (Ho _) Hl Hs) as (g' & E & H1 & H2 & H3). exists g'. split; [done|].
    apply no_hit_shows; try done. unfold Run_tick in E. ret_step E. injection E as <-. intros v Hv. cbn [ga_viewQps] in Hv. apply Hl. by rewrite lookup_fmap, fmap_is_Some in Hv.
  - eexists. split; [done|]. apply no_hit_shows; try done; [|by apply reload_labelled].
    destruct Hs. split; try done. apply reload_count.
Qed.

Lemma hits_cons e es : hits (e :: es) = hits [e] ++ hits es.
Proof. unfold hits. cbn. by destruct (hit_view e). Qed.

Lemma run_shows_cons e es g0 g1 g m1 m :
  run_shows [e] g0 g1 m1 → run_shows es g1 g m → run_shows (e :: es) g0 g m.
Proof.
  intros [] []. split; [done|done|congruence|..].
  - rewrite rs_hits1, rs_hits0, (hits_cons e es), length_app. lia.
  - intros v. rewrite rs_hitsByView1, rs_hitsByView0. unfold hits_of. rewrite (hits_cons e es), filter_app, length_app. lia.
  - intros d vs Hd. by rewrite rs_size1, rs_size0.
Qed.

Lemma run_events_shows es g m :
  (∀ q, order q ≡ₚ map_to_list q) → Forall event_labelled es → shows g m → labelled (ga_viewQps g) →
  ∃ g', run_events es g = Ret g' ∧ run_shows es g g' (foldl metrics_event m es).
Proof.
  intros Ho He. revert g m. induction He as [|e es He _ IH]; intros g m Hs Hl; cbn [run_events foldl].
  - exists g. split; [done|]. split; try done; [cbn; lia|intros v; unfold hits_of; cbn; lia].
  - destruct (run_event_shows g m e Ho He Hs Hl) as (g1 & -> & H1).
    destruct (IH g1 _ (rs_shows _ _ _ _ H1) (rs_labelled _ _ _ _ H1)) as (g' & E & H2).
    exists g'. split; [exact E|]. by eapply run_shows_cons.
Qed.

End samples.

(** ** The cache counts its hits *)

Section cache_hits.
Context `{P : Prometheus} {N : G53Name} {M : G53Msg N} {W : Type}.

Definition set_samples (sm : Samples) (r : Caches * Heap * (Samples * W) * Client) : Caches * Heap * (Samples * W) * Client :=
  let '(c, h, (_, w), client) := r in (c, h, (sm, w), client).

(** The handler with the call of [RecordCacheHit] is the handler of CacheHandler.v, but that
    an answer from the cache, and no other, counts one hit for the view of the client. *)
Theorem cache_counts_hits now next c h sm w client h1 c1 found :
  label_value (c_view client) = true → Cache_get now client h c = Ret (h1, c1, found) →
  match found with
  | Some _ => ∃ sm', RecordCacheHit (c_view client) sm = Ret sm' ∧
      Cache_HandleQuery_counting now next (c, h, (sm, w)) client =
      set_samples sm' <$> Cache_HandleQuery now next (c, h, (sm, w)) client
  | None => Cache_HandleQuery_counting now next (c, h, (sm, w)) client = Cache_HandleQuery now next (c, h, (sm, w)) client
  end.
Proof.
  intros Hv E. unfold Cache_HandleQuery_counting, Cache_HandleQuery. rewrite E, !bind_Ret. destruct found as [l|]; [|done].
  unfold RecordCacheHit. destruct (inc_ok CacheHits ["cache"] sm) as (s1 & -> & _);
    [done|by repeat constructor; apply cache_value|]. rewrite bind_Ret.
  destruct (inc_ok CacheHitsByView ["cache"; c_view client] s1) as (s2 & -> & _);
    [done|by repeat constructor; auto using cache_value|]. exists s2. split; [done|]. rewrite bind_Ret.
  by destruct (deref l h1).
Qed.
End cache_hits.

(** ** A library that keeps the laws *)

Section example_library.

Definition join_name (ns sub name : string) : string := (ns +:+ "_" +:+ sub +:+ "_" +:+ name)%string.

Definition list_register (d : Desc) (r : list string) : outcome (list string) :=
  let fq := join_name (d_Namespace d) (d_Subsystem d) (d_Name d) in
  if metric_name fq && forallb metric_name (d_labels d) && bool_decide (NoDup (d_labels d)) && bool_decide (fq ∉ r)
  then Ret (r ++ [fq]) else Panic "duplicate metrics collector registration attempted".

Definition set_sample (d : Desc) (vs : list string) (f : Z → Z) (s : Desc → list string → Z)
  : outcome (Desc → list string → Z) :=
  if (length vs =? length (d_labels d))%nat
  then Ret (λ d' vs', if decide (d' = d ∧ vs' = vs) then f (s d' vs') else s d' vs')
  else Panic "inconsistent label cardinality".

#[local] Instance list_prometheus : Prometheus.
Proof.
  refine {| BuildFQName := join_name; NewRegistry := []; registered := id; MustRegister := list_register;
    label_value := λ _, true; value := λ s, s; Inc := λ d vs, set_sample d vs (λ x, x + 1);
    SetTo := λ d vs x, set_sample d vs (λ _, x) |}.
  - done.
  - done.
  - intros d r fq H1 H2 H3 H4. exists (r ++ [fq]). split; [|done]. unfold list_register. fold fq. rewrite H1.
    rewrite (proj2 (forallb_forall _ _)), !bool_decide_true; try done.
    intros l Hl%list_elem_of_In. by eapply Forall_forall in H2.
  - done.
  - intros d vs s Hl _. eexists. unfold set_sample. rewrite (proj2 (Nat.eqb_eq _ _) Hl). split; [done|].
    intros d' vs'. cbn. case_decide; [done|]. by rewrite Z.add_0_r.
  - intros d vs x s Hl _. eexists. unfold set_sample. rewrite (proj2 (Nat.eqb_eq _ _) Hl). done.
Defined.

Definition no_samples : @Samples list_prometheus := λ (_ : Desc) (_ : list string), 0.

Definition vector_events : list Event :=
  [EvServed (mkClient None None false (query www RR_A) (Some 0%nat) "v" 0 false true 0); EvHit "v"; EvSecond; EvReload [];
   EvHit "default"].

End example_library.
