(* ===== verification/QueryLog.v ===== *)
(** * The query log (src/querylog)

    The handler around the whole chain writes one line per query.  Lines are
    collected in a buffer that is written out when a line comes late enough after
    the one before or the buffer holds a hundred. *)

From S2P Require Import Prelude GoStd G53 Instances Core.
From stdpp Require Import pretty.
From Stdlib Require Import Ascii.

Local Open Scope Z_scope.

(** ** format.go and time.go *)

Definition digitMap : list string := ["0"; "1"; "2"; "3"; "4"; "5"; "6"; "7"; "8"; "9"].

(** Indexing with an [int]; Go's division and remainder truncate. *)
Definition digit (i : Z) : outcome string :=
  if i <? 0 then Panic "index out of range" else index digitMap (Z.to_nat i).

Fixpoint digits_str (ds : list Z) : outcome string :=
  match ds with
  | [] => Ret ""
  | i :: ds => d ← digit i; rest ← digits_str ds; Ret (d +:+ rest)
  end.

Definition Format2DigitNumber (num : Z) : outcome string :=
  digits_str [Z.quot num 10; Z.rem num 10].
Definition Format3DigitNumber (num : Z) : outcome string :=
  digits_str [Z.quot num 100; Z.quot (Z.rem num 100) 10; Z.rem num 10].
Definition Format4DigitNumber (num : Z) : outcome string :=
  digits_str [Z.quot num 1000; Z.quot (Z.rem num 1000) 100; Z.quot (Z.rem num 100) 10; Z.rem num 10].

Definition secToNanoSec : Z := 1000000000.
Definition miliSecToNanoSec : Z := 1000000.
Definition microSecToNanoSec : Z := 1000.

Definition monthStrs : list string :=
  ["Jan"; "Feb"; "Mar"; "Apr"; "May"; "Jun"; "Jul"; "Aug"; "Sep"; "Oct"; "Nov"; "Dec"].

Definition GetMonthString (month : Z) : outcome string :=
  if month <? 1 then Panic "index out of range" else index monthStrs (Z.to_nat (month - 1)).

Record TimeArgs : Type := mkTimeArgs {
  ta_year : Z; ta_month : Z; ta_day : Z; ta_hour : Z; ta_min : Z; ta_sec : Z; ta_ms : Z; ta_nano : Z;
}.

(** [now] is the clock in nanoseconds. *)
Definition GetAllTimeArgs (now : Z) : TimeArgs :=
  let '(year, month, day) := civil_of_day (day_number now) in
  let t := time_of_day now in
  mkTimeArgs year month day (t / Hour) (t mod Hour / Minute) (t mod Minute / Second)
    (Z.quot (Z.rem now secToNanoSec) miliSecToNanoSec) now.

(** ** querylog.go *)

Definition logTrigger : Z := 200000.
Definition logMessages : Z := 100.

Definition nl : ascii := "010"%char.
Definition newline : string := String nl EmptyString.

(** The logger with what it has written: the text of each call of [filelog.Info]. *)
Record QueryLogger : Type := mkQueryLogger {
  ql_file : list string;
  ql_tsNano : Z;
  ql_buf : string;
  ql_messages : Z;
  ql_logExt : bool;
}.

Definition flushAndInit (l : QueryLogger) : QueryLogger :=
  if ql_messages l <=? 0 then l
  else mkQueryLogger (ql_file l ++ [ql_buf l]) 0 "" 0 (ql_logExt l).

Definition optimalLogWrite (msg : string) (tsNano : Z) (l : QueryLogger) : QueryLogger :=
  let buf := ql_buf l +:+ msg in
  if i64 (tsNano - ql_tsNano l) <? logTrigger then
    let messages := ql_messages l + 1 in
    if logMessages <=? messages
    then mkQueryLogger (ql_file l ++ [buf]) tsNano "" 0 (ql_logExt l)
    else mkQueryLogger (ql_file l) tsNano (buf +:+ newline) messages (ql_logExt l)
  else mkQueryLogger (ql_file l ++ [buf]) tsNano "" 0 (ql_logExt l).

(** A log file is opened anew; with a console logger the buffer is kept.  [opens] tells
    whether the file can be opened. *)
Definition QueryLog_ReloadConfig (path : string) (extension opens : bool) (l : QueryLogger)
  : outcome QueryLogger :=
  let l := mkQueryLogger (ql_file l) (ql_tsNano l) (ql_buf l) (ql_messages l) extension in
  if bool_decide (path = "") then Ret l
  else if opens then Ret (flushAndInit l) else Panic "failed to create querylog".

Definition NewQuerylog (path : string) (extension opens : bool) : outcome QueryLogger :=
  QueryLog_ReloadConfig path extension opens (mkQueryLogger [] 0 "" 0 false).

Section text.
Context {N : G53Name} {M : G53Msg N}.

(** Texts of packages net and g53: an address, a name without its last dot, a code,
    a ttl, and whether a message has EDNS. *)
Record LogTexts : Type := mkLogTexts {
  lx_IP : IP → string;
  lx_Name : Name → string;
  lx_Rcode : Z → string;
  lx_Ttl : Z → string;
  lx_Edns : Message → bool;
}.
Context (lx : LogTexts).

Definition strcat (ss : list string) : string := foldr (λ s acc, s +:+ acc) "" ss.

Definition rr_text (rrset : RRset) (rd : Rdata) : string :=
  strcat [lx_Name lx (rr_name rrset); " "; lx_Ttl lx (rr_ttl rrset); " ";
          RRClass_String (rr_class rrset); " "; RRType_String (rr_type rrset); " "; Rdata_String rd; ";"].

Definition generateQueryExtension (delay : Z) (response : Message) : string :=
  let head := " " +:+ pretty delay in
  match m_answer response with
  | [] => head
  | answers =>
      head +:+ " Response: " +:+
      strcat (mjoin ((λ rrset, rr_text rrset <$> rr_rdatas rrset) <$> answers))
  end.

Definition flags_text (client : Client) (response : Message) : string :=
  let h := m_header response in
  let flag (b : bool) (yes no : string) := if b then yes else no in
  strcat [" "; lx_Rcode lx (h_rcode h); flag (Header_GetFlag FLAG_RD h) " +" " -"; " NS";
          flag (lx_Edns lx response) " E" " NE"; flag (c_using_tcp client) " T" " NT"; " ND";
          flag (Header_GetFlag FLAG_CD h) " C" " NC";
          if Header_GetFlag FLAG_AA h then " A" else flag (c_cache_hit client) " H" " NH"].

(** The line of a query. *)
Definition log_line (now : Z) (logExt : bool) (h : Heap) (client : Client) : outcome string :=
  let t := GetAllTimeArgs now in
  let delay := Z.quot (i64 (ta_nano t - c_create_time client)) microSecToNanoSec in
  day ← Format2DigitNumber (ta_day t);
  month ← GetMonthString (ta_month t);
  year ← Format4DigitNumber (ta_year t);
  hour ← Format2DigitNumber (ta_hour t);
  min ← Format2DigitNumber (ta_min t);
  sec ← Format2DigitNumber (ta_sec t);
  ms ← Format3DigitNumber (ta_ms t);
  ip ← Client_IP client;
  port ← Client_Port client;
  q ← deref_question (c_request client);
  let head := strcat
    [day; "-"; month; "-"; year; " "; hour; ":"; min; ":"; sec; "."; ms; " client "; lx_IP lx ip; " ";
     pretty port; ": view "; c_view client; ": "; lx_Name lx (q_name q); " ";
     RRClass_String (q_class q); " "; RRType_String (q_type q)] in
  match c_response client with
  | None => Ret head
  | Some l =>
      response ← deref l h;
      Ret (head +:+ flags_text client response +:+
           (if logExt then generateQueryExtension delay response else ""))
  end.

Definition LogWrite (now : Z) (h : Heap) (client : Client) (l : QueryLogger) : outcome QueryLogger :=
  line ← log_line now (ql_logExt l) h client;
  Ret (optimalLogWrite line now l).

(** [finished] is the clock when the chain has returned. *)
Definition QueryLog_HandleQuery {W} (finished : Z) (next : option (Handler (Heap * QueryLogger * W)))
  : Handler (Heap * QueryLogger * W) := λ s client,
  r ← PassToNext next s client;
  let '((h, l, w), client) := r in
  l ← LogWrite finished h client l;
  Ret ((h, l, w), client).
End text.

(** ** Numbers *)

(** A number below a bound is written with a fixed number of digits that read back as
    the number; checked for every one. *)
Definition format_ok (f : Z → outcome string) (width : nat) (n : Z) : bool :=
  match f n with
  | Ret s => (String.length s =? width)%nat && bool_decide (nat_of_digits s = Some n)
  | _ => false
  end.

Definition all_below (bound : nat) (p : Z → bool) : bool := forallb (λ k, p (Z.of_nat k)) (seq 0 bound).

Lemma all_below_spec bound p n : all_below bound p = true → 0 ≤ n < Z.of_nat bound → p n = true.
Proof.
  unfold all_below. rewrite forallb_forall. intros H Hn. rewrite <- (Z2Nat.id n) by lia.
  apply H, in_seq. lia.
Qed.

Lemma format_spec f width bound n :
  all_below bound (format_ok f width) = true → 0 ≤ n < Z.of_nat bound →
  ∃ s, f n = Ret s ∧ String.length s = width ∧ nat_of_digits s = Some n.
Proof.
  intros H Hn. pose proof (all_below_spec bound _ n H Hn) as Hf. unfold format_ok in Hf.
  destruct (f n) as [s| |]; [|done..]. apply andb_true_iff in Hf as [H1%Nat.eqb_eq H2%bool_decide_eq_true].
  eauto.
Qed.

Lemma Format2_spec n : 0 ≤ n < 100 →
  ∃ s, Format2DigitNumber n = Ret s ∧ String.length s = 2%nat ∧ nat_of_digits s = Some n.
Proof. apply (format_spec _ 2 100). by_eval. Qed.
Lemma Format3_spec n : 0 ≤ n < 1000 →
  ∃ s, Format3DigitNumber n = Ret s ∧ String.length s = 3%nat ∧ nat_of_digits s = Some n.
Proof. apply (format_spec _ 3 1000). by_eval. Qed.
Lemma Format4_spec n : 0 ≤ n < 10000 →
  ∃ s, Format4DigitNumber n = Ret s ∧ String.length s = 4%nat ∧ nat_of_digits s = Some n.
Proof.
  intros Hn. apply (format_spec _ 4 (Z.to_nat 10000)); [by_eval|]. lia.
Qed.

(** ** Lines in the log *)

Section log_order.

Inductive LogOp : Type :=
  | WriteLine (msg : string) (tsNano : Z)
  | Flush.

Definition log_op (op : LogOp) (l : QueryLogger) : QueryLogger :=
  match op with
  | WriteLine msg tsNano => optimalLogWrite msg tsNano l
  | Flush => flushAndInit l
  end.

Definition log_run (ops : list LogOp) (l : QueryLogger) : QueryLogger := foldl (λ l op, log_op op l) l ops.

Definition written (ops : list LogOp) : list string :=
  omap (λ op, match op with WriteLine msg _ => Some msg | Flush => None end) ops.

(** The lines that have reached the log; an empty one comes from a flush. *)
Definition log_lines (l : QueryLogger) : list string :=
  base.filter (λ s, s ≠ "") (mjoin ((λ chunk, strings_Split chunk nl) <$> ql_file l)).

Definition line_ok (msg : string) : Prop := msg ≠ "" ∧ str_has nl msg = false.

Definition unlines (ms : list string) : string := foldr (λ m acc, m +:+ String nl acc) "" ms.

Lemma app_String_assoc (a b c : string) : (a +:+ b) +:+ c = a +:+ (b +:+ c).
Proof.
  induction a as [|x a IH]; [done|].
  change (String x ((a +:+ b) +:+ c) = String x (a +:+ (b +:+ c))). by rewrite IH.
Qed.

Lemma app_nil_string (s : string) : s +:+ "" = s.
Proof. induction s as [|x s IH]; [done|]. change (String x (s +:+ "") = String x s). by rewrite IH. Qed.

Lemma unlines_snoc ms m : unlines (ms ++ [m]) = (unlines ms +:+ m) +:+ newline.
Proof.
  induction ms as [|x ms IH]; [done|].
  change (x +:+ String nl (unlines (ms ++ [m])) = ((x +:+ String nl (unlines ms)) +:+ m) +:+ newline).
  rewrite IH, !app_String_assoc. done.
Qed.

Lemma Split_unlines ms m :
  Forall (λ m, str_has nl m = false) ms → str_has nl m = false →
  strings_Split (unlines ms +:+ m) nl = ms ++ [m].
Proof.
  induction 1 as [|x ms Hx _ IH]; intros Hm; [by apply Split_no_sep|].
  change (strings_Split ((x +:+ String nl (unlines ms)) +:+ m) nl = x :: (ms ++ [m])).
  rewrite app_String_assoc. change (String nl (unlines ms) +:+ m) with (String nl (unlines ms +:+ m)).
  rewrite Split_app_sep by done. f_equal. by apply IH.
Qed.

(** What is written and what is pending. *)
Definition log_inv (ms : list string) (l : QueryLogger) : Prop :=
  ∃ pending, log_lines l ++ pending = ms ∧ ql_buf l = unlines pending ∧
    ql_messages l = Z.of_nat (length pending) ∧ (length pending < 100)%nat.

Lemma log_lines_chunk l chunk ts ext :
  log_lines (mkQueryLogger (ql_file l ++ [chunk]) ts "" 0 ext) =
  log_lines l ++ base.filter (λ s, s ≠ "") (strings_Split chunk nl).
Proof.
  unfold log_lines. cbn [ql_file]. rewrite fmap_app, join_app, filter_app. cbn. by rewrite app_nil_r.
Qed.

Lemma filter_lines ms : Forall line_ok ms → base.filter (λ s, s ≠ "") ms = ms.
Proof.
  induction 1 as [|m ms [Hm _] _ IH]; [done|]. by rewrite filter_cons_True, IH.
Qed.

Lemma log_inv_op ms op l :
  Forall line_ok (ms ++ written [op]) → log_inv ms l → log_inv (ms ++ written [op]) (log_op op l).
Proof.
  intros Hok (pending & Hms & Hbuf & Hn & Hlt).
  assert (Forall line_ok ms) as Hok1 by (by apply Forall_app in Hok as [? _]).
  assert (Forall line_ok pending) as Hp by (rewrite <- Hms in Hok1; by apply Forall_app in Hok1 as [_ ?]).
  assert (Forall (λ m, str_has nl m = false) pending) as Hp' by (eapply Forall_impl; [done|]; by intros ? []).
  destruct op as [msg ts|]; cbn [written omap list_omap log_op] in *.
  - apply Forall_app in Hok as [_ [[Hne Hnl] _]%Forall_cons]. unfold optimalLogWrite. rewrite Hbuf.
    assert (∀ ts ext, log_inv (ms ++ [msg]) (mkQueryLogger (ql_file l ++ [unlines pending +:+ msg]) ts "" 0 ext))
      as Hout.
    { intros ts' ext. exists []. rewrite log_lines_chunk, Split_unlines, filter_app, (filter_lines pending) by done.
      rewrite filter_cons_True, filter_nil by done. rewrite app_nil_r, app_assoc, Hms.
      split_and!; [done|done|done|cbn; lia]. }
    destruct (_ <? logTrigger); [|apply Hout]. destruct (Z.leb_spec logMessages (ql_messages l + 1)); [apply Hout|].
    exists (pending ++ [msg]). unfold log_lines in *. cbn [ql_file ql_buf ql_messages].
    rewrite unlines_snoc, app_assoc, Hms, length_app. unfold logMessages in *. cbn.
    split_and!; [done|done|lia|lia].
  - rewrite app_nil_r. unfold flushAndInit. destruct (ql_messages l <=? 0); [by exists pending|].
    exists []. rewrite log_lines_chunk, Hbuf.
    replace (strings_Split (unlines pending) nl) with (pending ++ [""]).
    2:{ rewrite <- Split_unlines by done. by rewrite app_nil_string. }
    rewrite filter_app, (filter_lines pending), filter_cons_False, filter_nil by naive_solver.
    rewrite !app_nil_r. split_and!; [done|done|done|cbn; lia].
Qed.

Lemma written_app ops1 ops2 : written (ops1 ++ ops2) = written ops1 ++ written ops2.
Proof. apply omap_app. Qed.

Lemma log_inv_run ops l :
  log_inv [] l → Forall line_ok (written ops) → log_inv (written ops) (log_run ops l).
Proof.
  intros Hl. unfold log_run. induction ops as [|op ops IH] using rev_ind; [done|].
  rewrite foldl_snoc, written_app. intros Hok. apply log_inv_op; [done|].
  apply IH. by apply Forall_app in Hok as [? _].
Qed.

(** No line is lost, repeated or moved.  After any writes and flushes of a new log, in
    any order and at any times, the lines that reached the log followed by those in the
    buffer are the lines written, in the order they were written, and the buffer holds
    fewer than a hundred of them; after a flush it holds none. *)
Theorem querylog_complete path extension l ops :
  NewQuerylog path extension true = Ret l → Forall line_ok (written ops) →
  (∃ pending, log_lines (log_run ops l) ++ pending = written ops ∧
    ql_buf (log_run ops l) = unlines pending ∧ (length pending < 100)%nat) ∧
  log_lines (log_run (ops ++ [Flush]) l) = written ops.
Proof.
  intros Hnew Hok. assert (l = mkQueryLogger [] 0 "" 0 extension) as ->.
  { unfold NewQuerylog, QueryLog_ReloadConfig in Hnew. destruct (bool_decide _); by simplify_eq/=. }
  destruct (log_inv_run ops (mkQueryLogger [] 0 "" 0 extension)) as (pending & H1 & H2 & H3 & H4);
    [by exists []; split_and!; [done..|cbn; lia]|done|].
  split; [by exists pending|].
  assert (log_inv (written ops) (log_run (ops ++ [Flush]) (mkQueryLogger [] 0 "" 0 extension))) as Hf.
  { replace (written ops) with (written (ops ++ [Flush])) by (rewrite written_app; apply app_nil_r).
    apply log_inv_run; [by exists []; split_and!; [done..|cbn; lia]|].
    rewrite written_app. cbn. by rewrite app_nil_r. }
  destruct Hf as (p' & F1 & F2 & F3 & F4).
  assert (ql_messages (log_run (ops ++ [Flush]) (mkQueryLogger [] 0 "" 0 extension)) <= 0) as Hz.
  { unfold log_run. rewrite foldl_snoc. cbn [log_op]. unfold flushAndInit.
    destruct (Z.leb_spec (ql_messages (foldl (λ l op, log_op op l) (mkQueryLogger [] 0 "" 0 extension) ops)) 0);
      cbn; lia. }
  rewrite <- F1. destruct p' as [|x p']; [by rewrite app_nil_r|]. cbn in F3. lia.
Qed.

Lemma querylog_complete_witness :
  log_lines (log_run [WriteLine "a" 1000000; WriteLine "b" 1000001; WriteLine "c" 1000002; Flush]
    (mkQueryLogger [] 0 "" 0 false)) = ["a"; "b"; "c"].
Proof.
  apply (querylog_complete "" false (mkQueryLogger [] 0 "" 0 false)
    [WriteLine "a" 1000000; WriteLine "b" 1000001; WriteLine "c" 1000002]); [reflexivity|].
  repeat constructor; done.
Defined.
End log_order.

(** ** A line can always be written *)

Section line_total.
Context {N : G53Name} {M : G53Msg N} (lx : LogTexts).

Lemma daysIn_le y m : daysIn y m ≤ 31.
Proof.
  unfold daysIn. generalize (Z.to_nat (m - 1)) as k. intros k. destruct (isLeap y);
    do 12 (destruct k as [|k]; [cbn; lia|]); destruct k; cbn; lia.
Qed.

Lemma daysBefore_bounds m : 0 ≤ daysBefore m ≤ 365.
Proof.
  unfold daysBefore. generalize (Z.to_nat (m - 1)) as k. intros k.
  do 12 (destruct k as [|k]; [cbn; lia|]). destruct k; cbn; lia.
Qed.

(** The parts of a time that an [int64] of nanoseconds can hold. *)
Lemma GetAllTimeArgs_bounds now : 0 ≤ now < 2 ^ 63 →
  let t := GetAllTimeArgs now in
  0 ≤ ta_year t < 10000 ∧ 1 ≤ ta_month t ≤ 12 ∧ 1 ≤ ta_day t ≤ 31 ∧ 0 ≤ ta_hour t < 24 ∧
  0 ≤ ta_min t < 60 ∧ 0 ≤ ta_sec t < 60 ∧ 0 ≤ ta_ms t < 1000 ∧ ta_nano t = now.
Proof.
  intros Hn. unfold GetAllTimeArgs. pose proof (civil_of_day_spec (day_number now)) as Hc.
  destruct (civil_of_day (day_number now)) as [[y m] d]. destruct Hc as (Hy & Hm & Hd & _). cbn.
  pose proof (daysIn_le y m). pose proof (daysBefore_bounds m). pose proof (time_split now) as [_ Ht].
  assert (0 ≤ day_number now < 106753) as Hday.
  { unfold day_number, DayLen, Second. Z.to_euclidean_division_equations; lia. }
  assert (0 ≤ y < 10000).
  { unfold yearDay, daysToYear in Hy.
    assert (0 ≤ (if isLeap y && (3 <=? m) then 1 else 0) ≤ 1) by (destruct (_ && _); lia).
    Z.to_euclidean_division_equations; lia. }
  unfold DayLen, Hour, Minute, Second, secToNanoSec, miliSecToNanoSec in *.
  generalize dependent (time_of_day now). intros t Ht.
  split_and!; try lia; Z.to_euclidean_division_equations; lia.
Qed.

Lemma GetMonthString_total m : 1 ≤ m ≤ 12 → ∃ s, GetMonthString m = Ret s.
Proof.
  intros Hm. assert (is_Some (monthStrs !! Z.to_nat (m - 1))) as [s Hs].
  { apply lookup_lt_is_Some_2. cbn. lia. }
  unfold GetMonthString. destruct (Z.ltb_spec m 1); [lia|]. exists s. unfold index. by rewrite Hs.
Qed.

(** The log never fails a query.  At any time an [int64] of nanoseconds holds, the
    line of a client with an address, a question and a response that is live is
    written, whatever the message: no index of the digit and month tables is out of range. *)
Theorem log_line_total now logExt h client addr q :
  0 ≤ now < 2 ^ 63 → assert_addr (c_using_tcp client) (c_addr client) = Ret addr →
  m_question (c_request client) = Some q → (∀ l, c_response client = Some l → is_Some (h !! l)) →
  ∃ line, log_line lx now logExt h client = Ret line.
Proof.
  intros Hnow Haddr Hq Hresp. unfold log_line, Client_IP, Client_Port.
  destruct (GetAllTimeArgs_bounds now Hnow) as (Hy & Hmo & Hd & Hh & Hmi & Hs & Hms & _).
  destruct (Format2_spec (ta_day (GetAllTimeArgs now))) as (? & -> & _); [lia|].
  destruct (GetMonthString_total (ta_month (GetAllTimeArgs now)) Hmo) as [? ->].
  destruct (Format4_spec (ta_year (GetAllTimeArgs now)) Hy) as (? & -> & _).
  destruct (Format2_spec (ta_hour (GetAllTimeArgs now))) as (? & -> & _); [lia|].
  destruct (Format2_spec (ta_min (GetAllTimeArgs now))) as (? & -> & _); [lia|].
  destruct (Format2_spec (ta_sec (GetAllTimeArgs now))) as (? & -> & _); [lia|].
  destruct (Format3_spec (ta_ms (GetAllTimeArgs now)) Hms) as (? & -> & _).
  rewrite Haddr, (deref_question_Some _ q) by done. cbn [mbind outcome_bind fmap outcome_fmap].
  destruct (c_response client) as [l|]; [|eauto].
  destruct (Hresp l eq_refl) as [m Hm]. rewrite (deref_Some _ _ _ Hm). cbn. eauto.
Qed.

End line_total.

Section log_examples.
Definition demo_texts : LogTexts :=
  mkLogTexts (λ _, "10.0.0.1") (λ _, "www.example.com") (λ _, "NOERROR") pretty (λ _, false).

(** 2020-02-29 12:00:00.5 UTC *)
Definition leap_noon : Z := 1582977600500000000.

Example leap_line :
  log_line demo_texts leap_noon true {[ 0%nat := answer www RR_A [] ]}
    (mkClient (Some (UDPAddr [10; 0; 0; 1] 53)) None false (query www RR_A) (Some 0%nat) "default" 1 false false
      (leap_noon - 2000000)) =
  Ret "29-Feb-2020 12:00:00.500 client 10.0.0.1 53: view default: www.example.com IN A NOERROR + NS NE NT ND NC NH 2000".
Proof. vm_compute. reflexivity. Qed.
End log_examples.
