(* ===== verification/Config.v ===== *)
(** * The configuration (src/config/config.go)

    The structures the configuration file is decoded into.  The decoder itself is the
    library cement/configure: a function from a path to a configuration or an error.
    Where a component's file has a record for a structure it is used here: [AclConf],
    [ViewConf] (the source's [ViewAcl]), [CacheConf], [LocalDataConf], [AuthZoneConf],
    [RecursorInView], and [ForwardZoneParam] for a zone to forward. *)

From S2P Require Import Prelude GoStd G53 Core Cache Acl ViewSelector Forwarder Auth RecursorRun LocalData.

Local Open Scope Z_scope.

Record ServerConf : Type := mkServerConf {
  srv_Addrs : list string;
  srv_HttpCmdAddr : string;
  srv_HandlerCount : Z;
  srv_EnableTCP : bool;
}.

Record ZoneViewBinding : Type := mkZoneViewBinding { zvb_Zone : string; zvb_View : string }.
Record ViewWeight : Type := mkViewWeight { vw_View : string; vw_Weight : Z }.

(** [config.ViewConf] *)
Record ViewsConf : Type := mkViewsConf {
  vs_ViewAcls : list ViewConf;
  vs_ZoneViewBindings : list ZoneViewBinding;
  vs_ViewWeights : list ViewWeight;
  vs_viewNames : list string;
}.

Record SortListInView : Type := mkSortListInView {
  sl_View : string;
  sl_SourceIp : string;
  sl_PreferredIps : list string;
}.

Record ForwardProberConf : Type := mkForwardProberConf {
  fp_ProbeInterval : Z;
  fp_Timeout : Z;
  fp_TimeoutLasting : Z;
}.

Record ForwardZoneConf : Type := mkForwardZoneConf {
  fzc_Name : string;
  fzc_ForwardStyle : string;
  fzc_Forwarders : list string;
}.

Record ForwardZoneInView : Type := mkForwardZoneInView {
  fzv_View : string;
  fzv_QuerySource : string;
  fzv_Zones : list ForwardZoneConf;
}.

Record ForwarderConf : Type := mkForwarderConf {
  fwc_ForwardZones : list ForwardZoneInView;
  fwc_Prober : ForwardProberConf;
}.

Record ResolverConf : Type := mkResolverConf { rsc_CheckCnameIndirect : bool }.

Record QuerySourceInView : Type := mkQuerySourceInView { qsv_View : string; qsv_Address : string }.

Record QuerylogConf : Type := mkQuerylogConf {
  qlc_Path : string;
  qlc_FileSize : Z;
  qlc_Versions : Z;
  qlc_Extension : bool;
}.

Record GeneralLogConf : Type := mkGeneralLogConf {
  glc_Enable : bool;
  glc_Path : string;
  glc_FileSize : Z;
  glc_Versions : Z;
  glc_Level : string;
}.

Record LoggerConf : Type := mkLoggerConf {
  lgc_Querylog : QuerylogConf;
  lgc_GeneralLog : GeneralLogConf;
}.

Record NetworkRateLimit : Type := mkNetworkRateLimit { nrl_Network : string; nrl_Limit : Z }.
Record DomainNameRateLimit : Type := mkDomainNameRateLimit { drl_Name : string; drl_Limit : Z }.

Record DomainNameRateLimitInView : Type := mkDomainNameRateLimitInView {
  dlv_View : string;
  dlv_DomainNameLimit : list DomainNameRateLimit;
}.

Record FilterConf : Type := mkFilterConf {
  flc_DropSrvFailed : bool;
  flc_DomainNameLimit : list DomainNameRateLimitInView;
  flc_NetworkLimit : list NetworkRateLimit;
}.

Record VipDomainInView : Type := mkVipDomainInView {
  vip_View : string;
  vip_Domains : list string;
  vip_DefaultTtl : Z;
}.

Record AuthZoneInView : Type := mkAuthZoneInView { azv_View : string; azv_Zones : list AuthZoneConf }.

Record StubZoneConf : Type := mkStubZoneConf { szc_Name : string; szc_Masters : list string }.
Record StubZoneInView : Type := mkStubZoneInView { szv_View : string; szv_Zones : list StubZoneConf }.

Record FailForwarderInView : Type := mkFailForwarderInView { ffv_View : string; ffv_Forwarder : string }.

Record DNS64InView : Type := mkDNS64InView { d64_View : string; d64_PreAndPostfixes : list string }.
Record HijackInView : Type := mkHijackInView { hjv_View : string; hjv_Redirect : list string }.
Record AAAAFilterInView : Type := mkAAAAFilterInView { afv_View : string; afv_Acls : list string }.

Record Kubernetes : Type := mkKubernetes {
  k8c_ClusterDNSServer : string;
  k8c_ClusterDomain : string;
  k8c_ClusterCIDR : string;
  k8c_ClusterServiceIPRange : string;
}.

Record VanguardConf : Type := mkVanguardConf {
  vg_Path : string;
  vg_Server : ServerConf;
  vg_EnableModules : list string;
  vg_Logger : LoggerConf;
  vg_Acls : list AclConf;
  vg_Views : ViewsConf;
  vg_Cache : CacheConf;
  vg_Forwarder : ForwarderConf;
  vg_QuerySource : list QuerySourceInView;
  vg_Recursor : list RecursorInView;
  vg_Resolver : ResolverConf;
  vg_Filter : FilterConf;
  vg_AAAAFilter : list AAAAFilterInView;
  vg_LocalData : list LocalDataConf;
  vg_Hijack : list HijackInView;
  vg_SortList : list SortListInView;
  vg_VipDomain : list VipDomainInView;
  vg_Auth : list AuthZoneInView;
  vg_Stub : list StubZoneInView;
  vg_FailForwarder : list FailForwarderInView;
  vg_DNS64 : list DNS64InView;
  vg_Kubernetes : Kubernetes;
}.

Definition set_Path (path : string) (c : VanguardConf) : VanguardConf :=
  mkVanguardConf path (vg_Server c) (vg_EnableModules c) (vg_Logger c) (vg_Acls c) (vg_Views c)
    (vg_Cache c) (vg_Forwarder c) (vg_QuerySource c) (vg_Recursor c) (vg_Resolver c) (vg_Filter c)
    (vg_AAAAFilter c) (vg_LocalData c) (vg_Hijack c) (vg_SortList c) (vg_VipDomain c) (vg_Auth c)
    (vg_Stub c) (vg_FailForwarder c) (vg_DNS64 c) (vg_Kubernetes c).

(** A view listed twice has its last weight. *)
Definition GetViewWeight (vc : ViewsConf) : gmap string Z :=
  foldl (λ m vp, <[vw_View vp := vw_Weight vp]> m) ∅ (vs_ViewWeights vc).

Definition GetViews (vc : ViewsConf) : list string := vs_viewNames vc.

(** [configure.Load]; [inl] is the error. *)
Definition Loader : Type := string → string + VanguardConf.

Definition Reload (load : Loader) (conf : VanguardConf) : VanguardConf * option string :=
  match load (vg_Path conf) with
  | inl err => (conf, Some err)
  | inr newConf => (set_Path (vg_Path conf) newConf, None)
  end.

(** The zero value of the structure. *)
Definition zero_conf : VanguardConf :=
  mkVanguardConf "" (mkServerConf [] "" 0 false) []
    (mkLoggerConf (mkQuerylogConf "" 0 0 false) (mkGeneralLogConf false "" 0 0 "")) []
    (mkViewsConf [] [] [] []) (mkCacheConf 0 0 0 false false)
    (mkForwarderConf [] (mkForwardProberConf 0 0 0)) [] [] (mkResolverConf false)
    (mkFilterConf false [] []) [] [] [] [] [] [] [] [] [] (mkKubernetes "" "" "" "").

Definition LoadConfig (load : Loader) (path : string) : string + VanguardConf :=
  match Reload load (set_Path path zero_conf) with
  | (_, Some err) => inl err
  | (conf, None) => inr conf
  end.

(** A reload keeps the path, so it can be repeated, and a failed one keeps everything. *)
Lemma Reload_path load conf :
  vg_Path (Reload load conf).1 = vg_Path conf ∧
  (∀ err, (Reload load conf).2 = Some err → (Reload load conf).1 = conf).
Proof. unfold Reload. destruct (load (vg_Path conf)); naive_solver. Qed.
