(* ===== verification/Transport.v ===== *)
(** * The sockets of the server (src/server/transport.go, server.go)

    The system is the set of sockets that are open; binding an address opens one or is
    refused.  [newTransport] binds the configured addresses for UDP and, when enabled, for
    TCP.  What it leaves open, when it succeeds and when it fails, is the subject here;
    the goroutines that read the sockets are in Server.v. *)

From S2P Require Import Prelude GoStd G53 Instances Core Util Cache Cement Acl ViewSelector Chain Forwarder Resolver Config Server.

Local Open Scope Z_scope.

Inductive Proto : Type := UDP | TCP.

#[export] Instance Proto_eq_dec : EqDecision Proto.
Proof. solve_decision. Defined.

Record Socket : Type := mkSocket {
  so_proto : Proto;
  so_addr : IP * Z;
}.

(** The open sockets by their descriptors. *)
Abbreviation Os := (gmap nat Socket).

(** What the process asks the system: an address by its text, the addresses of the
    interfaces, and whether an address can be bound, which depends on the open sockets. *)
Record NetSys : Type := mkNetSys {
  ns_Resolve : Proto → string → string + (IP * Z);
  ns_InterfaceAddrs : string + list IP;
  ns_refuses : Proto → IP * Z → Os → option string;
}.

Section transport.
Context (net : NetSys).

(** [net.ListenUDP] and [net.ListenTCP] *)
Definition Listen (p : Proto) (addr : IP * Z) (os : Os) : (string + nat) * Os :=
  match ns_refuses net p addr os with
  | Some err => (inl err, os)
  | None => let fd := fresh (dom os) in (inr fd, <[fd := mkSocket p addr]> os)
  end.

Definition Conn_Close (os : Os) (fd : nat) : Os := delete fd os.

(** The fields of the transport that hold what it has opened. *)
Record Transport : Type := mkTransport {
  tr_udpConns : list nat;
  tr_tcpListeners : list nat;
  tr_udpBufPool : option BytePool;
}.

Definition Transport_Close (t : Transport) (os : Os) : Os :=
  foldl Conn_Close (foldl Conn_Close os (tr_udpConns t)) (tr_tcpListeners t).

(** [ip.IsUnspecified()] of package net. *)
Definition IsUnspecified (ip : IP) : bool :=
  forallb (λ x, x =? 0) (default ip (IP_To4 ip)) && negb (length ip =? 0)%nat.

(** [getAllIPs] with its call of the system. *)
Definition allIPs (isV4 : bool) : outcome (list IP) :=
  match ns_InterfaceAddrs net with
  | inl err => Panic ("get address failed:" +:+ err)
  | inr addrs => Ret (getAllIPs isV4 addrs)
  end.

(** The addresses to bind for the configured ones: an unspecified address stands for
    those of the interfaces. *)
Fixpoint listen_addrs (p : Proto) (conf : list string) : outcome (string + list (IP * Z)) :=
  match conf with
  | [] => Ret (inr [])
  | addr :: conf =>
      match ns_Resolve net p addr with
      | inl err => Ret (inl err)
      | inr (ip, port) =>
          here ← (if IsUnspecified ip then
                    ips ← allIPs (bool_decide (is_Some (IP_To4 ip)));
                    Ret (map (λ ip, (ip, port)) ips)
                  else Ret [(ip, port)]);
          rest ← listen_addrs p conf;
          Ret (match rest with inl err => inl err | inr rest => inr (here ++ rest) end)
      end
  end.

(** The loop of [bindUPDAddresses] and [bindTCPAddresses]: the sockets are in a local
    slice until the last one is bound. *)
Fixpoint bind_loop (p : Proto) (addrs : list (IP * Z)) (conns : list nat) (os : Os)
  : (string + list nat) * Os :=
  match addrs with
  | [] => (inr conns, os)
  | addr :: addrs =>
      match Listen p addr os with
      | (inl err, os) => (inl err, os)
      | (inr conn, os) => bind_loop p addrs (conns ++ [conn]) os
      end
  end.

Definition bindUPDAddresses (addrs : list (IP * Z)) (t : Transport) (os : Os) : option string * Transport * Os :=
  match bind_loop UDP addrs [] os with
  | (inl err, os) => (Some err, t, os)
  | (inr conns, os) => (None, mkTransport conns (tr_tcpListeners t) (tr_udpBufPool t), os)
  end.

Definition bindTCPAddresses (addrs : list (IP * Z)) (t : Transport) (os : Os) : option string * Transport * Os :=
  match bind_loop TCP addrs [] os with
  | (inl err, os) => (Some err, t, os)
  | (inr listeners, os) => (None, mkTransport (tr_udpConns t) listeners (tr_udpBufPool t), os)
  end.

Definition openUDP (conf : ServerConf) (t : Transport) (os : Os) : outcome (option string * Transport * Os) :=
  addrs ← listen_addrs UDP (srv_Addrs conf);
  Ret (match addrs with
       | inl err => (Some err, t, os)
       | inr addrs => bindUPDAddresses addrs t os
       end).

Definition openTCP (conf : ServerConf) (t : Transport) (os : Os) : outcome (option string * Transport * Os) :=
  if srv_EnableTCP conf then
    addrs ← listen_addrs TCP (srv_Addrs conf);
    Ret (match addrs with
         | inl err => (Some err, t, os)
         | inr addrs => bindTCPAddresses addrs t os
         end)
  else Ret (None, t, os).

(** [make] panics for a negative size. *)
Definition make_pool (handlerCount : Z) : outcome BytePool :=
  if handlerCount <? 0 then Panic "makechan: size out of range"
  else Ret (NewBytePool (Z.to_nat handlerCount) maxQueryLen).

Definition newTransport (conf : ServerConf) (handlerCount : Z) (os : Os) : outcome ((string + Transport) * Os) :=
  r ← openUDP conf (mkTransport [] [] None) os;
  match r with
  | (Some err, t, os) => Ret (inl err, Transport_Close t os)
  | (None, t, os) =>
      r ← openTCP conf t os;
      match r with
      | (Some err, t, os) => Ret (inl err, Transport_Close t os)
      | (None, t, os) =>
          pool ← make_pool handlerCount;
          Ret (inr (mkTransport (tr_udpConns t) (tr_tcpListeners t) (Some pool)), os)
      end
  end.

(** ** What is left open *)

(** Some sockets more than before, on the given addresses and in their order. *)
Inductive opened (p : Proto) (os : Os) : list (IP * Z) → list nat → Os → Prop :=
  | opened_nil : opened p os [] [] os
  | opened_snoc addrs fds os' addr fd :
      opened p os addrs fds os' → os' !! fd = None →
      opened p os (addrs ++ [addr]) (fds ++ [fd]) (<[fd := mkSocket p addr]> os').

Lemma bind_loop_opened p addrs0 addrs conns os0 os :
  opened p os0 addrs0 conns os →
  match bind_loop p addrs conns os with
  | (inr conns', os') => opened p os0 (addrs0 ++ addrs) conns' os'
  | (inl err, os') => ∃ bound addr rest fds,
      addrs = bound ++ addr :: rest ∧ opened p os0 (addrs0 ++ bound) fds os' ∧
      ns_refuses net p addr os' = Some err
  end.
Proof.
  revert addrs0 conns os. induction addrs as [|addr addrs IH]; intros addrs0 conns os Ho; cbn [bind_loop].
  - by rewrite app_nil_r.
  - unfold Listen. destruct (ns_refuses net p addr os) as [err|] eqn:Er.
    + exists [], addr, addrs, conns. by rewrite app_nil_r.
    + assert (os !! fresh (dom os) = None) as Hf by apply not_elem_of_dom, is_fresh.
      specialize (IH _ _ _ (opened_snoc _ _ _ _ _ addr _ Ho Hf)).
      destruct (bind_loop _ _ _ _) as [[err|conns'] os'].
      * destruct IH as (bound & a & rest & fds & -> & Hb & Hr). exists (addr :: bound), a, rest, fds.
        rewrite <- app_assoc in Hb. done.
      * by rewrite <- app_assoc in IH.
Qed.

Lemma opened_open p os addrs fds os' fd : opened p os addrs fds os' → fd ∈ fds → is_Some (os' !! fd).
Proof.
  induction 1 as [|addrs fds os' addr x _ IH _]; [set_solver|].
  intros [Hin|Hin%list_elem_of_singleton]%elem_of_app; apply lookup_insert_is_Some'; auto.
Qed.

Lemma opened_lookup p os addrs fds os' : opened p os addrs fds os' →
  (λ fd, os' !! fd) <$> fds = (λ a, Some (mkSocket p a)) <$> addrs ∧
  NoDup fds ∧ (∀ fd, fd ∈ fds → os !! fd = None) ∧
  (∀ fd, fd ∉ fds → os' !! fd = os !! fd).
Proof.
  induction 1 as [|addrs fds os' addr fd Ho (H1 & H2 & H3 & H4) Hfd];
    [split_and!; [done|constructor|set_solver|done]|].
  assert (fd ∉ fds) as Hne by (intros Hin; destruct (opened_open _ _ _ _ _ _ Ho Hin); congruence).
  split_and!.
  - rewrite !fmap_app, <- H1. cbn. rewrite lookup_insert_eq. f_equal. apply list_fmap_ext. intros i x Hi.
    apply lookup_insert_ne. intros <-. by apply list_elem_of_lookup_2 in Hi.
  - apply NoDup_app. split_and!; [done| |apply NoDup_singleton]. intros x Hx Hs%list_elem_of_singleton. by subst.
  - intros x [Hx|Hs%list_elem_of_singleton]%elem_of_app; [by apply H3|]. subst. by rewrite <- (H4 fd).
  - intros x Hx. rewrite lookup_insert_ne by set_solver. apply H4. set_solver.
Qed.

(** Closing what was opened. *)
Lemma close_lookup fds (os : Os) fd : foldl Conn_Close os fds !! fd = if decide (fd ∈ fds) then None else os !! fd.
Proof.
  revert os. induction fds as [|x fds IH]; intros os; cbn [foldl]; [by rewrite decide_False by set_solver|].
  rewrite IH. unfold Conn_Close. repeat case_decide; try set_solver.
  - assert (fd = x) as -> by set_solver. apply lookup_delete_eq.
  - apply lookup_delete_ne. set_solver.
Qed.

Lemma opened_closed p os addrs fds os' : opened p os addrs fds os' → foldl Conn_Close os' fds = os.
Proof.
  intros (_ & _ & H3 & H4)%opened_lookup. apply map_eq. intros fd. rewrite close_lookup.
  case_decide; [by rewrite H3|by apply H4].
Qed.

(** Sockets of the first batch are closed from under the second. *)
Lemma opened_below p q os addrs fds os1 addrs2 fds2 os2 :
  opened p os addrs fds os1 → opened q os1 addrs2 fds2 os2 →
  opened q os addrs2 fds2 (foldl Conn_Close os2 fds).
Proof.
  intros H1. induction 1 as [|addrs2 fds2 os2 addr fd H2 IH Hfd].
  - rewrite (opened_closed _ _ _ _ _ H1). constructor.
  - pose proof (opened_lookup _ _ _ _ _ H2) as (_ & _ & E3 & E4).
    assert (fd ∉ fds) as Hne.
    { intros Hin. destruct (opened_open _ _ _ _ _ _ H1 Hin) as [x Hx].
      destruct (decide (fd ∈ fds2)) as [Hin2|Hn]; [apply E3 in Hin2|apply E4 in Hn]; congruence. }
    assert (foldl Conn_Close (<[fd:=mkSocket q addr]> os2) fds = <[fd:=mkSocket q addr]> (foldl Conn_Close os2 fds)) as ->.
    { apply map_eq. intros x. rewrite close_lookup. destruct (decide (x = fd)) as [->|Hx].
      - by rewrite decide_False, !lookup_insert_eq by done.
      - rewrite !lookup_insert_ne, close_lookup by done. done. }
    constructor; [exact IH|]. by rewrite close_lookup, decide_False.
Qed.

Lemma opened_twice_closed t os udp tcp os1 os' :
  opened UDP os udp (tr_udpConns t) os1 → opened TCP os1 tcp (tr_tcpListeners t) os' → Transport_Close t os' = os.
Proof. intros H1 H2. eapply opened_closed, opened_below; eassumption. Qed.

(** Opening the sockets of a protocol failed: nothing is left of it when an address has no
    meaning, and what was bound before the address that was refused. *)
Definition open_failed (p : Proto) (conf : ServerConf) (err : string) (os os' : Os) : Prop :=
  (listen_addrs p (srv_Addrs conf) = Ret (inl err) ∧ os' = os) ∨
  (∃ bound addr rest fds os2,
     listen_addrs p (srv_Addrs conf) = Ret (inr (bound ++ addr :: rest)) ∧
     ns_refuses net p addr os2 = Some err ∧ opened p os bound fds os').

Lemma open_failed_below p q conf err os addrs fds os1 os2 :
  opened p os addrs fds os1 → open_failed q conf err os1 os2 →
  open_failed q conf err os (foldl Conn_Close os2 fds).
Proof.
  intros Ho [[H ->]|(bound & addr & rest & fds2 & os3 & H1 & H2 & H3)].
  - left. split; [done|]. by eapply opened_closed.
  - right. exists bound, addr, rest, fds2, os3. split_and!; [done..|]. by eapply opened_below.
Qed.

(** What opening the sockets of one protocol leaves. *)
Lemma openUDP_opened conf t os err t' os' :
  openUDP conf t os = Ret (err, t', os') →
  match err with
  | None => ∃ udp, listen_addrs UDP (srv_Addrs conf) = Ret (inr udp) ∧ opened UDP os udp (tr_udpConns t') os' ∧
              tr_tcpListeners t' = tr_tcpListeners t
  | Some err => t' = t ∧ open_failed UDP conf err os os'
  end.
Proof.
  unfold openUDP. intros H. ret_step H. injection H as H. destruct r as [e|udp].
  { injection H as <- <- <-. split; [done|]. by left. }
  unfold bindUPDAddresses in H. pose proof (bind_loop_opened UDP [] udp [] os os (opened_nil _ _)) as Hu.
  destruct (bind_loop UDP udp [] os) as [[e|conns] os1]; injection H as <- <- <-; [|by exists udp].
  destruct Hu as (bound & addr & rest & fds & -> & Ho & Hr). split; [done|]. right. naive_solver.
Qed.

Lemma openTCP_opened conf t os err t' os' :
  openTCP conf t os = Ret (err, t', os') →
  match err with
  | None => ∃ tcp, (if srv_EnableTCP conf then listen_addrs TCP (srv_Addrs conf) = Ret (inr tcp) else tcp = []) ∧
              opened TCP os tcp (if srv_EnableTCP conf then tr_tcpListeners t' else []) os' ∧
              tr_udpConns t' = tr_udpConns t ∧ (srv_EnableTCP conf = false → t' = t)
  | Some err => t' = t ∧ open_failed TCP conf err os os'
  end.
Proof.
  unfold openTCP. intros H. destruct (srv_EnableTCP conf).
  - ret_step H. injection H as H. destruct r as [e|tcp].
    { injection H as <- <- <-. split; [done|]. by left. }
    unfold bindTCPAddresses in H. pose proof (bind_loop_opened TCP [] tcp [] os os (opened_nil _ _)) as Hu.
    destruct (bind_loop TCP tcp [] os) as [[e|conns] os1]; injection H as <- <- <-; [|by exists tcp].
    destruct Hu as (bound & addr & rest & fds & -> & Ho & Hr). split; [done|]. right. naive_solver.
  - injection H as <- <- <-. exists []. split_and!; [done|constructor|done..].
Qed.

(** The sockets of a transport that was made. *)
Definition holds (conf : ServerConf) (os : Os) (t : Transport) (os' : Os) : Prop :=
  ∃ udp tcp os1,
    listen_addrs UDP (srv_Addrs conf) = Ret (inr udp) ∧
    (if srv_EnableTCP conf then listen_addrs TCP (srv_Addrs conf) = Ret (inr tcp) else tcp = []) ∧
    opened UDP os udp (tr_udpConns t) os1 ∧ opened TCP os1 tcp (tr_tcpListeners t) os'.

Lemma newTransport_holds conf handlerCount os t os' :
  newTransport conf handlerCount os = Ret (inr t, os') →
  0 ≤ handlerCount ∧ holds conf os t os' ∧ Transport_Close t os' = os.
Proof.
  unfold newTransport. intros H. ret_step H. destruct r as [[[e|] t1] os1]; [done|].
  apply openUDP_opened in E as (udp & Hu & Ho & Hl). ret_step H. destruct r as [[[e|] t2] os2]; [done|].
  apply openTCP_opened in E as (tcp & Ht & Hot & Hc & Hno). unfold make_pool in H.
  destruct (Z.ltb_spec handlerCount 0); [done|]. cbn in H. injection H as <- <-. split; [done|].
  assert (opened TCP os1 tcp (tr_tcpListeners t2) os2) as Hot'.
  { destruct (srv_EnableTCP conf); [done|]. by rewrite Hno, Hl. }
  rewrite <- Hc in Ho. split; [by exists udp, tcp, os1|]. eapply opened_twice_closed; [exact Ho|exact Hot'].
Qed.

(** C34: what [newTransport] leaves open.  When it succeeds, one more UDP socket is open for
    each address to listen on, one more TCP socket for each when TCP is enabled and none
    otherwise, the transport holds exactly these, and [Close] gives back the sockets there
    were before.  When an address cannot be resolved nothing is left open.  When one is
    refused, the sockets of the other protocol are closed, but those already bound for the
    same protocol stay open and nothing holds them any more. *)
Theorem newTransport_spec conf handlerCount os r os' :
  newTransport conf handlerCount os = Ret (r, os') →
  match r with
  | inr t => holds conf os t os' ∧ Transport_Close t os' = os
  | inl err => ∃ p, open_failed p conf err os os'
  end.
Proof.
  destruct r as [err|t]; [|by intros (_ & ? & ?)%newTransport_holds].
  unfold newTransport. intros H. ret_step H. destruct r as [[[e|] t1] os1].
  { injection H as <- <-. apply openUDP_opened in E as [-> Hf]. by exists UDP. }
  apply openUDP_opened in E as (udp & Hu & Ho & Hl). ret_step H. destruct r as [[[e|] t2] os2].
  - injection H as <- <-. apply openTCP_opened in E as [-> Hf]. exists TCP.
    unfold Transport_Close. rewrite Hl. cbn [foldl]. exact (open_failed_below _ _ _ _ _ _ _ _ _ Ho Hf).
  - by ret_step H.
Qed.
End transport.

(** A host with the addresses 10.0.0.1 and 10.0.0.2 on which another process holds the
    TCP port 53 of the second. *)
Section transport_examples.
Definition demo_addr (s : string) : string + (IP * Z) :=
  if bool_decide (s = "0.0.0.0:53") then inr ([0; 0; 0; 0], 53) else inl "missing port in address".
Definition demo_net : NetSys :=
  mkNetSys (λ _, demo_addr) (inr [[127; 0; 0; 1]; [10; 0; 0; 1]; [10; 0; 0; 2]])
    (λ p a _, if bool_decide ((p, a) = (TCP, ([10; 0; 0; 2], 53))) then Some "address already in use" else None).

Definition demo_two : Os :=
  {[ 0%nat := mkSocket UDP ([10; 0; 0; 1], 53); 1%nat := mkSocket UDP ([10; 0; 0; 2], 53) ]}.
Definition demo_leak : Os := {[ 2%nat := mkSocket TCP ([10; 0; 0; 1], 53) ]}.

(** With UDP alone the server opens its two sockets and can close them again; with TCP it
    is refused, and the TCP socket of the first address stays open. *)
Lemma newTransport_spec_witness :
  (newTransport demo_net (mkServerConf ["0.0.0.0:53"] "" 8 false) 8 ∅ =
     Ret (inr (mkTransport [0%nat; 1%nat] [] (Some (NewBytePool 8 maxQueryLen))), demo_two) ∧
   Transport_Close (mkTransport [0%nat; 1%nat] [] (Some (NewBytePool 8 maxQueryLen))) demo_two = ∅) ∧
  newTransport demo_net (mkServerConf ["0.0.0.0:53"] "" 8 true) 8 ∅ = Ret (inl "address already in use", demo_leak) ∧
  ∃ p bound fds, opened p ∅ bound fds demo_leak.
Proof.
  assert (newTransport demo_net (mkServerConf ["0.0.0.0:53"] "" 8 false) 8 ∅ =
     Ret (inr (mkTransport [0%nat; 1%nat] [] (Some (NewBytePool 8 maxQueryLen))), demo_two)) as E1 by by_eval.
  assert (newTransport demo_net (mkServerConf ["0.0.0.0:53"] "" 8 true) 8 ∅ =
     Ret (inl "address already in use", demo_leak)) as E2 by by_eval.
  split; [split; [exact E1|]|split; [exact E2|]].
  - apply (newTransport_spec _ _ _ _ _ _ E1).
  - destruct (newTransport_spec _ _ _ _ _ _ E2) as (p & [[H _]|(bound & addr & rest & fds & os2 & _ & _ & H)]);
      [destruct p; by vm_compute in H|]. by exists p, bound, fds.
Defined.
End transport_examples.
