(* ===== verification/Main.v ===== *)
(** * Putting the server together (src/cmd/vanguard, src/server/cmdhandler.go)

    The enabled modules are linked into one chain in a fixed order, notifies get a chain
    of their own, and the commands of the server stop it and load its configuration
    again.  The state of a command handler that panics matters here: the command service
    recovers the panic and goes on with what the handler left. *)

From S2P Require Import Prelude GoStd G53 Instances Core HttpCmd Cement Chain Acl Util Resolver Server.

(** ** cmd/vanguard/vanguard.go *)

Definition ModuleView : string := "view".
Definition ModuleFilter : string := "filter".
Definition ModuleCache : string := "cache".
Definition ModuleDNS64 : string := "dns64".
Definition ModuleResolver : string := "resolver".
Definition ModuleKubernetes : string := "kubernetes".
Definition ModuleFailForwarder : string := "fail_forwarder".
Definition ModuleQueryLog : string := "query_log".
Definition ModuleAAAAFilter : string := "aaaa_filter".
Definition ModuleHijack : string := "hijack".
Definition ModuleSortList : string := "sort_list".

(** The keys of the map of constructors. *)
Definition supported_creators : list string :=
  [ModuleView; ModuleFilter; ModuleCache; ModuleDNS64; ModuleKubernetes; ModuleFailForwarder;
   ModuleQueryLog; ModuleAAAAFilter; ModuleHijack; ModuleSortList].

Definition moduleInOrder : list string :=
  [ModuleQueryLog; ModuleKubernetes; ModuleView; ModuleFilter; ModuleAAAAFilter; ModuleSortList;
   ModuleHijack; ModuleDNS64; ModuleCache; ModuleResolver; ModuleFailForwarder].

(** The loop over [conf.EnableModules]: the modules to create, and whether a part of the
    resolver is among them. *)
Fixpoint read_modules (enabled : list string) (creator : gset string) (resolverEnable : bool)
  : outcome (gset string * bool) :=
  match enabled with
  | [] => Ret (creator, resolverEnable)
  | m :: enabled =>
      if bool_decide (m ∈ supported_creators) then read_modules enabled ({[ m ]} ∪ creator) resolverEnable
      else if IsResolverSubModule m then read_modules enabled creator true
      else Panic ("unknown module:" +:+ m)
  end.

Section main.
Context {N : G53Name} {NR : NetRadix} {Conf S : Type}.

(** A handler of the chain, and its [ReloadConfig] when it owns configuration.  The state
    of a reload that panics is what the panic leaves. *)
Record QueryModule : Type := mkQueryModule {
  qm_HandleQuery : option (Handler S) → Handler S;
  qm_ReloadConfig : option (Conf → S → S * outcome unit);
}.

(** The constructors, of [NewResolver] apart from the others. *)
Context (create : string → outcome QueryModule) (newResolver : outcome QueryModule)
        (newXFRHandler : Handler S).

(** The loop over [moduleInOrder]. *)
Fixpoint create_handlers (order : list string) (creator : gset string) (resolverEnable : bool)
  : outcome (list QueryModule) :=
  match order with
  | [] => Ret []
  | m :: order =>
      if bool_decide (m = ModuleResolver) then
        if resolverEnable then
          h ← newResolver; hs ← create_handlers order creator resolverEnable; Ret (h :: hs)
        else create_handlers order creator resolverEnable
      else if bool_decide (m ∈ creator) then
        h ← create m; hs ← create_handlers order creator resolverEnable; Ret (h :: hs)
      else create_handlers order creator resolverEnable
  end.

(** The chain, its first handler, and the handler of notifies. *)
Definition createHandler (enabled : list string)
  : outcome (list QueryModule * Handler S * option (Handler S)) :=
  r ← read_modules enabled ∅ false;
  let '(creator, resolverEnable) := r in
  handlers ← create_handlers moduleInOrder creator resolverEnable;
  match BuildQueryChain (qm_HandleQuery <$> handlers) with
  | None => Panic "no hanlder is created"
  | Some first =>
      let viewSelector := bool_decide (ModuleView ∈ creator) in
      let auth := resolverEnable && isModuleEnable enabled ModuleAuth in
      Ret (handlers, first, if viewSelector && auth then Some newXFRHandler else None)
  end.

(** ** server/cmdhandler.go *)

Inductive ServerCmd : Type := Reconfig | Ping | Stop.

(** The server's part of the process: its configuration, the goroutine of the metrics,
    the access lists, the handler routines, and the state of the handlers. *)
Record Process : Type := mkProcess {
  pr_conf : Conf;
  pr_metrics : Metrics;
  pr_metrics_running : bool;
  pr_acl : AclManager;
  pr_routines : nat;
  pr_state : S;
}.

(** [metrics.GetMetrics().Stop()]: the goroutine receives and answers. *)
Definition Metrics_Stop (p : Process) : Process * outcome unit :=
  if pr_metrics_running p
  then (mkProcess (pr_conf p) (pr_metrics p) false (pr_acl p) (pr_routines p) (pr_state p), Ret tt)
  else (p, Hang "stopChan has no receiver").

Definition AclManager_Stop (p : Process) : Process * outcome unit :=
  match AclScheduler_Stop (pr_acl p) with
  | Ret acl => (mkProcess (pr_conf p) (pr_metrics p) (pr_metrics_running p) acl (pr_routines p) (pr_state p), Ret tt)
  | Panic why => (p, Panic why)
  | Hang why => (p, Hang why)
  end.

(** [stop]: every handler routine ends once it is done with its message. *)
Definition Server_stop (p : Process) : Process :=
  mkProcess (pr_conf p) (pr_metrics p) (pr_metrics_running p) (pr_acl p) 0 (pr_state p).

(** [conf.Reload()]: the configuration stays when the file cannot be loaded. *)
Definition Conf_Reload (loaded : option Conf) (p : Process) : Process :=
  match loaded with
  | Some conf => mkProcess conf (pr_metrics p) (pr_metrics_running p) (pr_acl p) (pr_routines p) (pr_state p)
  | None => p
  end.

(** The loop over the chain. *)
Fixpoint reload_handlers (handlers : list QueryModule) (conf : Conf) (s : S) : S * outcome unit :=
  match handlers with
  | [] => (s, Ret tt)
  | h :: handlers =>
      match qm_ReloadConfig h with
      | None => reload_handlers handlers conf s
      | Some reload =>
          match reload conf s with
          | (s, Ret _) => reload_handlers handlers conf s
          | r => r
          end
      end
  end.

(** What the configuration says about access lists and views, and the clock. *)
Context (conf_acls : Conf → list AclConf) (conf_views : Conf → list string).

Definition Acl_Reload (now : Z) (p : Process) : Process * outcome unit :=
  match AclManager_ReloadConfig now (conf_acls (pr_conf p)) (pr_acl p) with
  | Ret acl => (mkProcess (pr_conf p) (pr_metrics p) (pr_metrics_running p) acl (pr_routines p) (pr_state p), Ret tt)
  | Panic why => (p, Panic why)
  | Hang why => (p, Hang why)
  end.

(** A command in a sequence: the next runs when this one returned. *)
Definition andThen (r : Process * outcome unit) (k : Process → Process * outcome unit)
  : Process * outcome unit :=
  match r with
  | (p, Ret _) => k p
  | r => r
  end.

Definition reconfig (now : Z) (loaded : option Conf) (handlers : list QueryModule) (handlerCount : nat)
  (p : Process) : Process * outcome unit :=
  andThen (Metrics_Stop p) (λ p,
  andThen (AclManager_Stop p) (λ p,
  let p := Conf_Reload loaded (Server_stop p) in
  andThen (Acl_Reload now p) (λ p,
  let '(s, r) := reload_handlers handlers (pr_conf p) (pr_state p) in
  andThen (mkProcess (pr_conf p) (pr_metrics p) (pr_metrics_running p) (pr_acl p) (pr_routines p) s, r) (λ p,
  (mkProcess (pr_conf p) (Metrics_ReloadConfig (conf_views (pr_conf p)) (pr_metrics p)) true (pr_acl p)
     (pr_routines p + handlerCount) (pr_state p), Ret tt))))).

(** A handler of commands for the command service, with no result and no error of its
    own. *)
Definition Server_HandleCmd {R} (now : Z) (loaded : option Conf) (handlers : list QueryModule)
  (handlerCount : nat) (cmd : ServerCmd) (p : Process) : Process * outcome (option R + CmdError) :=
  match cmd with
  | Reconfig =>
      let '(p, r) := reconfig now loaded handlers handlerCount p in (p, (λ _, inl None) <$> r)
  | Stop => (Server_stop p, Ret (inl None))
  | Ping => (p, Ret (inl None))
  end.
End main.
