(* ===== verification/MainSpec.v ===== *)
(** * The server as a whole

    Which chain the enabled modules give, and what a change of the configuration does to
    a running server, when it succeeds and when a handler refuses it. *)

From S2P Require Import Prelude GoStd G53 Instances Core HttpCmd Cement Chain Acl Util Resolver Server Main.

(** Proves a closed decidable proposition by evaluating its decision. *)
Ltac by_decide := lazymatch goal with |- ?P => apply (bool_decide_unpack P); vm_compute; exact I end.

(** ** The chain *)

Lemma isModuleEnable_spec enabled m : isModuleEnable enabled m = bool_decide (m ∈ enabled).
Proof.
  unfold isModuleEnable. apply Bool.eq_iff_eq_true. rewrite existsb_exists, bool_decide_eq_true.
  setoid_rewrite bool_decide_eq_true. setoid_rewrite <- list_elem_of_In. naive_solver.
Qed.

Section chain_spec.
Context {N : G53Name} {Conf S : Type}.
Context (create : string → outcome (QueryModule (Conf := Conf) (S := S)))
        (newResolver : outcome (QueryModule (Conf := Conf) (S := S))) (newXFRHandler : Handler S).

Definition known (m : string) : Prop := m ∈ supported_creators ∨ m ∈ ResolverSubmodule.
#[local] Instance known_dec m : Decision (known m) := _.

(** The modules of the chain, in its order, and how each is made. *)
Definition wanted (enabled : list string) (m : string) : Prop :=
  if decide (m = ModuleResolver) then Exists (λ e, e ∈ ResolverSubmodule) enabled
  else m ∈ supported_creators ∧ m ∈ enabled.
#[export] Instance wanted_dec enabled m : Decision (wanted enabled m).
Proof. unfold wanted. destruct (decide (m = ModuleResolver)); apply _. Defined.

Definition chain_modules (enabled : list string) : list string := base.filter (wanted enabled) moduleInOrder.

Definition make (m : string) : outcome (QueryModule (Conf := Conf) (S := S)) :=
  if decide (m = ModuleResolver) then newResolver else create m.

Lemma IsResolverSubModule_spec m : IsResolverSubModule m = bool_decide (m ∈ ResolverSubmodule).
Proof.
  unfold IsResolverSubModule. apply Bool.eq_iff_eq_true. rewrite existsb_exists, bool_decide_eq_true.
  setoid_rewrite bool_decide_eq_true. setoid_rewrite <- list_elem_of_In. naive_solver.
Qed.

Lemma supported_not_sub m : m ∈ supported_creators → m ∉ ResolverSubmodule.
Proof. unfold supported_creators, ResolverSubmodule. intros H. rewrite !elem_of_cons in H. set_solver. Qed.

Lemma read_modules_known enabled creator b :
  Forall known enabled →
  ∃ creator', read_modules enabled creator b =
    Ret (creator', b || bool_decide (Exists (λ e, e ∈ ResolverSubmodule) enabled)) ∧
    ∀ m, m ∈ creator' ↔ m ∈ creator ∨ (m ∈ supported_creators ∧ m ∈ enabled).
Proof.
  intros H. revert creator b. induction H as [|e enabled He _ IH]; intros creator b; cbn [read_modules].
  - exists creator. rewrite orb_false_r. split; [done|]. intros m. rewrite elem_of_nil. tauto.
  - rewrite IsResolverSubModule_spec. destruct (decide (e ∈ supported_creators)) as [Hs|Hs];
      [rewrite (bool_decide_true _ Hs)|rewrite (bool_decide_false _ Hs)].
    + destruct (IH ({[ e ]} ∪ creator) b) as (c' & -> & Hc'). exists c'. split.
      2:{ intros m. rewrite Hc', elem_of_union, elem_of_singleton, elem_of_cons. clear -Hs.
          split; [intros [[->|?]|[? ?]]|intros [?|[? [->|?]]]]; auto. }
      do 3 f_equal. apply bool_decide_ext. rewrite Exists_cons. pose proof (supported_not_sub e Hs).
      split; [by right|by intros [?|?]].
    + destruct He as [He|He]; [done|]. rewrite (bool_decide_true _ He).
      destruct (IH creator true) as (c' & -> & Hc'). exists c'. split.
      2:{ intros m. rewrite Hc', elem_of_cons. clear -Hs.
          split; [intros [?|[? ?]]|intros [?|[? [->|?]]]]; auto; done. }
      do 2 f_equal. cbn. rewrite bool_decide_true by (by apply Exists_cons; left). by rewrite orb_true_r.
Qed.

Lemma read_modules_unknown enabled creator b :
  ¬ Forall known enabled →
  ∃ m, m ∈ enabled ∧ ¬ known m ∧ read_modules enabled creator b = Panic ("unknown module:" +:+ m).
Proof.
  revert creator b. induction enabled as [|e enabled IH]; intros creator b H; [by destruct H|].
  cbn [read_modules]. rewrite IsResolverSubModule_spec.
  case_bool_decide as H1; [|case_bool_decide as H2].
  - edestruct IH as (m & ? & ? & E); [|exists m; split_and!; [set_solver|done|exact E]].
    intros HF. apply H. constructor; [by left|done].
  - edestruct IH as (m & ? & ? & E); [|exists m; split_and!; [set_solver|done|exact E]].
    intros HF. apply H. constructor; [by right|done].
  - exists e. split_and!; [set_solver| |done]. intros [?|?]; done.
Qed.

Definition if_module (resolverEnable : bool) (creator : gset string) (m : string) : bool :=
  if decide (m = ModuleResolver) then resolverEnable else bool_decide (m ∈ creator).

Lemma mapM_cons_make m ms : mapM make (m :: ms) = (h ← make m; hs ← mapM make ms; Ret (h :: hs)).
Proof. done. Qed.

Lemma create_handlers_mapM order creator b :
  create_handlers create newResolver order creator b =
  mapM make (base.filter (λ m, if_module b creator m = true) order).
Proof.
  induction order as [|m order IH]; [done|]. cbn [create_handlers]. rewrite IH.
  rewrite filter_cons. case_bool_decide as Hm.
  - assert (if_module b creator m = b) as -> by (unfold if_module; by rewrite decide_True).
    assert (make m = newResolver) as Hmk by (unfold make; by rewrite decide_True).
    destruct b; [|done]. rewrite decide_True by done. by rewrite mapM_cons_make, Hmk.
  - assert (if_module b creator m = bool_decide (m ∈ creator)) as -> by (unfold if_module; by rewrite decide_False).
    assert (make m = create m) as Hmk by (unfold make; by rewrite decide_False).
    destruct (bool_decide (m ∈ creator)); [|done]. rewrite decide_True by done. by rewrite mapM_cons_make, Hmk.
Qed.

Lemma chain_modules_read enabled creator b :
  (∀ m, m ∈ creator ↔ m ∈ supported_creators ∧ m ∈ enabled) →
  b = bool_decide (Exists (λ e, e ∈ ResolverSubmodule) enabled) →
  base.filter (λ m, if_module b creator m = true) moduleInOrder = chain_modules enabled.
Proof.
  intros Hc ->. apply list_filter_iff. intros m. unfold if_module, wanted. destruct (decide _) as [E|E].
  - apply bool_decide_eq_true.
  - by rewrite bool_decide_eq_true, Hc.
Qed.

Lemma chain_modules_nil enabled : Forall known enabled → chain_modules enabled = [] → enabled = [].
Proof.
  destruct enabled as [|e enabled]; [done|]. intros [He _]%Forall_cons Hn. exfalso.
  assert (∀ m, m ∈ moduleInOrder → ¬ wanted (e :: enabled) m) as Hno.
  { intros m Hm Hw. assert (m ∈ chain_modules (e :: enabled)) as Hin by (by apply list_elem_of_filter).
    rewrite Hn in Hin. by apply elem_of_nil in Hin. }
  destruct He as [He|He].
  - assert (Forall (λ m, m ∈ moduleInOrder ∧ m ≠ ModuleResolver) supported_creators) as Hall
      by (by_decide).
    rewrite Forall_forall in Hall. destruct (Hall e He) as [H1 H2]. apply (Hno e H1). unfold wanted.
    rewrite decide_False by done. split; [done|]. by apply elem_of_cons; left.
  - apply (Hno ModuleResolver); [by_decide|].
    unfold wanted. rewrite decide_True by done. by apply Exists_cons; left.
Qed.

Lemma createHandler_eq enabled :
  Forall known enabled →
  createHandler create newResolver newXFRHandler enabled =
    (handlers ← mapM make (chain_modules enabled);
     match BuildQueryChain (qm_HandleQuery <$> handlers) with
     | None => Panic "no hanlder is created"
     | Some first =>
         Ret (handlers, first,
              if bool_decide (ModuleView ∈ enabled ∧ ModuleAuth ∈ enabled) then Some newXFRHandler else None)
     end).
Proof.
  intros Hk. unfold createHandler. destruct (read_modules_known enabled ∅ false Hk) as (c & -> & Hc).
  rewrite bind_Ret, create_handlers_mapM. rewrite orb_false_l.
  assert (∀ m, m ∈ c ↔ m ∈ supported_creators ∧ m ∈ enabled) as Hc'.
  { intros m. rewrite Hc, elem_of_empty. tauto. }
  rewrite (chain_modules_read enabled c _ Hc' eq_refl). destruct (mapM make _) as [hs| |]; [|done..].
  rewrite !bind_Ret. destruct (BuildQueryChain _); [|done].
  rewrite isModuleEnable_spec, <- !bool_decide_and.
  do 2 f_equal. rewrite (bool_decide_ext _ (ModuleView ∈ enabled ∧ ModuleAuth ∈ enabled)); [done|].
  rewrite Hc', Exists_exists. split; [tauto|]. intros [H1 H2]. split_and!; [|done| |done].
  - by_decide.
  - exists ModuleAuth. split; [done|]. by_decide.
Qed.

(** The chain of the enabled modules.  An unknown module is a panic.  Otherwise the
    chain has each enabled module once, in the fixed order whatever the order of the
    configuration, with the resolver when one of its parts is enabled; it is empty, and
    start-up a panic, only when nothing is enabled; and notifies are handled exactly when
    views and authoritative zones both are. *)
Theorem createHandler_spec enabled :
  (¬ Forall known enabled →
     ∃ m, m ∈ enabled ∧ ¬ known m ∧
       createHandler create newResolver newXFRHandler enabled = Panic ("unknown module:" +:+ m)) ∧
  (Forall known enabled → enabled ≠ [] → ∀ handlers, mapM make (chain_modules enabled) = Ret handlers →
     ∃ first, BuildQueryChain (qm_HandleQuery <$> handlers) = Some first ∧
       createHandler create newResolver newXFRHandler enabled =
         Ret (handlers, first,
              if bool_decide (ModuleView ∈ enabled ∧ ModuleAuth ∈ enabled) then Some newXFRHandler else None)) ∧
  createHandler create newResolver newXFRHandler [] = Panic "no hanlder is created" ∧
  NoDup (chain_modules enabled) ∧ sublist (chain_modules enabled) moduleInOrder ∧
  (∀ enabled', Forall known enabled → (∀ m, m ∈ enabled' ↔ m ∈ enabled) →
     createHandler create newResolver newXFRHandler enabled' =
     createHandler create newResolver newXFRHandler enabled).
Proof.
  split_and!.
  - intros H. destruct (read_modules_unknown enabled ∅ false H) as (m & H1 & H2 & E).
    exists m. split_and!; [done..|]. unfold createHandler. by rewrite E.
  - intros Hk Hne handlers Hm. rewrite (createHandler_eq enabled Hk), Hm, bind_Ret.
    destruct handlers as [|h hs]; [|cbn; eauto].
    destruct (chain_modules enabled) as [|m ms] eqn:Ec; [by apply chain_modules_nil in Ec|].
    rewrite mapM_cons_make in Hm. destruct (make m); [|done..]. rewrite bind_Ret in Hm.
    by destruct (mapM make ms).
  - done.
  - apply NoDup_filter. by_decide.
  - apply sublist_filter.
  - intros enabled' Hk Hm. rewrite !createHandler_eq; [|done|].
    2:{ rewrite Forall_forall in Hk |- *. intros m ?. by apply Hk, Hm. }
    assert (chain_modules enabled' = chain_modules enabled) as ->.
    { apply list_filter_iff. intros m. unfold wanted. destruct (decide _); [|by rewrite Hm].
      rewrite !Exists_exists. by setoid_rewrite Hm. }
    do 2 f_equal. by rewrite (bool_decide_ext _ (ModuleView ∈ enabled ∧ ModuleAuth ∈ enabled)) by (by rewrite !Hm).
Qed.
End chain_spec.

(** The resolver is only made when one of its parts is enabled, so that its own check
    for an empty chain never fails. *)
Theorem NewResolver_total {N : G53Name} {M : G53Msg N} {W Conf} enabled indirect limit
  (part : string → Chain.Resolver Conf (Heap * W)) :
  ModuleResolver ∈ chain_modules enabled →
  ∃ h, NewResolver enabled indirect limit part = Ret h.
Proof.
  intros [Hw _]%list_elem_of_filter. unfold wanted in Hw. rewrite decide_True in Hw by done.
  apply Exists_exists in Hw as (e & He & Hin). unfold NewResolver, resolver_chain. rewrite !isModuleEnable_spec.
  unfold ResolverSubmodule in Hin. rewrite !elem_of_cons, elem_of_nil in Hin.
  destruct (bool_decide (ModuleLocalData ∈ enabled)) eqn:H1; [cbn; eauto|].
  destruct (bool_decide (ModuleAuth ∈ enabled)) eqn:H2; [cbn; eauto|].
  destruct (bool_decide (ModuleStubZone ∈ enabled)) eqn:H3; [cbn; eauto|].
  destruct (bool_decide (ModuleForwarder ∈ enabled)) eqn:H4; [cbn; eauto|].
  destruct (bool_decide (ModuleRecursor ∈ enabled)) eqn:H5; [cbn; eauto|].
  exfalso. rewrite bool_decide_eq_false in H1, H2, H3, H4, H5.
  destruct Hin as [->|[->|[->|[->|[->|[]]]]]]; done.
Qed.

(** ** A change of configuration *)

Section reconfig_spec.
Context {N : G53Name} {NR : NetRadix} {Conf S : Type}.
Context (conf_acls : Conf → list AclConf) (conf_views : Conf → list string).

Abbreviation Proc := (Process (Conf := Conf) (S := S)).
Abbreviation Modules := (list (QueryModule (Conf := Conf) (S := S))).

(** A server that runs. *)
Definition serving (p : Proc) : Prop := pr_metrics_running p = true ∧ am_running (pr_acl p) = true.

(** The reloads of the chain, one after the other. *)
Fixpoint reloads (handlers : Modules) (conf : Conf) (s s' : S) : Prop :=
  match handlers with
  | [] => s' = s
  | h :: handlers =>
      match qm_ReloadConfig h with
      | None => reloads handlers conf s s'
      | Some reload => ∃ s1, reload conf s = (s1, Ret tt) ∧ reloads handlers conf s1 s'
      end
  end.

Lemma reload_handlers_Ret handlers conf s s' :
  reload_handlers handlers conf s = (s', Ret tt) ↔ reloads handlers conf s s'.
Proof.
  revert s. induction handlers as [|h hs IH]; intros s; cbn.
  - split; [by intros [= ->]|by intros ->].
  - destruct (qm_ReloadConfig h) as [reload|]; [|apply IH].
    destruct (reload conf s) as [s1 [[]| |]]; [|naive_solver..].
    rewrite IH. naive_solver.
Qed.

Lemma reload_acls_running now confs acls m m' :
  am_running m = true → reload_acls now confs acls m = Ret m' → am_running m' = true.
Proof.
  revert acls m. induction confs as [|c confs IH]; intros acls m Hr; cbn.
  - by intros [= <-].
  - destruct (NewAcl _ _ _ _); [done|]. unfold AclScheduler_Add. cbn. rewrite Hr. cbn. by apply IH.
Qed.

Lemma AclManager_ReloadConfig_running now confs m m' :
  AclManager_ReloadConfig now confs m = Ret m' → am_running m' = true.
Proof. by apply reload_acls_running. Qed.

Lemma AclManager_ReloadConfig_no_hang now confs m why : AclManager_ReloadConfig now confs m ≠ Hang why.
Proof.
  unfold AclManager_ReloadConfig.
  assert (∀ acls m, am_running m = true → reload_acls now confs acls m ≠ Hang why) as H; [|by apply H].
  clear m. induction confs as [|c confs IH]; intros acls m Hr; cbn; [done|].
  destruct (NewAcl _ _ _ _); [done|]. unfold AclScheduler_Add. cbn. rewrite Hr. cbn. by apply IH.
Qed.

Lemma reconfig_serving now loaded handlers handlerCount (p : Proc) :
  serving p →
  let conf := default (pr_conf p) loaded in
  let acl0 := mkAclManager (am_store (pr_acl p)) (am_acls (pr_acl p)) [] false in
  reconfig conf_acls conf_views now loaded handlers handlerCount p =
    match AclManager_ReloadConfig now (conf_acls conf) acl0 with
    | Panic why => (mkProcess conf (pr_metrics p) false acl0 0 (pr_state p), Panic why)
    | Hang why => (mkProcess conf (pr_metrics p) false acl0 0 (pr_state p), Hang why)
    | Ret acl =>
        let '(s, r) := reload_handlers handlers conf (pr_state p) in
        match r with
        | Ret _ => (mkProcess conf (Metrics_ReloadConfig (conf_views conf) (pr_metrics p)) true acl handlerCount s, Ret tt)
        | _ => (mkProcess conf (pr_metrics p) false acl 0 s, r)
        end
    end.
Proof.
  intros [Hm Ha]. cbn zeta. unfold reconfig, Metrics_Stop, AclManager_Stop, AclScheduler_Stop.
  rewrite Hm. cbn. rewrite Ha. cbn. unfold Acl_Reload. destruct loaded as [conf|]; cbn.
  all: destruct (AclManager_ReloadConfig _ _ _); [|done..]; cbn; destruct (reload_handlers _ _ _) as [s [[]| |]]; done.
Qed.

(** C36: a configuration that every part accepts.  The command gives every handler of the
    chain the new configuration, each once and in the order of the chain, starts the
    scheduler of the access lists, the metrics and the handler routines again, and the
    server serves as before; when the file cannot be loaded the same happens with the old
    configuration, and success is reported. *)
Theorem reconfig_success {R} now loaded handlers handlerCount (p : Proc) s' acl :
  serving p → let conf := default (pr_conf p) loaded in
  AclManager_ReloadConfig now (conf_acls conf)
    (mkAclManager (am_store (pr_acl p)) (am_acls (pr_acl p)) [] false) = Ret acl →
  reloads handlers conf (pr_state p) s' →
  ∃ p', Server_HandleCmd (R := R) conf_acls conf_views now loaded handlers handlerCount Reconfig p = (p', Ret (inl None)) ∧
    pr_conf p' = conf ∧ pr_state p' = s' ∧ pr_acl p' = acl ∧ pr_routines p' = handlerCount ∧ serving p'.
Proof.
  intros Hs conf Hacl Hre. pose proof (reconfig_serving now loaded handlers handlerCount p Hs) as E.
  cbn zeta in E. fold conf in E. rewrite Hacl in E. apply reload_handlers_Ret in Hre. rewrite Hre in E.
  unfold Server_HandleCmd. rewrite E. eexists. split; [done|]. split_and!; [done..|].
  split; [done|]. by apply AclManager_ReloadConfig_running in Hacl.
Qed.

(** The server and its metrics are down. *)
Definition dead (p : Proc) : Prop := pr_routines p = 0%nat ∧ pr_metrics_running p = false.

(** C37: a configuration that a part refuses takes the server down.  A panic of the access
    lists or of a handler is reported as a failed command, but no handler routine runs any
    more, and no later command starts one: a new reconfiguration waits for ever, and
    the other commands leave the server as it is. *)
Theorem reconfig_failure {R} now loaded handlers handlerCount (p : Proc) :
  serving p → let conf := default (pr_conf p) loaded in
  (∀ acl, AclManager_ReloadConfig now (conf_acls conf)
     (mkAclManager (am_store (pr_acl p)) (am_acls (pr_acl p)) [] false) = Ret acl →
     ∃ s why, reload_handlers handlers conf (pr_state p) = (s, Panic why)) →
  ∃ p' why, safeRunCommand (R := R) (Server_HandleCmd conf_acls conf_views now loaded handlers handlerCount) Reconfig p =
      (p', Ret (inr (Error_AddDetail ErrAssertFailed why))) ∧ dead p' ∧
    ∀ now' loaded' handlers' n' cmd p'', dead p'' →
      match safeRunCommand (R := R) (Server_HandleCmd conf_acls conf_views now' loaded' handlers' n') cmd p'' with
      | (q, Ret _) => cmd ≠ Reconfig ∧ dead q
      | (q, Hang _) => cmd = Reconfig ∧ dead q
      | (_, Panic _) => False
      end.
Proof.
  intros Hs conf Hpanic. pose proof (reconfig_serving now loaded handlers handlerCount p Hs) as E.
  cbn zeta in E. fold conf in E.
  assert (∃ p' why, reconfig conf_acls conf_views now loaded handlers handlerCount p = (p', Panic why) ∧ dead p')
    as (p' & why & E' & Hd).
  { rewrite E. destruct (AclManager_ReloadConfig _ _ _) as [acl|why|why] eqn:Ea;
      [| |by destruct (AclManager_ReloadConfig_no_hang _ _ _ _ Ea)].
    - destruct (Hpanic acl eq_refl) as (s & why & ->). by eexists _, _.
    - by eexists _, _. }
  exists p', why. unfold safeRunCommand, Server_HandleCmd. rewrite E'. split_and!; [done|done|].
  intros now' loaded' handlers' n' cmd p'' [Hr Hm]. destruct cmd; cbn.
  - unfold reconfig, Metrics_Stop. rewrite Hm. done.
  - done.
  - done.
Qed.
End reconfig_spec.

(** ** Examples *)

Section main_examples.

Definition demo_module (reload : Z → Z → Z * outcome unit) : QueryModule (Conf := Z) (S := Z) :=
  mkQueryModule (λ _ s c, Ret (s, c)) (Some reload).
Definition adds : QueryModule (Conf := Z) (S := Z) := demo_module (λ conf s, ((s + conf)%Z, Ret tt)).
Definition doubles : QueryModule (Conf := Z) (S := Z) := demo_module (λ _ s, ((2 * s)%Z, Ret tt)).
Definition refuses : QueryModule (Conf := Z) (S := Z) := demo_module (λ _ s, (s, Panic "bad network")).

Definition demo_metrics : Metrics := mkMetrics ∅ 0 ∅ 0 ∅ 0 ∅ 0 ∅.
Definition demo_process : Process (Conf := Z) (S := Z) := mkProcess 1%Z demo_metrics true mgr0 8 0%Z.

Lemma reconfig_success_witness :
  ∃ p', Server_HandleCmd (R := unit) (λ _, []) (λ _, []) 0 (Some 5%Z) [adds; doubles] 8 Reconfig demo_process =
    (p', Ret (inl None)) ∧ pr_conf p' = 5%Z ∧ pr_state p' = 10%Z ∧
    pr_acl p' = mgr0 ∧
    pr_routines p' = 8%nat ∧ serving p'.
Proof.
  apply (reconfig_success (λ _, []) (λ _, []) 0 (Some 5%Z) [adds; doubles] 8 demo_process).
  - split; reflexivity.
  - reflexivity.
  - exists 5%Z. split; [reflexivity|]. exists 10%Z. split; reflexivity.
Defined.

Lemma reconfig_failure_witness :
  ∃ p' why, safeRunCommand (R := unit) (Server_HandleCmd (λ _, []) (λ _, []) 0 (Some 5%Z) [adds; refuses] 8)
      Reconfig demo_process = (p', Ret (inr (Error_AddDetail ErrAssertFailed why))) ∧ dead p'.
Proof.
  destruct (reconfig_failure (R := unit) (λ _, []) (λ _, []) 0 (Some 5%Z) [adds; refuses] 8 demo_process)
    as (p' & why & H1 & H2 & _).
  - split; reflexivity.
  - intros acl _. exists 5%Z, "bad network". reflexivity.
  - exists p', why. split; [exact H1|exact H2].
Defined.

(** The order of the configuration does not matter. *)
Example sample_chain :
  chain_modules ["cache"; "auth"; "view"; "query_log"; "forwarder"; "cache"] =
  ["query_log"; "view"; "cache"; "resolver"].
Proof. vm_compute. reflexivity. Qed.
End main_examples.
