(* ===== verification/K8s.v ===== *)
(** * Names of a Kubernetes cluster (src/k8s)

    A controller keeps three zones in step with the services and endpoints of a cluster:
    the names of services and pods, and the reverse names of both.  A handler of an event
    makes a sequence of replacements of record sets, which depends on the event
    alone; a query for a name of one of the zones is answered from it. *)

From S2P Require Import Prelude GoStd G53 Instances Core Cement Acl Dns64 Zone Auth.
From Stdlib Require Import Ascii.

Local Open Scope Z_scope.

(** ** The objects of the cluster, as far as they are used *)

Record EndpointAddress : Type := mkAddress { ea_IP : string; ea_Hostname : string }.
Record EndpointPort : Type := mkPort { ep_Name : string; ep_Port : Z; ep_Protocol : string }.
Record EndpointSubset : Type := mkSubset { es_Addresses : list EndpointAddress; es_Ports : list EndpointPort }.
Record Endpoints : Type := mkEndpoints {
  en_Name : string;
  en_Namespace : string;
  en_Subsets : list EndpointSubset;
}.
Record Service : Type := mkService {
  sc_Name : string;
  sc_Namespace : string;
  sc_Type : string;
  sc_ClusterIP : string;
  sc_ExternalName : string;
}.

Definition ServiceTypeExternalName : string := "ExternalName".
Definition ClusterIPNone : string := "None".

(** ** helper.go *)

(** The elements of two lists of one length compared in turn. *)
Fixpoint pairwise {A} (same : A → A → bool) (xs ys : list A) : bool :=
  match xs, ys with
  | x :: xs, y :: ys => if same x y then pairwise same xs ys else false
  | _, _ => true
  end.

Definition isSubsetEqual (sa sb : EndpointSubset) : bool :=
  if negb (length (es_Addresses sa) =? length (es_Addresses sb))%nat then false
  else if negb (length (es_Ports sa) =? length (es_Ports sb))%nat then false
  else pairwise (λ a b, bool_decide (ea_IP a = ea_IP b) && bool_decide (ea_Hostname a = ea_Hostname b))
         (es_Addresses sa) (es_Addresses sb) &&
       pairwise (λ p q, bool_decide (ep_Name p = ep_Name q) && (ep_Port p =? ep_Port q) &&
                        bool_decide (ep_Protocol p = ep_Protocol q))
         (es_Ports sa) (es_Ports sb).

Definition isSubsetsEqual (a b : Endpoints) : bool :=
  if negb (length (en_Subsets a) =? length (en_Subsets b))%nat then false
  else pairwise isSubsetEqual (en_Subsets a) (en_Subsets b).

Definition isHeaderlessService (svc : Service) : bool :=
  bool_decide (sc_Type svc ≠ ServiceTypeExternalName) && bool_decide (sc_ClusterIP svc = ClusterIPNone).
Definition isNormalService (svc : Service) : bool :=
  bool_decide (sc_Type svc ≠ ServiceTypeExternalName) && bool_decide (sc_ClusterIP svc ≠ ClusterIPNone).
Definition isExternalService (svc : Service) : bool :=
  bool_decide (sc_Type svc = ServiceTypeExternalName) && bool_decide (sc_ExternalName svc ≠ "").

(** ** auth.go: names *)

Definition errUnsupportNetmask : string := "only support 8, 16, 24 bits network mask".
Definition errInvalidClusterIP : string := "cluster ip isn't valid".
Definition defaultTTL : Z := 5.
Definition defaultWeight : Z := 100.
Definition defaultPriority : Z := 10.
Definition reverseBaseZone : string := "in-addr.arpa".
Definition versionQuery : string := "dns-version".
Definition dnsSchemaVersion : string := "1.0.1".

(** [strings.Replace(s, old, new, n)] for one character. *)
Fixpoint replace_char (old new : ascii) (n : nat) (s : string) : string :=
  match n, s with
  | S n', String c s => if Ascii.eqb c old then String new (replace_char old new n' s)
                        else String c (replace_char old new n s)
  | _, _ => s
  end.

(** What is before and after the first [c]. *)
Fixpoint cut_at (c : ascii) (s : string) : option (string * string) :=
  match s with
  | EmptyString => None
  | String d s => if Ascii.eqb d c then Some ("", s)
                  else r ← cut_at c s; Some (String d r.1, r.2)
  end.

(** The size of the mask of [net.ParseCIDR(network)]. *)
Definition ParseCIDR_ones (network : string) : option Z :=
  r ← cut_at "/" network;
  let '(addr, mask) := r in
  n ← nat_of_digits mask;
  let bits := match parseIPv4 addr with
              | Some _ => Some 32
              | None => match parseIPv6 addr with Some _ => Some 128 | None => None end
              end in
  bits ← bits;
  if n <=? bits then Some n else None.

Definition reverseZoneNameForNetwork (network : string) : outcome (string + string) :=
  match ParseCIDR_ones network with
  | None => Ret (inl ("invalid CIDR address: " +:+ network))
  | Some ones =>
      let ipLabels := strings_Split network "." in
      if ones =? 8 then
        a ← index ipLabels 0; Ret (inr (strings_Join [a; reverseBaseZone] "."))
      else if ones =? 16 then
        b ← index ipLabels 1; a ← index ipLabels 0;
        Ret (inr (strings_Join [b; a; reverseBaseZone] "."))
      else if ones =? 24 then
        c ← index ipLabels 2; b ← index ipLabels 1; a ← index ipLabels 0;
        Ret (inr (strings_Join [c; b; a; reverseBaseZone] "."))
      else Ret (inl errUnsupportNetmask)
  end.

(** ** auth.go: zones *)

Inductive K8sZone : Type := ServiceZone | ServiceReverse | PodReverse.
#[export] Instance K8sZone_eq_dec : EqDecision K8sZone.
Proof. solve_decision. Defined.

(** A call of [replaceRRset]: without a record set, the one of the name and type is
    deleted. *)
Record Edit {N : G53Name} : Type := mkEdit {
  ed_zone : K8sZone;
  ed_name : Name;
  ed_typ : RRType;
  ed_rrset : option RRset;
}.
Arguments mkEdit {N}.

Section k8s.
Context {N : G53Name} {M : G53Msg N} {ZT : ZoneTree N}.

(** Functions of the DNS library: names joined ([nil] when the result is too long), an
    address and a text parsed, with the error the controller drops (the data then is what
    the library returns with an error). *)
Record G53Text : Type := mkG53Text {
  Name_Concat : Name → Name → option Name;
  AFromString : string → Rdata * option string;
  TxtFromString : string → Rdata;
}.
Context (G : G53Text).

(** The zones, with the store of their record sets. *)
Record K8sAuth : Type := mkK8sAuth {
  ka_rrs : gmap nat RRset;
  ka_service : DynamicZone;
  ka_serviceReverse : DynamicZone;
  ka_podReverse : DynamicZone;
}.

Definition ka_zone (w : K8sZone) (a : K8sAuth) : DynamicZone :=
  match w with
  | ServiceZone => ka_service a
  | ServiceReverse => ka_serviceReverse a
  | PodReverse => ka_podReverse a
  end.
Definition ka_set (w : K8sZone) (h : gmap nat RRset) (dz : DynamicZone) (a : K8sAuth) : K8sAuth :=
  match w with
  | ServiceZone => mkK8sAuth h dz (ka_serviceReverse a) (ka_podReverse a)
  | ServiceReverse => mkK8sAuth h (ka_service a) dz (ka_podReverse a)
  | PodReverse => mkK8sAuth h (ka_service a) (ka_serviceReverse a) dz
  end.

(** [up.Add(tx, rrset)] with its error dropped. *)
Definition up_Add (rrset : RRset) (h : gmap nat RRset) (tx : MemoryZone)
  : outcome (gmap nat RRset * MemoryZone) :=
  let '(l, h) := alloc_rr rrset h in
  r ← addRRset l h tx;
  let '(h, tx, _) := r in Ret (h, tx).

(** [replaceRRset] on one zone.  All errors are dropped, that of the commit too. *)
Definition replaceRRset (name : Name) (typ : RRType) (rrset : option RRset) (h : gmap nat RRset)
  (dz : DynamicZone) : outcome (gmap nat RRset * DynamicZone) :=
  let tx := Begin dz in
  r ← (match rrset with
       | Some rrset =>
           r ← deleteRRset rrset h tx;
           up_Add rrset h r.1
       | None =>
           r ← deleteRRset (mkRRset name typ 0 0 []) h tx;
           Ret (h, r.1)
       end);
  let '(h, tx) := r in
  Ret (h, (Commit tx dz).1).

Definition run_edit (e : Edit) (a : K8sAuth) : outcome K8sAuth :=
  r ← replaceRRset (ed_name e) (ed_typ e) (ed_rrset e) (ka_rrs a) (ka_zone (ed_zone e) a);
  let '(h, dz) := r in Ret (ka_set (ed_zone e) h dz a).

Fixpoint run_edits (es : list Edit) (a : K8sAuth) : outcome K8sAuth :=
  match es with
  | [] => Ret a
  | e :: es => a ← run_edit e a; run_edits es a
  end.

(** [createZone]: the DNS server of the cluster is the name server of each zone. *)
Definition createZone (origin dnsServer : string) (h : gmap nat RRset)
  : outcome (gmap nat RRset * (string + DynamicZone)) :=
  match Name_FromString origin with
  | inl err => Ret (h, inl err)
  | inr n =>
      nsName ← name_unsafe ("ns.dns." +:+ origin);
      _ ← name_unsafe ("hostmaster." +:+ origin);
      let soa := mkRRset n RR_SOA CLASS_IN defaultTTL [RdSOA (mkSOA nsName 1981616 30)] in
      let ns := mkRRset n RR_NS CLASS_IN defaultTTL [RdNS nsName] in
      match AFromString G dnsServer with
      | (_, Some err) => Ret (h, inl err)
      | (aRdata, None) =>
          let glue := mkRRset nsName RR_A CLASS_IN defaultTTL [aRdata] in
          let z := NewDynamicZone n in
          r ← up_Add soa h (Begin z); let '(h, tx) := r in
          r ← up_Add ns h tx; let '(h, tx) := r in
          r ← up_Add glue h tx; let '(h, tx) := r in
          Ret (h, inr (Commit tx z).1)
      end
  end.

Definition origin_of (dz : DynamicZone) : Name := mz_origin (dz_zone dz).

(** A name inside a zone; joining it fails only when it is too long, and the nil name is
    then dereferenced by the zone. *)
Definition name_in (s : string) (origin : Name) : outcome Name :=
  n ← name_unsafe s;
  from_option_panic "nil pointer dereference: name" (Name_Concat G n origin).

(** [NewAuth] *)
Definition NewAuth (clusterDomain dnsServer serviceRange cidr : string)
  : outcome (string + K8sAuth) :=
  r ← createZone clusterDomain dnsServer ∅;
  match r with
  | (_, inl err) => Ret (inl err)
  | (h, inr z) =>
      n ← name_in versionQuery (origin_of z);
      r ← replaceRRset n RR_TXT (Some (mkRRset n RR_TXT CLASS_IN defaultTTL [TxtFromString G dnsSchemaVersion])) h z;
      let '(h, z) := r in
      serviceReverseName ← reverseZoneNameForNetwork serviceRange;
      match serviceReverseName with
      | inl err => Ret (inl err)
      | inr serviceReverseName =>
          r ← createZone serviceReverseName dnsServer h;
          match r with
          | (_, inl err) => Ret (inl err)
          | (h, inr sr) =>
              podNetworkReverseName ← reverseZoneNameForNetwork cidr;
              match podNetworkReverseName with
              | inl err => Ret (inl err)
              | inr podNetworkReverseName =>
                  r ← createZone podNetworkReverseName dnsServer h;
                  match r with
                  | (_, inl err) => Ret (inl err)
                  | (h, inr pr) => Ret (inr (mkK8sAuth h z sr pr))
                  end
              end
          end
      end
  end.

(** ** auth.go: the names of services and pods; [origin] is that of the service zone *)

Definition getServiceDomain (origin : Name) (svc : Service) : outcome Name :=
  name_in (strings_Join [sc_Name svc; sc_Namespace svc; "svc"] ".") origin.

Definition getEndpointsAddrDomain (origin : Name) (addr : EndpointAddress) (svc namespace : string)
  : outcome Name :=
  let podName := if bool_decide (ea_Hostname addr = "") then replace_char "." "-" 3 (ea_IP addr)
                 else ea_Hostname addr in
  name_in (strings_Join [podName; svc; namespace; "svc"] ".") origin.

Definition getPortName (origin : Name) (port protocol svc namespace : string) : outcome Name :=
  name_in (strings_Join ["_" +:+ port; "_" +:+ protocol; svc; namespace; "svc"] ".") origin.

(** [None] is [errInvalidClusterIP]. *)
Definition getReverseName (ip : string) : outcome (option Name) :=
  match strings_Split ip "." with
  | [a; b; c; d] => Some <$> name_unsafe (strings_Join [d; c; b; a; reverseBaseZone] ".")
  | _ => Ret None
  end.

(** ** controller.go *)

Section controller.
Context (origin : Name).

Definition put (w : K8sZone) (rrset : RRset) : Edit := mkEdit w (rr_name rrset) (rr_type rrset) (Some rrset).
Definition del (w : K8sZone) (name : Name) (typ : RRType) : Edit := mkEdit w name typ None.

(** The pointer back to a name, in a reverse zone. *)
Definition put_reverse (w : K8sZone) (ip : string) (n : Name) : outcome (list Edit) :=
  rn ← getReverseName ip;
  Ret (match rn with
       | Some rn => [put w (mkRRset rn RR_PTR CLASS_IN defaultTTL [RdPTR n])]
       | None => []
       end).
Definition del_reverse (w : K8sZone) (ip : string) : outcome (list Edit) :=
  rn ← getReverseName ip;
  Ret (match rn with Some rn => [del w rn RR_PTR] | None => [] end).

(** Runs over a list and joins the replacements. *)
Fixpoint for_each {A} (f : A → outcome (list Edit)) (xs : list A) : outcome (list Edit) :=
  match xs with
  | [] => Ret []
  | x :: xs => es ← f x; es' ← for_each f xs; Ret (es ++ es')
  end.

(** Pods of one subset with one name share a record set. *)
Fixpoint add_pod (n : Name) (ip : string) (pods : list (Name * list string)) : list (Name * list string) :=
  match pods with
  | [] => [(n, [ip])]
  | (n', ips) :: pods =>
      if Name_Equals n' n then (n', ips ++ [ip]) :: pods else (n', ips) :: add_pod n ip pods
  end.

Fixpoint group_pods (o : Endpoints) (addrs : list EndpointAddress) (pods : list (Name * list string))
  : outcome (list (Name * list string)) :=
  match addrs with
  | [] => Ret pods
  | addr :: addrs =>
      n ← getEndpointsAddrDomain origin addr (en_Name o) (en_Namespace o);
      group_pods o addrs (add_pod n (ea_IP addr) pods)
  end.

Definition pod_edits (pod : Name * list string) : outcome (list Edit) :=
  let '(n, ips) := pod in
  reverse ← for_each (λ ip, put_reverse PodReverse ip n) ips;
  Ret (reverse ++ [put ServiceZone
         (mkRRset n RR_A CLASS_IN defaultTTL ((λ ip, (AFromString G ip).1) <$> ips))]).

Definition srv_edits (svc : Service) (o : Endpoints) (podNames : list Name) (port : EndpointPort)
  : outcome (list Edit) :=
  if bool_decide (ep_Name port = "") then Ret []
  else
    n ← getPortName origin (ep_Name port) (ep_Protocol port) (en_Name o) (en_Namespace o);
    targets ← (if isHeaderlessService svc then Ret podNames
               else domain ← getServiceDomain origin svc; Ret [domain]);
    Ret [put ServiceZone (mkRRset n RR_SRV CLASS_IN defaultTTL
           ((λ target, RdSRV defaultPriority defaultWeight (u16 (ep_Port port)) target) <$> targets))].

Definition subset_edits (svc : Service) (o : Endpoints) (subset : EndpointSubset) : outcome (list Edit) :=
  pods ← group_pods o (es_Addresses subset) [];
  es ← for_each pod_edits pods;
  es' ← for_each (srv_edits svc o pods.*1) (es_Ports subset);
  Ret (es ++ es').

Definition addPodRecord (svc : Service) (o : Endpoints) : outcome (list Edit) :=
  for_each (subset_edits svc o) (en_Subsets o).

Definition deletePodRecord (o : Endpoints) : outcome (list Edit) :=
  for_each (λ subset,
    es ← for_each (λ addr,
           n ← getEndpointsAddrDomain origin addr (en_Name o) (en_Namespace o);
           es ← del_reverse PodReverse (ea_IP addr);
           Ret (del ServiceZone n RR_A :: es)) (es_Addresses subset);
    es' ← for_each (λ port,
            if bool_decide (ep_Name port = "") then Ret []
            else
              n ← getPortName origin (ep_Name port) (ep_Protocol port) (en_Name o) (en_Namespace o);
              Ret [del ServiceZone n RR_SRV]) (es_Ports subset);
    Ret (es ++ es')) (en_Subsets o).

Definition headless_addrs (ep : Endpoints) : list string :=
  base.filter (λ ip, ip ≠ "") (mjoin ((λ subset, ea_IP <$> es_Addresses subset) <$> en_Subsets ep)).

Definition addHeadlessServiceRecord (svc : Service) (ep : Endpoints) : outcome (list Edit) :=
  match headless_addrs ep with
  | [] => Ret []
  | ips =>
      n ← getServiceDomain origin svc;
      Ret [put ServiceZone (mkRRset n RR_A CLASS_IN defaultTTL ((λ ip, (AFromString G ip).1) <$> ips))]
  end.

Definition addExternalServiceRecord (svc : Service) : outcome (list Edit) :=
  n ← getServiceDomain origin svc;
  match Name_FromString (sc_ExternalName svc) with
  | inl _ => Ret []
  | inr en => Ret [put ServiceZone (mkRRset n RR_CNAME CLASS_IN defaultTTL [RdCName en])]
  end.

Definition addServiceRecord (svc : Service) : outcome (list Edit) :=
  n ← getServiceDomain origin svc;
  reverse ← put_reverse ServiceReverse (sc_ClusterIP svc) n;
  Ret (put ServiceZone (mkRRset n RR_A CLASS_IN defaultTTL [(AFromString G (sc_ClusterIP svc)).1]) :: reverse).

Definition deleteServiceRecord (svc : Service) : outcome (list Edit) :=
  n ← getServiceDomain origin svc;
  reverse ← del_reverse ServiceReverse (sc_ClusterIP svc);
  Ret (del ServiceZone n RR_A :: reverse).

Definition deleteExternalServiceRecord (svc : Service) : outcome (list Edit) :=
  n ← getServiceDomain origin svc; Ret [del ServiceZone n RR_CNAME].
Definition deleteHeadlessServiceRecord (svc : Service) : outcome (list Edit) :=
  n ← getServiceDomain origin svc; Ret [del ServiceZone n RR_A].

Definition handleServiceCreate (svc : Service) : outcome (list Edit) :=
  if isNormalService svc then addServiceRecord svc
  else if isExternalService svc then addExternalServiceRecord svc
  else Ret [].

Definition handleServiceDelete (svc : Service) : outcome (list Edit) :=
  if isNormalService svc then deleteServiceRecord svc
  else if isHeaderlessService svc then deleteHeadlessServiceRecord svc
  else if isExternalService svc then deleteExternalServiceRecord svc
  else Ret [].

Definition handleServiceUpdate (old new : Service) : outcome (list Edit) :=
  if isNormalService old then
    if bool_decide (sc_ClusterIP old ≠ sc_ClusterIP new) then
      es ← deleteServiceRecord old; es' ← addServiceRecord new; Ret (es ++ es')
    else Ret []
  else if isExternalService new then
    if bool_decide (sc_ExternalName old ≠ sc_ExternalName new) then addServiceRecord new else Ret []
  else Ret [].

(** [getService] looks a service up in the controller's copy of the cluster. *)
Context (getService : string → string → option Service).

Definition handleEndPointCreate (o : Endpoints) : outcome (list Edit) :=
  match getService (en_Name o) (en_Namespace o) with
  | None => Ret []
  | Some svc =>
      es ← addPodRecord svc o;
      es' ← (if isHeaderlessService svc then addHeadlessServiceRecord svc o else Ret []);
      Ret (es ++ es')
  end.

Definition handleEndPointUpdate (svc : Service) (old new : Endpoints) : outcome (list Edit) :=
  if isSubsetsEqual old new then Ret []
  else
    es ← (if isHeaderlessService svc then addHeadlessServiceRecord svc new else Ret []);
    es' ← deletePodRecord old;
    es'' ← addPodRecord svc new;
    Ret (es ++ es' ++ es'').

Definition handleEndPointDelete (o : Endpoints) : outcome (list Edit) := deletePodRecord o.

(** ** Events *)

Inductive K8sEvent : Type :=
  | CreateEndpoints (o : Endpoints)
  | CreateService (svc : Service)
  | UpdateEndpoints (old new : Endpoints)
  | UpdateService (old new : Service)
  | DeleteEndpoints (o : Endpoints)
  | DeleteService (svc : Service)
  | OtherEvent.

Definition on_event (e : K8sEvent) : outcome (list Edit) :=
  match e with
  | CreateEndpoints o => handleEndPointCreate o
  | CreateService svc => handleServiceCreate svc
  | UpdateEndpoints old new =>
      if negb (length (en_Subsets old) =? 0)%nat || negb (length (en_Subsets new) =? 0)%nat then
        match getService (en_Name old) (en_Namespace old) with
        | Some svc => handleEndPointUpdate svc old new
        | None => Ret []
        end
      else Ret []
  | UpdateService old new => handleServiceUpdate old new
  | DeleteEndpoints o => handleEndPointDelete o
  | DeleteService svc => handleServiceDelete svc
  | OtherEvent => Ret []
  end.
End controller.

(** The controller's reaction to an event. *)
Definition K8s_handle (getService : string → string → option Service) (e : K8sEvent) (a : K8sAuth)
  : outcome K8sAuth :=
  es ← on_event (origin_of (ka_service a)) getService e;
  run_edits es a.

(** ** auth.go and k8s.go: queries *)

(** The zone of a name, the first of the three that holds it. *)
Definition zone_for (name : Name) (a : K8sAuth) : option K8sZone :=
  head (base.filter (λ w, Name_IsSubDomain name (origin_of (ka_zone w a)) = true)
    [ServiceZone; ServiceReverse; PodReverse]).

Section handler.
Context {W : Type}.

(** The state of the process is the message heap, the cluster's zones and the rest. *)
Definition K8s_resolve (s : Heap * (K8sAuth * W)) (client : Client)
  : outcome (option (nat * (Heap * (K8sAuth * W)) * Client)) :=
  let '(heap, (a, w)) := s in
  question ← deref_question (c_request client);
  match zone_for (q_name question) a with
  | None => Ret None
  | Some z =>
      r ← Query_Process ClosestEncloser (c_request client) (ka_zone z a) (ka_rrs a);
      let '(rrs, response) := r in
      let '(l, heap) := heap_alloc response heap in
      Ret (Some (l, (heap, (ka_set z rrs (ka_zone z a) a, w)),
                 set_cache_answer false (set_response (Some l) client)))
  end.

Definition isCNameResponse (msg : Message) : outcome bool :=
  if negb (h_ancount (m_header msg) =? 1) then Ret false
  else rrset ← index (m_answer msg) 0; Ret (rr_type rrset =? RR_CNAME).

Definition K8s_mergeResponse (first redirect : nat) (h : Heap) : outcome Heap :=
  redirectResp ← deref redirect h;
  firstResp ← deref first h;
  let firstResp := foldl (λ acc r, AddRRset AnswerSection r acc) firstResp (m_answer redirectResp) in
  Ret (<[first := set_header (Header_set_rcode (h_rcode (m_header redirectResp)) (m_header firstResp)) firstResp]> h).

Definition K8s_redirectQuery (next : option (Handler (Heap * (K8sAuth * W)))) (originResp : nat)
  : Handler (Heap * (K8sAuth * W)) := λ s client,
  msg ← deref originResp s.1;
  question ← deref_question (c_request client);
  rrset ← index (m_answer msg) 0;
  rd ← index (rr_rdatas rrset) 0;
  target ← (match rd with RdCName n => Ret n | _ => Panic "interface conversion: not *g53.CName" end);
  let q := mkQuestion target (q_type question) (q_class question) in
  r ← PassToNext next s (set_request (set_question (Some q) (c_request client)) (set_response None client));
  let '((heap, rest), client) := r in
  match c_response client with
  | None => Ret ((heap, rest), client)
  | Some l =>
      heap ← K8s_mergeResponse originResp l heap;
      q' ← deref_question (c_request client);
      let client := set_request (set_question (Some (mkQuestion (q_name question) (q_type q') (q_class q')))
                                   (c_request client)) (set_response (Some originResp) client) in
      Ret ((heap, rest), client)
  end.

Definition K8s_HandleQuery (next : option (Handler (Heap * (K8sAuth * W)))) : Handler (Heap * (K8sAuth * W)) :=
  λ s client,
  r ← K8s_resolve s client;
  match r with
  | None => PassToNext next s client
  | Some (l, s, client) =>
      msg ← deref l s.1;
      alias ← isCNameResponse msg;
      if alias : bool then K8s_redirectQuery next l s client else Ret (s, client)
  end.
End handler.
End k8s.
