(* ===== verification/K8sSpec.v ===== *)
(** * The zones of a cluster follow its services and endpoints

    A replacement made by the controller changes exactly one record set; what a sequence
    of them leaves under a name and type is what the last of them put there.  From that
    follows what an event leaves in the zones. *)

From S2P Require Import Prelude GoStd G53 Instances Core Cement Acl Dns64 Zone ZoneInv ZoneSpec Auth AuthSpec K8s.

Local Open Scope Z_scope.

Section zone_entries.
Context {N : G53Name} {L : G53NameLaws N} {M : G53Msg N} {ML : G53MsgLaws M}.
Context {ZT : ZoneTree N} {ZL : ZoneTreeLaws ZT}.
Implicit Types (h : gmap nat RRset) (z : MemoryZone) (r : RRset).

(** The record sets of a name. *)
Definition entries (n : Name) z : gmap Z (option nat) := default ∅ (node_data n (mz_domains z)).

Lemma node_data_entries n z d : node_data n (mz_domains z) = Some d → entries n z = d.
Proof. unfold entries. by intros ->. Qed.

(** Types other than those a zone needs at its origin. *)
Definition plain (typ : RRType) : Prop := typ ≠ RR_SOA ∧ typ ≠ RR_NS.

(** No zone cut is searched through. *)
Definition no_cuts (t : ztree (gmap Z (option nat))) : Prop :=
  ∀ n x, zt_node n t = Some x → zn_callback x = false.

(** A zone of the cluster: well formed, with real and non-empty entries, those of the
    origin, and no delegation. *)
Record cluster_zone h z : Prop := {
  cz_wf : zone_wf h z;
  cz_lost : mz_origin_lost z = false;
  cz_apex t : t = RR_SOA ∨ t = RR_NS → is_Some (entries (mz_origin z) z !! t);
  cz_cuts : no_cuts (mz_domains z);
  cz_full n d t e : node_data n (mz_domains z) = Some d → d !! t = Some e → is_Some e;
  cz_data n d : node_data n (mz_domains z) = Some d → d ≠ ∅;
}.

Lemma cluster_validate h z : cluster_zone h z → validate z = None.
Proof.
  intros Hz. unfold validate, origin_data. rewrite (cz_lost _ _ Hz).
  destruct (cz_apex _ _ Hz RR_SOA) as [s Hs]; [auto|]. destruct (cz_apex _ _ Hz RR_NS) as [ns Hns]; [auto|].
  unfold entries in Hs, Hns. destruct (node_data _ _) as [d|]; cbn in Hs, Hns; [|done]. by rewrite Hs, Hns.
Qed.

(** The data of a node after one of its entries changed: a node without entries has no
    data. *)
Definition upd_node (typ : RRType) (e : option (option nat)) (d : option (gmap Z (option nat)))
  : option (gmap Z (option nat)) :=
  let d' := partial_alter (λ _, e) typ (default ∅ d) in
  if decide (d' = ∅) then None else Some d'.

Lemma upd_node_entries typ e d : default ∅ (upd_node typ e d) = partial_alter (λ _, e) typ (default ∅ d).
Proof. unfold upd_node. by case_decide as E; [rewrite E|]. Qed.

Lemma upd_node_Some typ e d d' :
  upd_node typ e d = Some d' → d' = partial_alter (λ _, e) typ (default ∅ d) ∧ d' ≠ ∅.
Proof. unfold upd_node. case_decide; [done|]. by intros [= <-]. Qed.

(** A zone in which the entry of one name and type was changed. *)
Definition changed (name : Name) (typ : RRType) (e : option (option nat)) z z' : Prop :=
  mz_origin z' = mz_origin z ∧ mz_origin_lost z' = false ∧ no_cuts (mz_domains z') ∧
  ∀ n, node_data n (mz_domains z') =
       if Name_Equals name n then upd_node typ e (node_data n (mz_domains z)) else node_data n (mz_domains z).

(** Whether a record set may stand beside the others of its name. *)
Definition fits_beside (typ : RRType) (d : gmap Z (option nat)) : Prop :=
  if decide (typ = RR_CNAME) then d = ∅ else d !! RR_CNAME = None.

Lemma entries_changed name typ e z z' n :
  changed name typ e z z' →
  entries n z' = if Name_Equals name n then partial_alter (λ _, e) typ (entries n z) else entries n z.
Proof.
  intros (_ & _ & _ & Hn). unfold entries. rewrite Hn. destruct (Name_Equals name n); [|done].
  apply upd_node_entries.
Qed.

(** The record set that a change puts in has the name and type of its place. *)
Definition entry_new h (name : Name) (typ : RRType) z (e : option (option nat)) : Prop :=
  match e with
  | None => True
  | Some e => ∃ l r, e = Some l ∧ h !! l = Some r ∧ rr_type r = typ ∧ rr_name r ≈ name ∧
                Name_IsSubDomain name (mz_origin z) = true ∧ fits_beside typ (delete typ (entries name z))
  end.

(** A changed node of a cluster's zone is well formed. *)
Lemma upd_node_ok h name typ e z n d' :
  cluster_zone h z → Name_Equals name n = true → entry_new h name typ z e →
  upd_node typ e (node_data n (mz_domains z)) = Some d' →
  node_ok h (mz_origin z) n d' ∧ ∀ t x, d' !! t = Some x → is_Some x.
Proof.
  intros Hz Enm He [Hd' Hne]%upd_node_Some. set (D := default ∅ (node_data n (mz_domains z))) in *.
  assert (entries name z = D) as HD by (unfold D, entries; by rewrite (node_data_proper name n)).
  assert (∀ t x, D !! t = Some x → entry_ok h (mz_origin z) n t x ∧ is_Some x ∧
            Name_IsSubDomain n (mz_origin z) = true) as Hold.
  { intros t x Ex. unfold D in Ex. destruct (node_data n (mz_domains z)) as [d|] eqn:Ed; [|done].
    pose proof (tk_node _ _ _ (cz_wf _ _ Hz) n d Ed) as Hok. cbn in Ex.
    split_and!; [by apply Hok|exact (cz_full _ _ Hz _ _ _ _ Ed Ex)|apply Hok]. }
  assert (∀ t x, d' !! t = Some x → entry_ok h (mz_origin z) n t x ∧ is_Some x ∧
            Name_IsSubDomain n (mz_origin z) = true) as Hall.
  { intros t x. rewrite Hd'. destruct (decide (t = typ)) as [->|]; [|rewrite lookup_partial_alter_ne by done; eauto].
    rewrite lookup_partial_alter_eq. intros ->. destruct He as (l & r & -> & Er & Ht & Hr & Hs & _).
    split_and!; [exists r; split_and!; [done..|by rewrite Hr]|done|].
    by rewrite <- (IsSubDomain_Equals name n _ _ Enm (Equals_refl (mz_origin z))). }
  split; [split|].
  - destruct (map_choose d' Hne) as (t & x & E). by apply (Hall t x E).
  - intros t Hc Ht. destruct (decide (t = RR_CNAME)) as [|Htn]; [done|exfalso]. rewrite Hd' in Hc, Ht.
    assert (is_Some (D !! RR_CNAME) → is_Some (D !! t) → False) as Hcn.
    { unfold D. destruct (node_data n (mz_domains z)) as [d|] eqn:Ed; [|by intros []].
      intros H1 H2. by apply Htn, (nk_cname _ _ _ _ (tk_node _ _ _ (cz_wf _ _ Hz) n d Ed)). }
    destruct e as [e|].
    + destruct He as (l & r & -> & _ & _ & _ & _ & Hfit). rewrite HD in Hfit. unfold fits_beside in Hfit.
      destruct (decide (typ = RR_CNAME)) as [->|Hty].
      * rewrite lookup_partial_alter_ne in Ht by done. rewrite <- (lookup_delete_ne D RR_CNAME t), Hfit in Ht by done.
        by destruct Ht.
      * rewrite lookup_partial_alter_ne in Hc by done. rewrite lookup_delete_ne in Hfit by done. rewrite Hfit in Hc.
        by destruct Hc.
    + apply Hcn; [destruct (decide (typ = RR_CNAME)) as [->|]|destruct (decide (typ = t)) as [->|]];
        try (by rewrite lookup_partial_alter_ne in Hc by done); try (by rewrite lookup_partial_alter_ne in Ht by done).
      * rewrite lookup_partial_alter_eq in Hc. by destruct Hc.
      * rewrite lookup_partial_alter_eq in Ht. by destruct Ht.
  - intros t x E. by apply (Hall t x E).
  - intros t x E. by apply (Hall t x E).
Qed.

Lemma cluster_sub h h' z : h ⊆ h' → cluster_zone h z → cluster_zone h' z.
Proof.
  intros Hsub [Hw ? ? ? ? ?]. split; [|done..]. destruct Hw as [Hn Ha]. split; [|done].
  intros n d E. destruct (Hn n d E) as [H1 H2 H3]. split; [done..|].
  intros t x Ex. specialize (H3 t x Ex). destruct x as [l|]; [|done].
  destruct H3 as (r & Er & ?). exists r. split; [by eapply lookup_weaken|done].
Qed.

Lemma cluster_changed h h' name typ e z z' :
  cluster_zone h z → plain typ → h ⊆ h' → changed name typ e z z' → entry_new h' name typ z e →
  cluster_zone h' z'.
Proof.
  intros Hz [Hp1 Hp2] Hsub Hch He. pose proof Hch as (Ho & Hl & Hc & Hn).
  apply (cluster_sub h h') in Hz; [|done].
  split.
  - unfold zone_wf. rewrite Ho. split.
    + intros n d. rewrite Hn. destruct (Name_Equals name n) eqn:E; [|apply Hz].
      intros Hu. by eapply upd_node_ok.
    + intros x Ex. by eapply Hc.
  - done.
  - intros t Ht. rewrite Ho, (entries_changed _ _ _ _ _ _ Hch).
    destruct (Name_Equals name (mz_origin z)); [|by eapply cz_apex].
    rewrite lookup_partial_alter_ne by naive_solver. by eapply cz_apex.
  - done.
  - intros n d t x. rewrite Hn. destruct (Name_Equals name n) eqn:E; [|eauto using cz_full].
    intros Hu. by eapply upd_node_ok.
  - intros n d. rewrite Hn. destruct (Name_Equals name n) eqn:E; [|eauto using cz_data].
    by intros [_ ?]%upd_node_Some.
Qed.

(** ** The tree after the operations of the zone *)

Lemma no_cuts_Insert n t : no_cuts t → no_cuts (zt_Insert n t).
Proof.
  intros Hc m x E. destruct (zt_node m t) as [y|] eqn:Ey.
  - rewrite (zt_Insert_old _ _ _ _ Ey) in E. simplify_eq. by eapply Hc.
  - by rewrite (zt_Insert_new _ _ _ _ Ey E).
Qed.

Lemma no_cuts_alter f n t : (∀ x, zn_callback (f x) = zn_callback x) → no_cuts t → no_cuts (zt_alter f n t).
Proof.
  intros Hf Hc m x. rewrite zt_alter_node. destruct (Name_Equals n m); [|apply Hc].
  intros (y & Ey & ->)%fmap_Some. rewrite Hf. by eapply Hc.
Qed.

Lemma no_cuts_Remove n t : no_cuts t → no_cuts (zt_Remove n t).
Proof.
  intros Hc m x E. destruct (Name_Equals n m) eqn:Enm.
  - rewrite <- (zt_node_Equals _ n m Enm) in E. apply zt_Remove_self in E as (_ & y & Ey & Hxy).
    destruct (zn_callback x); [|done]. rewrite <- (Hc n y Ey). symmetry. auto.
  - apply zt_Remove_other in E; [|done]. by eapply Hc.
Qed.

Lemma node_data_set_eq d n m t :
  is_Some (zt_node n t) →
  node_data m (zt_alter (set_data d) n t) = if Name_Equals n m then Some d else node_data m t.
Proof.
  intros [x E]. unfold node_data. rewrite zt_alter_node. destruct (Name_Equals n m) eqn:Enm; [|done].
  by rewrite <- (zt_node_Equals t n m Enm), E.
Qed.

Lemma node_data_Remove_eq n m t :
  node_data m (zt_Remove n t) = if Name_Equals n m then None else node_data m t.
Proof.
  unfold node_data. destruct (Name_Equals n m) eqn:Enm.
  - rewrite <- (zt_node_Equals _ n m Enm). destruct (zt_node n (zt_Remove n t)) as [x|] eqn:E; [|done].
    by apply zt_Remove_self in E as [? _].
  - destruct (zt_node m t) as [x|] eqn:E.
    + destruct (zn_data x) as [d|] eqn:Ed; cbn; rewrite ?Ed.
      * by rewrite (zt_Remove_keep _ _ _ _ E Enm) by (by rewrite Ed).
      * destruct (zt_node m (zt_Remove n t)) as [y|] eqn:Ey; [|done].
        apply zt_Remove_other in Ey; [|done]. by simplify_eq.
    + destruct (zt_node m (zt_Remove n t)) as [y|] eqn:Ey; [|done].
      apply zt_Remove_other in Ey; [|done]. by simplify_eq.
Qed.

Lemma no_change h name typ z z' :
  cluster_zone h z → entries name z !! typ = None → mz_origin z' = mz_origin z → mz_origin_lost z' = false →
  no_cuts (mz_domains z') → (∀ n, node_data n (mz_domains z') = node_data n (mz_domains z)) →
  changed name typ None z z'.
Proof.
  intros Hz He Ho Hl Hc Hn. split_and!; [done..|]. intros n. rewrite Hn.
  destruct (Name_Equals name n) eqn:Enm; [|done]. unfold entries in He.
  rewrite (node_data_proper name n _ Enm) in He. unfold upd_node.
  change (partial_alter (λ _, None) typ (default ∅ (node_data n (mz_domains z))))
    with (delete typ (default ∅ (node_data n (mz_domains z)))).
  rewrite delete_id by done. destruct (node_data n (mz_domains z)) as [d|] eqn:Ed; cbn.
  - rewrite decide_False; [done|]. by apply (cz_data _ _ Hz n).
  - by rewrite decide_True.
Qed.

Lemma wildcard_total n (t : ztree (gmap Z (option nat))) :
  Name_IsWildCard n = true →
  ∃ t1 t2, markWildcardParent n t = Ret t1 ∧ unmarkWildcardParent n t = Ret t2 ∧
    (no_cuts t → no_cuts t1 ∧ no_cuts t2) ∧
    ∀ m, node_data m t1 = node_data m t ∧ node_data m t2 = node_data m t.
Proof.
  intros [p Hp]%Name_wildcard_Parent. unfold markWildcardParent, unmarkWildcardParent. rewrite Hp. cbn.
  eexists _, _. split_and!; [done..| |].
  - intros Hc. split; apply no_cuts_alter; try done. by apply no_cuts_Insert.
  - intros m. rewrite !node_data_alter by done. by rewrite node_data_Insert.
Qed.

Lemma delete_type_changed h name typ d z :
  cluster_zone h z → plain typ → node_data name (mz_domains z) = Some d →
  ∃ z', delete_type name typ d z = Ret z' ∧ changed name typ None z z'.
Proof.
  intros Hz [Hp1 Hp2] Ed. unfold delete_type.
  set (t1 := zt_alter (set_data (delete typ d)) name (mz_domains z)).
  assert (is_Some (zt_node name (mz_domains z))) as Hsome.
  { unfold node_data in Ed. by destruct (zt_node _ _). }
  assert (∀ n, node_data n t1 = if Name_Equals name n then Some (delete typ d) else node_data n (mz_domains z)) as Ht1
    by (intros n; by apply node_data_set_eq).
  assert (no_cuts t1) as Hc1 by (apply no_cuts_alter; [done|apply (cz_cuts _ _ Hz)]).
  assert (∀ n, Name_Equals name n = true → upd_node typ None (node_data n (mz_domains z)) =
            if decide (delete typ d = ∅) then None else Some (delete typ d)) as Hupd.
  { intros n Enm. rewrite <- (node_data_proper name n _ Enm), Ed. done. }
  case_bool_decide as Hemp.
  - assert (Name_Equals name (mz_origin z) = false) as Hno.
    { destruct (Name_Equals name (mz_origin z)) eqn:E; [|done]. exfalso.
      destruct (cz_apex _ _ Hz RR_SOA) as [x Hx]; [auto|]. unfold entries in Hx.
      rewrite <- (node_data_proper name _ _ E), Ed in Hx. cbn in Hx.
      assert (delete typ d !! RR_SOA = Some x) as Hx' by (by rewrite lookup_delete_ne).
      by rewrite Hemp in Hx'. }
    unfold deleteNode. cbn [mz_origin mz_origin_lost mz_domains set_domains]. fold t1.
    rewrite (cz_lost _ _ Hz), Hno. cbn [orb andb].
    assert (∀ t', (∀ n, node_data n t' = node_data n (zt_Remove name t1)) → no_cuts t' →
              changed name typ None z (mkMemoryZone (mz_origin z) false t')) as Hdone.
    { intros t' Hn Hc. split_and!; [done..|]. intros n. cbn. rewrite Hn, node_data_Remove_eq, Ht1.
      destruct (Name_Equals name n) eqn:Enm; [|done]. by rewrite Hupd, decide_True by done. }
    destruct (Name_IsWildCard name) eqn:Ew.
    + destruct (wildcard_total name (zt_Remove name t1) Ew) as (t0 & t2 & _ & -> & Hc2 & Hn2).
      rewrite bind_Ret. eexists. split; [done|]. apply Hdone; [intros; apply Hn2|].
      apply Hc2. by apply no_cuts_Remove.
    + rewrite bind_Ret. eexists. split; [done|]. apply Hdone; [done|by apply no_cuts_Remove].
  - eexists. split; [done|]. split_and!; [done|apply (cz_lost _ _ Hz)|done|].
    intros n. cbn. rewrite Ht1. destruct (Name_Equals name n) eqn:Enm; [|done].
    by rewrite Hupd, decide_False by done.
Qed.

(** A deletion removes at most the entry of its name and type. *)
Lemma deleteRRset_changed h z r :
  cluster_zone h z → plain (rr_type r) →
  ∃ z' err, deleteRRset r h z = Ret (z', err) ∧ changed (rr_name r) (rr_type r) None z z'.
Proof.
  intros Hz Hp. unfold deleteRRset.
  assert (entries (rr_name r) z !! rr_type r = None → changed (rr_name r) (rr_type r) None z z) as Hsame.
  { intros He. apply (no_change h); [done..|apply (cz_lost _ _ Hz)|apply (cz_cuts _ _ Hz)|done]. }
  unfold checkRRsetCouldBeDeleted. destruct Hp as [Hp1 Hp2].
  rewrite (proj2 (Z.eqb_neq _ _) Hp1), (proj2 (Z.eqb_neq _ _) Hp2).
  destruct (Name_IsSubDomain (rr_name r) (mz_origin z)) eqn:Es; cbn [negb].
  2:{ rewrite bind_Ret. eexists _, _. split; [done|]. apply Hsame. unfold entries.
      destruct (node_data (rr_name r) (mz_domains z)) as [d|] eqn:Ed; [|done].
      pose proof (nk_in_zone _ _ _ _ (tk_node _ _ _ (cz_wf _ _ Hz) _ d Ed)). congruence. }
  assert ((if Name_Equals (rr_name r) (mz_origin z) then Ret None else Ret None) = Ret (A := option string) None) as ->
    by (by destruct (Name_Equals _ _)).
  rewrite bind_Ret. unfold getNode. destruct (node_data (rr_name r) (mz_domains z)) as [d|] eqn:Ed.
  2:{ eexists _, _. split; [done|]. apply Hsame. unfold entries. by rewrite Ed. }
  destruct (d !! rr_type r) as [e|] eqn:Ee.
  2:{ eexists _, _. split; [done|]. apply Hsame. unfold entries. by rewrite Ed. }
  destruct (delete_type_changed h (rr_name r) (rr_type r) d z) as (z' & -> & Hch); [done..|].
  rewrite bind_Ret. by eexists _, _.
Qed.

(** What putting a record set where its type has none comes to. *)
Definition could_add r z : Prop :=
  Name_IsSubDomain (rr_name r) (mz_origin z) = true ∧ fits_beside (rr_type r) (entries (rr_name r) z).

Lemma flag_node_plain r z t :
  plain (rr_type r) → ∃ t', flag_node r z t = Ret t' ∧ (no_cuts t → no_cuts t') ∧ ∀ n, node_data n t' = node_data n t.
Proof.
  intros [_ Hp]. unfold flag_node. rewrite (proj2 (Z.eqb_neq _ _) Hp). cbn [andb].
  destruct (Name_IsWildCard (rr_name r)) eqn:Ew; [|by eexists].
  destruct (wildcard_total (rr_name r) t Ew) as (t1 & t2 & -> & _ & Hc & Hn).
  eexists. split; [done|]. split; [intros H; apply (Hc H)|intros n; apply Hn].
Qed.

Lemma checkAdded_absent d r :
  d !! rr_type r = None → d ≠ ∅ →
  checkRRsetCouldBeAdded d r = None ↔ fits_beside (rr_type r) d.
Proof.
  intros Ha Hne. unfold checkRRsetCouldBeAdded, fits_beside.
  destruct (Z.eqb_spec (rr_type r) RR_CNAME) as [E|E]; cbn [negb].
  - rewrite decide_True by done. rewrite <- E, Ha. case_bool_decide; naive_solver.
  - rewrite decide_False by done. by destruct (d !! RR_CNAME).
Qed.

Lemma up_Add_changed h z r :
  cluster_zone h z → plain (rr_type r) → entries (rr_name r) z !! rr_type r = None →
  ∃ h' z', up_Add r h z = Ret (h', z') ∧ h ⊆ h' ∧
    ((could_add r z ∧ ∃ l, h' !! l = Some r ∧ changed (rr_name r) (rr_type r) (Some (Some l)) z z') ∨
     (¬ could_add r z ∧ changed (rr_name r) (rr_type r) None z z')).
Proof.
  intros Hz Hp Ha. unfold up_Add. destruct (alloc_rr r h) as [l h1] eqn:El.
  pose proof (alloc_rr_sub _ _ _ _ El) as Hsub. assert (h1 !! l = Some r) as Hl.
  { unfold alloc_rr in El. injection El as <- <-. apply lookup_insert_eq. }
  unfold addRRset. rewrite (deref_rr_Some _ _ _ Hl), bind_Ret.
  unfold checkRRsetValid. rewrite (proj2 (Z.eqb_neq _ _) (proj2 Hp)). cbn [andb].
  destruct (Name_IsSubDomain (rr_name r) (mz_origin z)) eqn:Es; cbn [negb].
  2:{ rewrite bind_Ret. eexists _, _. split_and!; [done..|]. right. split; [intros [? _]; congruence|].
      apply (no_change h); [done..|apply (cz_lost _ _ Hz)|apply (cz_cuts _ _ Hz)|done]. }
  set (t := zt_Insert (rr_name r) (mz_domains z)).
  assert (∀ n, node_data n t = node_data n (mz_domains z)) as Ht by (intros n; apply node_data_Insert).
  assert (no_cuts t) as Hct by (apply no_cuts_Insert, (cz_cuts _ _ Hz)).
  assert (∀ d, <[rr_type r := Some l]> (entries (rr_name r) z) = d → could_add r z →
    ∃ h' z', (t' ← flag_node r z (zt_alter (set_data d) (rr_name r) t);
              Ret (h1, set_domains t' z, @None string)) = Ret (h', z', None) ∧ h ⊆ h' ∧
      ∃ l', h' !! l' = Some r ∧ changed (rr_name r) (rr_type r) (Some (Some l')) z z') as Hput.
  { intros d Hd _. destruct (flag_node_plain r z (zt_alter (set_data d) (rr_name r) t) Hp) as (t' & -> & Hc' & Hn').
    rewrite bind_Ret. eexists _, _. split_and!; [done..|]. exists l. split; [done|].
    split_and!; [done|apply (cz_lost _ _ Hz)|by apply Hc', no_cuts_alter|].
    intros n. cbn [mz_domains set_domains]. rewrite Hn', node_data_set_eq, Ht by apply zt_Insert_self.
    destruct (Name_Equals (rr_name r) n) eqn:Enm; [|done]. unfold upd_node.
    rewrite <- (node_data_proper (rr_name r) n _ Enm). fold (entries (rr_name r) z).
    change (partial_alter (λ _, Some (Some l)) (rr_type r) (entries (rr_name r) z))
      with (<[rr_type r := Some l]> (entries (rr_name r) z)).
    rewrite Hd, decide_False; [done|]. rewrite <- Hd. apply insert_non_empty. }
  rewrite Ht. destruct (node_data (rr_name r) (mz_domains z)) as [d|] eqn:Ed.
  - rewrite (node_data_entries _ _ _ Ed) in *. pose proof (cz_data _ _ Hz _ _ Ed) as Hne.
    unfold add_to_node. pose proof (checkAdded_absent d r Ha Hne) as Hchk.
    destruct (checkRRsetCouldBeAdded d r) as [err|].
    + rewrite !bind_Ret. eexists _, _. split_and!; [done..|]. right.
      split; [intros [_ Hf]; rewrite (node_data_entries _ _ _ Ed) in Hf; naive_solver|].
      apply (no_change h); [done|by rewrite (node_data_entries _ _ _ Ed)|done|apply (cz_lost _ _ Hz)|done|done].
    + rewrite (proj2 (Z.eqb_neq _ _) (proj1 Hp)), Ha, !bind_Ret.
      assert (could_add r z) as Hca by (split; [done|]; rewrite (node_data_entries _ _ _ Ed); naive_solver).
      destruct (Hput _ eq_refl Hca) as (h' & z' & -> & Hs' & Hl'). rewrite bind_Ret. eexists _, _. eauto.
  - rewrite !bind_Ret. assert (entries (rr_name r) z = ∅) as He by (unfold entries; by rewrite Ed).
    assert (could_add r z) as Hca by (split; [done|]; rewrite He; unfold fits_beside; by case_decide).
    destruct (Hput {[rr_type r := Some l]}) as (h' & z' & -> & Hs' & Hl'); [by rewrite He|done|].
    rewrite bind_Ret. eexists _, _. eauto 6.
Qed.

(** ** The records of a zone *)

Definition records h z (n : Name) (t : RRType) : option RRset := mjoin (entries n z !! t) ≫= (h !!.).

(** A record set may stand beside the others of its name: an alias alone, others without
    an alias. *)
Definition beside (v : Name → RRType → option RRset) r : Prop :=
  if decide (rr_type r = RR_CNAME) then ∀ t, t ≠ RR_CNAME → v (rr_name r) t = None
  else v (rr_name r) RR_CNAME = None.

Lemma records_None h z n t : cluster_zone h z → records h z n t = None ↔ entries n z !! t = None.
Proof.
  intros Hz. unfold records. destruct (entries n z !! t) as [e|] eqn:Ee; [|done]. split; [|done].
  unfold entries in Ee. destruct (node_data n (mz_domains z)) as [d|] eqn:Ed; [|done]. cbn in Ee.
  destruct (cz_full _ _ Hz _ _ _ _ Ed Ee) as [l ->].
  destruct (nk_entry _ _ _ _ (tk_node _ _ _ (cz_wf _ _ Hz) _ _ Ed) _ _ Ee) as (r & Er & _). cbn. by rewrite Er.
Qed.

Lemma records_proper h z n m t : n ≈ m → records h z n t = records h z m t.
Proof. intros E. unfold records, entries. by rewrite (node_data_proper n m _ E). Qed.

Lemma records_sub h h' z n t : cluster_zone h z → h ⊆ h' → records h' z n t = records h z n t.
Proof.
  intros Hz Hsub. destruct (records h z n t) as [r|] eqn:E.
  - unfold records in *. destruct (mjoin _) as [l|]; [|done]. cbn in *. by eapply lookup_weaken.
  - apply (records_None h z n t Hz) in E. unfold records. by rewrite E.
Qed.

Lemma fits_records h z r :
  cluster_zone h z → fits_beside (rr_type r) (delete (rr_type r) (entries (rr_name r) z)) ↔ beside (records h z) r.
Proof.
  intros Hz. unfold fits_beside, beside. destruct (decide (rr_type r = RR_CNAME)) as [->|E].
  - setoid_rewrite (records_None h z _ _ Hz). split.
    + intros He t Ht. rewrite <- (lookup_delete_ne _ RR_CNAME t), He by done. apply lookup_empty.
    + intros He. apply map_eq. intros t. rewrite lookup_empty. destruct (decide (t = RR_CNAME)) as [->|].
      * apply lookup_delete_eq.
      * rewrite lookup_delete_ne by done. auto.
  - rewrite lookup_delete_ne by done. by rewrite (records_None h z _ _ Hz).
Qed.

Lemma cluster_zone_Begin h dz :
  cluster_zone h (dz_zone dz) →
  cluster_zone h (Begin dz) ∧ ∀ n, node_data n (mz_domains (Begin dz)) = node_data n (mz_domains (dz_zone dz)).
Proof.
  intros [Hw Hl Ha Hc Hf Hd].
  assert (∀ n, node_data n (mz_domains (Begin dz)) = node_data n (mz_domains (dz_zone dz))) as Hn
    by (intros n; apply node_data_Insert).
  split; [|done]. split.
  - by apply tree_ok_Insert.
  - done.
  - intros t Ht. unfold entries. rewrite Hn. by apply Ha.
  - by apply no_cuts_Insert.
  - intros n d t e. rewrite Hn. apply Hf.
  - intros n d. rewrite Hn. apply Hd.
Qed.

Lemma Commit_cluster h dz z : cluster_zone h z → Commit z dz = (set_zone z dz, None).
Proof. intros Hz. unfold Commit. by rewrite (cluster_validate h z Hz). Qed.

(** The records of a zone with one changed entry. *)
Lemma records_changed h h' name typ e z z' n t :
  cluster_zone h z → h ⊆ h' → changed name typ e z z' →
  records h' z' n t =
    if Name_Equals name n && bool_decide (t = typ) then mjoin e ≫= (h' !!.) else records h z n t.
Proof.
  intros Hz Hsub Hch. rewrite <- (records_sub h h') by done. unfold records.
  rewrite (entries_changed _ _ _ _ _ n Hch). destruct (Name_Equals name n); [|done]. cbn [andb].
  case_bool_decide as E; [subst t; by rewrite lookup_partial_alter_eq|by rewrite lookup_partial_alter_ne].
Qed.

(** The zone after a call of [replaceRRset]. *)
Definition replaced h dz (name : Name) (typ : RRType) (res : option RRset) h' dz' : Prop :=
  h ⊆ h' ∧ cluster_zone h' (dz_zone dz') ∧ mz_origin (dz_zone dz') = mz_origin (dz_zone dz) ∧
  ∀ n t, records h' (dz_zone dz') n t =
    if Name_Equals name n && bool_decide (t = typ) then res else records h (dz_zone dz) n t.

Lemma replaceRRset_del h dz name typ :
  cluster_zone h (dz_zone dz) → plain typ →
  ∃ h' dz', replaceRRset name typ None h dz = Ret (h', dz') ∧ replaced h dz name typ None h' dz'.
Proof.
  intros Hz Hp. destruct (cluster_zone_Begin h dz Hz) as [Hb Hn]. unfold replaceRRset.
  destruct (deleteRRset_changed h (Begin dz) (mkRRset name typ 0 0 []) Hb Hp) as (z1 & err & -> & Hch).
  rewrite !bind_Ret. cbn [fst rr_name rr_type] in *.
  assert (cluster_zone h z1) as Hz1 by (by eapply cluster_changed; [exact Hb|..]).
  rewrite (Commit_cluster h dz z1 Hz1). eexists _, _. split; [done|]. split_and!; [done..|apply Hch|].
  intros n t. cbn [dz_zone set_zone fst]. rewrite (records_changed h h _ _ _ (Begin dz)) by done.
  destruct (_ && _); [done|]. unfold records, entries. by rewrite Hn.
Qed.

Lemma replaceRRset_put h dz r :
  cluster_zone h (dz_zone dz) → plain (rr_type r) →
  ∃ h' dz' res, replaceRRset (rr_name r) (rr_type r) (Some r) h dz = Ret (h', dz') ∧
    replaced h dz (rr_name r) (rr_type r) res h' dz' ∧
    (Name_IsSubDomain (rr_name r) (mz_origin (dz_zone dz)) = true ∧ beside (records h (dz_zone dz)) r → res = Some r) ∧
    (¬ (Name_IsSubDomain (rr_name r) (mz_origin (dz_zone dz)) = true ∧ beside (records h (dz_zone dz)) r) → res = None).
Proof.
  intros Hz Hp. destruct (cluster_zone_Begin h dz Hz) as [Hb Hn]. unfold replaceRRset.
  destruct (deleteRRset_changed h (Begin dz) r Hb Hp) as (z1 & err & -> & Hch).
  rewrite !bind_Ret. cbn [fst].
  assert (cluster_zone h z1) as Hz1 by (by eapply cluster_changed; [exact Hb|..]).
  assert (entries (rr_name r) z1 = delete (rr_type r) (entries (rr_name r) (dz_zone dz))) as He1.
  { rewrite (entries_changed _ _ _ _ _ _ Hch), Equals_refl. unfold entries. by rewrite Hn. }
  assert (could_add r z1 ↔
    Name_IsSubDomain (rr_name r) (mz_origin (dz_zone dz)) = true ∧ beside (records h (dz_zone dz)) r) as Hca.
  { unfold could_add. rewrite He1, (fits_records h) by done. by destruct Hch as (-> & _). }
  destruct (up_Add_changed h z1 r Hz1 Hp) as (h2 & z2 & -> & Hsub & Hres);
    [by rewrite He1, lookup_delete_eq|]. rewrite bind_Ret.
  assert (∃ e, changed (rr_name r) (rr_type r) e z1 z2 ∧ entry_new h2 (rr_name r) (rr_type r) z1 e ∧
    (could_add r z1 → mjoin e ≫= (h2 !!.) = Some r) ∧ (¬ could_add r z1 → mjoin e ≫= (h2 !!.) = None))
    as (e & Hch2 & Hnew & Hyes & Hnot).
  { destruct Hres as [[Hc (l & El & Hch2)]|[Hc Hch2]]; [exists (Some (Some l))|exists None]; split_and!; try done.
    destruct Hc as [Hs Hf]. exists l, r. split_and!; try done.
    rewrite delete_id; [done|]. rewrite He1. apply lookup_delete_eq. }
  assert (cluster_zone h2 z2) as Hz2 by (by eapply cluster_changed).
  rewrite (Commit_cluster h2 dz z2 Hz2). eexists _, _, (mjoin e ≫= (h2 !!.)). split; [done|].
  rewrite <- Hca. split_and!; [|done..]. split_and!; [done|done| |].
  - destruct Hch as (Ho & _), Hch2 as (Ho2 & _). cbn. by rewrite Ho2, Ho.
  - intros n t. cbn [dz_zone set_zone fst]. rewrite (records_changed h h2 _ _ _ z1) by done.
    destruct (_ && _) eqn:E; [done|]. rewrite (records_changed h h _ _ _ (Begin dz)), E by done.
    unfold records, entries. by rewrite Hn.
Qed.
End zone_entries.

(** ** The records of the cluster *)

Create HintDb k8s_edits.

Section cluster.
Context {N : G53Name} {L : G53NameLaws N} {M : G53Msg N} {ML : G53MsgLaws M}.
Context {ZT : ZoneTree N} {ZL : ZoneTreeLaws ZT} (G : G53Text).
Implicit Types (a : K8sAuth) (e : Edit) (es : list Edit).

Definition K8sView : Type := K8sZone → Name → RRType → option RRset.
Definition view a : K8sView := λ w n t, records (ka_rrs a) (dz_zone (ka_zone w a)) n t.
Definition origins a (w : K8sZone) : Name := origin_of (ka_zone w a).
Definition k8s_inv a : Prop := ∀ w, cluster_zone (ka_rrs a) (dz_zone (ka_zone w a)).

(** An edit of a type the origin does not need, with a record set of its own name and
    type. *)
Definition edit_ok e : Prop :=
  plain (ed_typ e) ∧ ∀ r, ed_rrset e = Some r → rr_name r = ed_name e ∧ rr_type r = ed_typ e.

Definition hits e (w : K8sZone) (n : Name) (t : RRType) : bool :=
  bool_decide (w = ed_zone e) && Name_Equals (ed_name e) n && bool_decide (t = ed_typ e).

(** What an edit leaves where it hits; elsewhere nothing changes. *)
Definition edited (o : K8sZone → Name) e (v v' : K8sView) : Prop :=
  ∀ w n t,
    if hits e w n t then
      match ed_rrset e with
      | None => v' w n t = None
      | Some r =>
          (Name_IsSubDomain (rr_name r) (o w) = true ∧ beside (v w) r → v' w n t = Some r) ∧
          (¬ (Name_IsSubDomain (rr_name r) (o w) = true ∧ beside (v w) r) → v' w n t = None)
      end
    else v' w n t = v w n t.

Fixpoint edited_all (o : K8sZone → Name) es (v v' : K8sView) : Prop :=
  match es with
  | [] => ∀ w n t, v' w n t = v w n t
  | e :: es => ∃ v1, edited o e v v1 ∧ edited_all o es v1 v'
  end.

Lemma run_edit_spec e a :
  k8s_inv a → edit_ok e →
  ∃ a', run_edit e a = Ret a' ∧ k8s_inv a' ∧ (∀ w, origins a' w = origins a w) ∧ edited (origins a) e (view a) (view a').
Proof.
  intros Ha [Hp Hr]. unfold run_edit.
  assert (∀ h' dz' res, replaced (ka_rrs a) (ka_zone (ed_zone e) a) (ed_name e) (ed_typ e) res h' dz' →
    let a' := ka_set (ed_zone e) h' dz' a in
    k8s_inv a' ∧ (∀ w, origins a' w = origins a w) ∧
    ∀ w n t, view a' w n t = if hits e w n t then res else view a w n t) as Hset.
  { intros h' dz' res (Hsub & Hz & Ho & Hv).
    assert (∀ w, ka_zone w (ka_set (ed_zone e) h' dz' a) = if decide (w = ed_zone e) then dz' else ka_zone w a) as Hk
      by (intros w; by destruct w, (ed_zone e)).
    assert (ka_rrs (ka_set (ed_zone e) h' dz' a) = h') as Hh by (by destruct (ed_zone e)).
    cbn zeta. unfold view, k8s_inv, origins, hits. split_and!; intros w; rewrite ?Hh, Hk; destruct (decide _) as [->|Hw].
    - done.
    - eapply cluster_sub; [done|apply Ha].
    - done.
    - done.
    - intros n t. by rewrite Hv, (bool_decide_true (ed_zone e = ed_zone e)).
    - intros n t. rewrite (bool_decide_false (w = ed_zone e)) by done. apply records_sub; [apply Ha|done]. }
  unfold edited. destruct (ed_rrset e) as [r|].
  - destruct (Hr r eq_refl) as [En Et]. rewrite <- En, <- Et.
    destruct (replaceRRset_put (ka_rrs a) (ka_zone (ed_zone e) a) r) as (h' & dz' & res & -> & Hrep & Hy & Hn);
      [apply Ha|by rewrite Et|]. rewrite bind_Ret. rewrite En, Et in Hrep. destruct (Hset _ _ _ Hrep) as (H1 & H2 & H3).
    eexists. split; [done|]. split_and!; [done..|]. intros w n t. rewrite H3. destruct (hits e w n t) eqn:Eh; [|done].
    unfold hits in Eh. apply andb_true_iff in Eh as [[Ew%bool_decide_eq_true _]%andb_true_iff _]. by subst w.
  - destruct (replaceRRset_del (ka_rrs a) (ka_zone (ed_zone e) a) (ed_name e) (ed_typ e)) as (h' & dz' & -> & Hrep);
      [apply Ha|done|]. rewrite bind_Ret. destruct (Hset _ _ _ Hrep) as (H1 & H2 & H3).
    eexists. split; [done|]. split_and!; [done..|]. intros w n t. rewrite H3. by destruct (hits e w n t).
Qed.

Lemma run_edits_spec es a :
  k8s_inv a → Forall edit_ok es →
  ∃ a', run_edits es a = Ret a' ∧ k8s_inv a' ∧ (∀ w, origins a' w = origins a w) ∧
        edited_all (origins a) es (view a) (view a').
Proof.
  intros Ha Hes. revert a Ha. induction Hes as [|e es He _ IH]; intros a Ha; cbn [run_edits edited_all].
  - by exists a.
  - destruct (run_edit_spec e a Ha He) as (a1 & -> & Ha1 & Ho1 & Hv1). rewrite bind_Ret.
    destruct (IH a1 Ha1) as (a2 & E & Ha2 & Ho2 & Hv2). exists a2. split_and!; [done..| |].
    + intros w. by rewrite Ho2.
    + exists (view a1). split; [done|]. clear -Hv2 Ho1. revert Hv2. generalize (view a1) as v, (view a2) as v'.
      induction es as [|x es IH]; intros v v'; cbn; [done|]. intros (v1 & H1 & H2). exists v1. split; [|by apply IH].
      intros w n t. specialize (H1 w n t). by rewrite Ho1 in H1.
Qed.

(** ** Every edit of the controller is one *)

Lemma for_each_Forall {A} (P : Edit → Prop) (f : A → outcome (list Edit)) xs es :
  (∀ x es, f x = Ret es → Forall P es) → for_each f xs = Ret es → Forall P es.
Proof.
  intros Hf. revert es. induction xs as [|x xs IH]; intros es; cbn [for_each]; [by intros [= <-]|].
  destruct (f x) as [es1| |] eqn:E1; [|done..]. rewrite bind_Ret.
  destruct (for_each f xs) as [es2| |]; [|done..]. intros [= <-]. apply Forall_app. eauto.
Qed.

Lemma put_ok w r : plain (rr_type r) → edit_ok (put w r).
Proof. intros Hp. split; [done|]. by intros ? [= <-]. Qed.
Lemma del_ok w n t : plain t → edit_ok (del w n t).
Proof. by split. Qed.

(** Decomposes a computation that returned. *)
Ltac ret_inv :=
  repeat match goal with
  | H : Ret _ = Ret _ |- _ => injection H as H; subst
  | H : Panic _ = Ret _ |- _ => discriminate H
  | H : Hang _ = Ret _ |- _ => discriminate H
  | H : mbind _ ?x = Ret _ |- _ => let E := fresh "E" in destruct x eqn:E; [rewrite bind_Ret in H|discriminate H..]
  | H : (if ?b then _ else _) = Ret _ |- _ => destruct b eqn:?
  | H : match ?x with _ => _ end = Ret _ |- _ => destruct x eqn:?
  end.

Hint Resolve put_ok del_ok Forall_nil_2 : k8s_edits.
Hint Extern 1 (plain _) => (split; discriminate) : k8s_edits.
Hint Extern 1 (Forall _ (_ :: _)) => (constructor) : k8s_edits.
Hint Extern 1 (Forall _ (_ ++ _)) => (apply Forall_app; split) : k8s_edits.

Lemma put_reverse_ok w ip n es : put_reverse w ip n = Ret es → Forall edit_ok es.
Proof. unfold put_reverse. intros H. ret_inv. case_match; auto with k8s_edits. Qed.
Lemma del_reverse_ok w ip es : del_reverse w ip = Ret es → Forall edit_ok es.
Proof. unfold del_reverse. intros H. ret_inv. case_match; auto with k8s_edits. Qed.
Hint Resolve put_reverse_ok del_reverse_ok : k8s_edits.

Lemma addPodRecord_ok o svc ep es : addPodRecord G o svc ep = Ret es → Forall edit_ok es.
Proof.
  apply for_each_Forall. intros subset es1. unfold subset_edits. intros H. ret_inv. apply Forall_app. split.
  - eapply for_each_Forall; [|done]. intros [n ips] es2. unfold pod_edits. intros H. ret_inv.
    apply Forall_app. split; [|auto with k8s_edits].
    eapply for_each_Forall; [|done]. cbn beta. intros ip es3. apply put_reverse_ok.
  - eapply for_each_Forall; [|done]. intros port es2. unfold srv_edits. intros H. ret_inv; auto with k8s_edits.
Qed.

Lemma deletePodRecord_ok o ep es : deletePodRecord G o ep = Ret es → Forall edit_ok es.
Proof.
  apply for_each_Forall. intros subset es1 H. ret_inv. apply Forall_app. split; (eapply for_each_Forall; [|done]);
    cbn beta; intros x es2 H; ret_inv; eauto with k8s_edits.
Qed.

Lemma service_edits_ok o svc es :
  addServiceRecord G o svc = Ret es ∨ deleteServiceRecord G o svc = Ret es ∨
  addExternalServiceRecord G o svc = Ret es ∨ deleteExternalServiceRecord G o svc = Ret es ∨
  deleteHeadlessServiceRecord G o svc = Ret es → Forall edit_ok es.
Proof.
  unfold addServiceRecord, deleteServiceRecord, addExternalServiceRecord, deleteExternalServiceRecord,
    deleteHeadlessServiceRecord.
  intros H. destruct_or! H; ret_inv; eauto with k8s_edits.
Qed.

Lemma addHeadless_ok o svc ep es : addHeadlessServiceRecord G o svc ep = Ret es → Forall edit_ok es.
Proof. unfold addHeadlessServiceRecord. intros H. ret_inv; auto with k8s_edits. Qed.

Lemma on_event_ok o getService ev es : on_event G o getService ev = Ret es → Forall edit_ok es.
Proof.
  pose proof (service_edits_ok o) as Hs. pose proof (addHeadless_ok o) as Hh.
  pose proof (addPodRecord_ok o) as Ha. pose proof (deletePodRecord_ok o) as Hd.
  destruct ev as [ep|svc|old new|old new|ep|svc|]; cbn [on_event].
  - unfold handleEndPointCreate. intros H. ret_inv; try apply Forall_app; eauto with k8s_edits.
  - unfold handleServiceCreate. intros H. ret_inv; eauto 6 with k8s_edits.
  - unfold handleEndPointUpdate. intros H. ret_inv; rewrite ?Forall_app; eauto 6 with k8s_edits.
  - unfold handleServiceUpdate. intros H. ret_inv; rewrite ?Forall_app; try split; first [by eapply Hs; eauto 6|auto with k8s_edits].
  - eauto.
  - unfold handleServiceDelete. intros H. ret_inv; eauto 8 with k8s_edits.
  - intros H. ret_inv. auto with k8s_edits.
Qed.


(** ** What a sequence of edits leaves *)

(** The last edit of a place decides, where no alias is in the way. *)
Definition left_by (o : K8sZone → Name) (x : option RRset) e (w : K8sZone) (n : Name) (t : RRType) : option RRset :=
  if hits e w n t
  then r ← ed_rrset e; if Name_IsSubDomain (ed_name e) (o w) then Some r else None
  else x.

Fixpoint final (o : K8sZone → Name) es (x : option RRset) (w : K8sZone) (n : Name) (t : RRType) : option RRset :=
  match es with
  | [] => x
  | e :: es => final o es (left_by o x e w n t) w n t
  end.

Lemma final_app o es1 es2 x w n t : final o (es1 ++ es2) x w n t = final o es2 (final o es1 x w n t) w n t.
Proof. revert x. induction es1 as [|e es1 IH]; intros x; [done|]. apply IH. Qed.

Lemma final_miss o es x w n t : Forall (λ e, hits e w n t = false) es → final o es x w n t = x.
Proof.
  intros H. revert x. induction H as [|e es He _ IH]; intros x; cbn; [done|]. rewrite IH. unfold left_by. by rewrite He.
Qed.

(** Names an edit may use without meeting an alias. *)
Definition unaliased (v : K8sView) e : Prop := ed_typ e ≠ RR_CNAME ∧ v (ed_zone e) (ed_name e) RR_CNAME = None.

Lemma hits_true e w n t :
  hits e w n t = true → w = ed_zone e ∧ ed_name e ≈ n ∧ t = ed_typ e.
Proof. unfold hits. by intros [[?%bool_decide_eq_true ?]%andb_true_iff ?%bool_decide_eq_true]%andb_true_iff. Qed.

Lemma edited_left o e v v' :
  edit_ok e → unaliased v e → edited o e v v' → ∀ w n t, v' w n t = left_by o (v w n t) e w n t.
Proof.
  intros [_ Hr] [Hc Hv] He w n t. specialize (He w n t). unfold left_by. destruct (hits e w n t) eqn:Eh; [|done].
  apply hits_true in Eh as (-> & En & ->). destruct (ed_rrset e) as [r|]; [|done]. destruct (Hr r eq_refl) as [E1 E2].
  rewrite E1 in He. cbn. assert (beside (v (ed_zone e)) r) as Hb by (unfold beside; rewrite decide_False, E1; congruence).
  destruct (Name_IsSubDomain (ed_name e) (o (ed_zone e))); [by apply He|]. apply He. by intros [? _].
Qed.

Lemma edited_all_final o es v v' :
  Forall edit_ok es → Forall (unaliased v) es → edited_all o es v v' →
  ∀ w n t, v' w n t = final o es (v w n t) w n t.
Proof.
  intros Hok. revert v. induction Hok as [|e es He _ IH]; intros v Hu; cbn [edited_all final]; [done|].
  apply Forall_cons in Hu as [Hue Hu]. intros (v1 & H1 & H2) w n t.
  pose proof (edited_left o e v v1 He Hue H1) as Hl. rewrite <- Hl. apply (IH v1); [|done].
  eapply Forall_impl; [exact Hu|]. intros e' [Hc Hv]. split; [done|]. rewrite Hl. unfold left_by.
  destruct (hits e (ed_zone e') (ed_name e') RR_CNAME) eqn:Eh; [|done].
  apply hits_true in Eh as (_ & _ & E). destruct Hue as [Hne _]. by destruct Hne.
Qed.

Lemma run_edits_final es a :
  k8s_inv a → Forall edit_ok es → Forall (unaliased (view a)) es →
  ∃ a', run_edits es a = Ret a' ∧ k8s_inv a' ∧ ∀ w n t, view a' w n t = final (origins a) es (view a w n t) w n t.
Proof.
  intros Ha Hok Hu. destruct (run_edits_spec es a Ha Hok) as (a' & -> & Ha' & _ & Hv).
  exists a'. split_and!; [done..|]. by apply edited_all_final.
Qed.

(** ** Pods *)

(** The addresses of a subset that have a name. *)
Definition named (o : Name) (ep : Endpoints) (s : EndpointSubset) (n : Name) : list string :=
  ea_IP <$> base.filter (λ addr, match getEndpointsAddrDomain G o addr (en_Name ep) (en_Namespace ep) with
                                 | Ret m => Name_Equals m n
                                 | _ => false
                                 end = true) (es_Addresses s).

(** The group of a name. *)
Fixpoint pod_of (n : Name) (pods : list (Name * list string)) : option (Name * list string) :=
  match pods with
  | [] => None
  | pod :: pods => if Name_Equals pod.1 n then Some pod else pod_of n pods
  end.
Definition pod_ips (n : Name) (pods : list (Name * list string)) : list string := default [] (snd <$> pod_of n pods).

Fixpoint distinct (pods : list (Name * list string)) : Prop :=
  match pods with
  | [] => True
  | pod :: pods => Forall (λ p, Name_Equals pod.1 p.1 = false) pods ∧ distinct pods
  end.

Lemma Equals_l (a b c : Name) : Name_Equals a b = true → Name_Equals a c = Name_Equals b c.
Proof.
  intros E. destruct (Name_Equals b c) eqn:E2; [by eapply Equals_trans|].
  destruct (Name_Equals a c) eqn:E3; [|done]. rewrite <- E2. symmetry. eapply Equals_trans; [by apply Equals_sym|done].
Qed.
Lemma Equals_comm (a b : Name) : Name_Equals a b = Name_Equals b a.
Proof.
  destruct (Name_Equals b a) eqn:E; [by apply Equals_sym|]. destruct (Name_Equals a b) eqn:E2; [|done].
  apply Equals_sym in E2. congruence.
Qed.

Lemma add_pod_ips m ip pods n :
  pod_ips n (add_pod m ip pods) = pod_ips n pods ++ (if Name_Equals m n then [ip] else []).
Proof.
  unfold pod_ips. induction pods as [|[n' ips] pods IH]; cbn.
  - by destruct (Name_Equals m n).
  - destruct (Name_Equals n' m) eqn:Em; cbn.
    + rewrite <- (Equals_l n' m n Em). destruct (Name_Equals n' n) eqn:En; cbn; [done|by rewrite app_nil_r].
    + destruct (Name_Equals n' n) eqn:En; cbn; [|done]. destruct (Name_Equals m n) eqn:E; [|by rewrite app_nil_r].
      rewrite (Equals_l n' n m En), Equals_comm in Em. congruence.
Qed.

Lemma add_pod_distinct m ip pods : distinct pods → distinct (add_pod m ip pods).
Proof.
  induction pods as [|[n' ips] pods IH]; cbn; [done|]. intros [Hf Hd].
  destruct (Name_Equals n' m) eqn:Em; cbn; [done|]. split; [|auto]. clear IH Hd. revert Em.
  induction pods as [|[k ks] pods IH]; cbn; intros Em; [by constructor|].
  apply Forall_cons in Hf as [H1 Hf]. cbn in H1. destruct (Name_Equals k m); constructor; auto.
Qed.

Lemma add_pod_nonempty m ip pods :
  Forall (λ p : Name * list string, p.2 ≠ []) pods → Forall (λ p : Name * list string, p.2 ≠ []) (add_pod m ip pods).
Proof.
  induction 1 as [|[n' ips] pods Hp Hps IH]; cbn; [by constructor|].
  destruct (Name_Equals n' m); constructor; auto. cbn. by destruct ips.
Qed.

Lemma group_pods_spec o ep addrs pods pods' :
  group_pods G o ep addrs pods = Ret pods' → distinct pods → Forall (λ p : Name * list string, p.2 ≠ []) pods →
  distinct pods' ∧ Forall (λ p : Name * list string, p.2 ≠ []) pods' ∧
  ∀ n, pod_ips n pods' = pod_ips n pods ++ named o ep (mkSubset addrs []) n.
Proof.
  revert pods. induction addrs as [|addr addrs IH]; intros pods; cbn [group_pods].
  - intros [= <-] ? ?. split_and!; [done..|]. intros n. by rewrite app_nil_r.
  - destruct (getEndpointsAddrDomain G o addr (en_Name ep) (en_Namespace ep)) as [m| |] eqn:Em; [|done..].
    rewrite bind_Ret. intros H Hd Hne. destruct (IH _ H) as (H1 & H2 & H3);
      [by apply add_pod_distinct|by apply add_pod_nonempty|].
    split_and!; [done..|]. intros n. rewrite H3, add_pod_ips, <- app_assoc. f_equal.
    unfold named. cbn [es_Addresses]. rewrite filter_cons, Em. by destruct (Name_Equals m n).
Qed.

Definition pod_rrset (m : Name) (ips : list string) : RRset :=
  mkRRset m RR_A CLASS_IN defaultTTL ((λ ip, (AFromString G ip).1) <$> ips).

Lemma pod_final o m ips es x n :
  pod_edits G (m, ips) = Ret es →
  final o es x ServiceZone n RR_A =
    if Name_Equals m n then if Name_IsSubDomain m (o ServiceZone) then Some (pod_rrset m ips) else None else x.
Proof.
  unfold pod_edits. intros H. ret_inv. rewrite final_app, (final_miss o a).
  - cbn [final]. unfold left_by, hits. cbn. by destruct (Name_Equals m n).
  - eapply for_each_Forall; [|done]. cbn beta. intros ip es1. unfold put_reverse. intros H. ret_inv.
    case_match; by repeat constructor.
Qed.

Lemma pods_final o pods es x n :
  for_each (pod_edits G) pods = Ret es → distinct pods →
  final o es x ServiceZone n RR_A =
    match pod_of n pods with
    | Some (m, ips) => if Name_IsSubDomain m (o ServiceZone) then Some (pod_rrset m ips) else None
    | None => x
    end.
Proof.
  revert es x. induction pods as [|[m ips] pods IH]; intros es x; cbn [for_each]; [by intros [= <-]|].
  intros H [Hf Hd]. ret_inv. rewrite final_app, (pod_final _ _ _ _ _ _ E), (IH _ _ eq_refl Hd). cbn [pod_of fst].
  destruct (Name_Equals m n) eqn:Em; cbn; [|done].
  replace (pod_of n pods) with (@None (Name * list string)); [done|]. clear -Hf Em L.
  induction Hf as [|[k ks] pods H1 _ IH]; cbn in *; [done|].
  rewrite (Equals_l m n k Em), Equals_comm in H1. by rewrite H1.
Qed.

Lemma subset_final og (o : K8sZone → Name) svc ep s es x n :
  subset_edits G og svc ep s = Ret es →
  (named og ep s n = [] → final o es x ServiceZone n RR_A = x) ∧
  (named og ep s n ≠ [] → ∃ m, m ≈ n ∧ final o es x ServiceZone n RR_A =
     if Name_IsSubDomain n (o ServiceZone) then Some (pod_rrset m (named og ep s n)) else None).
Proof.
  unfold subset_edits. intros H. ret_inv. rewrite final_app.
  destruct (group_pods_spec og ep (es_Addresses s) [] _ E) as (Hd & Hne & Hips); [done|constructor|].
  specialize (Hips n). change (named og ep (mkSubset (es_Addresses s) []) n) with (named og ep s n) in Hips. cbn in Hips.
  rewrite (final_miss o a1) by (eapply for_each_Forall; [|done]; cbn beta; intros port es1; unfold srv_edits;
    intros H; ret_inv; repeat constructor; unfold hits; cbn; by rewrite andb_false_r).
  rewrite (pods_final _ _ _ _ _ E0 Hd), <- Hips. unfold pod_ips. clear E E0 E1 Hips Hd.
  destruct (pod_of n a) as [[m ips]|] eqn:Ep; cbn; [|done].
  assert (m ≈ n ∧ ips ≠ []) as [Hm Hi].
  { induction Hne as [|[k ks] pods Hk _ IH]; cbn in Ep; [done|]. destruct (Name_Equals k n) eqn:Ek; [|auto].
    injection Ep as <- <-. done. }
  split; [done|]. intros _. exists m. split; [done|].
  by rewrite (IsSubDomain_Equals m n _ _ Hm (Equals_refl (o ServiceZone))).
Qed.

Lemma for_each_app {A} (f : A → outcome (list Edit)) xs ys es :
  for_each f (xs ++ ys) = Ret es → ∃ es1 es2, for_each f xs = Ret es1 ∧ for_each f ys = Ret es2 ∧ es = es1 ++ es2.
Proof.
  revert es. induction xs as [|x xs IH]; intros es; cbn [for_each app]; [by eexists [], _|]. intros H. ret_inv.
  destruct (IH _ eq_refl) as (es1 & es2 & -> & -> & ->). eexists _, _. split_and!; [done..|]. by rewrite app_assoc.
Qed.

(** The address records of pods.  After the records of endpoints were added, the name
    of a pod has exactly the addresses that the last subset with that name lists for it,
    in their order; addresses other subsets list under the same name are not served. *)
Theorem pod_addresses svc ep pre s post es a n :
  k8s_inv a → addPodRecord G (origin_of (ka_service a)) svc ep = Ret es → Forall (unaliased (view a)) es →
  en_Subsets ep = pre ++ s :: post → named (origin_of (ka_service a)) ep s n ≠ [] →
  (∀ s', s' ∈ post → named (origin_of (ka_service a)) ep s' n = []) →
  Name_IsSubDomain n (origin_of (ka_service a)) = true →
  ∃ a' m, run_edits es a = Ret a' ∧ k8s_inv a' ∧ m ≈ n ∧
    view a' ServiceZone n RR_A = Some (pod_rrset m (named (origin_of (ka_service a)) ep s n)).
Proof.
  intros Ha He Hu Hs Hn Hpost Hin.
  destruct (run_edits_final es a Ha (addPodRecord_ok _ _ _ _ He) Hu) as (a' & -> & Ha' & Hv).
  unfold addPodRecord in He. rewrite Hs in He. apply for_each_app in He as (es1 & es2 & _ & He & ->).
  cbn [for_each] in He. ret_inv. rename a0 into es_s, a1 into es_post.
  destruct (subset_final _ (origins a) svc ep s es_s (final (origins a) es1 (view a ServiceZone n RR_A) ServiceZone n RR_A) n E)
    as [_ Hs2]. destruct (Hs2 Hn) as (m & Hm & Hf). change (origins a ServiceZone) with (origin_of (ka_service a)) in Hf.
  rewrite Hin in Hf. exists a', m. split_and!; [done..|]. rewrite Hv, !final_app, Hf. clear - E0 Hpost L.
  generalize (Some (pod_rrset m (named (origin_of (ka_service a)) ep s n))) as x. revert es_post E0.
  induction post as [|s' post IH]; intros es_post; cbn [for_each]; [by intros [= <-]|]. intros H x. ret_inv.
  rewrite final_app, (proj1 (subset_final _ _ _ _ _ _ _ n E)) by (apply Hpost; set_solver).
  apply IH; [|done]. intros s1 Hs1. apply Hpost. set_solver.
Qed.

(** ** The zones at the start *)

Lemma cluster_two h z n l1 l2 r1 r2 :
  mz_origin z = n → mz_origin_lost z = false → no_cuts (mz_domains z) →
  (∀ m, node_data m (mz_domains z) =
        if Name_Equals n m then Some (<[RR_NS := Some l2]> {[RR_SOA := Some l1]}) else None) →
  h !! l1 = Some r1 → rr_type r1 = RR_SOA → rr_name r1 = n →
  h !! l2 = Some r2 → rr_type r2 = RR_NS → rr_name r2 = n → cluster_zone h z.
Proof.
  intros Ho Hl Hc Hn E1 T1 N1 E2 T2 N2.
  assert (∀ t (p : option nat), (<[RR_NS := Some l2]> {[RR_SOA := Some l1]} : gmap Z (option nat)) !! t = Some p →
            (t = RR_NS ∧ p = Some l2) ∨ (t = RR_SOA ∧ p = Some l1)) as Hcases.
  { intros t e [[<- <-]|[_ [<- <-]%lookup_singleton_Some]]%lookup_insert_Some; auto. }
  split.
  - split; [|intros x; apply Hc]. intros m d. rewrite Hn, Ho. destruct (Name_Equals n m) eqn:Em; [|done]. intros [= <-].
    split.
    + rewrite (IsSubDomain_Equals m n n n) by (apply Equals_sym, Em || apply Equals_refl). apply IsSubDomain_refl.
    + by intros t [e [[? _]|[? _]]%Hcases].
    + intros t e [[-> ->]|[-> ->]]%Hcases; [exists r2|exists r1]; by rewrite ?N1, ?N2.
  - done.
  - intros t Ht. unfold entries. rewrite Hn, Ho, Equals_refl. cbn. destruct Ht as [->| ->]; by vm_compute; eexists.
  - done.
  - intros m d t e. rewrite Hn. destruct (Name_Equals n m); [|done]. intros [= <-] [[_ ->]|[_ ->]]%Hcases; done.
  - intros m d. rewrite Hn. destruct (Name_Equals n m); [|done]. intros [= <-]. apply insert_non_empty.
Qed.

Lemma up_Add_fresh h z r n d :
  mz_origin z = n → rr_name r = n → mz_origin_lost z = false → no_cuts (mz_domains z) → Name_IsWildCard n = false →
  (∀ m, node_data m (mz_domains z) = if Name_Equals n m then d else None) →
  default ∅ d !! RR_CNAME = None → default ∅ d !! rr_type r = None → rr_type r ≠ RR_CNAME →
  (rr_type r = RR_SOA → d = None) →
  ∃ h' z' l, up_Add r h z = Ret (h', z') ∧ h ⊆ h' ∧ h' !! l = Some r ∧ mz_origin z' = n ∧ mz_origin_lost z' = false ∧
    no_cuts (mz_domains z') ∧
    ∀ m, node_data m (mz_domains z') = if Name_Equals n m then Some (<[rr_type r := Some l]> (default ∅ d)) else None.
Proof.
  intros Ho Hr Hl Hc Hw Hn Hcn Ht Hnc Hsoa. unfold up_Add. destruct (alloc_rr r h) as [l h1] eqn:El.
  pose proof (alloc_rr_sub _ _ _ _ El) as Hsub. assert (h1 !! l = Some r) as Hlr.
  { unfold alloc_rr in El. injection El as <- <-. apply lookup_insert_eq. }
  unfold addRRset. rewrite (deref_rr_Some _ _ _ Hlr), bind_Ret.
  unfold checkRRsetValid. rewrite Hr, Hw, andb_false_r, Ho, IsSubDomain_refl. cbn [negb].
  set (t := zt_Insert n (mz_domains z)).
  assert (∀ d', flag_node r z (zt_alter (set_data d') n t) = Ret (zt_alter (set_data d') n t)) as Hflag.
  { intros d'. unfold flag_node. by rewrite Hr, Ho, Equals_refl, andb_false_r, Hw. }
  assert (node_data n t = d) as Hd by (unfold t; by rewrite node_data_Insert, Hn, Equals_refl).
  assert ((match node_data n t with
           | None => Ret (h1, inr {[rr_type r := Some l]})
           | Some nodeData => add_to_node l r nodeData h1
           end) =
          Ret (A := gmap nat RRset * (option string + gmap Z (option nat)))
            (h1, inr (<[rr_type r := Some l]> (default ∅ d)))) as ->.
  { rewrite Hd. destruct d as [d|]; [|done]. cbn in Hcn, Ht. unfold add_to_node, checkRRsetCouldBeAdded.
    rewrite (proj2 (Z.eqb_neq _ _) Hnc), Hcn. cbn [negb].
    assert (rr_type r =? RR_SOA = false) as -> by (apply Z.eqb_neq; by intros ?%Hsoa). by rewrite Ht. }
  rewrite bind_Ret, Hflag, !bind_Ret. eexists _, _, l. split_and!; [done..| | |].
  - done.
  - apply no_cuts_alter; [done|]. by apply no_cuts_Insert.
  - intros m. cbn [mz_domains set_domains]. rewrite node_data_set_eq by apply zt_Insert_self.
    destruct (Name_Equals n m) eqn:Em; [done|]. unfold t. by rewrite node_data_Insert, Hn, Em.
Qed.

Lemma createZone_ok origin server h h' dz n :
  createZone G origin server h = Ret (h', inr dz) → Name_FromString origin = inr n → Name_IsWildCard n = false →
  h ⊆ h' ∧ cluster_zone h' (dz_zone dz) ∧ origin_of dz = n.
Proof.
  unfold createZone. intros H En Hw. rewrite En in H.
  destruct (name_unsafe ("ns.dns." +:+ origin)) as [nsName| |]; [|done..]. rewrite bind_Ret in H.
  destruct (name_unsafe ("hostmaster." +:+ origin)); [|done..]. rewrite bind_Ret in H.
  destruct (AFromString G server) as [aRdata [err|]]; [done|].
  set (soa := mkRRset n RR_SOA _ _ _) in H. set (ns := mkRRset n RR_NS _ _ _) in H.
  set (glue := mkRRset nsName RR_A _ _ _) in H.
  destruct (up_Add_fresh h (Begin (NewDynamicZone n)) soa n None) as (h1 & z1 & l1 & E1 & S1 & L1 & O1 & Lo1 & C1 & N1);
    try done.
  { apply no_cuts_Insert, no_cuts_Insert. intros m x. by rewrite zt_node_New. }
  { intros m. cbn. rewrite !node_data_Insert. unfold node_data. rewrite zt_node_New. by destruct (Name_Equals n m). }
  rewrite E1, bind_Ret in H.
  destruct (up_Add_fresh h1 z1 ns n _ O1 eq_refl Lo1 C1 Hw N1) as (h2 & z2 & l2 & E2 & S2 & L2 & O2 & Lo2 & C2 & N2);
    try done.
  rewrite E2, bind_Ret in H.
  assert (cluster_zone h2 z2) as Hz2 by (eapply (cluster_two h2 z2 n l1 l2 soa ns); try done; by eapply lookup_weaken).
  destruct (up_Add_changed h2 z2 glue Hz2) as (h3 & z3 & E3 & S3 & Hres); [by split| |].
  { unfold entries. rewrite N2. by destruct (Name_Equals n (rr_name glue)). }
  rewrite E3, bind_Ret in H. injection H as <- <-.
  assert (cluster_zone h3 z3 ∧ mz_origin z3 = n) as [Hz3 Ho3].
  { destruct Hres as [[[Hca Hf] (l & El & Hch)]|[_ Hch]].
    - split; [|by rewrite (proj1 Hch)]. eapply (cluster_changed h2 h3 (rr_name glue) (rr_type glue)); [exact Hz2|by split|done|exact Hch|].
      exists l, glue. split_and!; try done. rewrite delete_id; [done|].
      unfold entries. rewrite N2. by destruct (Name_Equals n (rr_name glue)).
    - split; [|by rewrite (proj1 Hch)]. eapply (cluster_changed h2 h3 (rr_name glue) (rr_type glue)); [exact Hz2|by split|done|exact Hch|done]. }
  rewrite (Commit_cluster h3 _ z3 Hz3). split_and!; [by etrans; [|etrans]|done..].
Qed.

(** The name of a zone is no wildcard. *)
Definition origin_plain (origin : string) : Prop := ∀ n, Name_FromString origin = inr n → Name_IsWildCard n = false.
Definition network_plain (network : string) : Prop :=
  ∀ origin, reverseZoneNameForNetwork network = Ret (inr origin) → origin_plain origin.

Lemma createZone_cluster origin server h h' dz :
  createZone G origin server h = Ret (h', inr dz) → origin_plain origin → h ⊆ h' ∧ cluster_zone h' (dz_zone dz).
Proof.
  intros H Hw. destruct (Name_FromString origin) as [err|n] eqn:En.
  - unfold createZone in H. by rewrite En in H.
  - destruct (createZone_ok _ _ _ _ _ _ H En) as (? & ? & _); auto.
Qed.

(** The zones a new server starts with are well formed. *)
Lemma NewAuth_inv domain server serviceRange cidr a :
  NewAuth G domain server serviceRange cidr = Ret (inr a) →
  origin_plain domain → network_plain serviceRange → network_plain cidr → k8s_inv a.
Proof.
  unfold NewAuth. intros H Hd Hs Hc.
  destruct (createZone G domain server ∅) as [[h0 [err|z0]]| |] eqn:E0; [done| |done..]. rewrite bind_Ret in H.
  apply createZone_cluster in E0 as [_ Hz0]; [|done].
  destruct (name_in G versionQuery (origin_of z0)) as [n| |]; [|done..]. rewrite bind_Ret in H.
  destruct (replaceRRset_put h0 z0 (mkRRset n RR_TXT CLASS_IN defaultTTL [TxtFromString G dnsSchemaVersion]) Hz0)
    as (h1 & z1 & res & E1 & (S1 & Hz1 & _ & _) & _); [by split|]. cbn [rr_name rr_type] in E1.
  rewrite E1, bind_Ret in H. destruct (reverseZoneNameForNetwork serviceRange) as [[err|sn]| |] eqn:Esn; [done| |done..].
  rewrite bind_Ret in H. destruct (createZone G sn server h1) as [[h2 [err|z2]]| |] eqn:E2; [done| |done..].
  rewrite bind_Ret in H. apply createZone_cluster in E2 as [S2 Hz2]; [|by apply Hs].
  destruct (reverseZoneNameForNetwork cidr) as [[err|pn]| |] eqn:Epn; [done| |done..].
  rewrite bind_Ret in H. destruct (createZone G pn server h2) as [[h3 [err|z3]]| |] eqn:E3; [done| |done..].
  rewrite bind_Ret in H. apply createZone_cluster in E3 as [S3 Hz3]; [|by apply Hc].
  injection H as <-. intros []; cbn; [eapply cluster_sub; [|exact Hz1]; by etrans|by eapply cluster_sub|done].
Qed.

(** Queries only turn and add record sets. *)
Lemma addAuthAdditional_le dz h q h' q' :
  zone_wf h (dz_zone dz) → addAuthAdditional dz h q = Ret (h', q') → rr_le h h'.
Proof.
  intros Hz. unfold addAuthAdditional. destruct (DynamicZone_Find _ _ _ _ _) as [[h1 ctx]| |] eqn:E; [|done..].
  apply DynamicZone_Find_spec in E as [Hle _]; [|done]. rewrite bind_Ret. destruct (decide _); [|done].
  destruct (FinderCtx_GetAdditional ctx h1) as [[h2 ls]| |] eqn:E2; [|done..]. rewrite bind_Ret. intros [= <- _].
  etrans; [done|]. by eapply FinderCtx_GetAdditional_le.
Qed.

Lemma addSOA_le dz h q h' q' : zone_wf h (dz_zone dz) → addSOA dz h q = Ret (h', q') → rr_le h h'.
Proof.
  intros Hz. unfold addSOA. destruct (DynamicZone_Find _ _ _ _ _) as [[h1 ctx]| |] eqn:E; [|done..].
  apply DynamicZone_Find_spec in E as [Hle _]; [|done]. rewrite bind_Ret. destruct (decide _); [|done]. by intros [= <- _].
Qed.

Lemma Query_sections_le mt q ctx dz h h' qs aa rcode :
  zone_wf h (dz_zone dz) → Query_sections mt q ctx dz h = Ret (h', qs, aa, rcode) → rr_le h h'.
Proof.
  intros Hz. unfold Query_sections. destruct (fr_Type (fc_result ctx)).
  - destruct (FinderCtx_GetAdditional ctx h) as [[h1 ls]| |] eqn:E; [|done..]. apply FinderCtx_GetAdditional_le in E.
    rewrite bind_Ret. destruct (_ || _); [|rewrite bind_Ret; by intros [= <- _ _ _]].
    destruct (addAuthAdditional dz h1 _) as [[h2 q2]| |] eqn:E2; [|done..]. rewrite bind_Ret. intros [= <- _ _ _].
    etrans; [done|]. eapply addAuthAdditional_le; [|done]. by eapply tree_ok_mono.
  - destruct (FinderCtx_GetAdditional ctx h) as [[h1 ls]| |] eqn:E; [|done..]. apply FinderCtx_GetAdditional_le in E.
    rewrite bind_Ret. by intros [= <- _ _ _].
  - destruct (addSOA dz h _) as [[h1 q1]| |] eqn:E; [|done..]. rewrite bind_Ret. intros [= <- _ _ _]. by eapply addSOA_le.
  - destruct (addSOA dz h _) as [[h1 q1]| |] eqn:E; [|done..]. rewrite bind_Ret. intros [= <- _ _ _]. by eapply addSOA_le.
  - by intros [= <- _ _ _].
  - by intros [= <- _ _ _].
Qed.

Lemma Query_Process_le mt request dz h h' m :
  zone_wf h (dz_zone dz) → Query_Process mt request dz h = Ret (h', m) → rr_le h h'.
Proof.
  intros Hz. unfold Query_Process. destruct (deref_question request) as [q| |]; [|done..]. rewrite bind_Ret.
  destruct (DynamicZone_Find _ _ _ _ _) as [[h1 ctx]| |] eqn:E; [|done..].
  apply DynamicZone_Find_spec in E as [Hle _]; [|done]. rewrite bind_Ret.
  destruct (Query_sections _ _ _ _ _) as [[[[h2 qs] aa] rcode]| |] eqn:E2; [|done..].
  apply Query_sections_le in E2; [|by eapply tree_ok_mono]. rewrite bind_Ret. intros H. ret_inv. by etrans.
Qed.

(** The controller reacts to events, and queries are answered, in any order. *)
Inductive k8s_step : K8sAuth → K8sAuth → Prop :=
  | kstep_event getService ev a a' : K8s_handle G getService ev a = Ret a' → k8s_step a a'
  | kstep_query w request a rrs m :
      Query_Process ClosestEncloser request (ka_zone w a) (ka_rrs a) = Ret (rrs, m) →
      k8s_step a (ka_set w rrs (ka_zone w a) a).

Lemma cluster_le h h' z : rr_le h h' → cluster_zone h z → cluster_zone h' z.
Proof. intros Hle [Hw ? ? ? ? ?]. split; [by eapply tree_ok_mono|done..]. Qed.

(** Whatever happens in the cluster and whatever is asked, the zones of a server that
    started stay well formed: each keeps its origin with SOA and name server, records stand
    under their own name and type, aliases alone, no name is empty and no zone is
    delegated. *)
Theorem k8s_reachable domain server serviceRange cidr a0 a :
  NewAuth G domain server serviceRange cidr = Ret (inr a0) →
  origin_plain domain → network_plain serviceRange → network_plain cidr →
  rtc k8s_step a0 a → k8s_inv a ∧ ∀ w, origins a w = origins a0 w.
Proof.
  intros H Hd Hs Hc Hr. apply NewAuth_inv in H; [|done..]. clear Hd Hs Hc.
  induction Hr as [a|a a1 a2 Hstep _ IH]; [done|].
  assert (k8s_inv a1 ∧ ∀ w, origins a1 w = origins a w) as [H1 Ho].
  { destruct Hstep as [getService ev a a1 E|w request a rrs m E].
    - unfold K8s_handle in E. destruct (on_event _ _ _ _) as [es| |] eqn:Ee; [|done..]. rewrite bind_Ret in E.
      destruct (run_edits_spec es a H (on_event_ok _ _ _ _ Ee)) as (a' & E' & ? & ? & _).
      rewrite E in E'. injection E' as <-. auto.
    - apply Query_Process_le in E; [|apply H]. split; [|by destruct w; intros []].
      intros w'. destruct w, w'; cbn; (eapply cluster_le; [exact E|]);
        first [exact (H ServiceZone)|exact (H ServiceReverse)|exact (H PodReverse)]. }
  destruct (IH H1) as [? Ho2]. split; [done|]. intros w. by rewrite Ho2.
Qed.

(** ** Services *)

Lemma left_by_put o x w r w' n t :
  left_by o x (put w r) w' n t =
    if hits (put w r) w' n t then if Name_IsSubDomain (rr_name r) (o w') then Some r else None else x.
Proof. done. Qed.
Lemma left_by_del o x w m typ w' n t :
  left_by o x (del w m typ) w' n t = if hits (del w m typ) w' n t then None else x.
Proof. done. Qed.


(** ** Queries *)

Lemma run_callbacks_none opt (path : list (Name * ZNode (gmap Z (option nat)))) st :
  Forall (λ p, zn_callback p.2 = false) path → run_callbacks (zoneCutCallback opt) path st = Ret (st, None).
Proof. induction 1 as [|[m x] path Hx _ IH]; cbn; [done|]. cbn in Hx. by rewrite Hx. Qed.

(** A lookup in a zone of the cluster finds what the zone has for the name and type,
    else the alias of the name, and when the name has only other types says so. *)
Theorem cluster_lookup a w n t opt :
  k8s_inv a →
  (∀ r, view a w n t = Some r → ∃ l d, ka_rrs a !! l = Some r ∧
     MemoryZone_find n t opt (ka_rrs a) (dz_zone (ka_zone w a)) = Ret (ka_rrs a, mkFindResult FRSuccess (Some l), Some d)) ∧
  (∀ r, view a w n t = None → view a w n RR_CNAME = Some r → ∃ l d, ka_rrs a !! l = Some r ∧
     MemoryZone_find n t opt (ka_rrs a) (dz_zone (ka_zone w a)) = Ret (ka_rrs a, mkFindResult FRCname (Some l), Some d)) ∧
  (∀ t', view a w n t = None → view a w n RR_CNAME = None → is_Some (view a w n t') → ∃ d,
     MemoryZone_find n t opt (ka_rrs a) (dz_zone (ka_zone w a)) = Ret (ka_rrs a, mkFindResult FRNXRRset None, Some d)).
Proof.
  intros Ha. specialize (Ha w). unfold view. set (z := dz_zone (ka_zone w a)) in *. set (h := ka_rrs a) in *.
  assert (∀ t r, records h z n t = Some r → ∃ x d l, zt_node n (mz_domains z) = Some x ∧ zn_data x = Some d ∧
            d !! t = Some (Some l) ∧ h !! l = Some r ∧ entries n z = d) as Hrec.
  { intros t0 r E. unfold records, entries, node_data in *. destruct (zt_node n (mz_domains z)) as [x|]; [|done]. cbn in *.
    destruct (zn_data x) as [d|] eqn:Ed; [|done]. cbn in *. destruct (d !! t0) as [[l|]|] eqn:El; [|done..].
    by exists x, d, l. }
  assert (∀ x d, zt_node n (mz_domains z) = Some x → zn_data x = Some d →
    MemoryZone_find n t opt h z =
      Ret (h, match d !! t, d !! RR_CNAME with
              | Some l, _ => mkFindResult FRSuccess l
              | None, Some l => mkFindResult FRCname l
              | None, None => mkFindResult FRNXRRset None
              end, Some d)) as Hfind.
  { intros x d Ex Ed. unfold MemoryZone_find. rewrite zt_SearchExt_eq, run_callbacks_none.
    - rewrite !bind_Ret, Ex, Ed, (cz_cuts _ _ Ha n x Ex). done.
    - apply Forall_forall. intros [m y] (Hy & _)%zt_path_sound. exact (cz_cuts _ _ Ha m y Hy). }
  setoid_rewrite (records_None h z n _ Ha). split_and!.
  - intros r E. destruct (Hrec t r E) as (x & d & l & Ex & Ed & Et & El & _). exists l, d. split; [done|].
    by rewrite (Hfind x d Ex Ed), Et.
  - intros r Hn E. destruct (Hrec RR_CNAME r E) as (x & d & l & Ex & Ed & Et & El & He). exists l, d. split; [done|].
    rewrite He in Hn. by rewrite (Hfind x d Ex Ed), Hn, Et.
  - intros t' Hn Hc [r E]. destruct (Hrec t' r E) as (x & d & l & Ex & Ed & Et & El & He). exists d.
    rewrite He in Hn, Hc. by rewrite (Hfind x d Ex Ed), Hn, Hc.
Qed.
End cluster.

(** ** A cluster *)

Section cluster_examples.

Definition demo_text : G53Text :=
  mkG53Text (N := label_names) (λ a b : Name (G53Name := label_names), Some (app (A := string) a b))
    (λ s, match parseIPv4 s with Some ip => (RdA (drop 12 ip), None) | None => (RdOther "nil", Some "invalid address") end)
    RdOther.

Definition empty_auth : K8sAuth :=
  mkK8sAuth ∅ (NewDynamicZone (N := label_names) []) (NewDynamicZone []) (NewDynamicZone []).
Definition auth_of (o : outcome (string + K8sAuth)) : K8sAuth :=
  match o with Ret (inr a) => a | _ => empty_auth end.
Definition auth_of' (o : outcome K8sAuth) : K8sAuth := match o with Ret a => a | _ => empty_auth end.

Definition demo_k8s : K8sAuth :=
  auth_of (NewAuth demo_text "cluster.local" "10.43.0.10" "10.43.0.0/16" "10.42.0.0/16").

Definition web : Service := mkService "web" "shop" "ClusterIP" "10.43.7.1" "".
Definition db : Service := mkService "db" "shop" "ClusterIP" "None" "".
Definition shop_services (name namespace : string) : option Service :=
  if bool_decide (name = "web") then Some web else if bool_decide (name = "db") then Some db else None.

Lemma demo_new : NewAuth demo_text "cluster.local" "10.43.0.10" "10.43.0.0/16" "10.42.0.0/16" = Ret (inr demo_k8s).
Proof. by_eval. Qed.
Lemma demo_domain : origin_plain "cluster.local".
Proof. intros n [= <-]. reflexivity. Qed.
Lemma demo_range : network_plain "10.43.0.0/16".
Proof. intros o [= <-] n [= <-]. reflexivity. Qed.
Lemma demo_cidr : network_plain "10.42.0.0/16".
Proof. intros o [= <-] n [= <-]. reflexivity. Qed.

Lemma demo_k8s_inv : k8s_inv demo_k8s.
Proof. exact (NewAuth_inv demo_text _ _ _ _ _ demo_new demo_domain demo_range demo_cidr). Qed.

Lemma k8s_reachable_witness :
  k8s_inv (auth_of' (K8s_handle demo_text shop_services (CreateService web) demo_k8s)) ∧
  ∀ w, origins (auth_of' (K8s_handle demo_text shop_services (CreateService web) demo_k8s)) w = origins demo_k8s w.
Proof.
  apply (k8s_reachable demo_text "cluster.local" "10.43.0.10" "10.43.0.0/16" "10.42.0.0/16" demo_k8s).
  - exact demo_new.
  - exact demo_domain.
  - exact demo_range.
  - exact demo_cidr.
  - apply rtc_once. apply (kstep_event demo_text shop_services (CreateService web)). by_eval.
Defined.

Definition web_name : Name := ["web"; "shop"; "svc"; "cluster"; "local"].
Definition web_reverse : Name := ["1"; "7"; "43"; "10"; "in-addr"; "arpa"].

Definition db_name : Name := ["db"; "shop"; "svc"; "cluster"; "local"].
Definition pod_name : Name := ["db-0"; "db"; "shop"; "svc"; "cluster"; "local"].
Definition db_endpoints : Endpoints :=
  mkEndpoints "db" "shop"
    [mkSubset [mkAddress "10.42.0.5" "db-0"] []; mkSubset [mkAddress "10.42.0.6" "db-0"; mkAddress "10.42.0.7" "db-0"] []].
Definition no_endpoints : Endpoints := mkEndpoints "db" "shop" [].

Definition handle_all (evs : list K8sEvent) : K8sAuth :=
  foldl (λ a ev, auth_of' (K8s_handle demo_text shop_services ev a)) demo_k8s evs.

Definition mirror (target : string) : Service := mkService "mirror" "shop" "ExternalName" "" target.
Definition mirror_name : Name := ["mirror"; "shop"; "svc"; "cluster"; "local"].

Definition edits_of (o : outcome (list Edit)) : list (Edit (N := label_names)) := match o with Ret es => es | _ => [] end.
Definition db_edits : list Edit :=
  edits_of (on_event demo_text (origin_of (ka_service demo_k8s)) shop_services (CreateEndpoints db_endpoints)).


Definition db_pods : list Edit := edits_of (addPodRecord demo_text (origin_of (ka_service demo_k8s)) db db_endpoints).

Lemma pod_addresses_witness :
  ∃ a' m, run_edits db_pods demo_k8s = Ret a' ∧ k8s_inv a' ∧ m ≈ pod_name ∧
    view a' ServiceZone pod_name RR_A = Some (pod_rrset demo_text m ["10.42.0.6"; "10.42.0.7"]).
Proof.
  apply (pod_addresses demo_text db db_endpoints [mkSubset [mkAddress "10.42.0.5" "db-0"] []]
    (mkSubset [mkAddress "10.42.0.6" "db-0"; mkAddress "10.42.0.7" "db-0"] []) [] db_pods demo_k8s pod_name).
  - exact demo_k8s_inv.
  - by_eval.
  - repeat (constructor; [split; [discriminate|by_eval]|]). constructor.
  - reflexivity.
  - intros H. assert (["10.42.0.6"; "10.42.0.7"] = @nil string) as E by (etrans; [|exact H]; by_eval). discriminate E.
  - intros s' H. inversion H.
  - by_eval.
Defined.


(** Changes of the cluster that the zones miss.  A headless service whose last pod is
    gone keeps resolving to its old addresses; an external service that is renamed keeps its
    old alias; and of a pod name that two subsets list, only the addresses of the last
    are served. *)
Theorem k8s_misses :
  view (handle_all [CreateService db; CreateEndpoints db_endpoints; UpdateEndpoints db_endpoints no_endpoints])
    ServiceZone db_name RR_A =
    Some (mkRRset db_name RR_A CLASS_IN defaultTTL [RdA [10; 42; 0; 5]; RdA [10; 42; 0; 6]; RdA [10; 42; 0; 7]]) ∧
  view (handle_all [CreateService (mirror "a.example.com"); UpdateService (mirror "a.example.com") (mirror "b.example.com")])
    ServiceZone mirror_name RR_CNAME =
    Some (mkRRset mirror_name RR_CNAME CLASS_IN defaultTTL [RdCName ["a"; "example"; "com"]]) ∧
  view (handle_all [CreateService db; CreateEndpoints db_endpoints]) ServiceZone pod_name RR_A =
    Some (mkRRset pod_name RR_A CLASS_IN defaultTTL [RdA [10; 42; 0; 6]; RdA [10; 42; 0; 7]]).
Proof. split_and!; by_eval. Qed.
End cluster_examples.
