(* ===== verification/System.v ===== *)
(** * The whole server: the handlers in one chain (src/cmd/vanguard with every component)

    The state of the process is the state of its components.  Each handler of a component
    acts on its own part of the state and leaves the rest to the handlers behind it; here
    every handler is lifted to the whole state, the resolvers are linked into the chain of
    NewResolver, and the modules that createHandler chooses make the chain of the server,
    each with its ReloadConfig. *)

From S2P Require Import Prelude GoList GoStd G53 Instances Core HttpCmd Cache CacheHandler Cement Acl RateLimit ViewSelector Util Chain Forwarder Resolver Recursor Dns64 Zone Auth RecursorRun Xfr LocalData Stub RespTransfer Server QueryLog Config Main K8s.

Local Open Scope Z_scope.

Section system.
Context {N : G53Name} {M : G53Msg N} {T : DomainTree N} {ZT : ZoneTree N} {R : NetRadix} {G : GoSort}.

(** ** The state *)

(** The parts of the components, the heap of messages, and the number of calls of handlers
    made so far, by which the environment tells the calls apart. *)
Record System : Type := mkSystem {
  sy_heap : Heap;
  sy_tick : nat;
  sy_log : QueryLogger;
  sy_k8s : K8sAuth;
  sy_views : SelectorMgr;
  sy_acl : AclManager;
  sy_filter : FilterState;
  sy_aaaa : AaaaFilter;
  sy_sorter : UserAddrBasedSorter;
  sy_hijack : LocalData;
  sy_dns64 : gmap string (list (option Dns64Converter));
  sy_caches : Caches;
  sy_indirect : bool;
  sy_local : LocalData;
  sy_auth : AuthState;
  sy_stub : StubZoneManager;
  sy_sources : QuerySources;
  sy_fwd : ViewFwderMgr;
  sy_recursor : Recursor;
  sy_failfwd : gmap string forwarder;
  sy_xfr : gmap string (list Name);
}.

Definition set_sy_heap (x : Heap) (s : System) : System :=
  mkSystem x (sy_tick s) (sy_log s) (sy_k8s s) (sy_views s) (sy_acl s) (sy_filter s) (sy_aaaa s)
    (sy_sorter s) (sy_hijack s) (sy_dns64 s) (sy_caches s) (sy_indirect s) (sy_local s) (sy_auth s)
    (sy_stub s) (sy_sources s) (sy_fwd s) (sy_recursor s) (sy_failfwd s) (sy_xfr s).
Definition set_sy_tick (x : nat) (s : System) : System :=
  mkSystem (sy_heap s) x (sy_log s) (sy_k8s s) (sy_views s) (sy_acl s) (sy_filter s) (sy_aaaa s)
    (sy_sorter s) (sy_hijack s) (sy_dns64 s) (sy_caches s) (sy_indirect s) (sy_local s) (sy_auth s)
    (sy_stub s) (sy_sources s) (sy_fwd s) (sy_recursor s) (sy_failfwd s) (sy_xfr s).
Definition set_sy_log (x : QueryLogger) (s : System) : System :=
  mkSystem (sy_heap s) (sy_tick s) x (sy_k8s s) (sy_views s) (sy_acl s) (sy_filter s) (sy_aaaa s)
    (sy_sorter s) (sy_hijack s) (sy_dns64 s) (sy_caches s) (sy_indirect s) (sy_local s) (sy_auth s)
    (sy_stub s) (sy_sources s) (sy_fwd s) (sy_recursor s) (sy_failfwd s) (sy_xfr s).
Definition set_sy_k8s (x : K8sAuth) (s : System) : System :=
  mkSystem (sy_heap s) (sy_tick s) (sy_log s) x (sy_views s) (sy_acl s) (sy_filter s) (sy_aaaa s)
    (sy_sorter s) (sy_hijack s) (sy_dns64 s) (sy_caches s) (sy_indirect s) (sy_local s) (sy_auth s)
    (sy_stub s) (sy_sources s) (sy_fwd s) (sy_recursor s) (sy_failfwd s) (sy_xfr s).
Definition set_sy_views (x : SelectorMgr) (s : System) : System :=
  mkSystem (sy_heap s) (sy_tick s) (sy_log s) (sy_k8s s) x (sy_acl s) (sy_filter s) (sy_aaaa s)
    (sy_sorter s) (sy_hijack s) (sy_dns64 s) (sy_caches s) (sy_indirect s) (sy_local s) (sy_auth s)
    (sy_stub s) (sy_sources s) (sy_fwd s) (sy_recursor s) (sy_failfwd s) (sy_xfr s).
Definition set_sy_acl (x : AclManager) (s : System) : System :=
  mkSystem (sy_heap s) (sy_tick s) (sy_log s) (sy_k8s s) (sy_views s) x (sy_filter s) (sy_aaaa s)
    (sy_sorter s) (sy_hijack s) (sy_dns64 s) (sy_caches s) (sy_indirect s) (sy_local s) (sy_auth s)
    (sy_stub s) (sy_sources s) (sy_fwd s) (sy_recursor s) (sy_failfwd s) (sy_xfr s).
Definition set_sy_filter (x : FilterState) (s : System) : System :=
  mkSystem (sy_heap s) (sy_tick s) (sy_log s) (sy_k8s s) (sy_views s) (sy_acl s) x (sy_aaaa s)
    (sy_sorter s) (sy_hijack s) (sy_dns64 s) (sy_caches s) (sy_indirect s) (sy_local s) (sy_auth s)
    (sy_stub s) (sy_sources s) (sy_fwd s) (sy_recursor s) (sy_failfwd s) (sy_xfr s).
Definition set_sy_aaaa (x : AaaaFilter) (s : System) : System :=
  mkSystem (sy_heap s) (sy_tick s) (sy_log s) (sy_k8s s) (sy_views s) (sy_acl s) (sy_filter s) x
    (sy_sorter s) (sy_hijack s) (sy_dns64 s) (sy_caches s) (sy_indirect s) (sy_local s) (sy_auth s)
    (sy_stub s) (sy_sources s) (sy_fwd s) (sy_recursor s) (sy_failfwd s) (sy_xfr s).
Definition set_sy_sorter (x : UserAddrBasedSorter) (s : System) : System :=
  mkSystem (sy_heap s) (sy_tick s) (sy_log s) (sy_k8s s) (sy_views s) (sy_acl s) (sy_filter s)
    (sy_aaaa s) x (sy_hijack s) (sy_dns64 s) (sy_caches s) (sy_indirect s) (sy_local s) (sy_auth s)
    (sy_stub s) (sy_sources s) (sy_fwd s) (sy_recursor s) (sy_failfwd s) (sy_xfr s).
Definition set_sy_hijack (x : LocalData) (s : System) : System :=
  mkSystem (sy_heap s) (sy_tick s) (sy_log s) (sy_k8s s) (sy_views s) (sy_acl s) (sy_filter s)
    (sy_aaaa s) (sy_sorter s) x (sy_dns64 s) (sy_caches s) (sy_indirect s) (sy_local s) (sy_auth s)
    (sy_stub s) (sy_sources s) (sy_fwd s) (sy_recursor s) (sy_failfwd s) (sy_xfr s).
Definition set_sy_dns64 (x : gmap string (list (option Dns64Converter))) (s : System) : System :=
  mkSystem (sy_heap s) (sy_tick s) (sy_log s) (sy_k8s s) (sy_views s) (sy_acl s) (sy_filter s)
    (sy_aaaa s) (sy_sorter s) (sy_hijack s) x (sy_caches s) (sy_indirect s) (sy_local s) (sy_auth s)
    (sy_stub s) (sy_sources s) (sy_fwd s) (sy_recursor s) (sy_failfwd s) (sy_xfr s).
Definition set_sy_caches (x : Caches) (s : System) : System :=
  mkSystem (sy_heap s) (sy_tick s) (sy_log s) (sy_k8s s) (sy_views s) (sy_acl s) (sy_filter s)
    (sy_aaaa s) (sy_sorter s) (sy_hijack s) (sy_dns64 s) x (sy_indirect s) (sy_local s) (sy_auth s)
    (sy_stub s) (sy_sources s) (sy_fwd s) (sy_recursor s) (sy_failfwd s) (sy_xfr s).
Definition set_sy_indirect (x : bool) (s : System) : System :=
  mkSystem (sy_heap s) (sy_tick s) (sy_log s) (sy_k8s s) (sy_views s) (sy_acl s) (sy_filter s)
    (sy_aaaa s) (sy_sorter s) (sy_hijack s) (sy_dns64 s) (sy_caches s) x (sy_local s) (sy_auth s)
    (sy_stub s) (sy_sources s) (sy_fwd s) (sy_recursor s) (sy_failfwd s) (sy_xfr s).
Definition set_sy_local (x : LocalData) (s : System) : System :=
  mkSystem (sy_heap s) (sy_tick s) (sy_log s) (sy_k8s s) (sy_views s) (sy_acl s) (sy_filter s)
    (sy_aaaa s) (sy_sorter s) (sy_hijack s) (sy_dns64 s) (sy_caches s) (sy_indirect s) x (sy_auth s)
    (sy_stub s) (sy_sources s) (sy_fwd s) (sy_recursor s) (sy_failfwd s) (sy_xfr s).
Definition set_sy_auth (x : AuthState) (s : System) : System :=
  mkSystem (sy_heap s) (sy_tick s) (sy_log s) (sy_k8s s) (sy_views s) (sy_acl s) (sy_filter s)
    (sy_aaaa s) (sy_sorter s) (sy_hijack s) (sy_dns64 s) (sy_caches s) (sy_indirect s) (sy_local s)
    x (sy_stub s) (sy_sources s) (sy_fwd s) (sy_recursor s) (sy_failfwd s) (sy_xfr s).
Definition set_sy_stub (x : StubZoneManager) (s : System) : System :=
  mkSystem (sy_heap s) (sy_tick s) (sy_log s) (sy_k8s s) (sy_views s) (sy_acl s) (sy_filter s)
    (sy_aaaa s) (sy_sorter s) (sy_hijack s) (sy_dns64 s) (sy_caches s) (sy_indirect s) (sy_local s)
    (sy_auth s) x (sy_sources s) (sy_fwd s) (sy_recursor s) (sy_failfwd s) (sy_xfr s).
Definition set_sy_sources (x : QuerySources) (s : System) : System :=
  mkSystem (sy_heap s) (sy_tick s) (sy_log s) (sy_k8s s) (sy_views s) (sy_acl s) (sy_filter s)
    (sy_aaaa s) (sy_sorter s) (sy_hijack s) (sy_dns64 s) (sy_caches s) (sy_indirect s) (sy_local s)
    (sy_auth s) (sy_stub s) x (sy_fwd s) (sy_recursor s) (sy_failfwd s) (sy_xfr s).
Definition set_sy_fwd (x : ViewFwderMgr) (s : System) : System :=
  mkSystem (sy_heap s) (sy_tick s) (sy_log s) (sy_k8s s) (sy_views s) (sy_acl s) (sy_filter s)
    (sy_aaaa s) (sy_sorter s) (sy_hijack s) (sy_dns64 s) (sy_caches s) (sy_indirect s) (sy_local s)
    (sy_auth s) (sy_stub s) (sy_sources s) x (sy_recursor s) (sy_failfwd s) (sy_xfr s).
Definition set_sy_recursor (x : Recursor) (s : System) : System :=
  mkSystem (sy_heap s) (sy_tick s) (sy_log s) (sy_k8s s) (sy_views s) (sy_acl s) (sy_filter s)
    (sy_aaaa s) (sy_sorter s) (sy_hijack s) (sy_dns64 s) (sy_caches s) (sy_indirect s) (sy_local s)
    (sy_auth s) (sy_stub s) (sy_sources s) (sy_fwd s) x (sy_failfwd s) (sy_xfr s).
Definition set_sy_failfwd (x : gmap string forwarder) (s : System) : System :=
  mkSystem (sy_heap s) (sy_tick s) (sy_log s) (sy_k8s s) (sy_views s) (sy_acl s) (sy_filter s)
    (sy_aaaa s) (sy_sorter s) (sy_hijack s) (sy_dns64 s) (sy_caches s) (sy_indirect s) (sy_local s)
    (sy_auth s) (sy_stub s) (sy_sources s) (sy_fwd s) (sy_recursor s) x (sy_xfr s).
Definition set_sy_xfr (x : gmap string (list Name)) (s : System) : System :=
  mkSystem (sy_heap s) (sy_tick s) (sy_log s) (sy_k8s s) (sy_views s) (sy_acl s) (sy_filter s)
    (sy_aaaa s) (sy_sorter s) (sy_hijack s) (sy_dns64 s) (sy_caches s) (sy_indirect s) (sy_local s)
    (sy_auth s) (sy_stub s) (sy_sources s) (sy_fwd s) (sy_recursor s) (sy_failfwd s) x.

(** What the calls of handlers meet: clocks, signatures, texts, the single-flight group,
    stub servers, rounds of the recursor and fail forwarders. *)
Record Env : Type := mkEnv {
  ev_now : nat → Z;
  ev_tsig : TsigLib;
  ev_texts : LogTexts;
  ev_flights : nat → list Flight;
  ev_stub : nat → StubNet;
  ev_rounds : nat → Z → Round;
  ev_ask : nat → forwarder → Message → string + Message;
}.

(** ** Lifting handlers *)

(** A handler [mk] of a part [P] of the state, made for the state and the number of the
    call: the handler behind it sees the whole state again. *)
Definition lower {S P} (to : S → P) (from : P → S) (next : Handler S) : Handler P := λ p client,
  r ← next (from p) client; Ret (to r.1, r.2).

Definition via {S P} (to : S → P) (from : P → S) (mk : S → option (Handler P) → Handler P)
  (next : option (Handler S)) : Handler S := λ s client,
  r ← mk s (lower to from <$> next) (to s) client;
  Ret (from r.1, r.2).

(** Counting the call. *)
Definition counted (mk : option (Handler System) → Handler System) (next : option (Handler System))
  : Handler System := λ s client, mk next (set_sy_tick (S (sy_tick s)) s) client.

Context (env : Env).

Definition with_heap (s : System) : Heap * System := (sy_heap s, s).
Definition put_heap (p : Heap * System) : System := set_sy_heap p.1 p.2.

Definition querylog_handler : option (Handler System) → Handler System :=
  counted (via (λ s, (sy_heap s, sy_log s, s)) (λ p, set_sy_log p.1.2 (set_sy_heap p.1.1 p.2))
    (λ s, QueryLog_HandleQuery (ev_texts env) (ev_now env (sy_tick s)))).

Definition k8s_handler : option (Handler System) → Handler System :=
  counted (via (λ s, (sy_heap s, (sy_k8s s, s))) (λ p, set_sy_k8s p.2.1 (set_sy_heap p.1 p.2.2))
    (λ _, K8s_HandleQuery)).

Definition view_handler : option (Handler System) → Handler System :=
  counted (via with_heap put_heap
    (λ s, SelectorMgr_HandleQuery (sm_viewAndIds (sy_views s))
            (λ s, SelectorMgr_selectors (ev_tsig env) (sy_acl s) (sy_views s)))).

Definition filter_handler : option (Handler System) → Handler System :=
  counted (via (λ s, (sy_filter s, sy_heap s, s)) (λ p, set_sy_filter p.1.1 (set_sy_heap p.1.2 p.2))
    (λ s, FilterChain_HandleQuery (ev_now env (sy_tick s)))).

Definition aaaa_handler : option (Handler System) → Handler System :=
  counted (via with_heap put_heap (λ _, transferAdaptor_HandleQuery
    (λ s, AaaaFilter_TransferResponse (sy_acl s) (sy_aaaa s)))).

Definition sortlist_handler : option (Handler System) → Handler System :=
  counted (via with_heap put_heap (λ _, transferAdaptor_HandleQuery
    (λ s, SortList_TransferResponse (sy_sorter s)))).

Definition hijack_handler : option (Handler System) → Handler System :=
  counted (via with_heap put_heap (λ _, transferAdaptor_HandleQuery
    (λ s, Hijack_TransferResponse (sy_hijack s)))).

Definition dns64_handler : option (Handler System) → Handler System :=
  counted (via with_heap put_heap (λ s, DNS64_HandleQuery (sy_dns64 s))).

Definition cache_handler : option (Handler System) → Handler System :=
  counted (via (λ s, (sy_caches s, sy_heap s, s)) (λ p, set_sy_caches p.1.1 (set_sy_heap p.1.2 p.2))
    (λ s, Cache_HandleQuery (ev_now env (sy_tick s)))).

Definition failforwarder_handler : option (Handler System) → Handler System :=
  counted (via (λ s, (sy_failfwd s, sy_heap s, s)) (λ p, set_sy_failfwd p.1.1 (set_sy_heap p.1.2 p.2))
    (λ s, FailForwarder_HandleQuery (ev_ask env (sy_tick s)))).

(** ** The resolvers *)

Definition count_call (p : Heap * System) : Heap * System := (p.1, set_sy_tick (S (sy_tick p.2)) p.2).

Definition counted_resolver (mk : option (Handler (Heap * System)) → Handler (Heap * System))
  (next : option (Handler (Heap * System))) : Handler (Heap * System) :=
  λ p client, mk next (count_call p) client.

Definition stub_resolver : option (Handler (Heap * System)) → Handler (Heap * System) :=
  counted_resolver (via (λ p, (sy_stub p.2, sy_sources p.2, p.1, p.2))
    (λ p, (p.1.2, set_sy_stub p.1.1.1 (set_sy_sources p.1.1.2 p.2)))
    (λ p, Stub_Resolve (ev_stub env (sy_tick p.2)))).

Definition forwarder_resolver : option (Handler (Heap * System)) → Handler (Heap * System) :=
  counted_resolver (via (λ p, (sy_fwd p.2, sy_sources p.2, p.1, p.2))
    (λ p, (p.1.2, set_sy_fwd p.1.1.1 (set_sy_sources p.1.1.2 p.2)))
    (λ _, Forwarder_Resolve)).

Definition recursor_resolver : option (Handler (Heap * System)) → Handler (Heap * System) :=
  counted_resolver (via (λ p, (sy_recursor p.2, p.1, p.2)) (λ p, (p.1.2, set_sy_recursor p.1.1 p.2))
    (λ p, Recursor_Resolve (ev_rounds env (sy_tick p.2)))).

Definition fakeauth_resolver : option (Handler (Heap * System)) → Handler (Heap * System) :=
  counted_resolver (λ next p client, FakeAuth_Resolve (sy_local p.2) next p client).

Definition auth_resolver : option (Handler (Heap * System)) → Handler (Heap * System) :=
  counted_resolver (via (λ p, (p.1, (sy_auth p.2, p.2))) (λ p, (p.1, set_sy_auth p.2.1 p.2.2))
    (λ _, AuthDataSource_Resolve)).

Definition limit_resolver (first : Handler (Heap * System)) : Handler (Heap * System) := λ p client,
  QueryLimit_Resolve (ev_flights env (sy_tick p.2)) first (count_call p) client.

Definition resolver_handler (first : Handler (Heap * System)) : option (Handler System) → Handler System :=
  counted (via with_heap put_heap
    (λ s, ResolverManager_HandleQuery (CNameHandler_Resolve (sy_indirect s) first))).

(** ** Reloading *)

(** What a reload meets: files, the parsers of the library, the masters of zones, the
    resolution of addresses, and the orders of map iterations. *)
Record ReloadEnv : Type := mkReloadEnv {
  re_readFile : string → string + string;
  re_RRsetFromString : string → string + RRset;
  re_dial : string → string + list (string + Message);
  re_resolve : string → option string;
  re_opens : bool;
  re_keys : list string;
  re_views : list string;
  re_roots : list (string * string);
}.

Context (re : ReloadEnv).

(** A reload of one part; a panic leaves the part as it was. *)
Definition reload_part {A} (put : A → System → System) (f : System → outcome A) (s : System)
  : System * outcome unit :=
  match f s with
  | Ret x => (put x s, Ret tt)
  | Panic why => (s, Panic why)
  | Hang why => (s, Hang why)
  end.

Definition then_reload (f g : System → System * outcome unit) (s : System) : System * outcome unit :=
  match f s with
  | (s, Ret _) => g s
  | r => r
  end.

(** The names of [view.GetViewAndIds()], in the order of the iteration. *)
Definition view_names (s : System) : list string :=
  base.filter (λ v, is_Some (sm_viewAndIds (sy_views s) !! v)) (re_views re).

Definition reload_querylog (conf : VanguardConf) : System → System * outcome unit :=
  let c := lgc_Querylog (vg_Logger conf) in
  reload_part set_sy_log (λ s, QueryLog_ReloadConfig (qlc_Path c) (qlc_Extension c) (re_opens re) (sy_log s)).

Definition reload_view_selector (conf : VanguardConf) (s : System) : System * outcome unit :=
  let '(mgr, r) := SelectorMgr_ReloadConfig (re_keys re) (vs_ViewAcls (vg_Views conf)) (sy_views s) in
  (set_sy_views mgr s, r).

(** [FilterChain.ReloadConfig]: the rate limits (addresses, then names), then the protector. *)
Definition reload_filter (conf : VanguardConf) : System → System * outcome unit :=
  let c := vg_Filter conf in
  then_reload
    (reload_part (λ it s, set_sy_filter (mkFilterState it (fs_name_throtter (sy_filter s)) (fs_drop (sy_filter s))) s)
       (λ s, IPThrottler_ReloadConfig ((λ l, (nrl_Network l, nrl_Limit l)) <$> flc_NetworkLimit c)
               (fs_ip_throtter (sy_filter s))))
  (then_reload
    (reload_part (λ nt s, set_sy_filter (mkFilterState (fs_ip_throtter (sy_filter s)) nt (fs_drop (sy_filter s))) s)
       (λ s, NameThrottler_ReloadConfig
               ((λ v, (dlv_View v, (λ l, (drl_Name l, drl_Limit l)) <$> dlv_DomainNameLimit v))
                  <$> flc_DomainNameLimit c) (fs_name_throtter (sy_filter s))))
    (λ s, (set_sy_filter (SFProtector_ReloadConfig (flc_DropSrvFailed c) (sy_filter s)) s, Ret tt))).

Definition reload_aaaa (conf : VanguardConf) (s : System) : System * outcome unit :=
  (set_sy_aaaa (AaaaFilter_ReloadConfig ((λ c, (afv_View c, afv_Acls c)) <$> vg_AAAAFilter conf)) s, Ret tt).

Definition reload_sortlist (conf : VanguardConf) : System → System * outcome unit :=
  reload_part set_sy_sorter (λ _,
    Sorter_ReloadConfig ((λ c, (sl_View c, sl_SourceIp c, sl_PreferredIps c)) <$> vg_SortList conf)).

Definition reload_hijack (conf : VanguardConf) : System → System * outcome unit :=
  reload_part set_sy_hijack (λ _,
    Hijack_ReloadConfig ((λ c, (hjv_View c, hjv_Redirect c)) <$> vg_Hijack conf)).

Definition reload_dns64 (conf : VanguardConf) (s : System) : System * outcome unit :=
  (set_sy_dns64 (DNS64_ReloadConfig ((λ c, (d64_View c, d64_PreAndPostfixes c)) <$> vg_DNS64 conf)) s, Ret tt).

Definition reload_cache (conf : VanguardConf) : System → System * outcome unit :=
  reload_part set_sy_caches (λ s, Cache_ReloadConfig (vg_Cache conf) (view_names s) (sy_caches s)).

Definition reload_failforwarder (conf : VanguardConf) : System → System * outcome unit :=
  reload_part set_sy_failfwd (λ s, FailForwarder_ReloadConfig (re_resolve re) (sy_sources s)
    ((λ c, (ffv_View c, ffv_Forwarder c)) <$> vg_FailForwarder conf)).

(** The reload of a resolver, by its module. *)
Definition reload_resolver_part (conf : VanguardConf) (m : string) : System → System * outcome unit :=
  if bool_decide (m = ModuleLocalData) then
    reload_part set_sy_local (λ _, FakeAuth_ReloadConfig (vg_LocalData conf))
  else if bool_decide (m = ModuleAuth) then
    reload_part set_sy_auth (λ s, Auth_ReloadConfig (re_RRsetFromString re) (re_dial re) (re_readFile re)
      (view_names s) ((λ c, (azv_View c, azv_Zones c)) <$> vg_Auth conf) (sy_auth s))
  else if bool_decide (m = ModuleStubZone) then
    reload_part set_sy_stub (λ s, Stub_ReloadConfig (view_names s)
      ((λ c, (szv_View c, (λ z, (szc_Name z, szc_Masters z)) <$> szv_Zones c)) <$> vg_Stub conf) (sy_stub s))
  else if bool_decide (m = ModuleForwarder) then
    let p := fwc_Prober (vg_Forwarder conf) in
    reload_part set_sy_fwd (λ s, ViewFwderMgr_ReloadConfig (view_names s)
      (fp_ProbeInterval p, fp_Timeout p, fp_TimeoutLasting p)
      (v ← fwc_ForwardZones (vg_Forwarder conf);
       (λ z, mkForwardZone (fzv_View v) (fzc_Name z) (fzc_Forwarders z) (fzc_ForwardStyle z)) <$> fzv_Zones v)
      (sy_fwd s))
  else
    reload_part set_sy_recursor (λ s, Recursor_ReloadConfig (re_RRsetFromString re) (re_readFile re)
      (re_roots re) (view_names s) (vg_Recursor conf) (sy_recursor s)).

(** [ResolverManager.ReloadConfig]: the query sources, the alias handler, and the enabled
    resolvers in the order of the chain. *)
Definition reload_resolver (enabled : list string) (conf : VanguardConf) (s : System) : System * outcome unit :=
  let s := set_sy_sources (QuerySource_ReloadConfig ((λ c, (qsv_View c, qsv_Address c)) <$> vg_QuerySource conf)) s in
  let s := set_sy_indirect (rsc_CheckCnameIndirect (vg_Resolver conf)) s in
  foldr (λ m k, then_reload (reload_resolver_part conf m) k) (λ s, (s, Ret tt))
    (base.filter (λ m, isModuleEnable enabled m = true)
       [ModuleLocalData; ModuleAuth; ModuleStubZone; ModuleForwarder; ModuleRecursor]) s.

(** ** The modules *)

(** The resolvers for [NewResolver]; their reload is [reload_resolver]'s. *)
Definition resolver_part (m : string) : Resolver unit (Heap * System) :=
  mkResolver
    (if bool_decide (m = ModuleStubZone) then stub_resolver
     else if bool_decide (m = ModuleForwarder) then forwarder_resolver
     else if bool_decide (m = ModuleRecursor) then recursor_resolver
     else if bool_decide (m = ModuleLocalData) then fakeauth_resolver
     else auth_resolver) (λ _ p, Ret p).

Definition system_resolver (enabled : list string) : outcome (QueryModule (Conf := VanguardConf) (S := System)) :=
  match resolver_chain enabled limit_resolver resolver_part with
  | None => Panic "empty resolver module is specified"
  | Some first => Ret (mkQueryModule (resolver_handler first) (Some (reload_resolver enabled)))
  end.

(** [supported_creators] *)
Definition system_module (m : string) : outcome (QueryModule (Conf := VanguardConf) (S := System)) :=
  if bool_decide (m = ModuleView) then Ret (mkQueryModule view_handler (Some reload_view_selector))
  else if bool_decide (m = ModuleFilter) then Ret (mkQueryModule filter_handler (Some reload_filter))
  else if bool_decide (m = ModuleCache) then Ret (mkQueryModule cache_handler (Some reload_cache))
  else if bool_decide (m = ModuleDNS64) then Ret (mkQueryModule dns64_handler (Some reload_dns64))
  else if bool_decide (m = ModuleKubernetes) then Ret (mkQueryModule k8s_handler None)
  else if bool_decide (m = ModuleFailForwarder) then
    Ret (mkQueryModule failforwarder_handler (Some reload_failforwarder))
  else if bool_decide (m = ModuleQueryLog) then Ret (mkQueryModule querylog_handler (Some reload_querylog))
  else if bool_decide (m = ModuleAAAAFilter) then Ret (mkQueryModule aaaa_handler (Some reload_aaaa))
  else if bool_decide (m = ModuleHijack) then Ret (mkQueryModule hijack_handler (Some reload_hijack))
  else if bool_decide (m = ModuleSortList) then Ret (mkQueryModule sortlist_handler (Some reload_sortlist))
  else Panic "nil module creator".

(** The handler of notifies: the response to the master and the transfer are the business
    of [Xfr]; here the table of transfers and the messages. *)
Definition system_notify (ipString : IP → string) : Handler System := λ s client,
  r ← XFRHandler_HandleQuery (sm_viewAndIds (sy_views s))
        (SelectorMgr_selectors (ev_tsig env) (sy_acl s) (sy_views s)) ipString (sy_auth s) (sy_xfr s)
        (sy_heap s) client;
  let '(t, h, client, started) := r in
  let s := set_sy_xfr t (set_sy_heap h s) in
  match started with
  | None => Ret (s, client)
  | Some (response, _) =>
      let '(l, h) := heap_alloc response (sy_heap s) in
      Ret (set_sy_heap h s, set_response (Some l) client)
  end.

(** The chain of the server. *)
Definition system_handler (ipString : IP → string) (enabled : list string)
  : outcome (list (QueryModule (Conf := VanguardConf) (S := System)) * Handler System * option (Handler System)) :=
  createHandler system_module (system_resolver enabled) (system_notify ipString) enabled.
End system.
