(* ===== verification/SystemSpec.v ===== *)
(** * What the whole chain keeps (the composition of System.v)

    A predicate on the state of the process and the client that every component's own step
    respects holds through the chain of the server, whichever modules are enabled and
    however often a handler asks the ones behind it.  The class [QueryInv] says what the
    components do to the state; its instances give the theorems: a query changes no
    configuration, it touches the cache of one view only, and the invariants of the
    components hold in every execution. *)

From S2P Require Import Prelude GoList GoStd G53 Instances Core HttpCmd Cache CacheHandler Cement Acl RateLimit ViewSelector Util Chain Forwarder Resolver Recursor Dns64 Zone Auth RecursorRun Xfr LocalData Stub RespTransfer Server QueryLog Config Main MainSpec K8s System.

Local Open Scope Z_scope.

(** ** Triples *)

(** What holds after a handler that returned. *)
Definition triple {N : G53Name} {S} (P Q : S → Client → Prop) (h : Handler S) : Prop :=
  ∀ s c s' c', P s c → h s c = Ret (s', c') → Q s' c'.

(** A handler keeps [I] if the one behind it does. *)
Definition keeps {N : G53Name} {S} (I : S → Client → Prop) (mk : option (Handler S) → Handler S) : Prop :=
  ∀ next, (∀ h, next = Some h → triple I I h) → triple I I (mk next).

Section triples.
Context {N : G53Name} {S P : Type}.

Lemma PassToNext_triple (A B : S → Client → Prop) (next : option (Handler S)) :
  (∀ s c, A s c → B s c) → (∀ h, next = Some h → triple A B h) → triple A B (PassToNext next).
Proof.
  intros HAB Hn. destruct next as [h|]; [by apply Hn|]. intros s c s' c' Ha [= <- <-]. auto.
Qed.

(** The predicate as a handler of a part sees it. *)
Definition seen (from : P → S) (A : S → Client → Prop) : P → Client → Prop := λ p c, A (from p) c.

Lemma lower_triple (to : S → P) (from : P → S) (A B : S → Client → Prop) (next : option (Handler S)) :
  (∀ s, from (to s) = s) → (∀ h, next = Some h → triple A B h) →
  ∀ h, lower to from <$> next = Some h → triple (seen from A) (seen from B) h.
Proof.
  intros Hid Hn h Hh. destruct next as [h'|]; [|done]. injection Hh as <-.
  intros p c p' c' Ha H. unfold lower in H. ret_step H. destruct r as [s1 c1]. injection H as <- <-.
  unfold seen. cbn. rewrite Hid. by eapply (Hn h').
Qed.

Lemma via_triple (to : S → P) (from : P → S) (A B : S → Client → Prop) mk next :
  (∀ s, from (to s) = s) → (∀ h, next = Some h → triple A B h) →
  (∀ s next', (∀ h, next' = Some h → triple (seen from A) (seen from B) h) →
     triple (seen from A) (seen from B) (mk s next')) →
  triple A B (via to from mk next).
Proof.
  intros Hid Hn Hmk s c s' c' Ha H. unfold via in H. ret_step H. destruct r as [p c1]. injection H as <- <-.
  cbn. eapply (Hmk s (lower to from <$> next)); [by apply lower_triple| |exact E]. unfold seen. by rewrite Hid.
Qed.

Lemma BuildQueryChain_triple (A : S → Client → Prop) mks h :
  Forall (keeps A) mks → BuildQueryChain mks = Some h → triple A A h.
Proof.
  intros Hall. revert h. induction Hall as [|mk mks Hmk Hall IH]; intros h; [done|].
  intros [= <-]. apply Hmk. apply IH.
Qed.
End triples.

(** ** What the components' steps are *)

Section laws.
Context {N : G53Name} {M : G53Msg N} {T : DomainTree N} {ZT : ZoneTree N} {R : NetRadix} {G : GoSort}.
Implicit Types (I : System → Client → Prop).

(** The client's query with another request or response, but in the same view. *)
Definition same_query (c c' : Client) : Prop :=
  c_addr c' = c_addr c ∧ c_dest c' = c_dest c ∧ c_using_tcp c' = c_using_tcp c ∧
  c_view c' = c_view c ∧ c_view_id c' = c_view_id c ∧ c_create_time c' = c_create_time c.

#[export] Instance same_query_preorder : PreOrder same_query.
Proof. split; [by intros c|]. intros a b c (?&?&?&?&?&?) (?&?&?&?&?&?). repeat split; congruence. Qed.

(** A predicate that the steps of the handlers behind the choice of the view respect. *)
Class QueryInv I : Prop := mkQueryInv {
  qi_heap h s c : I s c → I (set_sy_heap h s) c;
  qi_tick n s c : I s c → I (set_sy_tick n s) c;
  qi_client s c c' : same_query c c' → I s c → I s c';
  qi_filter now f ok s c :
    RateLimit_AllowQuery now c (sy_filter s) = Ret (f, ok) → I s c → I (set_sy_filter f s) c;
  qi_cache_get now h h' cs found s c :
    Cache_get now c h (sy_caches s) = Ret (h', cs, found) → I s c → I (set_sy_caches cs s) c;
  qi_cache_add now l h h' cs s c :
    Cache_AddMessage now (c_view c) l h (sy_caches s) = Ret (h', cs) → I s c → I (set_sy_caches cs s) c;
  qi_auth l dz mt rrs m s c :
    deref_zone l (sy_auth s) = Ret dz →
    Query_Process mt (c_request c) dz (au_rrs (sy_auth s)) = Ret (rrs, m) →
    I s c → I (set_sy_auth (set_rrs rrs (sy_auth s)) s) c;
  qi_stub sender s c : I s c → I (set_sy_stub (set_sender sender (sy_stub s)) s) c;
  qi_fwd_source t ip m err s c :
    Target_SetQuerySource t ip (sy_fwd s) = Ret (m, err) → I s c → I (set_sy_fwd m s) c;
  qi_fwd_forward t q m r s c :
    Target_Forward t q (sy_fwd s) = Ret (m, r) → I s c → I (set_sy_fwd m s) c;
  qi_recursor rounds r h h' s c c' :
    Recursor_resolver rounds (sy_recursor s) h c = Ret (r, h', c') → I s c → I (set_sy_recursor r s) c;
}.

(** A pair of predicates that the handlers before and at the choice of the view respect:
    [A] before the rest of the chain, [B] after it. *)
Class FrontInv (A B : System → Client → Prop) : Prop := mkFrontInv {
  fi_sub s c : A s c → B s c;
  fi_tick n s c : A s c → A (set_sy_tick n s) c;
  fi_heap h s c : A s c → A (set_sy_heap h s) c;
  fi_heap_after h s c : B s c → B (set_sy_heap h s) c;
  fi_request s c c' : same_query c c' → A s c → A s c';
  fi_request_after s c c' : same_query c c' → B s c → B s c';
  fi_log l s c : B s c → B (set_sy_log l s) c;
  fi_k8s z rrs m s c :
    Query_Process ClosestEncloser (c_request c) (ka_zone z (sy_k8s s)) (ka_rrs (sy_k8s s)) = Ret (rrs, m) →
    A s c → A (set_sy_k8s (ka_set z rrs (ka_zone z (sy_k8s s)) (sy_k8s s)) s) c;
  fi_view v id s c : A s c → A s (set_view v id c);
}.
End laws.

(** ** The handlers of the components *)

Section handlers.
Context {N : G53Name} {M : G53Msg N} {T : DomainTree N} {ZT : ZoneTree N} {R : NetRadix} {G : GoSort}.
Context (I : System → Client → Prop) `{QI : !QueryInv I}.

(** Closes a goal that the client and the heap do not matter for. *)
Ltac frame := unfold seen in *; cbn in *;
  solve [ eauto using qi_client | eapply qi_client; [|eauto]; by repeat split | done ].

Lemma counted_keeps mk : keeps I mk → keeps I (counted mk).
Proof. intros Hmk next Hn s c s' c' Hi H. eapply (Hmk next Hn); [|exact H]. by apply qi_tick. Qed.

Lemma via_keeps {P} (to : System → P) (from : P → System) mk :
  (∀ s, from (to s) = s) → (∀ s, keeps (seen from I) (mk s)) → keeps I (via to from mk).
Proof. intros Hid Hmk next Hn. apply via_triple; [done|done|]. intros s next' Hn'. by apply Hmk. Qed.

Lemma with_heap_id s : put_heap (with_heap s) = s.
Proof. by destruct s. Qed.

Lemma filter_keeps env : keeps I (filter_handler env).
Proof.
  apply counted_keeps, via_keeps; [by intros []|]. intros s0 next Hn [[fs h] w] c s' c' Hi H.
  unfold FilterChain_HandleQuery in H. ret_step H. destruct r as [fs1 ok].
  assert (seen (λ p, set_sy_filter p.1.1 (set_sy_heap p.1.2 p.2)) I (fs1, h, w) c) as Hi1
    by exact (qi_filter _ _ _ (set_sy_filter fs (set_sy_heap h w)) c E Hi).
  destruct (negb ok); [by injection H as <- <-|]. ret_step H. destruct r as [[[fs2 h2] w2] c2].
  apply (PassToNext_triple _ _ next (λ _ _ H, H) Hn _ _ _ _ Hi1) in E0. ret_step H.
  destruct r; injection H as <- <-; [done|]. frame.
Qed.

Lemma cache_keeps env : keeps I (cache_handler env).
Proof.
  apply counted_keeps, via_keeps; [by intros []|]. intros s0 next Hn [[cs h] w] c s' c' Hi H.
  unfold Cache_HandleQuery in H. ret_step H. destruct r as [[h1 cs1] found].
  assert (seen (λ p, set_sy_caches p.1.1 (set_sy_heap p.1.2 p.2)) I (cs1, h1, w) c) as Hi1.
  { pose proof (qi_cache_get _ _ _ _ _ (set_sy_caches cs (set_sy_heap h w)) c E Hi) as Hi1.
    exact (qi_heap h1 _ _ Hi1). }
  destruct found as [l|].
  - ret_step H. destruct (heap_alloc _ _) as [l' h2]. injection H as <- <-.
    assert (I (set_sy_heap h2 (set_sy_caches cs1 (set_sy_heap h1 w))) c) by by apply qi_heap. frame.
  - ret_step H. destruct r as [[[cs2 h2] w2] c2].
    apply (PassToNext_triple _ _ next (λ _ _ H, H) Hn) in E0; [|frame].
    destruct (c_response c2) as [l|]; [|by injection H as <- <-].
    destruct (c_cache_answer c2); [|by injection H as <- <-]. ret_step H. destruct r as [h3 cs3].
    injection H as <- <-.
    pose proof (qi_cache_add _ _ _ _ _ (set_sy_caches cs2 (set_sy_heap h2 w2)) c2 E1 E0) as Hi3.
    exact (qi_heap h3 _ _ Hi3).
Qed.

(** Handlers that change messages and the client's request and response only: their
    predicate is the one of the state with any heap. *)
Definition heap_seen : Heap * System → Client → Prop := seen put_heap I.

Lemma heap_seen_heap h h' w c : heap_seen (h, w) c → heap_seen (h', w) c.
Proof. intros Hi. exact (qi_heap h' _ _ Hi). Qed.

Lemma heap_seen_client h w c c' : same_query c c' → heap_seen (h, w) c → heap_seen (h, w) c'.
Proof. intros Hc Hi. exact (qi_client _ _ _ Hc Hi). Qed.

Lemma heap_seen_any h h' w c c' : same_query c c' → heap_seen (h, w) c → heap_seen (h', w) c'.
Proof. intros Hc Hi. eapply heap_seen_heap, heap_seen_client; [exact Hc|exact Hi]. Qed.

Lemma transfer_keeps (transfer : System → Heap → Client → outcome (Heap * Client)) :
  (∀ w h c h' c', transfer w h c = Ret (h', c') → same_query c c') →
  keeps heap_seen (transferAdaptor_HandleQuery transfer).
Proof.
  intros Ht next Hn [h w] c s' c' Hi H. unfold transferAdaptor_HandleQuery in H. ret_step H.
  destruct r as [[h1 w1] c1]. apply (PassToNext_triple _ _ next (λ _ _ H, H) Hn _ _ _ _ Hi) in E.
  ret_step H. destruct r as [h2 c2]. injection H as <- <-. apply Ht in E0.
  by eapply heap_seen_any.
Qed.

Lemma failforwarder_keeps env : keeps I (failforwarder_handler env).
Proof.
  apply counted_keeps, via_keeps; [by intros []|]. intros s0 next Hn [[ff h] w] c s' c' Hi H.
  unfold FailForwarder_HandleQuery in H. destruct (FailForwarder_GetForwarder _ _) as [f|].
  - destruct (ev_ask _ _ _ _) as [err|response]; [by injection H as <- <-|].
    destruct (heap_alloc _ _) as [l h2]. injection H as <- <-.
    assert (I (set_sy_heap h2 (set_sy_failfwd ff (set_sy_heap h w))) c) by by apply qi_heap. frame.
  - by eapply (PassToNext_triple _ _ next (λ _ _ H, H) Hn).
Qed.
(** *** Handlers that change responses *)

Lemma AaaaFilter_same am f h c h' c' :
  AaaaFilter_TransferResponse am f h c = Ret (h', c') → same_query c c'.
Proof.
  unfold AaaaFilter_TransferResponse. intros H. ret_step H. destruct r; [|by injection H as <- <-].
  destruct (c_response c); [|by injection H as <- <-]. ret_step H. destruct (_ =? _); by injection H as <- <-.
Qed.

Lemma SortList_same sorter h c h' c' :
  SortList_TransferResponse sorter h c = Ret (h', c') → same_query c c'.
Proof.
  unfold SortList_TransferResponse. intros H. destruct (c_response c); [|by injection H as <- <-].
  ret_step H. ret_step H. by injection H as <- <-.
Qed.

Lemma ResponseWithLocalData_same ld h c h' c' found :
  ResponseWithLocalData ld h c = Ret (h', c', found) → same_query c c'.
Proof.
  unfold ResponseWithLocalData. intros H. destruct (ld_policies ld !! c_view c); [|by injection H as <- <- <-].
  ret_step H. destruct (dt_SearchParents r d). ret_step H. destruct r0 as [h1 [l1|]]; by injection H as <- <- <-.
Qed.

Lemma Hijack_same ld h c h' c' : Hijack_TransferResponse ld h c = Ret (h', c') → same_query c c'.
Proof.
  unfold Hijack_TransferResponse. intros H. ret_step H. destruct r; [|by injection H as <- <-].
  ret_step H. destruct r as [[h1 c1] found]. injection H as <- <-. by eapply ResponseWithLocalData_same.
Qed.

Lemma adaptor_keeps (transfer : System → Heap → Client → outcome (Heap * Client)) :
  (∀ w h c h' c', transfer w h c = Ret (h', c') → same_query c c') →
  keeps I (counted (via with_heap put_heap (λ _, transferAdaptor_HandleQuery transfer))).
Proof.
  intros Ht. apply counted_keeps, via_keeps; [apply with_heap_id|]. intros _. by apply transfer_keeps.
Qed.

Lemma dns64_keeps : keeps I dns64_handler.
Proof.
  apply counted_keeps, via_keeps; [apply with_heap_id|]. intros s0 next Hn [h w] c s' c' Hi H.
  unfold DNS64_HandleQuery in H. ret_step H. destruct r as [[h1 w1] c1].
  pose proof (PassToNext_triple _ _ next (λ _ _ H, H) Hn) as Hpass.
  apply (Hpass _ _ _ _ Hi) in E. ret_step H. destruct (negb r); [by injection H as <- <-|].
  ret_step H. ret_step H. destruct r1 as [[h2 w2] c2]. unfold queryARecord in E2. do 4 ret_step E2.
  apply Hpass in E2; [|by eapply heap_seen_client, E].
  unfold synthesizeDNS64Response in H. destruct (c_response (set_request _ c2)).
  - do 3 ret_step H. injection H as <- <-. by eapply heap_seen_any, E2.
  - injection H as <- <-. by eapply heap_seen_any, E2.
Qed.

(** *** The resolvers *)

Lemma count_call_keeps mk : keeps heap_seen mk → keeps heap_seen (counted_resolver mk).
Proof.
  intros Hmk next Hn [h w] c s' c' Hi H. eapply (Hmk next Hn); [|exact H].
  exact (qi_tick _ _ _ Hi).
Qed.

Lemma via_resolver_keeps {P} (to : Heap * System → P) (from : P → Heap * System) mk :
  (∀ s, from (to s) = s) → (∀ s, keeps (seen from heap_seen) (mk s)) → keeps heap_seen (via to from mk).
Proof. intros Hid Hmk next Hn. apply via_triple; [done|done|]. intros s next' Hn'. by apply Hmk. Qed.

Lemma Resolver_PassToNext_triple {S} (A : S → Client → Prop) next :
  (∀ h, next = Some h → triple A A h) → triple A A (Resolver_PassToNext next).
Proof. intros Hn. by apply (PassToNext_triple A A next). Qed.

Lemma stub_keeps env : keeps heap_seen (stub_resolver env).
Proof.
  apply count_call_keeps, via_resolver_keeps; [by intros [? []]|].
  intros s0 next Hn [[[z qs] h] w] c s' c' Hi H. unfold Stub_Resolve in H.
  destruct (NewUDPSender _ _ _) as [err|sender]; [by injection H as <- <-|].
  assert (seen (λ p, (p.1.2, set_sy_stub p.1.1.1 (set_sy_sources p.1.1.2 p.2))) heap_seen
            (set_sender sender z, qs, h, w) c) as Hi1.
  { exact (qi_stub sender (set_sy_heap h (set_sy_stub z (set_sy_sources qs w))) c Hi). }
  ret_step H. destruct r; [by injection H as <- <-|]. ret_step H.
  destruct (getMasters _ _ _) as [[masters|] sr].
  - ret_step H. destruct (heap_alloc _ _) as [l h2]. injection H as <- <-. eapply heap_seen_any, Hi1. by repeat split.
  - eapply Resolver_PassToNext_triple; [exact Hn|exact Hi1|exact H].
Qed.

Lemma processRequest_keeps (m : ViewFwderMgr) qs h (w : System) c m' qs' h' w' c' :
  let from := λ p : ViewFwderMgr * QuerySources * Heap * System,
    (p.1.2, set_sy_fwd p.1.1.1 (set_sy_sources p.1.1.2 p.2)) in
  seen from heap_seen (m, qs, h, w) c → Forwarder_processRequest (m, qs, h, w) c = Ret ((m', qs', h', w'), c') →
  seen from heap_seen (m', qs', h', w') c'.
Proof.
  intros from Hi H. unfold Forwarder_processRequest in H. ret_step H.
  destruct (ViewFwderMgr_GetFwder _ _ _) as [t|]; [|by injection H as <- <- <- <- <-].
  ret_step H. destruct r0 as [m1 err].
  pose proof (qi_fwd_source _ _ _ _ (set_sy_heap h (set_sy_fwd m (set_sy_sources qs w))) c E0 Hi) as Hi1.
  destruct err; [by injection H as <- <- <- <- <-|]. ret_step H. destruct r0 as [m2 [[resp rtt] err]].
  pose proof (qi_fwd_forward _ _ _ _ (set_sy_heap h (set_sy_fwd m1 (set_sy_sources qs w))) c E1 Hi1) as Hi2.
  ret_step H. destruct err as [e|]; [by injection H as <- <- <- <- <-|].
  destruct resp as [resp|]; [destruct (heap_alloc _ _) as [l h2]|]; injection H as <- <- <- <- <-.
  - (refine (heap_seen_any h h2 (set_sy_fwd m2 (set_sy_sources qs w)) c _ _ Hi2); by repeat split).
  - (refine (heap_seen_client h (set_sy_fwd m2 (set_sy_sources qs w)) c _ _ Hi2); by repeat split).
Qed.

Lemma forwarder_keeps : keeps heap_seen forwarder_resolver.
Proof.
  apply count_call_keeps, via_resolver_keeps; [by intros [? []]|].
  intros s0 next Hn [[[m qs] h] w] c s' c' Hi H. unfold Forwarder_Resolve in H. ret_step H.
  destruct r; [by injection H as <- <-|]. ret_step H. destruct r as [[[[m1 qs1] h1] w1] c1].
  apply (processRequest_keeps _ _ _ _ _ _ _ _ _ _ Hi) in E0.
  destruct (c_response c1) as [l|]; [|by eapply Resolver_PassToNext_triple].
  ret_step H. injection H as <- <-. eapply heap_seen_any, E0. by repeat split.
Qed.

Lemma Recursor_resolver_same rounds (r : Recursor) h c r' h' c' :
  Recursor_resolver rounds r h c = Ret (r', h', c') → same_query c c'.
Proof.
  unfold Recursor_resolver. intros H. destruct (getCtx _) as [[slot pool]|]; [|by injection H as <- <- <-].
  do 5 ret_step H. destruct r4 as [[nc x] [err|response]]; [by injection H as <- <- <-|].
  destruct (heap_alloc _ _). by injection H as <- <- <-.
Qed.

Lemma recursor_keeps env : keeps heap_seen (recursor_resolver env).
Proof.
  apply count_call_keeps, via_resolver_keeps; [by intros [? []]|].
  intros s0 next Hn [[rc h] w] c s' c' Hi H. unfold Recursor_Resolve in H. ret_step H.
  destruct r as [[r1 h1] c1].
  assert (seen (λ p, (p.1.2, set_sy_recursor p.1.1 p.2)) heap_seen (r1, h1, w) c1) as Hi1.
  { destruct (from_option id false _); [|by injection E as <- <- <-]. ret_step E. destruct r as [[r2 h2] c2].
    pose proof (Recursor_resolver_same _ _ _ _ _ _ _ E0) as Hc.
    pose proof (qi_recursor _ _ _ _ (set_sy_heap h (set_sy_recursor rc w)) c c2 E0 Hi) as Hi2.
    destruct (c_response c2); [ret_step E|]; injection E as <- <- <-;
      exact (heap_seen_any h _ (set_sy_recursor r2 w) c c2 Hc Hi2). }
  destruct (c_response c1); [by injection H as <- <-|].
  eapply Resolver_PassToNext_triple; [exact Hn|exact Hi1|exact H].
Qed.

Lemma fakeauth_keeps : keeps heap_seen fakeauth_resolver.
Proof.
  apply count_call_keeps. intros next Hn [h w] c s' c' Hi H. unfold FakeAuth_Resolve in H. ret_step H.
  destruct r as [[h1 c1] found]. apply ResponseWithLocalData_same in E.
  pose proof (heap_seen_any h h1 w c c1 E Hi) as Hi1.
  destruct found; [|by eapply Resolver_PassToNext_triple]. injection H as <- <-. eapply heap_seen_client, Hi1.
  by repeat split.
Qed.

Lemma auth_keeps : keeps heap_seen auth_resolver.
Proof.
  apply count_call_keeps, via_resolver_keeps; [by intros [? []]|].
  intros s0 next Hn [h [au w]] c s' c' Hi H. unfold AuthDataSource_Resolve in H. ret_step H.
  destruct (GetZone _ _ _) as [finder mt].
  assert (∀ mt, (l ← from_option_panic "nil pointer dereference: zone" finder;
       dz ← deref_zone l au;
       r ← Query_Process mt (c_request c) dz (au_rrs au);
       let '(rrs, response) := r in
       let '(lr, heap) := heap_alloc response h in
       let client := set_response (Some lr) c in
       let s := (heap, (set_rrs rrs au, w)) in
       kind ← ClassifyResponse response;
       if decide (kind = REFERRAL) then Resolver_PassToNext next s client
       else Ret (s, set_cache_answer false client)) = Ret (s', c') →
     seen (λ p, (p.1, set_sy_auth p.2.1 p.2.2)) heap_seen s' c') as Hfound.
  { clear H. intros mt' H. ret_step H. ret_step H. ret_step H. destruct r2 as [rrs response].
    pose proof (qi_auth _ _ _ _ _ (set_sy_heap h (set_sy_auth au w)) c E1 E2 Hi) as Hi1.
    destruct (heap_alloc _ _) as [lr h2]. cbv zeta in H. ret_step H.
    assert (seen (λ p, (p.1, set_sy_auth p.2.1 p.2.2)) heap_seen (h2, (set_rrs rrs au, w)) (set_response (Some lr) c)) as Hi2
      by (refine (heap_seen_any h h2 (set_sy_auth (set_rrs rrs au) w) c _ _ Hi1); by repeat split).
    destruct (decide _); [eapply Resolver_PassToNext_triple; [exact Hn|exact Hi2|exact H]|].
    injection H as <- <-. eapply heap_seen_client, Hi2. by repeat split. }
  destruct mt; [by eapply Hfound..|]. eapply Resolver_PassToNext_triple; [exact Hn|exact Hi|exact H].
Qed.
(** *** The alias handler, the query limit and the chain of resolvers *)

Lemma followCNameChain_keeps fuel indirect resolver ctx h w c s' ctx' c' :
  triple heap_seen heap_seen resolver → heap_seen (h, w) c →
  followCNameChain fuel indirect resolver ctx (h, w) c = Ret (s', ctx', c') → heap_seen s' c'.
Proof.
  intros Hr. revert ctx h w c. induction fuel as [|fuel IH]; intros ctx h w c Hi H; [done|].
  cbn [followCNameChain] in H. ret_step H. destruct r as [[ctx1 c1] tooLong].
  assert (same_query c c1) as Hc.
  { unfold makeRedirectQuery in E. destruct (_ <? _); [by injection E as <- <- <-|]. ret_step E.
    by injection E as <- <- <-. }
  pose proof (heap_seen_client _ _ _ _ Hc Hi) as Hi1. destruct tooLong; [by injection H as <- <- <-|].
  ret_step H. destruct r as [[h2 w2] c2]. apply (Hr _ _ _ _ Hi1) in E0. ret_step H. destruct r as [nextName|].
  - ret_step H. ret_step H. destruct (addRedirect nextName ctx1) as [ctx2 circle].
    pose proof (heap_seen_heap _ r0 _ _ E0) as Hi2. destruct circle; [by injection H as <- <- <-|]. by eapply IH.
  - ret_step H. injection H as <- <- <-. by eapply heap_seen_heap.
Qed.

Lemma cname_keeps indirect resolver :
  triple heap_seen heap_seen resolver → triple heap_seen heap_seen (CNameHandler_Resolve indirect resolver).
Proof.
  intros Hr [h w] c s' c' Hi H. unfold CNameHandler_Resolve in H. ret_step H. destruct r as [[h1 w1] c1].
  apply (Hr _ _ _ _ Hi) in E. ret_step H. destruct r as [nextName|]; [|by injection H as <- <-].
  do 3 ret_step H. destruct (addRedirect nextName r1) as [ctx x]. ret_step H. destruct r2 as [[[h2 w2] ctx2] c2].
  apply (followCNameChain_keeps _ _ _ _ _ _ _ _ _ _ Hr (heap_seen_heap _ r _ _ E)) in E4.
  unfold assembleFinalResponse in H. ret_step H. injection H as <- <-. eapply heap_seen_any, E4. by repeat split.
Qed.

Lemma limit_keeps flights resolver :
  triple heap_seen heap_seen resolver → triple heap_seen heap_seen (QueryLimit_Resolve flights resolver).
Proof.
  intros Hr. induction flights as [|f flights IH]; intros [h w] c s' c' Hi H; cbn [QueryLimit_Resolve] in H;
    ret_step H; [done|]. destruct f as [|resp cacheAnswer|err]; [by eapply Hr| |by injection H as <- <-].
  destruct (c_response c); [by injection H as <- <-|]. destruct resp as [l|]; [|by injection H as <- <-].
  do 3 ret_step H. destruct (Name_Equals _ _); [|by eapply IH].
  destruct (heap_alloc _ _) as [l' h2]. injection H as <- <-. eapply heap_seen_any, Hi. by repeat split.
Qed.

Lemma limit_resolver_keeps env first :
  triple heap_seen heap_seen first → triple heap_seen heap_seen (limit_resolver env first).
Proof.
  intros Hf [h w] c s' c' Hi H. unfold limit_resolver in H. eapply limit_keeps; [exact Hf| |exact H].
  exact (qi_tick _ _ _ Hi).
Qed.

Lemma BuildResolverChain_keeps {Conf} (rs : list (Resolver Conf (Heap * System))) first :
  Forall (λ r, keeps heap_seen (r_Resolve r)) rs → BuildResolverChain rs = Some first →
  triple heap_seen heap_seen first.
Proof.
  intros Hall. revert first. induction Hall as [|r rs Hr Hall IH]; intros first; [done|].
  intros [= <-]. apply Hr. apply IH.
Qed.

Lemma resolver_part_keeps env m : keeps heap_seen (r_Resolve (resolver_part env m)).
Proof.
  unfold resolver_part. cbn.
  repeat destruct (bool_decide _);
    auto using stub_keeps, forwarder_keeps, recursor_keeps, fakeauth_keeps, auth_keeps.
Qed.

Lemma pick_keeps env (b : bool) m :
  Forall (λ r, keeps heap_seen (r_Resolve r)) (if b then [resolver_part env m] else []).
Proof. destruct b; repeat constructor. apply resolver_part_keeps. Qed.

Lemma resolver_chain_keeps env enabled first :
  resolver_chain enabled (limit_resolver env) (resolver_part env) = Some first →
  triple heap_seen heap_seen first.
Proof.
  unfold resolver_chain. intros H. eapply BuildResolverChain_keeps; [|exact H]. clear H.
  apply Forall_app; split; [apply pick_keeps|]. apply Forall_app; split; [apply pick_keeps|].
  destruct (BuildResolverChain _) as [up|] eqn:E; [|constructor]. constructor; [|constructor].
  cbn. intros _ _. apply limit_resolver_keeps. eapply BuildResolverChain_keeps; [|exact E].
  apply Forall_app; split; [apply pick_keeps|]. apply Forall_app; split; apply pick_keeps.
Qed.

Lemma resolver_keeps env enabled first :
  resolver_chain enabled (limit_resolver env) (resolver_part env) = Some first → keeps I (resolver_handler first).
Proof.
  intros Hf. apply counted_keeps, via_keeps; [apply with_heap_id|]. intros s0 next Hn [h w] c s' c' Hi H.
  unfold ResolverManager_HandleQuery in H. ret_step H. destruct r as [s1 c1].
  eapply cname_keeps in E; [|by eapply resolver_chain_keeps|exact Hi].
  destruct (c_response c1); [by injection H as <- <-|]. eapply (PassToNext_triple _ _ next (λ _ _ H, H) Hn); eauto.
Qed.
End handlers.

(** ** The handlers up to the choice of the view *)

Section front.
Context {N : G53Name} {M : G53Msg N} {T : DomainTree N} {ZT : ZoneTree N} {R : NetRadix} {G : GoSort}.
Context (A B : System → Client → Prop) `{FI : !FrontInv A B}.

Definition passes (mk : option (Handler System) → Handler System) : Prop :=
  ∀ next, (∀ h, next = Some h → triple A B h) → triple A B (mk next).

Lemma counted_passes mk : passes mk → passes (counted mk).
Proof. intros Hmk next Hn s c s' c' Ha H. eapply (Hmk next Hn); [|exact H]. by apply fi_tick. Qed.

Lemma querylog_passes env : passes (querylog_handler env).
Proof.
  apply counted_passes. intros next Hn. apply via_triple; [by intros []|done|].
  intros s0 next' Hn' [[h l] w] c s' c' Ha H. unfold QueryLog_HandleQuery in H. ret_step H.
  destruct r as [[[h1 l1] w1] c1].
  apply (PassToNext_triple _ _ next' (λ s c, fi_sub _ c) Hn' _ _ _ _ Ha) in E. ret_step H. injection H as <- <-.
  exact (fi_log r _ _ E).
Qed.

Lemma view_passes env : passes (view_handler env).
Proof.
  apply counted_passes. intros next Hn. apply via_triple; [apply with_heap_id|done|].
  intros s0 next' Hn' [h w] c s' c' Ha H. unfold SelectorMgr_HandleQuery in H. ret_step H.
  destruct r as [[h1 c1] found]. eapply (PassToNext_triple _ _ next' (λ s c, fi_sub _ c) Hn'); [|exact H].
  assert (∀ h v c, seen put_heap A (h, w) c → ∀ id, seen put_heap A (h, w) (set_view v id c)) as Hview
    by (intros ? ? ? Hs id; exact (fi_view _ id _ _ Hs)).
  unfold SelectorMgr_SelectView in E. ret_step E. destruct r as [[h2 c2] v].
  enough (seen put_heap A (h2, w) c2) as Hs2.
  { destruct (bool_decide _); injection E as <- <- <-; [by apply Hview|done]. }
  clear E. cbn in E0. ret_step E0. ret_step E. injection E as <-. destruct r0 as [v0|].
  { injection E0 as <- <- <-. done. }
  ret_step E0. destruct r as [[h3 c3] v3]. assert (seen put_heap A (h3, w) c3) as Ha3.
  - unfold TSIGKeyBasedView_ViewForQuery in E. destruct (m_tsig (c_request c)); [|by injection E as <- <- <-].
    destruct (prepare_response h c) as [[h4 c4] l] eqn:Ep.
    assert (same_query c c4) as Hc.
    { unfold prepare_response in Ep. destruct (c_response c); [by injection Ep as <- <- <-|].
      destruct (heap_alloc _ _). by injection Ep as <- <- <-. }
    ret_step E. assert (∀ h, seen put_heap A (h, w) c4) as Hany.
    { intros h'. exact (fi_heap h' _ _ (fi_request _ _ _ Hc Ha)). }
    repeat case_match; try (injection E as <- <- <-; apply Hany); discriminate E.
  - destruct v3; injection E0 as <- <- <-; done.
Qed.

Lemma k8s_passes : passes k8s_handler.
Proof.
  apply counted_passes. intros next Hn. apply via_triple; [by intros []|done|].
  intros s0 next' Hn' [h [a w]] c s' c' Ha H. unfold K8s_HandleQuery in H. ret_step H.
  destruct r as [[[l s1] c1]|];
    [|eapply (PassToNext_triple _ _ next' (λ s c, fi_sub _ c) Hn'); [exact Ha|exact H]].
  unfold K8s_resolve in E. ret_step E. destruct (zone_for _ a) as [z|]; [|done]. ret_step E.
  destruct r0 as [rrs m]. destruct (heap_alloc m h) as [l' h']. injection E as <- <- <-.
  pose proof (fi_k8s z rrs m (set_sy_k8s a (set_sy_heap h w)) c E1 Ha) as Ha1. cbn in Ha1.
  assert (∀ h'' c'', same_query c c'' → seen (λ p, set_sy_k8s p.2.1 (set_sy_heap p.1 p.2.2)) A
            (h'', (ka_set z rrs (ka_zone z a) a, w)) c'') as Ha2.
  { intros h'' c'' Hc. exact (fi_request _ _ _ Hc (fi_heap h'' _ _ Ha1)). }
  ret_step H. ret_step H. destruct r1; [|injection H as <- <-; refine (fi_sub _ _ (Ha2 _ _ _)); by repeat split].
  unfold K8s_redirectQuery in H. do 5 ret_step H. ret_step H. destruct r6 as [[h5 [a5 w5]] c5].
  apply (PassToNext_triple _ _ next' (λ s c, fi_sub _ c) Hn') in E8; [|apply Ha2; by repeat split].
  destruct (c_response c5); [|by injection H as <- <-]. ret_step H. ret_step H. injection H as <- <-.
  refine (fi_request_after _ c5 _ _ (fi_heap_after r6 _ _ E8)). by repeat split.
Qed.
End front.

(** ** The chain of the server *)

Section whole.
Context {N : G53Name} {M : G53Msg N} {T : DomainTree N} {ZT : ZoneTree N} {R : NetRadix} {G : GoSort}.
Context (env : Env) (re : ReloadEnv) (ipString : IP → string).

Definition front_modules : list string := [ModuleQueryLog; ModuleKubernetes; ModuleView].
Definition back_modules : list string :=
  [ModuleFilter; ModuleAAAAFilter; ModuleSortList; ModuleHijack; ModuleDNS64; ModuleCache; ModuleResolver;
   ModuleFailForwarder].

Abbreviation made enabled := (make (system_module env re) (system_resolver env re enabled)).

Lemma front_passes A B `{!FrontInv A B} enabled m qm :
  m ∈ front_modules → made enabled m = Ret qm → passes A B (qm_HandleQuery qm).
Proof.
  unfold front_modules. rewrite !elem_of_cons, elem_of_nil. intros [->|[->|[->|[]]]] H; cbn in H; injection H as <-; cbn.
  - apply querylog_passes, _.
  - apply k8s_passes, _.
  - apply view_passes, _.
Qed.

Lemma back_keeps I `{!QueryInv I} enabled m qm :
  m ∈ back_modules → made enabled m = Ret qm → keeps I (qm_HandleQuery qm).
Proof.
  unfold back_modules. rewrite !elem_of_cons, elem_of_nil.
  intros [->|[->|[->|[->|[->|[->|[->|[->|[]]]]]]]]] H; cbn in H.
  - injection H as <-. apply filter_keeps, _.
  - injection H as <-. apply adaptor_keeps; [apply _|]. intros. by eapply AaaaFilter_same.
  - injection H as <-. apply adaptor_keeps; [apply _|]. intros. by eapply SortList_same.
  - injection H as <-. apply adaptor_keeps; [apply _|]. intros. by eapply Hijack_same.
  - injection H as <-. apply dns64_keeps, _.
  - injection H as <-. apply cache_keeps, _.
  - unfold system_resolver in H. destruct (resolver_chain _ _ _) as [first|] eqn:E; [|done].
    injection H as <-. by eapply resolver_keeps.
  - injection H as <-. apply failforwarder_keeps, _.
Qed.

Lemma chain_passes A B fronts backs first :
  Forall (passes A B) fronts → (∀ s c, A s c → B s c) →
  (∀ h, BuildQueryChain backs = Some h → triple A B h) →
  BuildQueryChain (fronts ++ backs) = Some first → triple A B first.
Proof.
  intros Hall Hsub Hback. revert first. induction Hall as [|mk fronts Hmk Hall IH]; intros first; [apply Hback|].
  intros [= <-]. apply Hmk. apply IH.
Qed.

Lemma mapM_made enabled (P : QueryModule → Prop) ms hs :
  (∀ m qm, m ∈ ms → made enabled m = Ret qm → P qm) → mapM (made enabled) ms = Ret hs → Forall P hs.
Proof.
  revert hs. induction ms as [|m ms IH]; intros hs HP; [by intros [= <-]|]. rewrite mapM_cons_make.
  intros H. ret_step H. ret_step H. injection H as <-. constructor.
  - eapply HP; [by left|done].
  - apply IH; [|done]. intros m' qm Hm. apply HP. by right.
Qed.

Lemma mapM_made_app enabled ms1 ms2 hs :
  mapM (made enabled) (ms1 ++ ms2) = Ret hs →
  ∃ hs1 hs2, hs = hs1 ++ hs2 ∧ mapM (made enabled) ms1 = Ret hs1 ∧ mapM (made enabled) ms2 = Ret hs2.
Proof.
  revert hs. induction ms1 as [|m ms1 IH]; intros hs H; [by exists [], hs|]. cbn [app] in H.
  rewrite mapM_cons_make in H. ret_step H. ret_step H. injection H as <-.
  destruct (IH _ E0) as (hs1 & hs2 & -> & E1 & E2). exists (r :: hs1), hs2. split_and!; [done| |done].
  by rewrite mapM_cons_make, E, bind_Ret, E1.
Qed.

(** What the predicates of the front and of the back have to do with each other. *)
Definition links (A B : System → Client → Prop) : Prop :=
  ∀ s c, A s c → ∃ I, QueryInv I ∧ I s c ∧ ∀ s' c', I s' c' → B s' c'.

(** The front of the chain takes care of itself. *)
Lemma system_front A B `{!FrontInv A B} enabled handlers first notify :
  (∀ hs h, mapM (made enabled) (base.filter (wanted enabled) back_modules) = Ret hs →
     BuildQueryChain (qm_HandleQuery <$> hs) = Some h → triple A B h) →
  system_handler env re ipString enabled = Ret (handlers, first, notify) → triple A B first.
Proof.
  intros Hback H. unfold system_handler in H. destruct (decide (Forall known enabled)) as [Hk|Hk].
  2:{ destruct (read_modules_unknown (system_module env re) enabled ∅ false Hk) as (m & _ & _ & E).
      unfold createHandler in H. by rewrite E in H. }
  rewrite (createHandler_eq _ _ _ _ Hk) in H. ret_step H.
  destruct (BuildQueryChain _) as [f|] eqn:Ef; [|done]. injection H as <- <- _.
  unfold chain_modules in E. change moduleInOrder with (front_modules ++ back_modules) in E.
  rewrite filter_app in E. apply mapM_made_app in E as (hs1 & hs2 & -> & E1 & E2). rewrite fmap_app in Ef.
  eapply chain_passes; [|apply fi_sub| |exact Ef].
  - apply Forall_fmap. eapply mapM_made; [|exact E1]. intros m qm [_ Hm]%list_elem_of_filter Hmk. by eapply front_passes.
  - intros h Hh. by eapply Hback.
Qed.

Lemma system_triple A B `{!FrontInv A B} enabled handlers first notify :
  links A B → system_handler env re ipString enabled = Ret (handlers, first, notify) → triple A B first.
Proof.
  intros Hlink. apply system_front; [done|]. intros hs h E Hh s c s' c' Ha Hr.
  destruct (Hlink s c Ha) as (I & HI & Hi & HB). apply HB.
  eapply (BuildQueryChain_triple I); [|exact Hh|exact Hi|exact Hr].
  apply Forall_fmap. eapply mapM_made; [|exact E]. intros m qm [_ Hm]%list_elem_of_filter Hmk. by eapply back_keeps.
Qed.
End whole.
