(* ===== verification/SystemProps.v ===== *)
(** * What a query can change, and what it cannot (the composition of System.v)

    The theorems about the whole chain that the framework of SystemSpec.v gives: a query
    changes no configuration and no data of a zone, it changes the cache of its own view
    only, it gives back the contexts of the recursor; and how a signed query spoils the
    cache for everybody. *)

From S2P Require Import Prelude GoList GoStd G53 Instances Core HttpCmd Cache CacheHandler Cement Acl RateLimit ViewSelector Util Chain Forwarder Resolver Recursor Dns64 Zone Auth RecursorRun Xfr LocalData Stub RespTransfer Server QueryLog Config Main MainSpec K8s System SystemSpec.

Local Open Scope Z_scope.

(** ** Lookups rotate record sets and add some *)

Section rotated.
Context {N : G53Name} {M : G53Msg N} {ML : G53MsgLaws M} {ZT : ZoneTree N}.

(** Every record set is still there with its data, in another order. *)
Definition rotated (h h' : gmap nat RRset) : Prop :=
  ∀ l r, h !! l = Some r → ∃ r', h' !! l = Some r' ∧ rr_name r' = rr_name r ∧ rr_type r' = rr_type r ∧
    rr_class r' = rr_class r ∧ rr_ttl r' = rr_ttl r ∧ rr_rdatas r' ≡ₚ rr_rdatas r.

#[export] Instance rotated_preorder : PreOrder rotated.
Proof.
  split; [intros h l r E; by exists r|]. intros h1 h2 h3 H12 H23 l r E.
  destruct (H12 l r E) as (r2 & E2 & A1 & A2 & A3 & A4 & A5).
  destruct (H23 l r2 E2) as (r3 & E3 & B1 & B2 & B3 & B4 & B5). exists r3.
  split_and!; [done|congruence..|by rewrite B5].
Qed.

Lemma alloc_rotated r h l h' : alloc_rr r h = (l, h') → rotated h h'.
Proof.
  unfold alloc_rr. intros [= <- <-] k s E. exists s. rewrite lookup_insert_ne; [done|].
  intros <-. apply elem_of_dom_2 in E. by apply is_fresh in E.
Qed.

Lemma rotate_rotated l h h' : rotate_rr l h = Ret h' → rotated h h'.
Proof.
  unfold rotate_rr, deref_rr. destruct l as [l|]; [|done]. cbn [from_option_panic]. rewrite !bind_Ret.
  destruct (h !! l) as [r|] eqn:E; [|done]. cbn. intros [= <-] k s Es.
  destruct (decide (k = l)) as [->|Hne]; [|exists s; by rewrite lookup_insert_ne].
  exists (RotateRdata r). rewrite lookup_insert_eq. destruct (RotateRdata_frame r) as (?&?&?&?).
  simplify_eq. split_and!; [done..|]. apply RotateRdata_perm.
Qed.

Lemma rotate_all_rotated ls h h' : rotate_all ls h = Ret h' → rotated h h'.
Proof.
  revert h. induction ls as [|l ls IH]; intros h H; cbn [rotate_all] in H; [by injection H as <-|].
  ret_step H. etrans; [by eapply rotate_rotated|by apply IH].
Qed.

Lemma synthesize_rotated name t l h h' res node : synthesize name t l h = Ret (h', res, node) → rotated h h'.
Proof.
  unfold synthesize. intros H. ret_step H. destruct (alloc_rr _ _) as [l' h1] eqn:Ea. injection H as <- <- <-.
  by eapply alloc_rotated.
Qed.

Lemma find_rotated name typ opt h z h' res node :
  MemoryZone_find name typ opt h z = Ret (h', res, node) → rotated h h'.
Proof.
  unfold MemoryZone_find. intros H. ret_step H. destruct r as [state found].
  destruct found as [x|m x superdomain|].
  - repeat case_match; injection H as <- <- <-; reflexivity.
  - destruct state as [[cut ns]|]; [injection H as <- <- <-; reflexivity|].
    destruct superdomain; [injection H as <- <- <-; reflexivity|].
    destruct (zn_wildcard x); [|injection H as <- <- <-; reflexivity]. ret_step H. ret_step H.
    destruct (r0 !! typ); [by eapply synthesize_rotated|].
    destruct (r0 !! RR_CNAME); [by eapply synthesize_rotated|]. injection H as <- <- <-; reflexivity.
  - injection H as <- <- <-; reflexivity.
Qed.

Lemma Find_rotated name typ opt h dz h' ctx : DynamicZone_Find name typ opt h dz = Ret (h', ctx) → rotated h h'.
Proof.
  unfold DynamicZone_Find. intros H. destruct (isEmpty _); [injection H as <- <-; reflexivity|].
  ret_step H. destruct r as [[h1 res] node]. ret_step H. injection H as <- <-. apply find_rotated in E.
  etrans; [exact E|]. destruct (fr_RRset res); [by eapply rotate_rotated|]. by injection E0 as <-.
Qed.

Lemma additional_rotated typ rds h z h' ls : additional_addrs typ rds h z = Ret (h', ls) → rotated h h'.
Proof.
  revert h h' ls. induction rds as [|rd rds IH]; intros h h' ls H; cbn [additional_addrs] in H;
    [injection H as <- <-; reflexivity|].
  ret_step H. ret_step H. destruct r0 as [h1 addrs]. ret_step H. destruct r0 as [h2 rest]. injection H as <- <-.
  etrans; [|by eapply IH]. destruct r as [n|]; [|by injection E0 as <- <-]. unfold getAdditioanlAddrs in E0.
  ret_step E0. destruct r as [[h3 res] node]. injection E0 as <- <-. by eapply find_rotated.
Qed.

Lemma GetAdditional_rotated ctx h h' ls : FinderCtx_GetAdditional ctx h = Ret (h', ls) → rotated h h'.
Proof.
  unfold FinderCtx_GetAdditional. intros H. destruct (fc_finder ctx) as [z|]; [|injection H as <- <-; reflexivity].
  ret_step H. destruct r as [h1 rrsets]. ret_step H. injection H as <- <-. apply rotate_all_rotated in E0.
  etrans; [|exact E0]. unfold GetAdditional in E. destruct (fr_RRset _); [|by injection E as <- <-].
  ret_step E. by eapply additional_rotated.
Qed.

Lemma addAuthAdditional_rotated dz h q h' q' : addAuthAdditional dz h q = Ret (h', q') → rotated h h'.
Proof.
  unfold addAuthAdditional. intros H. ret_step H. destruct r as [h1 ctx]. destruct (decide _); [|done].
  ret_step H. destruct r as [h2 addrs]. injection H as <- <-.
  etrans; [by eapply Find_rotated|by eapply GetAdditional_rotated].
Qed.

Lemma addSOA_rotated dz h q h' q' : addSOA dz h q = Ret (h', q') → rotated h h'.
Proof.
  unfold addSOA. intros H. ret_step H. destruct r as [h1 ctx]. destruct (decide _); [|done].
  injection H as <- <-. by eapply Find_rotated.
Qed.

(** Answering a query from a zone leaves the data of every zone. *)
Lemma Query_Process_rotated mt req dz h h' m : Query_Process mt req dz h = Ret (h', m) → rotated h h'.
Proof.
  unfold Query_Process. intros H. ret_step H. ret_step H. destruct r0 as [h1 ctx]. ret_step H.
  destruct r0 as [[[h2 q] aa] rcode]. do 3 ret_step H. injection H as <- <-.
  etrans; [by eapply Find_rotated|]. clear E0 E2 E3 E4. rename E1 into HQ. unfold Query_sections in HQ.
  destruct (fr_Type _).
  - ret_step HQ. destruct r3 as [h3 addrs]. apply GetAdditional_rotated in E0. etrans; [exact E0|].
    ret_step HQ. injection HQ as <- <- <- <-.
    destruct (_ || _); [|injection E1 as <-; reflexivity]. destruct r3. by eapply addAuthAdditional_rotated.
  - ret_step HQ. destruct r3 as [h3 addrs]. injection HQ as <- <- <- <-. by eapply GetAdditional_rotated.
  - ret_step HQ. destruct r3. injection HQ as <- <- <- <-. by eapply addSOA_rotated.
  - ret_step HQ. destruct r3. injection HQ as <- <- <- <-. by eapply addSOA_rotated.
  - by injection HQ as <- <- <- <-.
  - by injection HQ as <- <- <- <-.
Qed.
End rotated.

(** ** Configuration *)

Section config.
Context {N : G53Name} {M : G53Msg N} {ML : G53MsgLaws M} {T : DomainTree N} {ZT : ZoneTree N}
  {R : NetRadix} {G : GoSort}.

(** The parts of the state that configuration and commands set, and the data of the zones. *)
Record same_config (s0 s : System) : Prop := mkSameConfig {
  sk_views : sy_views s = sy_views s0;
  sk_acl : sy_acl s = sy_acl s0;
  sk_aaaa : sy_aaaa s = sy_aaaa s0;
  sk_sorter : sy_sorter s = sy_sorter s0;
  sk_hijack : sy_hijack s = sy_hijack s0;
  sk_dns64 : sy_dns64 s = sy_dns64 s0;
  sk_indirect : sy_indirect s = sy_indirect s0;
  sk_local : sy_local s = sy_local s0;
  sk_sources : sy_sources s = sy_sources s0;
  sk_failfwd : sy_failfwd s = sy_failfwd s0;
  sk_xfr : sy_xfr s = sy_xfr s0;
  sk_networks : te_networks (fs_ip_throtter (sy_filter s)) = te_networks (fs_ip_throtter (sy_filter s0));
  sk_names : nt_viewRecords (fs_name_throtter (sy_filter s)) = nt_viewRecords (fs_name_throtter (sy_filter s0));
  sk_drop : fs_drop (sy_filter s) = fs_drop (sy_filter s0);
  sk_zones : au_zones (sy_auth s) = au_zones (sy_auth s0) ∧ au_views (sy_auth s) = au_views (sy_auth s0) ∧
             rotated (au_rrs (sy_auth s0)) (au_rrs (sy_auth s));
  sk_cluster : (∀ z, ka_zone z (sy_k8s s) = ka_zone z (sy_k8s s0)) ∧ rotated (ka_rrs (sy_k8s s0)) (ka_rrs (sy_k8s s));
  sk_stub : sz_stubZones (sy_stub s) = sz_stubZones (sy_stub s0);
  sk_fwd : vm_fwders (sy_fwd s) = vm_fwders (sy_fwd s0) ∧ vm_repo (sy_fwd s) = vm_repo (sy_fwd s0);
  sk_recursor : rr_enabled (sy_recursor s) = rr_enabled (sy_recursor s0) ∧
                rr_ednsSubnetEnable (sy_recursor s) = rr_ednsSubnetEnable (sy_recursor s0) ∧
                rr_rootForView (sy_recursor s) = rr_rootForView (sy_recursor s0) ∧
                omap id (rr_ctxPool (sy_recursor s)) ≡ₚ omap id (rr_ctxPool (sy_recursor s0));
}.

#[export] Instance same_config_preorder : PreOrder same_config.
Proof.
  split; [intros s; split; try done; by repeat split|].
  intros s1 s2 s3 [] []. split; try congruence.
  - destruct sk_zones0 as (?&?&?), sk_zones1 as (?&?&?). split_and!; [congruence..|by etrans].
  - destruct sk_cluster0 as [? ?], sk_cluster1 as [? ?]. split; [congruence|by etrans].
  - destruct sk_fwd0, sk_fwd1. split; congruence.
  - destruct sk_recursor0 as (?&?&?&?), sk_recursor1 as (?&?&?&?). split_and!; [congruence..|by etrans].
Qed.

Lemma AllowQuery_frame now c f f' ok :
  RateLimit_AllowQuery now c f = Ret (f', ok) →
  te_networks (fs_ip_throtter f') = te_networks (fs_ip_throtter f) ∧
  nt_viewRecords (fs_name_throtter f') = nt_viewRecords (fs_name_throtter f) ∧ fs_drop f' = fs_drop f.
Proof.
  unfold RateLimit_AllowQuery. intros H. ret_step H. ret_step H. destruct r0 as [it ok1].
  assert (te_networks it = te_networks (fs_ip_throtter f)) as Hnet.
  { unfold IPThrottler_IsIPAllowed, throttlerEntry_isIpAllowed in E0.
    destruct (nr_SearchBest _ _); [|by injection E0 as <- <-]. ret_step E0. destruct r0 as [records [[elem rec]|]].
    - destruct (IPAccessRecord_IsAccessAllowed _ _ _). by injection E0 as <- <-.
    - ret_step E0. by injection E0 as <- <-. }
  destruct (negb ok1); [by injection H as <- <-|]. destruct (m_question _) as [q|]; [|by injection H as <- <-].
  cbn [fs_name_throtter fs_ip_throtter fs_drop] in H.
  destruct (NameThrottler_IsNameAllowed _ _ _ _) as [nt ok2] eqn:En. injection H as <- <-. split_and!; [done| |done].
  unfold NameThrottler_IsNameAllowed in En. destruct (_ ≫= _) as [[l rec]|]; [|by injection En as <- <-].
  destruct (NameAccessRecord_IsAccessAllowed _ _). by injection En as <- <-.
Qed.

Lemma take_render_None_in rs r rs' : take_render rs = Some (r, rs') → None ∈ rs'.
Proof.
  revert r rs'. induction rs as [|[x|] rs IH]; intros r rs'; cbn; [done| |].
  - intros [= <- <-]. by left.
  - destruct (take_render rs) as [[y ys]|]; [|done]. intros [= <- <-]. by left.
Qed.

Lemma Recursor_resolver_frame rounds (r : Recursor) h c r' h' c' :
  Recursor_resolver rounds r h c = Ret (r', h', c') →
  rr_enabled r' = rr_enabled r ∧ rr_ednsSubnetEnable r' = rr_ednsSubnetEnable r ∧
  rr_rootForView r' = rr_rootForView r ∧ omap id (rr_ctxPool r') ≡ₚ omap id (rr_ctxPool r).
Proof.
  unfold Recursor_resolver. intros H. destruct (getCtx _) as [[slot pool]|] eqn:Eg; [|by injection H as <- <- <-].
  do 5 ret_step H. unfold getCtx in Eg. pose proof (take_render_None_in _ _ _ Eg) as Hroom.
  apply take_render_Some in Eg.
  destruct r4 as [[nc x] [err|response]]; [|destruct (heap_alloc _ _)]; injection H as <- <- <-; cbn;
    (split_and!; [done..|]; by rewrite (putCtx_perm _ _ Hroom), Eg).
Qed.

Lemma SetQuerySource_frame t ip m m' err :
  Target_SetQuerySource t ip m = Ret (m', err) → vm_fwders m' = vm_fwders m ∧ vm_repo m' = vm_repo m.
Proof.
  destruct t as [l|g]; cbn; intros H; [|ret_step H]; destruct (_ : FwdWorld * option string); by injection H as <- <-.
Qed.

Lemma Forward_frame t q m m' r :
  Target_Forward t q m = Ret (m', r) → vm_fwders m' = vm_fwders m ∧ vm_repo m' = vm_repo m.
Proof.
  destruct t as [l|g]; cbn [Target_Forward]; intros H; ret_step H; [by injection H as <- <-|].
  ret_step H. destruct r1 as [[w grp] res]. by injection H as <- <-.
Qed.
End config.

(** ** A query changes no configuration and one cache *)

Section frame.
Context {N : G53Name} {M : G53Msg N} {ML : G53MsgLaws M} {T : DomainTree N} {ZT : ZoneTree N}
  {R : NetRadix} {G : GoSort}.

(** The client of a query: who asks, how and since when. *)
Definition same_asker (c0 c : Client) : Prop :=
  c_addr c = c_addr c0 ∧ c_dest c = c_dest c0 ∧ c_using_tcp c = c_using_tcp c0 ∧
  c_create_time c = c_create_time c0.

Lemma same_asker_query c0 c c' : same_query c c' → same_asker c0 c → same_asker c0 c'.
Proof. intros (?&?&?&?&?&?) (?&?&?&?). repeat split; congruence. Qed.

(** Only the cache of one view differs. *)
Definition other_caches (v : string) (cs0 cs : Caches) : Prop :=
  dom cs = dom cs0 ∧ ∀ v', v' ≠ v → cs !! v' = cs0 !! v'.

Lemma other_caches_insert v cs0 cs mc mc' :
  cs !! v = Some mc → other_caches v cs0 cs → other_caches v cs0 (<[v := mc']> cs).
Proof.
  intros Hv [Hd Ho]. split.
  - rewrite dom_insert_L, Hd. apply elem_of_dom_2 in Hv. set_solver.
  - intros v' Hne. rewrite lookup_insert_ne by done. by apply Ho.
Qed.

Context (s0 : System) (c0 : Client).

Definition before_view (s : System) (c : Client) : Prop :=
  same_config s0 s ∧ sy_caches s = sy_caches s0 ∧ same_asker c0 c.
Definition in_view (v : string) (s : System) (c : Client) : Prop :=
  same_config s0 s ∧ other_caches v (sy_caches s0) (sy_caches s) ∧ same_asker c0 c ∧ c_view c = v.
Definition after_query (s : System) (c : Client) : Prop :=
  same_config s0 s ∧ other_caches (c_view c) (sy_caches s0) (sy_caches s) ∧ same_asker c0 c.

(** Changes of the state that are not configuration. *)
Ltac config_step := etrans; [eassumption|]; split; try done; by repeat split.

#[export] Instance before_view_front : FrontInv before_view after_query.
Proof.
  split; unfold before_view, after_query.
  - intros s c (H1 & H2 & H3). split_and!; [done| |done]. rewrite H2. by split.
  - intros n s c (H1 & H2 & H3). split_and!; [config_step|done..].
  - intros h s c (H1 & H2 & H3). split_and!; [config_step|done..].
  - intros h s c (H1 & H2 & H3). split_and!; [config_step|done..].
  - intros s c c' Hc (H1 & H2 & H3). split_and!; [done..|by eapply same_asker_query].
  - intros s c c' Hc (H1 & H2 & H3). split_and!; [done| |by eapply same_asker_query].
    destruct Hc as (_&_&_&Hv&_). by rewrite Hv.
  - intros l s c (H1 & H2 & H3). split_and!; [config_step|done..].
  - intros z rrs m s c Hp (H1 & H2 & H3). split_and!; [|done..]. etrans; [exact H1|].
    apply Query_Process_rotated in Hp. split; try done.
    split; [intros z'; by destruct z, z'|]. by destruct z.
  - intros v id s c (H1 & H2 & H3). by split_and!.
Qed.

Lemma in_view_inv v : QueryInv (in_view v).
Proof.
  split; unfold in_view.
  - intros h s c (H1 & H2 & H3 & H4). split_and!; [config_step|done..].
  - intros n s c (H1 & H2 & H3 & H4). split_and!; [config_step|done..].
  - intros s c c' Hc (H1 & H2 & H3 & H4). split_and!; [done..|by eapply same_asker_query|].
    destruct Hc as (_&_&_&Hv&_). congruence.
  - intros now f ok s c Ha (H1 & H2 & H3 & H4). split_and!; [|done..]. etrans; [exact H1|].
    apply AllowQuery_frame in Ha as (?&?&?). split; try done; by repeat split.
  - intros now h h' cs found s c Hg (H1 & H2 & H3 & H4). split_and!; [config_step| |done..].
    unfold Cache_get in Hg. rewrite H4 in Hg. cbn. destruct (sy_caches s !! v) as [mc|] eqn:Hv; [|by injection Hg as <- <- <-].
    ret_step Hg. destruct r as [[h1 mc'] found']. injection Hg as <- <- <-. by eapply other_caches_insert.
  - intros now l h h' cs s c Ha (H1 & H2 & H3 & H4). split_and!; [config_step| |done..].
    unfold Cache_AddMessage in Ha. rewrite H4 in Ha. cbn. destruct (sy_caches s !! v) as [mc|] eqn:Hv; [|by injection Ha as <- <-].
    ret_step Ha. destruct r as [h1 mc']. injection Ha as <- <-. by eapply other_caches_insert.
  - intros l dz mt rrs m s c Hz Hp (H1 & H2 & H3 & H4). split_and!; [|done..]. etrans; [exact H1|].
    apply Query_Process_rotated in Hp. split; try done; by repeat split.
  - intros sender s c (H1 & H2 & H3 & H4). split_and!; [config_step|done..].
  - intros t ip m err s c Ht (H1 & H2 & H3 & H4). split_and!; [|done..]. etrans; [exact H1|].
    apply SetQuerySource_frame in Ht as [??]. split; try done; by repeat split.
  - intros t q m r s c Ht (H1 & H2 & H3 & H4). split_and!; [|done..]. etrans; [exact H1|].
    apply Forward_frame in Ht as [??]. split; try done; by repeat split.
  - intros rounds r h h' s c c' Hr (H1 & H2 & H3 & H4). split_and!; [|done..]. etrans; [exact H1|].
    apply Recursor_resolver_frame in Hr. split; try done; by repeat split.
Qed.

Lemma frame_links : links before_view after_query.
Proof.
  intros s c (H1 & H2 & H3). exists (in_view (c_view c)). split_and!.
  - apply in_view_inv.
  - split_and!; [done| |done..]. rewrite H2. by split.
  - intros s' c' (I1 & I2 & I3 & I4). split_and!; [done| |done]. by rewrite I4.
Qed.
End frame.


(** ** A query over its limit *)

Section refused.
Context {N : G53Name} {M : G53Msg N} {T : DomainTree N} {ZT : ZoneTree N} {R : NetRadix} {G : GoSort}.

(** Everything the handlers behind the filter own. *)
Definition same_behind (s0 s : System) : Prop :=
  sy_caches s = sy_caches s0 ∧ sy_local s = sy_local s0 ∧ sy_auth s = sy_auth s0 ∧ sy_stub s = sy_stub s0 ∧
  sy_fwd s = sy_fwd s0 ∧ sy_recursor s = sy_recursor s0 ∧ sy_sources s = sy_sources s0 ∧
  sy_failfwd s = sy_failfwd s0.

Definition at_filter (s0 : System) (c0 : Client) (s : System) (c : Client) : Prop :=
  same_behind s0 s ∧ sy_filter s = sy_filter s0 ∧ same_asker c0 c.
Definition past_filter (s0 s : System) (_ : Client) : Prop := same_behind s0 s.

#[export] Instance at_filter_front s0 c0 : FrontInv (at_filter s0 c0) (past_filter s0).
Proof.
  split; unfold at_filter, past_filter; try (intros; naive_solver eauto using same_asker_query).
Qed.

(** The client's address is over its limit whenever the filter looks. *)
Definition over_limit (env : Env) (s : System) (c : Client) : Prop :=
  ∃ ip, Client_IP c = Ret ip ∧
    ∀ n, ∃ it, IPThrottler_IsIPAllowed (ev_now env n) ip (fs_ip_throtter (sy_filter s)) = Ret (it, false).

Lemma over_limit_stops env s0 c0 next :
  over_limit env s0 c0 → triple (at_filter s0 c0) (past_filter s0) (filter_handler env next).
Proof.
  intros (ip & Hip & Hlim) s c s' c' (Hb & Hf & Hc) H. unfold filter_handler, counted, via in H. ret_step H.
  destruct r as [[[fs h] w] c1]. injection H as <- <-. unfold FilterChain_HandleQuery in E. cbn in E.
  destruct (Hlim (S (sy_tick s))) as [it Hit].
  assert (Client_IP c = Ret ip) as Hip'.
  { rewrite <- Hip. unfold Client_IP. destruct Hc as (-> & _ & -> & _). done. }
  assert (RateLimit_AllowQuery (ev_now env (S (sy_tick s))) c (sy_filter s) =
    Ret (mkFilterState it (fs_name_throtter (sy_filter s)) (fs_drop (sy_filter s)), false)) as Ha.
  { unfold RateLimit_AllowQuery. by rewrite Hip', bind_Ret, Hf, Hit, bind_Ret. }
  rewrite Ha, bind_Ret in E. injection E as <- <- <- <-. done.
Qed.
End refused.


(** ** A server *)

Section server_examples.
Definition empty_cluster : K8sAuth :=
  mkK8sAuth ∅ (NewDynamicZone (["local"] : @Name label_names)) (NewDynamicZone (["arpa"] : @Name label_names))
    (NewDynamicZone (["arpa"] : @Name label_names)).

(** Before the first load of the configuration. *)
Definition empty_system : System (N := label_names) :=
  mkSystem ∅ 0 (mkQueryLogger [] 0 "" 0 false) empty_cluster (mkSelectorMgr [] ∅ ∅)
    (mkAclManager ∅ ∅ [] true)
    (mkFilterState (mkThrottler (newIPAccessRecordStore maxIPAccessRecordCount) nr_New) (mkNameThrottler ∅ ∅) 0)
    ∅ ∅ NewLocalData ∅ ∅ false NewLocalData (mkAuth ∅ ∅ ∅) (mkStubZoneManager ∅ None) ∅
    (mkViewFwderMgr ∅ (SafeFwderRepo_ReloadConf 0 0 0) ∅ (mkFwdWorld ∅ NewProber [] (λ _, None)))
    (mkRecursor (NewNsasCache 0) ∅ ∅ ∅ (newRecursorCtxPool maxInflightQuery)) ∅ ∅.

(** The library signs nothing here: no key is configured. *)
Definition demo_tsig : TsigLib (N := label_names) :=
  mkTsigLib (λ _ _ _, Some "bad signature") (λ n _ a, inr (mkTSIG n a [] 0)) (λ t m, set_tsig (Some t) m).

Definition demo_env (rounds : nat → Z → Round) : Env :=
  mkEnv (λ _, 0) demo_tsig demo_texts (λ _, [Lead])
    (λ _, mkStubNet (λ _, None) (λ _ _ _, inl "timeout") (λ _ _, [])) rounds (λ _ _ _, inl "timeout").

Definition demo_reload : ReloadEnv :=
  mkReloadEnv (λ _, inl "no file") demo_hint_rr (λ _, inl "no master") (λ _, None) true [] ["default"] rootServers.

Definition demo_modules : list string :=
  [ModuleCache; ModuleView; ModuleForwarder; ModuleRecursor].

(** A resolving server: a cache over a forwarder without zones and a recursor. *)
Definition demo_vanguard : VanguardConf :=
  mkVanguardConf "" (mkServerConf [] "" 0 false) demo_modules
    (mkLoggerConf (mkQuerylogConf "" 0 0 false) (mkGeneralLogConf false "" 0 0 "")) []
    (mkViewsConf [] [] [] []) (mkCacheConf 3600 60 100 false false)
    (mkForwarderConf [] (mkForwardProberConf 0 0 0)) [] [mkRecursorInView true "default" "" false]
    (mkResolverConf false) (mkFilterConf false [] []) [] [] [] [] [] [] [] [] [] (mkKubernetes "" "" "" "").

Definition demo_ip (_ : IP) : string := "".

(** The server once its configuration is loaded. *)
Definition demo_start (rounds : nat → Z → Round) : System * outcome unit :=
  match system_handler (demo_env rounds) demo_reload demo_ip demo_modules with
  | Ret (handlers, _, _) => reload_handlers handlers demo_vanguard empty_system
  | _ => (empty_system, Panic "no handlers")
  end.

Definition plain_query : Client :=
  mkClient (Some (UDPAddr [10; 0; 0; 1] 5353)) None false (query www RR_A) None "default" 0 false true 0.
(** Anybody can sign with a key of his own. *)
Definition signed_query : Client :=
  set_request (set_tsig (Some (mkTSIG "nobody" "hmac-md5" [1; 2; 3] 0)) (query www RR_A)) plain_query.

(** The answer section, the response code and whether the cache answered. *)
Definition reply (r : outcome (System * Client)) : option (list RRset * Z * bool) :=
  match r with
  | Ret (s, c) =>
      match c_response c with
      | Some l => (λ m, (m_answer m, h_rcode (m_header m), c_cache_hit c)) <$> sy_heap s !! l
      | None => None
      end
  | _ => None
  end.

(** The replies to clients that ask one after the other. *)
Fixpoint replies (first : Handler System) (s : System) (clients : list Client)
  : list (option (list RRset * Z * bool)) :=
  match clients with
  | [] => []
  | c :: clients =>
      let r := first s c in
      reply r :: match r with Ret (s, _) => replies first s clients | _ => [] end
  end.

Definition demo_replies (rounds : nat → Z → Round) (clients : list Client) : list (option (list RRset * Z * bool)) :=
  match system_handler (demo_env rounds) demo_reload demo_ip demo_modules with
  | Ret (_, first, _) => replies first (demo_start rounds).1 clients
  | _ => []
  end.


Lemma is_ret_Ret {A} (o : outcome A) : is_ret o = true → ∃ a, o = Ret a.
Proof. destruct o; [eauto|done..]. Qed.

Definition demo_handler : outcome (list QueryModule * Handler System * option (Handler System)) :=
  system_handler (demo_env (λ _, demo_rounds)) demo_reload demo_ip demo_modules.
Definition demo_first : Handler System :=
  match demo_handler with Ret (_, first, _) => first | _ => λ _ _, Panic "no handler" end.


(** The same server with a limit of one query a second. *)
Definition limited_modules : list string := ModuleFilter :: demo_modules.
Definition limited_vanguard : VanguardConf :=
  mkVanguardConf "" (mkServerConf [] "" 0 false) limited_modules
    (mkLoggerConf (mkQuerylogConf "" 0 0 false) (mkGeneralLogConf false "" 0 0 "")) []
    (mkViewsConf [] [] [] []) (mkCacheConf 3600 60 100 false false)
    (mkForwarderConf [] (mkForwardProberConf 0 0 0)) [] [mkRecursorInView true "default" "" false]
    (mkResolverConf false) (mkFilterConf false [] [mkNetworkRateLimit "10.0.0" 1])
    [] [] [] [] [] [] [] [] [] (mkKubernetes "" "" "" "").

Definition limited_handler : outcome (list QueryModule * Handler System * option (Handler System)) :=
  system_handler (demo_env (λ _, demo_rounds)) demo_reload demo_ip limited_modules.
Definition limited_first : Handler System :=
  match limited_handler with Ret (_, first, _) => first | _ => λ _ _, Panic "no handler" end.
(** After one query. *)
Definition limited_system : System :=
  match limited_handler with
  | Ret (handlers, first, _) =>
      match first (reload_handlers handlers limited_vanguard empty_system).1 plain_query with
      | Ret (s, _) => s
      | _ => empty_system
      end
  | _ => empty_system
  end.

Definition is_refused {A} (o : outcome (A * bool)) : bool := match o with Ret (_, false) => true | _ => false end.
Lemma is_refused_Ret {A} (o : outcome (A * bool)) : is_refused o = true → ∃ a, o = Ret (a, false).
Proof. destruct o as [[a []]| |]; [done|eauto|done..]. Qed.

End server_examples.
