(* ===== verification/SystemIds.v ===== *)
(** * Every response carries the id of its query (the composition of System.v)

    A client tells the answers to its queries apart by their ids, and takes no answer with
    another id.  On its way through the chain a response is made by one handler, shared by
    others, cached, merged with the answers of further queries and changed in place; the
    theorem here is that whatever reaches the client in the end has the id of its query,
    and that no message anybody else holds had its id changed on the way. *)

From S2P Require Import Prelude GoList GoStd G53 Instances Core HttpCmd Cache CacheHandler Cement Acl RateLimit ViewSelector Util Chain Forwarder Resolver Recursor Dns64 Zone Auth RecursorRun Xfr LocalData Stub RespTransfer Server QueryLog Config Main MainSpec K8s System SystemSpec SystemProps.

Local Open Scope Z_scope.

(** ** Messages with their ids *)

(** Adding records and counting them leaves the header's id. *)
Class G53IdLaws {N : G53Name} (M : G53Msg N) : Prop := {
  AddRRset_id s r m : h_id (m_header (AddRRset s r m)) = h_id (m_header m);
  Recalculate_id m : h_id (m_header (RecalculateSectionRRCount m)) = h_id (m_header m);
}.

#[export] Instance plain_messages_ids : G53IdLaws plain_messages.
Proof. by split; intros; cbn; try destruct s. Qed.

Section ids.
Context {N : G53Name}.

Definition msg_id (m : Message) : Z := h_id (m_header m).

(** Every message is still there, with its id. *)
Definition ids_kept (h h' : Heap) : Prop :=
  ∀ l m, h !! l = Some m → ∃ m', h' !! l = Some m' ∧ msg_id m' = msg_id m.

#[export] Instance ids_kept_preorder : PreOrder ids_kept.
Proof.
  split; [intros h l m E; by exists m|]. intros h1 h2 h3 H12 H23 l m E.
  destruct (H12 l m E) as (m2 & E2 & I2). destruct (H23 l m2 E2) as (m3 & E3 & I3). exists m3. by rewrite I3.
Qed.

Lemma alloc_kept m h l h' : heap_alloc m h = (l, h') → ids_kept h h' ∧ h' !! l = Some m ∧ h !! l = None.
Proof.
  unfold heap_alloc. intros [= <- <-]. assert (h !! fresh (dom h) = None) as Hf by apply not_elem_of_dom, is_fresh.
  split_and!; [|apply lookup_insert_eq|done]. intros k x E. exists x. rewrite lookup_insert_ne by congruence. done.
Qed.

(** A message written in place, with the id it had. *)
Lemma put_kept i l m (h h1 : Heap) :
  ids_kept h h1 → (∀ x, h !! l = Some x → msg_id x = i) → msg_id m = i → ids_kept h (<[l := m]> h1).
Proof.
  intros Hk Hl Hm k x E. destruct (decide (k = l)) as [->|Hne].
  - exists m. rewrite lookup_insert_eq. split; [done|]. by rewrite Hm, (Hl x E).
  - rewrite lookup_insert_ne by done. by apply Hk.
Qed.

(** The client's query has the header, and its response, if there is one, the id. *)
Definition answered (i : Header) (h : Heap) (c : Client) : Prop :=
  m_header (c_request c) = i ∧ ∀ l, c_response c = Some l → ∃ m, h !! l = Some m ∧ msg_id m = h_id i.

Lemma answered_kept i h h' c : ids_kept h h' → answered i h c → answered i h' c.
Proof.
  intros Hk [Hr Ha]. split; [done|]. intros l El. destruct (Ha l El) as (m & Em & Hi). rewrite <- Hi.
  by apply Hk.
Qed.

Lemma answered_client i h c c' :
  answered i h c → c_response c' = c_response c → m_header (c_request c') = m_header (c_request c) → answered i h c'.
Proof. intros [Hr Ha] E1 E2. split; [by rewrite E2|]. by rewrite E1. Qed.

Lemma answered_none i h c h' c' :
  answered i h c → c_response c' = None → m_header (c_request c') = m_header (c_request c) → answered i h' c'.
Proof. intros [Hr _] E1 E2. split; [by rewrite E2|]. by rewrite E1. Qed.

Lemma answered_with i h c h' c' l m :
  answered i h c → c_response c' = Some l → m_header (c_request c') = m_header (c_request c) → h' !! l = Some m →
  msg_id m = h_id i → answered i h' c'.
Proof. intros [Hr _] E1 E2 El Em. split; [by rewrite E2|]. rewrite E1. intros k [= <-]. by exists m. Qed.

Lemma answered_deref i h c l m : answered i h c → c_response c = Some l → deref l h = Ret m → msg_id m = h_id i.
Proof.
  intros [_ Ha] E Hd. destruct (Ha l E) as (x & Ex & Hi). unfold deref in Hd. rewrite Ex in Hd. by injection Hd as <-.
Qed.

Lemma answered_lookup i h c l : answered i h c → c_response c = Some l → ∀ x, h !! l = Some x → msg_id x = h_id i.
Proof. intros [_ Ha] E x Ex. destruct (Ha l E) as (y & Ey & Hi). congruence. Qed.

(** What a step makes of the messages and the client. *)
Definition id_step (i : Header) (h : Heap) (h' : Heap) (c' : Client) : Prop := ids_kept h h' ∧ answered i h' c'.

Lemma id_step_trans i h h1 c1 h2 c2 : id_step i h h1 c1 → id_step i h1 h2 c2 → id_step i h h2 c2.
Proof. intros [H1 _] [H2 H3]. split; [by etrans|done]. Qed.

(** The response is replaced by a new message. *)
Lemma id_step_alloc i h c m l h' c' :
  answered i h c → heap_alloc m h = (l, h') → msg_id m = h_id i → c_response c' = Some l →
  m_header (c_request c') = m_header (c_request c) → id_step i h h' c'.
Proof. intros Ha (Hk & El & _)%alloc_kept Hm E1 E2. split; [done|]. exact (answered_with _ _ _ _ _ _ _ Ha E1 E2 El Hm). Qed.

(** The response is changed in place. *)
Lemma id_step_put i h c l m c' :
  answered i h c → c_response c = Some l → msg_id m = h_id i → c_response c' = Some l →
  m_header (c_request c') = m_header (c_request c) → id_step i h (<[l := m]> h) c'.
Proof.
  intros Ha El Hm E1 E2. split.
  - eapply put_kept; [done|by eapply answered_lookup|done].
  - eapply answered_with; [exact Ha|done..|apply lookup_insert_eq|done].
Qed.

(** ** Handlers *)

(** A handler is safe if it keeps the ids of all messages and answers with the id. *)
Definition id_safe {S} (hp : S → Heap) (H : Handler S) : Prop :=
  ∀ s c s' c' i, answered i (hp s) c → H s c = Ret (s', c') → id_step i (hp s) (hp s') c'.

Definition id_safe_next {S} (hp : S → Heap) (next : option (Handler S)) : Prop :=
  ∀ h, next = Some h → id_safe hp h.

Definition id_safe_mk {S} (hp : S → Heap) (mk : option (Handler S) → Handler S) : Prop :=
  ∀ next, id_safe_next hp next → id_safe hp (mk next).

Lemma PassToNext_safe {S} (hp : S → Heap) next : id_safe_next hp next → id_safe hp (PassToNext next).
Proof. intros Hn. destruct next as [h|]; [by apply Hn|]. intros s c s' c' i Ha [= <- <-]. by split. Qed.

Lemma Resolver_PassToNext_safe {S} (hp : S → Heap) next : id_safe_next hp next → id_safe hp (Resolver_PassToNext next).
Proof. apply PassToNext_safe. Qed.

Lemma via_safe {S P} (hS : S → Heap) (hP : P → Heap) (to : S → P) (from : P → S) mk :
  (∀ s, hP (to s) = hS s) → (∀ p, hS (from p) = hP p) → (∀ s, id_safe_mk hP (mk s)) → id_safe_mk hS (via to from mk).
Proof.
  intros Hto Hfrom Hmk next Hn s c s' c' i Ha H. unfold via in H. ret_step H. destruct r as [p c1].
  injection H as <- <-. cbn [fst]. rewrite Hfrom, <- Hto. rewrite <- Hto in Ha. eapply Hmk; [|exact Ha|exact E].
  intros h Hh. destruct next as [nh|]; [|done]. injection Hh as <-. intros q d q' d' j Hj Hl. unfold lower in Hl.
  ret_step Hl. destruct r as [s2 c2]. injection Hl as <- <-. cbn [fst]. rewrite Hto, <- Hfrom.
  eapply (Hn nh); [done| |done]. by rewrite Hfrom.
Qed.

Lemma BuildQueryChain_safe {S} (hp : S → Heap) mks h :
  Forall (id_safe_mk hp) mks → BuildQueryChain mks = Some h → id_safe hp h.
Proof.
  intros Hall. revert h. induction Hall as [|mk mks Hmk Hall IH]; intros h; [done|]. intros [= <-]. by apply Hmk.
Qed.
End ids.

(** ** The handlers of the components *)

Section handlers.
Context {N : G53Name} {M : G53Msg N} {ML : G53MsgLaws M} {IL : G53IdLaws M} {T : DomainTree N} {ZT : ZoneTree N}
  {R : NetRadix} {G : GoSort}.

(** What the handlers meet outside: the senders take no answer with another id, and signing
    a message leaves its id. *)
Record env_ids (env : Env) : Prop := mkEnvIds {
  ei_ask n f q m : ev_ask env n f q = inr m → msg_id m = msg_id q;
  ei_stub n sender master q m : nt_exchange (ev_stub env n) sender master q = inr m → msg_id m = msg_id q;
  ei_sign t m : msg_id (tl_SetTSIG (ev_tsig env) t m) = msg_id m;
}.

Context (env : Env) (HE : env_ids env).

Lemma msg_id_section s rrs m : msg_id (set_section s rrs m) = msg_id m.
Proof. by destruct s. Qed.

Lemma MakeResponse_msg_id m : msg_id (MakeResponse m) = msg_id m.
Proof. apply MakeResponse_id. Qed.

Lemma add_all_id s rrs m : msg_id (foldl (λ acc r, AddRRset s r acc) m rrs) = msg_id m.
Proof. revert m. induction rrs as [|r rrs IH]; intros m; cbn; [done|]. rewrite IH. apply AddRRset_id. Qed.

Lemma add_rrsets_id s ls h m m' : add_rrsets s ls h m = Ret m' → msg_id m' = msg_id m.
Proof.
  revert m. induction ls as [|l ls IH]; intros m H; cbn [add_rrsets] in H; [by injection H as <-|].
  ret_step H. rewrite (IH _ H). apply AddRRset_id.
Qed.

(** The answer of a zone. *)
Lemma Query_Process_id mt req dz h h' m : Query_Process mt req dz h = Ret (h', m) → msg_id m = msg_id req.
Proof.
  unfold Query_Process. intros H. do 2 ret_step H. destruct r0 as [h1 ctx]. ret_step H.
  destruct r0 as [[[h2 q] aa] rcode]. do 3 ret_step H. injection H as <- <-.
  unfold msg_id at 1. rewrite Recalculate_id. fold (msg_id r2). apply add_rrsets_id in E2, E3, E4.
  rewrite E4, E3, E2. exact (MakeResponse_id req).
Qed.

Lemma counted_safe mk : id_safe_mk sy_heap mk → id_safe_mk sy_heap (counted mk).
Proof. intros Hmk next Hn s c s' c' i Ha H. exact (Hmk next Hn (set_sy_tick (S (sy_tick s)) s) _ _ _ _ Ha H). Qed.

Lemma querylog_safe : id_safe_mk sy_heap (querylog_handler env).
Proof.
  apply counted_safe, (via_safe _ (λ p, p.1.1)); [done..|]. intros s0 next Hn [[h l] w] c s' c' i Ha H.
  unfold QueryLog_HandleQuery in H. ret_step H. destruct r as [[[h1 l1] w1] c1]. ret_step H. injection H as <- <-.
  exact (PassToNext_safe _ _ Hn _ _ _ _ _ Ha E).
Qed.

Lemma filter_safe : id_safe_mk sy_heap (filter_handler env).
Proof.
  apply counted_safe, (via_safe _ (λ p, p.1.2)); [done..|]. intros s0 next Hn [[fs h] w] c s' c' i Ha H.
  unfold FilterChain_HandleQuery in H. ret_step H. destruct r as [fs1 ok].
  destruct (negb ok); [injection H as <- <-; by split|]. ret_step H. destruct r as [[[fs2 h2] w2] c2].
  apply (PassToNext_safe _ _ Hn (fs1, h, w) _ _ _ _ Ha) in E0. ret_step H. destruct r; injection H as <- <-; [done|].
  destruct E0 as [Hk Ha2]. split; [done|]. by apply (answered_none _ _ _ _ _ Ha2).
Qed.

Lemma failforwarder_safe : id_safe_mk sy_heap (failforwarder_handler env).
Proof.
  apply counted_safe, (via_safe _ (λ p, p.1.2)); [done..|]. intros s0 next Hn [[ff h] w] c s' c' i Ha H.
  unfold FailForwarder_HandleQuery in H. destruct (FailForwarder_GetForwarder _ _) as [f|];
    [|exact (PassToNext_safe _ _ Hn (ff, h, w) _ _ _ _ Ha H)].
  destruct (ev_ask env _ _ _) as [err|response] eqn:Ea; [injection H as <- <-; by split|].
  destruct (heap_alloc _ _) as [l h2] eqn:El. injection H as <- <-. apply (ei_ask _ HE) in Ea.
  eapply id_step_alloc; [done|exact El| |done..]. rewrite Ea. by destruct Ha as [<- _].
Qed.

(** *** The cache *)

Lemma messageToCache_id now mc m : msg_id (messageToCache now mc m).1 = msg_id m.
Proof.
  unfold messageToCache, positiveMessageToCache, negativeMessageToCache.
  repeat case_match; simplify_eq/=; rewrite ?ClearSection_eq, ?msg_id_section; done.
Qed.

Lemma Cache_get_kept now c h cs h' cs' found : Cache_get now c h cs = Ret (h', cs', found) → ids_kept h h'.
Proof.
  unfold Cache_get. intros H. destruct (cs !! c_view c); [|injection H as <- <- <-; reflexivity].
  ret_step H. destruct r as [[h1 mc] fd]. injection H as <- <- <-. unfold MessageCache_Get in E. do 2 ret_step E.
  destruct r0 as [[h2 mc2] fd2].
  assert (ids_kept h h2) as Hk.
  { clear E. unfold MessageCache_get in E1. destruct (mc_cache m !! _); [|injection E1 as <- <- <-; reflexivity].
    ret_step E1. destruct (MessageCacheEntry_IsExpire _ _); [injection E1 as <- <- <-; reflexivity|].
    ret_step E1. ret_step E1. destruct (Name_Equals _ _); injection E1 as <- <- <-; [|reflexivity].
    eapply (put_kept (msg_id r1)); [done| |exact (msg_id_section AnswerSection _ r1)].
    intros x Ex. unfold deref in E2. rewrite Ex in E2. by injection E2 as <-. }
  destruct fd2; [ret_step E|]; by injection E as <- <- <-.
Qed.

Lemma Cache_AddMessage_step now v l h cs h' cs' c i :
  Cache_AddMessage now v l h cs = Ret (h', cs') → c_response c = Some l → answered i h c → id_step i h h' c.
Proof.
  unfold Cache_AddMessage. intros H El Ha. destruct (cs !! v); [|injection H as <- <-; by split].
  ret_step H. destruct r as [h1 mc]. injection H as <- <-. unfold MessageCache_Add in E. ret_step E.
  pose proof (messageToCache_id now m r) as Hid. destruct (messageToCache now m r) as [m1 expire]. cbn in Hid.
  do 2 ret_step E. injection E as <- <-. eapply id_step_put; [done|done| |done..]. rewrite Hid. by eapply answered_deref.
Qed.

Lemma cache_safe : id_safe_mk sy_heap (cache_handler env).
Proof.
  apply counted_safe, (via_safe _ (λ p, p.1.2)); [done..|]. intros s0 next Hn [[cs h] w] c s' c' i Ha H.
  unfold Cache_HandleQuery in H. ret_step H. destruct r as [[h1 cs1] found]. apply Cache_get_kept in E as Hk.
  pose proof (answered_kept _ _ _ _ Hk Ha) as Ha1. eapply (id_step_trans i _ h1 c); [by split|]. destruct found as [l|].
  - ret_step H. destruct (heap_alloc _ _) as [l' h2] eqn:El. injection H as <- <-.
    eapply id_step_alloc; [exact Ha1|exact El| |done..]. by destruct Ha1 as [<- _].
  - ret_step H. destruct r as [[[cs2 h2] w2] c2].
    apply (PassToNext_safe _ _ Hn _ _ _ _ i) in E0; [|by apply (answered_client _ _ _ _ Ha1)].
    eapply id_step_trans; [exact E0|]. destruct E0 as [_ Ha2].
    destruct (c_response c2) as [l|] eqn:El; [|injection H as <- <-; by split].
    destruct (c_cache_answer c2); [|injection H as <- <-; by split]. ret_step H. destruct r as [h3 cs3].
    injection H as <- <-. by eapply Cache_AddMessage_step.
Qed.

(** *** Handlers that change responses *)

Lemma adaptor_safe (transfer : System → Heap → Client → outcome (Heap * Client)) :
  (∀ w h c h' c' i, answered i h c → transfer w h c = Ret (h', c') → id_step i h h' c') →
  id_safe_mk sy_heap (counted (via with_heap put_heap (λ _, transferAdaptor_HandleQuery transfer))).
Proof.
  intros Ht. apply counted_safe, (via_safe _ fst); [done..|]. intros s0 next Hn [h w] c s' c' i Ha H.
  unfold transferAdaptor_HandleQuery in H. ret_step H. destruct r as [[h1 w1] c1].
  apply (PassToNext_safe _ _ Hn _ _ _ _ _ Ha) in E. ret_step H. destruct r as [h2 c2]. injection H as <- <-.
  eapply id_step_trans; [exact E|]. destruct E as [_ Ha1]. exact (Ht _ _ _ _ _ _ Ha1 E0).
Qed.

Lemma Aaaa_step am f h c h' c' i :
  answered i h c → AaaaFilter_TransferResponse am f h c = Ret (h', c') → id_step i h h' c'.
Proof.
  unfold AaaaFilter_TransferResponse. intros Ha H. ret_step H. destruct r; [|injection H as <- <-; by split].
  destruct (c_response c) as [l|] eqn:El; [|injection H as <- <-; by split]. ret_step H.
  destruct (_ =? _); injection H as <- <-; [|by split]. eapply id_step_put; [exact Ha|done| |done..].
  unfold removeAaaaRecords, removeAaaaInSection. rewrite !msg_id_section. by eapply answered_deref.
Qed.

Lemma SortList_step sorter h c h' c' i :
  answered i h c → SortList_TransferResponse sorter h c = Ret (h', c') → id_step i h h' c'.
Proof.
  unfold SortList_TransferResponse. intros Ha H.
  destruct (c_response c) as [l|] eqn:El; [|injection H as <- <-; by split]. do 2 ret_step H.
  injection H as <- <-. eapply id_step_put; [exact Ha|done| |done..]. exact (answered_deref _ _ _ _ _ Ha El E).
Qed.

(** A policy answers with a message of its own, or with the response of the client. *)
Lemma GetMessage_step p c qname h h' found i :
  answered i h c → GetMessage p c qname h = Ret (h', found) →
  match found with
  | Some l => id_step i h h' (set_response (Some l) c)
  | None => id_step i h h' c
  end.
Proof.
  intros Ha H. unfold GetMessage in H. assert (∀ rcode, msg_id (empty_response rcode c) = h_id i) as He.
  { intros rcode. destruct Ha as [<- _]. exact (MakeResponse_id _). }
  destruct (lp_kind p) as [| | |rrsets].
  - destruct (heap_alloc _ _) as [l h1] eqn:El. injection H as <- <-. by eapply id_step_alloc.
  - destruct (heap_alloc _ _) as [l h1] eqn:El. injection H as <- <-. by eapply id_step_alloc.
  - injection H as <- <-. by split.
  - destruct (match c_response c with Some l => _ | None => _ end) as [l h1] eqn:El.
    assert (id_step i h h1 (set_response (Some l) c)) as Hs.
    { destruct (c_response c) as [l0|] eqn:Er; [injection El as <- <-; split; [done|]|].
      - destruct Ha as [Hr Hl]. split; [done|]. cbn. intros k [= <-]. by apply Hl.
      - eapply id_step_alloc; [exact Ha|exact El| |done..]. rewrite MakeResponse_msg_id. by destruct Ha as [<- _]. }
    do 2 ret_step H. destruct (find_first _ _); injection H as <- <-.
    + eapply id_step_trans; [exact Hs|]. destruct Hs as [_ Ha1]. eapply id_step_put; [exact Ha1|done| |done..].
      exact (answered_deref _ _ _ _ _ Ha1 eq_refl E).
    + destruct Hs as [Hk _]. split; [done|]. by eapply answered_kept.
Qed.

Lemma ask_parents_step parents c qname ld h h' found i :
  answered i h c → ask_parents parents c qname ld h = Ret (h', found) →
  match found with
  | Some l => id_step i h h' (set_response (Some l) c)
  | None => id_step i h h' c
  end.
Proof.
  revert h. induction parents as [|[n l] parents IH]; intros h Ha H; cbn [ask_parents] in H;
    [injection H as <- <-; by split|].
  ret_step H. destruct (lp_isZoneMatch r); [|by eapply IH]. ret_step H. destruct r0 as [h1 msg].
  apply (GetMessage_step _ _ _ _ _ _ _ Ha) in E0. destruct msg as [l1|]; [by injection H as <- <-|].
  destruct E0 as [Hk Ha1]. specialize (IH _ Ha1 H). destruct found; (eapply id_step_trans; [|exact IH]; by split).
Qed.

Lemma ResponseWithLocalData_step ld h c h' c' found i :
  answered i h c → ResponseWithLocalData ld h c = Ret (h', c', found) → id_step i h h' c'.
Proof.
  intros Ha H. unfold ResponseWithLocalData in H.
  destruct (ld_policies ld !! c_view c); [|injection H as <- <- <-; by split].
  ret_step H. destruct (dt_SearchParents r d) as [parents mt]. ret_step H. destruct r0 as [h1 resp].
  assert (match resp with
          | Some l => id_step i h h1 (set_response (Some l) c)
          | None => id_step i h h1 c
          end) as Hs.
  { destruct mt; [destruct parents as [|[n l] parents]; [done|ret_step E0; by eapply GetMessage_step]|
      by eapply ask_parents_step|injection E0 as <- <-; by split]. }
  destruct resp; by injection H as <- <- <-.
Qed.

Lemma Hijack_step ld h c h' c' i : answered i h c → Hijack_TransferResponse ld h c = Ret (h', c') → id_step i h h' c'.
Proof.
  unfold Hijack_TransferResponse. intros Ha H. ret_step H. destruct r; [|injection H as <- <-; by split].
  ret_step H. destruct r as [[h1 c1] found]. injection H as <- <-. by eapply ResponseWithLocalData_step.
Qed.

Lemma dns64_safe : id_safe_mk sy_heap dns64_handler.
Proof.
  apply counted_safe, (via_safe _ fst); [done..|]. intros s0 next Hn [h w] c s' c' i Ha H.
  unfold DNS64_HandleQuery in H. ret_step H. destruct r as [[h1 w1] c1]. pose proof (PassToNext_safe _ _ Hn) as Hpass.
  apply (Hpass _ _ _ _ _ Ha) in E. eapply id_step_trans; [exact E|]. destruct E as [_ Ha1].
  ret_step H. destruct (negb r); [injection H as <- <-; by split|]. ret_step H. ret_step H.
  destruct r1 as [[h2 w2] c2]. unfold queryARecord in E1. do 4 ret_step E1.
  apply (Hpass _ _ _ _ i) in E1 as [Hk Ha2]; [|by apply (answered_none _ _ _ _ _ Ha1)].
  unfold synthesizeDNS64Response in H. destruct (c_response (set_request _ c2)) as [l|] eqn:El; cbn in El.
  - do 3 ret_step H. injection H as <- <-. eapply id_step_trans; [by split|].
    eapply id_step_put; [exact Ha2|done| |done..]. exact (answered_deref _ _ _ _ _ Ha2 El E6).
  - injection H as <- <-. split; [done|]. destruct (c_response c1) as [l1|] eqn:El1; [|done]. injection E0 as <-.
    destruct Ha1 as [_ Hl]. destruct (Hl l1 El1) as (m1 & Em & Hi). destruct (Hk _ _ Em) as (m2 & Em2 & Hi2).
    eapply (answered_with i h2 c2 _ _ l1 m2); [exact Ha2|done|done|done|congruence].
Qed.

(** *** Views and the cluster *)

Lemma tsig_step keys h c h' c' v i :
  answered i h c → TSIGKeyBasedView_ViewForQuery (ev_tsig env) keys h c = Ret (h', c', v) → id_step i h h' c'.
Proof.
  intros Ha H. unfold TSIGKeyBasedView_ViewForQuery in H.
  destruct (m_tsig (c_request c)) as [tsig|]; [|injection H as <- <- <-; by split].
  destruct (prepare_response h c) as [[h1 c1] l] eqn:Ep.
  assert (id_step i h h1 c1 ∧ c_response c1 = Some l) as [Hs El].
  { unfold prepare_response in Ep. destruct (c_response c) as [l0|] eqn:Er; [by injection Ep as <- <- <-|].
    destruct (heap_alloc _ _) as [l1 h2] eqn:Eh. injection Ep as <- <- <-. split; [|done].
    eapply id_step_alloc; [exact Ha|exact Eh| |done..]. rewrite MakeResponse_msg_id. by destruct Ha as [<- _]. }
  ret_step H. eapply id_step_trans; [exact Hs|]. destruct Hs as [_ Ha1].
  assert (∀ m, msg_id m = msg_id r → id_step i h1 (<[l := m]> h1) c1) as Hput.
  { intros m Hm. eapply id_step_put; [exact Ha1|done| |done..]. rewrite Hm. by eapply answered_deref. }
  repeat case_match; try (injection H as <- <- <-; by apply Hput); try discriminate H.
  injection H as <- <- <-. apply Hput. by rewrite (ei_sign _ HE).
Qed.

Lemma SelectView_step ids am mgr h c h' c' found i :
  answered i h c →
  SelectorMgr_SelectView ids (SelectorMgr_selectors (ev_tsig env) am mgr) h c = Ret (h', c', found) →
  id_step i h h' c'.
Proof.
  intros Ha H. unfold SelectorMgr_SelectView in H. ret_step H. destruct r as [[h2 c2] v].
  assert (id_step i h h2 c2) as Hs.
  { cbn in E. ret_step E. ret_step E0. injection E0 as <-. destruct r0; [injection E as <- <- <-; by split|].
    ret_step E. destruct r as [[h3 c3] v3]. apply (tsig_step _ _ _ _ _ _ _ Ha) in E0.
    destruct v3; by injection E as <- <- <-. }
  destruct (bool_decide _); injection H as <- <- <-; [|done]. destruct Hs as [Hk Ha2]. split; [done|].
  by apply (answered_client _ _ _ _ Ha2).
Qed.

Lemma view_safe : id_safe_mk sy_heap (view_handler env).
Proof.
  apply counted_safe, (via_safe _ fst); [done..|]. intros s0 next Hn [h w] c s' c' i Ha H.
  unfold SelectorMgr_HandleQuery in H. ret_step H. destruct r as [[h1 c1] found].
  apply (SelectView_step _ _ _ _ _ _ _ _ _ Ha) in E. eapply id_step_trans; [exact E|]. destruct E as [_ Ha1].
  exact (PassToNext_safe _ _ Hn (h1, w) _ _ _ _ Ha1 H).
Qed.

Lemma K8s_merge_kept first l h h' i :
  (∀ x, h !! first = Some x → msg_id x = i) → K8s_mergeResponse first l h = Ret h' →
  ids_kept h h' ∧ ∃ m, h' !! first = Some m ∧ msg_id m = i.
Proof.
  intros Hf H. unfold K8s_mergeResponse in H. do 2 ret_step H. injection H as <-.
  assert (msg_id r0 = i) as Hi.
  { apply Hf. unfold deref in E0. destruct (h !! first); [by injection E0 as <-|done]. }
  split; [eapply (put_kept i); [done|done|]|eexists; split; [apply lookup_insert_eq|]];
    rewrite <- Hi; exact (add_all_id AnswerSection _ r0).
Qed.

Lemma k8s_safe : id_safe_mk sy_heap k8s_handler.
Proof.
  apply counted_safe, (via_safe _ fst); [done..|]. intros s0 next Hn [h [a w]] c s' c' i Ha H.
  unfold K8s_HandleQuery in H. ret_step H. pose proof (PassToNext_safe _ _ Hn) as Hpass.
  destruct r as [[[l s1] c1]|]; [|exact (Hpass (h, (a, w)) _ _ _ _ Ha H)].
  assert (id_step i h s1.1 c1 ∧ c_response c1 = Some l) as [Hs El].
  { unfold K8s_resolve in E. ret_step E. destruct (zone_for _ a) as [z|]; [|done]. ret_step E.
    destruct r0 as [rrs m]. destruct (heap_alloc m h) as [l' h'] eqn:Eh. injection E as <- <- <-. split; [|done].
    eapply id_step_alloc; [exact Ha|exact Eh| |done..]. rewrite (Query_Process_id _ _ _ _ _ _ E1). by destruct Ha as [<- _]. }
  do 2 ret_step H. eapply id_step_trans; [exact Hs|]. destruct Hs as [_ Ha1].
  destruct r0; [|injection H as <- <-; by split]. unfold K8s_redirectQuery in H. do 6 ret_step H.
  destruct r5 as [[h5 rest] c5]. apply (Hpass _ _ _ _ i) in E7 as [Hk Ha2]; [|by apply (answered_none _ _ _ _ _ Ha1)].
  eapply id_step_trans; [by split|].
  destruct (c_response c5) as [l5|] eqn:El5; [|injection H as <- <-; by split]. do 2 ret_step H. injection H as <- <-.
  destruct Ha1 as [_ Hl]. destruct (Hl l El) as (m1 & Em & Hi). destruct (Hk _ _ Em) as (m2 & Em2 & Hi2).
  eapply (K8s_merge_kept _ _ _ _ (h_id i)) in E7 as (Hk2 & m3 & Em3 & Hi3); [|intros x Ex; rewrite <- Hi, <- Hi2; cbn in Em2; congruence].
  split; [done|]. exact (answered_with i h5 c5 r5 (set_request _ (set_response (Some l) c5)) l m3 Ha2 eq_refl eq_refl Em3 Hi3).
Qed.

(** *** The resolvers *)

Abbreviation rheap := (@fst Heap System).

Lemma count_call_safe mk : id_safe_mk rheap mk → id_safe_mk rheap (counted_resolver mk).
Proof. intros Hmk next Hn s c s' c' i Ha H. exact (Hmk next Hn (count_call s) _ _ _ _ Ha H). Qed.

Lemma first_answer_id n sender request ended m :
  first_answer (ev_stub env n) sender request ended = Some m → msg_id m = msg_id request.
Proof.
  induction ended as [|master ended IH]; [done|]. cbn [first_answer].
  destruct (nt_exchange _ _ _ _) eqn:E; [done|]. intros [= <-]. by eapply ei_stub.
Qed.

Lemma Stub_handleQuery_id n z request masters m :
  Stub_handleQuery (ev_stub env n) z request masters = Ret (inr m) → msg_id m = msg_id request.
Proof.
  unfold Stub_handleQuery. intros H. destruct masters as [|m1 [|m2 masters]]; [done| |]; ret_step H; injection H as H.
  - by eapply ei_stub.
  - destruct (first_answer _ _ _ _) eqn:E0; [|done]. injection H as <-. by eapply first_answer_id.
Qed.

Lemma stub_safe : id_safe_mk rheap (stub_resolver env).
Proof.
  apply count_call_safe, (via_safe _ (λ p, p.1.2)); [done..|].
  intros s0 next Hn [[[z qs] h] w] c s' c' i Ha H. unfold Stub_Resolve in H.
  destruct (NewUDPSender _ _ _) as [err|sender]; [injection H as <- <-; by split|].
  ret_step H. destruct r; [injection H as <- <-; by split|]. ret_step H.
  destruct (getMasters _ _ _) as [[masters|] sr];
    [|exact (Resolver_PassToNext_safe _ _ Hn (set_sender sender z, qs, h, w) _ _ _ _ Ha H)].
  ret_step H. destruct (heap_alloc _ _) as [l h2] eqn:El. injection H as <- <-.
  eapply id_step_alloc; [exact Ha|exact El| |done..]. destruct Ha as [<- _]. destruct r0.
  - exact (MakeResponse_id _).
  - by eapply Stub_handleQuery_id.
Qed.

(** The forwarder asks with an id of its own and then gives the answer the id of the query. *)
Lemma processRequest_step (m : ViewFwderMgr) qs h (w : System) c m' qs' h' w' c' i :
  answered i h c → Forwarder_processRequest (m, qs, h, w) c = Ret ((m', qs', h', w'), c') →
  ids_kept h h' ∧ m_header (c_request c') = i ∧ ∀ l, c_response c' = Some l → ∀ x, h !! l = Some x → msg_id x = h_id i.
Proof.
  intros Ha H. pose proof (answered_lookup i h c) as Hl. unfold Forwarder_processRequest in H. ret_step H.
  assert (m_header (c_request c) = i) as Hr by by destruct Ha.
  assert (∀ l, c_response c = Some l → ∀ x, h !! l = Some x → msg_id x = h_id i) as Hold by eauto.
  destruct (ViewFwderMgr_GetFwder _ _ _) as [t|]; [|by injection H as <- <- <- <- <-].
  ret_step H. destruct r0 as [m1 [err|]]; [by injection H as <- <- <- <- <-|]. ret_step H.
  destruct r0 as [m2 [[resp rtt] err]]. ret_step H. destruct err; [by injection H as <- <- <- <- <-|].
  destruct resp as [resp|]; [destruct (heap_alloc _ _) as [l h2] eqn:El|]; injection H as <- <- <- <- <-; [|by split_and!].
  apply alloc_kept in El as (Hk & El & Hf). split_and!; [done..|]. cbn. intros k [= <-] x Ex. congruence.
Qed.

Lemma forwarder_safe : id_safe_mk rheap forwarder_resolver.
Proof.
  apply count_call_safe, (via_safe _ (λ p, p.1.2)); [done..|].
  intros s0 next Hn [[[m qs] h] w] c s' c' i Ha H. unfold Forwarder_Resolve in H. ret_step H.
  destruct r; [injection H as <- <-; by split|]. ret_step H. destruct r as [[[[m1 qs1] h1] w1] c1].
  apply (processRequest_step _ _ _ _ _ _ _ _ _ _ _ Ha) in E0 as (Hk & Hr & Hl).
  destruct (c_response c1) as [l|] eqn:El.
  - ret_step H. injection H as <- <-. split; cbn [fst snd].
    + eapply (put_kept (h_id i)); [done|by apply Hl|by rewrite <- Hr].
    + split; [done|]. cbn. rewrite El. intros k [= <-]. eexists. split; [apply lookup_insert_eq|].
      exact (f_equal h_id Hr).
  - eapply id_step_trans; [split; [exact Hk|]|]; [by split; [exact Hr|rewrite El]|].
    refine (Resolver_PassToNext_safe _ _ Hn (m1, qs1, h1, w1) _ _ _ _ _ H). split; [exact Hr|]. by rewrite El.
Qed.

Lemma Recursor_resolver_step rounds (r : Recursor) h c r' h' c' i :
  answered i h c → Recursor_resolver rounds r h c = Ret (r', h', c') → id_step i h h' c'.
Proof.
  intros Ha H. unfold Recursor_resolver in H. destruct (getCtx _) as [[slot pool]|]; [|injection H as <- <- <-; by split].
  do 5 ret_step H. destruct r4 as [[nc x] [err|response]]; [injection H as <- <- <-; by split|].
  destruct (heap_alloc _ _) as [l h2] eqn:El. injection H as <- <- <-.
  eapply id_step_alloc; [exact Ha|exact El| |done..]. by destruct Ha as [<- _].
Qed.

Lemma recursor_safe : id_safe_mk rheap (recursor_resolver env).
Proof.
  apply count_call_safe, (via_safe _ (λ p, p.1.2)); [done..|].
  intros s0 next Hn [[rc h] w] c s' c' i Ha H. unfold Recursor_Resolve in H. ret_step H. destruct r as [[r1 h1] c1].
  assert (id_step i h h1 c1) as Hs.
  { destruct (from_option id false _); [|injection E as <- <- <-; by split]. ret_step E. destruct r as [[r2 h2] c2].
    apply (Recursor_resolver_step _ _ _ _ _ _ _ _ Ha) in E0. eapply id_step_trans; [exact E0|]. destruct E0 as [_ Ha2].
    destruct (c_response c2) as [l|] eqn:El; [ret_step E|]; injection E as <- <- <-; [|by split].
    eapply id_step_put; [exact Ha2|done| |done..]. exact (answered_deref _ _ _ _ _ Ha2 El E0). }
  eapply id_step_trans; [exact Hs|]. destruct Hs as [_ Ha1].
  destruct (c_response c1); [injection H as <- <-; by split|].
  exact (Resolver_PassToNext_safe _ _ Hn (r1, h1, w) _ _ _ _ Ha1 H).
Qed.

Lemma fakeauth_safe : id_safe_mk rheap fakeauth_resolver.
Proof.
  apply count_call_safe. intros next Hn [h w] c s' c' i Ha H. unfold FakeAuth_Resolve in H. ret_step H.
  destruct r as [[h1 c1] found]. apply (ResponseWithLocalData_step _ _ _ _ _ _ _ Ha) in E.
  eapply id_step_trans; [exact E|]. destruct E as [_ Ha1].
  destruct found; [|exact (Resolver_PassToNext_safe _ _ Hn (h1, w) _ _ _ _ Ha1 H)].
  injection H as <- <-. split; [done|]. by apply (answered_client _ _ _ _ Ha1).
Qed.

Lemma auth_safe : id_safe_mk rheap auth_resolver.
Proof.
  apply count_call_safe, (via_safe _ fst); [done..|]. intros s0 next Hn [h [au w]] c s' c' i Ha H.
  unfold AuthDataSource_Resolve in H. ret_step H. destruct (GetZone _ _ _) as [finder mt].
  pose proof (Resolver_PassToNext_safe _ _ Hn) as Hpass.
  destruct (decide (mt = NotFound)) as [->|Hmt]; [exact (Hpass (h, (au, w)) _ _ _ _ Ha H)|].
  assert (∃ rrs m l h2, Query_Process mt (c_request c) (default (NewDynamicZone Name_Root) (finder ≫= λ z, au_zones au !! z))
            (au_rrs au) = Ret (rrs, m) ∧ heap_alloc m h = (l, h2) ∧
          (Resolver_PassToNext next (h2, (set_rrs rrs au, w)) (set_response (Some l) c) = Ret (s', c') ∨
           (s', c') = ((h2, (set_rrs rrs au, w)), set_cache_answer false (set_response (Some l) c)))) as Hx.
  { destruct mt; try done. all: do 3 ret_step H. all: destruct finder as [z|]; [|done]. all: injection E0 as <-.
    all: destruct r2 as [rrs m], (heap_alloc m h) as [l h2] eqn:El; ret_step H. all: exists rrs, m, l, h2.
    all: unfold deref_zone in E1; destruct (au_zones au !! z) eqn:Ez; [|done]; injection E1 as ->; cbn; rewrite Ez.
    all: split_and!; [done..|]. all: destruct (decide _); [by left|right]. all: by injection H as <- <-. }
  destruct Hx as (rrs & m & l & h2 & Hq & Hal & Hend). apply Query_Process_id in Hq.
  assert (id_step i h h2 (set_response (Some l) c)) as Hs.
  { eapply id_step_alloc; [exact Ha|exact Hal| |done..]. rewrite Hq. by destruct Ha as [<- _]. }
  destruct Hend as [Hp|[= -> ->]]; [|exact Hs]. eapply id_step_trans; [exact Hs|]. destruct Hs as [_ Ha1].
  exact (Hpass (h2, (set_rrs rrs au, w)) _ _ _ _ Ha1 Hp).
Qed.

(** *** Aliases and shared queries *)

(** A message of the store with the id. *)
Definition has_id (i : Z) (h : Heap) (l : nat) : Prop := ∃ m, h !! l = Some m ∧ msg_id m = i.

Lemma has_id_kept i h h' l : ids_kept h h' → has_id i h l → has_id i h' l.
Proof. intros Hk (m & Em & <-). by apply Hk. Qed.

Lemma has_id_deref i h l m : has_id i h l → deref l h = Ret m → msg_id m = i.
Proof. intros (x & Ex & Hi) Hd. unfold deref in Hd. rewrite Ex in Hd. by injection Hd as <-. Qed.

Lemma has_id_put i h l m : has_id i h l → msg_id m = i → ids_kept h (<[l := m]> h).
Proof. intros (x & Ex & Hi) Hm. eapply (put_kept i); [done| |done]. intros y Ey. congruence. Qed.

Lemma mergeResponse_kept ctx resp h h' i :
  has_id i h (cx_response ctx) → mergeResponse ctx resp h = Ret h' → ids_kept h h'.
Proof.
  intros Hx H. unfold mergeResponse in H. destruct resp as [l|]; [|injection H as <-; reflexivity].
  do 2 ret_step H. pose proof (has_id_deref _ _ _ _ Hx E0) as Hi.
  assert (ids_kept h (<[cx_response ctx := foldl (λ acc r, AddRRset AnswerSection r acc) r0 (m_answer r)]> h)) as Hk.
  { apply (has_id_put i); [done|]. by rewrite add_all_id. }
  pose proof (has_id_kept _ _ _ _ Hk Hx) as Hx1. do 2 ret_step H. injection H as <-. etrans; [exact Hk|].
  apply (has_id_put i); [done|]. exact (has_id_deref _ _ _ _ Hx1 E2).
Qed.

Lemma trim_answer_kept indirect h c h' i :
  answered i h c → trim_answer indirect (c_response c) h = Ret h' → ids_kept h h'.
Proof.
  intros Ha H. unfold trim_answer in H. destruct indirect; [|injection H as <-; reflexivity].
  ret_step H. destruct (c_response c) as [l|] eqn:El; [|done]. injection E as <-. unfold keep_first_answer in H.
  do 2 ret_step H. injection H as <-. destruct Ha as [Hr Ha]. apply (has_id_put (h_id i)); [by apply Ha|].
  exact (has_id_deref _ _ _ _ (Ha _ El) E).
Qed.

Lemma follow_step fuel indirect resolver ctx h (w : System) c s' ctx' c' i :
  id_safe rheap resolver → m_header (c_request c) = i → has_id (h_id i) h (cx_response ctx) →
  followCNameChain fuel indirect resolver ctx (h, w) c = Ret (s', ctx', c') →
  ids_kept h s'.1 ∧ m_header (c_request c') = i ∧ cx_response ctx' = cx_response ctx.
Proof.
  intros Hres. revert ctx h w c. induction fuel as [|fuel IH]; intros ctx h w c Hr Hx H; [done|].
  cbn [followCNameChain] in H. ret_step H. destruct r as [[ctx1 c1] tooLong].
  assert (m_header (c_request c1) = i ∧ cx_response ctx1 = cx_response ctx ∧ (tooLong = false → c_response c1 = None))
    as (Hr1 & Hc1 & Hn1).
  { unfold makeRedirectQuery in E. destruct (_ <? _); [by injection E as <- <- <-|]. ret_step E.
    by injection E as <- <- <-. }
  destruct tooLong; [by injection H as <- <- <-|]. ret_step H. destruct r as [[h2 w2] c2].
  apply (Hres _ _ _ _ i) in E0 as [Hk Ha2]; [|split; [done|by rewrite Hn1]]. cbn [fst] in Hk, Ha2.
  pose proof (has_id_kept _ _ _ _ Hk Hx) as Hx2. rewrite <- Hc1 in Hx2.
  assert (m_header (c_request c2) = i) as Hr2 by by destruct Ha2.
  ret_step H. destruct r as [nextName|].
  - do 2 ret_step H. pose proof (trim_answer_kept _ _ _ _ _ Ha2 E1) as Hk1.
    pose proof (has_id_kept _ _ _ _ Hk1 Hx2) as Hx3. pose proof (mergeResponse_kept _ _ _ _ _ Hx3 E2) as Hk2.
    pose proof (has_id_kept _ _ _ _ Hk2 Hx3) as Hx4.
    destruct (addRedirect nextName ctx1) as [ctx2 circle] eqn:Er.
    assert (cx_response ctx2 = cx_response ctx1) as Hc2
      by (unfold addRedirect in Er; destruct (existsb _ _); by injection Er as <- <-).
    destruct circle; [injection H as <- <- <-; split_and!; [by do 2 (etrans; [eassumption|])|done|congruence]|].
    apply IH in H as (Hk3 & Hr3 & Hc3); [|done|by rewrite Hc2].
    split_and!; [by do 3 (etrans; [eassumption|])|done|congruence].
  - ret_step H. injection H as <- <- <-. pose proof (mergeResponse_kept _ _ _ _ _ Hx2 E1) as Hk2.
    split_and!; [by etrans|done..].
Qed.

Lemma cname_safe indirect resolver : id_safe rheap resolver → id_safe rheap (CNameHandler_Resolve indirect resolver).
Proof.
  intros Hres [h w] c s' c' i Ha H. unfold CNameHandler_Resolve in H. ret_step H. destruct r as [[h1 w1] c1].
  apply (Hres _ _ _ _ _ Ha) in E. eapply id_step_trans; [exact E|]. destruct E as [_ Ha1]. cbn [fst] in Ha1 |- *.
  ret_step H. destruct r as [nextName|]; [|injection H as <- <-; by split]. ret_step H.
  pose proof (trim_answer_kept _ _ _ _ _ Ha1 E0) as Hk. ret_step H.
  destruct (c_response c1) as [l|] eqn:El; [|done]. injection E1 as <-.
  unfold newCNameContext in H. ret_step H. ret_step E1. injection E1 as <-.
  destruct (addRedirect nextName _) as [ctx x] eqn:Er.
  assert (cx_response ctx = l) as Hc by (unfold addRedirect in Er; destruct (existsb _ _); by injection Er as <- <-).
  ret_step H. destruct r0 as [[[h2 w2] ctx2] c2].
  assert (has_id (h_id i) r (cx_response ctx)) as Hx.
  { rewrite Hc. eapply has_id_kept; [exact Hk|]. destruct Ha1 as [_ Ha1]. by apply Ha1. }
  apply (follow_step _ _ _ _ _ _ _ _ _ _ i Hres) in E1 as (Hk2 & Hr2 & Hc2); [|by destruct Ha1|exact Hx].
  unfold assembleFinalResponse in H. ret_step H. injection H as <- <-. cbn [fst] in Hk2 |- *.
  pose proof (has_id_kept _ _ _ _ Hk2 Hx) as Hx2. split.
  - etrans; [exact Hk|]. etrans; [exact Hk2|]. apply (has_id_put (h_id i)); [by rewrite Hc2|exact (f_equal h_id Hr2)].
  - split; [exact Hr2|]. cbn. intros k [= <-]. eexists. split; [apply lookup_insert_eq|exact (f_equal h_id Hr2)].
Qed.

Lemma limit_safe first : id_safe rheap first → id_safe rheap (limit_resolver env first).
Proof.
  intros Hf s c s' c' i Ha H. unfold limit_resolver in H. change s.1 with (count_call s).1 in Ha |- *.
  revert H. generalize (ev_flights env (sy_tick s.2)) (count_call s) Ha. clear Ha s. intros flights s Ha H.
  revert Ha H. revert s. induction flights as [|f flights IH]; intros s Ha H; cbn [QueryLimit_Resolve] in H;
    ret_step H; [done|]. destruct f as [|resp cacheAnswer|err]; [by eapply Hf| |injection H as <- <-; by split].
  destruct (c_response c); [injection H as <- <-; by split|].
  destruct resp as [l|]; [|injection H as <- <-; by split]. destruct s as [h w].
  do 3 ret_step H. destruct (Name_Equals _ _); [|by eapply IH].
  destruct (heap_alloc _ _) as [l' h2] eqn:El. injection H as <- <-.
  eapply id_step_alloc; [exact Ha|exact El| |done..]. by destruct Ha as [<- _].
Qed.

(** *** The chains *)

Lemma BuildResolverChain_safe {Conf} (rs : list (Resolver Conf (Heap * System))) first :
  Forall (λ r, id_safe_mk rheap (r_Resolve r)) rs → BuildResolverChain rs = Some first → id_safe rheap first.
Proof.
  intros Hall. revert first. induction Hall as [|r rs Hr Hall IH]; intros first; [done|]. intros [= <-]. by apply Hr.
Qed.

Lemma pick_safe (b : bool) m :
  Forall (λ r, id_safe_mk rheap (r_Resolve r)) (if b then [resolver_part env m] else []).
Proof.
  destruct b; [apply Forall_singleton|constructor]. unfold resolver_part. cbn [r_Resolve].
  destruct (bool_decide _); [exact stub_safe|]. destruct (bool_decide _); [exact forwarder_safe|].
  destruct (bool_decide _); [exact recursor_safe|]. destruct (bool_decide _); [exact fakeauth_safe|exact auth_safe].
Qed.

Lemma resolver_chain_safe enabled first :
  resolver_chain enabled (limit_resolver env) (resolver_part env) = Some first → id_safe rheap first.
Proof.
  unfold resolver_chain. intros H. eapply BuildResolverChain_safe; [|exact H]. clear H.
  apply Forall_app; split; [apply pick_safe|]. apply Forall_app; split; [apply pick_safe|].
  destruct (BuildResolverChain _) as [up|] eqn:E; [|constructor]. constructor; [|constructor].
  cbn. intros _ _. apply limit_safe. eapply BuildResolverChain_safe; [|exact E].
  apply Forall_app; split; [apply pick_safe|]. apply Forall_app; split; apply pick_safe.
Qed.

Lemma resolver_safe enabled first :
  resolver_chain enabled (limit_resolver env) (resolver_part env) = Some first →
  id_safe_mk sy_heap (resolver_handler first).
Proof.
  intros Hf. apply counted_safe, (via_safe _ rheap); [done..|]. intros s0 next Hn [h w] c s' c' i Ha H.
  unfold ResolverManager_HandleQuery in H. ret_step H. destruct r as [[h1 w1] c1].
  apply (cname_safe _ _ (resolver_chain_safe _ _ Hf) _ _ _ _ _ Ha) in E. eapply id_step_trans; [exact E|].
  destruct E as [_ Ha1]. destruct (c_response c1); [injection H as <- <-; by split|].
  exact (PassToNext_safe _ _ Hn (h1, w1) _ _ _ _ Ha1 H).
Qed.
End handlers.

(** ** The whole server *)

Section whole.
Context {N : G53Name} {M : G53Msg N} {ML : G53MsgLaws M} {IL : G53IdLaws M} {D : G53Wire N} {T : DomainTree N}
  {ZT : ZoneTree N} {R : NetRadix} {G : GoSort}.
Context (env : Env) (HE : env_ids env) (re : ReloadEnv) (ipString : IP → string).

Lemma module_safe enabled m qm :
  m ∈ moduleInOrder → make (system_module env re) (system_resolver env re enabled) m = Ret qm →
  id_safe_mk sy_heap (qm_HandleQuery qm).
Proof.
  unfold moduleInOrder. rewrite !elem_of_cons, elem_of_nil.
  intros [->|[->|[->|[->|[->|[->|[->|[->|[->|[->|[->|[]]]]]]]]]]]] H; cbn in H;
    try (injection H as <-; cbn [qm_HandleQuery]).
  - apply querylog_safe.
  - apply k8s_safe.
  - by apply view_safe.
  - apply filter_safe.
  - apply adaptor_safe. intros. by eapply Aaaa_step.
  - apply adaptor_safe. intros. by eapply SortList_step.
  - apply adaptor_safe. intros. by eapply Hijack_step.
  - apply dns64_safe.
  - apply cache_safe.
  - unfold system_resolver in H. destruct (resolver_chain _ _ _) as [first|] eqn:E; [|done].
    injection H as <-. by eapply resolver_safe.
  - by apply failforwarder_safe.
Qed.

Lemma notify_safe : id_safe sy_heap (system_notify env ipString).
Proof.
  intros s c s' c' i Ha H. unfold system_notify, XFRHandler_HandleQuery in H. ret_step H.
  destruct r as [[[t h] c1] started]. ret_step E. destruct r as [[h1 c2] found].
  apply (SelectView_step env HE _ _ _ _ _ _ _ _ _ Ha) in E0. destruct found.
  - ret_step E. destruct r as [t1 st]. injection E as <- <- <- <-. destruct st as [[response tr]|];
      [|by injection H as <- <-]. destruct (heap_alloc _ _) as [l h2] eqn:El. injection H as <- <-.
    eapply id_step_trans; [exact E0|]. destruct E0 as [_ Ha1].
    eapply id_step_alloc; [exact Ha1|exact El| |done..].
    assert (response = MakeResponse (c_request c2)) as ->.
    { unfold HandleNotify in E1. destruct (m_answer _) as [|soa [|]]; [done| |done]. destruct (negb _); [done|].
      destruct (GetZone _ _ _) as [z mt]. destruct mt; [|done..]. destruct (addZoneToTransfer _ _ _) as [t2 added].
      destruct (negb added); [done|]. do 3 ret_step E1. destruct (IsMaster _); [done|]. ret_step E1.
      destruct (existsb _ _); [|done]. by injection E1 as <- <- <-. }
    rewrite MakeResponse_msg_id. by destruct Ha1 as [<- _].
  - injection E as <- <- <- <-. by injection H as <- <-.
Qed.

Lemma system_safe enabled handlers first notify :
  system_handler env re ipString enabled = Ret (handlers, first, notify) →
  id_safe sy_heap first ∧ ∀ h, notify = Some h → id_safe sy_heap h.
Proof.
  unfold system_handler. intros H. destruct (decide (Forall known enabled)) as [Hk|Hk].
  2:{ destruct (read_modules_unknown (system_module env re) enabled ∅ false Hk) as (m & _ & _ & E).
      unfold createHandler in H. by rewrite E in H. }
  rewrite (createHandler_eq _ _ _ _ Hk) in H. ret_step H.
  destruct (BuildQueryChain _) as [f|] eqn:Ef; [|done]. injection H as <- <- <-. split.
  - eapply BuildQueryChain_safe; [|exact Ef]. apply Forall_fmap. eapply mapM_made; [|exact E].
    intros m qm [_ Hm]%list_elem_of_filter Hmk. by eapply module_safe.
  - intros h Hh. case_bool_decide; [|done]. injection Hh as <-. exact notify_safe.
Qed.

(** The handlers of the process for the turns of the server's routines, which keep the
    messages beside the state. *)
Definition on_system (first : Handler System) : Handler (Heap * Metrics * System) := λ s client,
  let '(h, mt, w) := s in
  r ← first (set_sy_heap h w) client; Ret ((sy_heap r.1, mt, r.1), r.2).

Lemma on_system_safe first : id_safe sy_heap first → id_safe (λ s, s.1.1) (on_system first).
Proof.
  intros Hf [[h mt] w] c s' c' i Ha H. unfold on_system in H. ret_step H. destruct r as [s1 c1].
  injection H as <- <-. exact (Hf (set_sy_heap h w) _ _ _ _ Ha E).
Qed.

(** A turn of a routine up to the response. *)
Lemma dispatch_step enabled handlers first notify now msg request s s1 c :
  system_handler env re ipString enabled = Ret (handlers, first, notify) →
  dispatch (on_system first) (on_system <$> notify) s (new_client now request msg) = Ret (s1, c) →
  id_step (m_header request) s.1.1 s1.1.1 c.
Proof.
  intros [Hf Hn]%system_safe E. assert (answered (m_header request) s.1.1 (new_client now request msg)) as Ha by by split.
  unfold dispatch in E. destruct (_ =? OP_QUERY); [exact (on_system_safe _ Hf _ _ _ _ _ Ha E)|].
  destruct notify as [hn|]; cbn in E; [destruct (_ =? OP_NOTIFY)|]; [|injection E as -> <-; by split..].
  exact (on_system_safe _ (Hn _ eq_refl) _ _ _ _ _ Ha E).
Qed.

(** Every response carries the id of its query.  Whatever modules the server is made of,
    whatever state its components are in and whatever the network, the cache or queries in
    flight give, a response that a routine sends for a message has the id of the query in
    the message; and no message that any component or any other query holds has got another
    id by it. *)
Lemma turn_response enabled handlers first notify Rend now msg request s s' bytes :
  system_handler env re ipString enabled = Ret (handlers, first, notify) →
  MessageFromWire (sm_data msg) = inr request →
  serve_message Rend (on_system first) (on_system <$> notify) now msg s = Ret (s', Some bytes) →
  (∃ m, bytes = Rend m ∧ msg_id m = msg_id request) ∧ ids_kept s.1.1 s'.1.1.
Proof.
  intros Hsys Hw H. unfold serve_message in H. rewrite Hw in H. ret_step H.
  destruct r as [[[h mt] w] c]. apply (dispatch_step _ _ _ _ _ _ _ _ _ _ Hsys) in E as [Hk Ha].
  cbv zeta in H. destruct (c_response c) as [l|] eqn:El; [|done]. ret_step H. injection H as <- <-.
  pose proof (answered_deref _ _ _ _ _ Ha El E) as Hi.
  assert (msg_id (RecalculateSectionRRCount r) = msg_id request) as Hi'
    by exact (eq_trans (Recalculate_id r) Hi).
  split; [by exists (RecalculateSectionRRCount r)|]. cbn. eapply (put_kept (msg_id request)); [exact Hk| |done].
  intros x Ex. destruct (Hk _ _ Ex) as (y & Ey & <-). unfold deref in E. cbn in Ey. rewrite Ey in E. by injection E as ->.
Qed.
End whole.

Section ids_examples.
Lemma demo_env_ids rounds : env_ids (demo_env rounds).
Proof. by split. Qed.

Definition sends {S} (o : outcome (S * option (list Z))) : bool :=
  match o with Ret (_, Some _) => true | _ => false end.
Lemma sends_Ret {S} (o : outcome (S * option (list Z))) : sends o = true → ∃ s bytes, o = Ret (s, Some bytes).
Proof. destruct o as [[s [bytes|]]| |]; [eauto|done..]. Qed.

(** A server that sends the id only. *)
Definition demo_Rend (m : Message) : list Z := [msg_id m].
Definition demo_message (i : Z) : SrvMsg :=
  mkSrvMsg false (UDPAddr [10; 0; 0; 1] 5353) (UDPAddr [10; 0; 0; 2] 53) 0 0 [i].
Abbreviation demo_serve i s := (serve_message demo_Rend (on_system demo_first) (on_system <$> None) 0 (demo_message i) s).
Definition demo_state : Heap * Metrics * System :=
  (∅, mkMetrics ∅ 0 ∅ 0 ∅ 0 ∅ 0 ∅, (demo_start (λ _, demo_rounds)).1).
Definition demo_served : outcome (Heap * Metrics * System * option (list Z)) :=
  r ← demo_serve 4711 demo_state; demo_serve 4712 r.1.

(** A query is resolved and the same query with another id answered from the cache; each
    response has the id of its query. *)
Lemma turn_response_example :
  ∃ s1 s2, demo_serve 4711 demo_state = Ret (s1, Some [4711]) ∧ demo_serve 4712 s1 = Ret (s2, Some [4712]) ∧
    ids_kept demo_state.1.1 s1.1.1 ∧ ids_kept s1.1.1 s2.1.1.
Proof.
  destruct (is_ret_Ret demo_handler) as [[[handlers first] notify] Eh]; [by_eval|].
  assert (first = demo_first) as -> by (unfold demo_first; by rewrite Eh).
  assert (notify = None) as ->.
  { assert (match demo_handler with Ret (_, _, None) => true | _ => false end = true) as Hn by by_eval.
    rewrite Eh in Hn. by destruct notify. }
  destruct (sends_Ret (demo_serve 4711 demo_state)) as (s1 & b1 & E1); [by_eval|].
  assert (sends demo_served = true) as H2 by by_eval. unfold demo_served in H2. rewrite E1, bind_Ret in H2.
  apply sends_Ret in H2 as (s2 & b2 & E2). cbn [fst] in E2.
  destruct (turn_response _ (demo_env_ids _) _ _ _ _ _ _ _ _ (demo_message 4711) _ _ _ _ Eh eq_refl E1) as [(m1 & -> & H1) Hk1].
  destruct (turn_response _ (demo_env_ids _) _ _ _ _ _ _ _ _ (demo_message 4712) _ _ _ _ Eh eq_refl E2) as [(m2 & -> & H2) Hk2].
  assert (∀ m i, msg_id m = i → demo_Rend m = [i]) as Hr by (intros m i <-; reflexivity).
  exists s1, s2. split; [exact (eq_trans E1 (f_equal (λ b, Ret (s1, Some b)) (Hr _ _ H1)))|].
  split; [exact (eq_trans E2 (f_equal (λ b, Ret (s2, Some b)) (Hr _ _ H2)))|]. exact (conj Hk1 Hk2).
Defined.
End ids_examples.
