(* ===== verification/Commands.v ===== *)
(** * Every command of the server (cmdhandler.go of each component, src/cmd/vgclient)

    The commands of all components as one type, with their texts, the JSON of their fields
    and the names of their types; the handlers on the state of the process; and the
    dispatcher the components register with when they are created. *)

From S2P Require Import Prelude GoList GoStd G53 Instances Core HttpCmd Json HttpProto Cache CacheHandler Cement Acl RateLimit ViewSelector Util Chain Forwarder Resolver Recursor Dns64 Zone Auth RecursorRun Xfr LocalData Stub RespTransfer Server QueryLog Config Main K8s System.
From Stdlib Require Import Ascii.

(** ** Commands whose operations are in the components' files *)

Inductive ForwardCmd : Type :=
  | AddForwardZone (zones : list ForwardZoneParam)
  | DeleteForwardZone (view name : string)
  | UpdateForwardZone (z : ForwardZoneParam).

Definition ViewFwderMgr_HandleCmd {N : G53Name} {T : DomainTree N} (cmd : ForwardCmd) (m : ViewFwderMgr)
  : ViewFwderMgr * option CmdError :=
  match cmd with
  | AddForwardZone zones => addForwardZone zones m
  | DeleteForwardZone view name => deleteForwardZone view name m
  | UpdateForwardZone z => updateForwardZone (fz_View z) (fz_Name z) (fz_ForwardStyle z) (fz_Forwarders z) m
  end.

Inductive FailForwarderCmd : Type :=
  | AddFailForwarder (view forwarder : string)
  | UpdateFailForwarder (view forwarder : string)
  | DeleteFailForwarder (view : string).

Definition FailForwarder_HandleCmd (resolve : string → option string) (qs : QuerySources)
  (cmd : FailForwarderCmd) (ff : gmap string forwarder) : gmap string forwarder * option CmdError :=
  match cmd with
  | AddFailForwarder view server => FailForwarder_AddForwarder resolve qs view server ff
  | DeleteFailForwarder view => FailForwarder_DeleteForwarder view ff
  | UpdateFailForwarder view server => FailForwarder_UpdateForwarder view server ff
  end.

Inductive NameLimitCmd : Type :=
  | AddNameRateLimit (view name : string) (limit : Z)
  | DeleteNameRateLimit (view name : string)
  | UpdateNameRateLimit (view name : string) (limit : Z).

Definition NameThrottler_HandleCmd {N : G53Name} {T : DomainTree N} (cmd : NameLimitCmd)
  (t : NameThrottler) : NameThrottler * option CmdError :=
  match cmd with
  | AddNameRateLimit view name limit => NameThrottler_addNameRateLimit view name limit t
  | DeleteNameRateLimit view name => NameThrottler_deleteNameRateLimit view name t
  | UpdateNameRateLimit view name limit => NameThrottler_updateNameRateLimit view name limit t
  end.

Inductive IpLimitCmd : Type :=
  | AddIpRateLimit (network : string) (limit : Z)
  | DeleteIpRateLimit (network : string)
  | UpdateIpRateLimit (network : string) (limit : Z).

(** [parseCIDR] is [net.ParseCIDR]: an error or the canonical network. *)
Definition IPThrottler_HandleCmd {R : NetRadix} (parseCIDR : string → string + string)
  (cmd : IpLimitCmd) (t : throttlerEntry) : throttlerEntry * option CmdError :=
  match cmd with
  | AddIpRateLimit network limit => IPThrottler_addIpRateLimit (parseCIDR network) limit t
  | DeleteIpRateLimit network => IPThrottler_deleteIpRateLimit network t
  | UpdateIpRateLimit network limit =>
      IPThrottler_updateIpRateLimit (parseCIDR network) network limit t
  end.

(** ** All commands *)

Inductive Cmd : Type :=
  | ServerC (c : ServerCmd)
  | AclC (c : AclCmd)
  | ViewC (c : ViewCmd)
  | NameLimitC (c : NameLimitCmd)
  | IpLimitC (c : IpLimitCmd)
  | SrvFailedProtect (enable : bool)
  | PutAAAAFilter (view : string) (acls : list string)
  | SortListC (c : SortListCmd)
  | HijackC (c : HijackCmd)
  | PutDns64 (view : string) (preAndPostfixes : list string)
  | CacheC (c : CacheCmd)
  | QuerySourceC (c : QuerySourceCmd)
  | StubC (c : StubCmd)
  | ForwardC (c : ForwardCmd)
  | LocalDataC (c : LocalDataCmd)
  | AuthC (c : AuthCmd)
  | FailForwarderC (c : FailForwarderCmd).

(** [reflector.StructName] of the commands. *)
Definition cmd_StructName (c : Cmd) : string :=
  match c with
  | ServerC Reconfig => "Reconfig" | ServerC Ping => "Ping" | ServerC Stop => "Stop"
  | AclC (AddAcl _ _) => "AddAcl" | AclC (DeleteAcl _) => "DeleteAcl" | AclC (UpdateAcl _ _) => "UpdateAcl"
  | ViewC (UpdateView _ _) => "UpdateView" | ViewC (UpdateViewPriority _) => "UpdateViewPriority"
  | NameLimitC (AddNameRateLimit _ _ _) => "AddNameRateLimit"
  | NameLimitC (DeleteNameRateLimit _ _) => "DeleteNameRateLimit"
  | NameLimitC (UpdateNameRateLimit _ _ _) => "UpdateNameRateLimit"
  | IpLimitC (AddIpRateLimit _ _) => "AddIpRateLimit"
  | IpLimitC (DeleteIpRateLimit _) => "DeleteIpRateLimit"
  | IpLimitC (UpdateIpRateLimit _ _) => "UpdateIpRateLimit"
  | SrvFailedProtect _ => "SrvFailedProtect"
  | PutAAAAFilter _ _ => "PutAAAAFilter"
  | SortListC (AddSortList _ _ _) => "AddSortList" | SortListC (DeleteSortList _ _) => "DeleteSortList"
  | SortListC (UpdateSortList _ _ _) => "UpdateSortList"
  | HijackC (AddRedirectRR _ _ _ _ _) => "AddRedirectRR" | HijackC (DeleteRedirectRR _ _ _ _) => "DeleteRedirectRR"
  | HijackC (UpdateRedirectRR _ _ _ _ _ _) => "UpdateRedirectRR"
  | PutDns64 _ _ => "PutDns64"
  | CacheC CleanCache => "CleanCache" | CacheC (CleanViewCache _) => "CleanViewCache"
  | CacheC (CleanRRsetsCache _ _) => "CleanRRsetsCache" | CacheC (CleanDomainCache _) => "CleanDomainCache"
  | CacheC (GetDomainCache _ _) => "GetDomainCache" | CacheC (GetMessageCache _ _ _) => "GetMessageCache"
  | QuerySourceC (AddQuerySource _ _) => "AddQuerySource"
  | QuerySourceC (DeleteQuerySource _) => "DeleteQuerySource"
  | QuerySourceC (UpdateQuerySource _ _) => "UpdateQuerySource"
  | StubC (AddStubZone _ _ _) => "AddStubZone" | StubC (DeleteStubZone _ _) => "DeleteStubZone"
  | StubC (UpdateStubZone _ _ _) => "UpdateStubZone"
  | ForwardC (AddForwardZone _) => "AddForwardZone" | ForwardC (DeleteForwardZone _ _) => "DeleteForwardZone"
  | ForwardC (UpdateForwardZone _) => "UpdateForwardZone"
  | LocalDataC (AddLocalData _) => "AddLocalData" | LocalDataC (DeleteLocalData _) => "DeleteLocalData"
  | LocalDataC (UpdateLocalData _ _) => "UpdateLocalData"
  | AuthC (AddAuthZone _ _ _ _) => "AddAuthZone" | AuthC (DeleteAuthZone _ _) => "DeleteAuthZone"
  | AuthC (UpdateAuthZone _ _ _) => "UpdateAuthZone" | AuthC (AddAuthRrs _) => "AddAuthRrs"
  | AuthC (DeleteAuthRrs _) => "DeleteAuthRrs" | AuthC (UpdateAuthRrs _ _) => "UpdateAuthRrs"
  | FailForwarderC (AddFailForwarder _ _) => "AddFailForwarder"
  | FailForwarderC (UpdateFailForwarder _ _) => "UpdateFailForwarder"
  | FailForwarderC (DeleteFailForwarder _) => "DeleteFailForwarder"
  end.

(** ** The JSON of their fields *)

(** A nil slice is null. *)
Definition json_strings (l : list string) : json :=
  match l with [] => JNull | _ => JArr (JStr <$> l) end.
Definition str_fields (l : list (string * string)) : list (string * json) := prod_map id JStr <$> l.

Definition ForwardZoneParam_json (z : ForwardZoneParam) : json :=
  JObj [("view", JStr (fz_View z)); ("name", JStr (fz_Name z));
        ("forwarders", json_strings (fz_Forwarders z)); ("forward_style", JStr (fz_ForwardStyle z))].

Definition AuthRR_json (rr : AuthRR) : json :=
  JObj (str_fields [("View", arr_View rr); ("Zone", arr_Zone rr); ("Name", arr_Name rr);
                    ("Ttl", arr_Ttl rr); ("Type", arr_Type rr); ("Rdata", arr_Rdata rr)]).

Definition json_list {A} (f : A → json) (l : list A) : json :=
  match l with [] => JNull | _ => JArr (f <$> l) end.

Definition LocalPolicyData_json (d : LocalPolicyData) : json :=
  JObj (str_fields [("policy", lpd_Policy d); ("view", lpd_View d); ("data", lpd_Data d)]).

Definition cmd_fields (c : Cmd) : list (string * json) :=
  match c with
  | ServerC _ => []
  | AclC (AddAcl name networks) | AclC (UpdateAcl name networks) =>
      [("name", JStr name); ("networks", json_strings networks)]
  | AclC (DeleteAcl name) => [("name", JStr name)]
  | ViewC (UpdateView name acls) => [("name", JStr name); ("acls", json_strings acls)]
  | ViewC (UpdateViewPriority orders) => [("orders", json_strings orders)]
  | NameLimitC (AddNameRateLimit view name limit) | NameLimitC (UpdateNameRateLimit view name limit) =>
      [("view", JStr view); ("name", JStr name); ("rate_limit", json_int limit)]
  | NameLimitC (DeleteNameRateLimit view name) => [("view", JStr view); ("name", JStr name)]
  | IpLimitC (AddIpRateLimit network limit) | IpLimitC (UpdateIpRateLimit network limit) =>
      [("network", JStr network); ("rate_limit", json_int limit)]
  | IpLimitC (DeleteIpRateLimit network) => [("network", JStr network)]
  | SrvFailedProtect enable => [("enable", JBool enable)]
  | PutAAAAFilter view acls => [("view", JStr view); ("filter_aaaa_ips", json_strings acls)]
  | SortListC (AddSortList view ip ips) | SortListC (UpdateSortList view ip ips) =>
      [("view", JStr view); ("source_ip", JStr ip); ("prefered_ips", json_strings ips)]
  | SortListC (DeleteSortList view ip) => [("view", JStr view); ("source_ip", JStr ip)]
  | HijackC (AddRedirectRR view name ttl typ rdata) =>
      str_fields [("view", view); ("name", name); ("ttl", ttl); ("type", typ); ("rdata", rdata)]
  | HijackC (DeleteRedirectRR view name typ rdata) =>
      str_fields [("view", view); ("name", name); ("type", typ); ("rdata", rdata)]
  | HijackC (UpdateRedirectRR view name typ oldRdata newTtl newRdata) =>
      str_fields [("view", view); ("name", name); ("type", typ); ("old_rdata", oldRdata);
                  ("new_ttl", newTtl); ("new_rdata", newRdata)]
  | PutDns64 view fixes => [("view", JStr view); ("pre_and_post_fixes", json_strings fixes)]
  | CacheC CleanCache => []
  | CacheC (CleanViewCache view) => [("view_name", JStr view)]
  | CacheC (CleanRRsetsCache view name) => [("view_name", JStr view); ("domain_name", JStr name)]
  | CacheC (CleanDomainCache name) => [("domain_name", JStr name)]
  | CacheC (GetDomainCache name typ) => [("domain_name", JStr name); ("type", JStr typ)]
  | CacheC (GetMessageCache view name typ) =>
      [("view_name", JStr view); ("domain_name", JStr name); ("type", JStr typ)]
  | QuerySourceC (AddQuerySource view addr) | QuerySourceC (UpdateQuerySource view addr) =>
      [("view", JStr view); ("query_source", JStr addr)]
  | QuerySourceC (DeleteQuerySource view) => [("view", JStr view)]
  | StubC (AddStubZone view name masters) | StubC (UpdateStubZone view name masters) =>
      [("view", JStr view); ("name", JStr name); ("masters", json_strings masters)]
  | StubC (DeleteStubZone view name) => [("view", JStr view); ("name", JStr name)]
  | ForwardC (AddForwardZone zones) => [("zones", json_list ForwardZoneParam_json zones)]
  | ForwardC (DeleteForwardZone view name) => [("view", JStr view); ("name", JStr name)]
  | ForwardC (UpdateForwardZone z) =>
      [("view", JStr (fz_View z)); ("name", JStr (fz_Name z));
       ("forwarders", json_strings (fz_Forwarders z)); ("forward_style", JStr (fz_ForwardStyle z))]
  | LocalDataC (AddLocalData d) | LocalDataC (DeleteLocalData d) => [("localdata", LocalPolicyData_json d)]
  | LocalDataC (UpdateLocalData old new) =>
      [("old_localdata", LocalPolicyData_json old); ("new_localdata", LocalPolicyData_json new)]
  | AuthC (AddAuthZone view name masters content) =>
      [("view", JStr view); ("name", JStr name); ("masters", json_strings masters); ("zone_content", JStr content)]
  | AuthC (DeleteAuthZone view name) => [("view", JStr view); ("name", JStr name)]
  | AuthC (UpdateAuthZone view name masters) =>
      [("view", JStr view); ("name", JStr name); ("masters", json_strings masters)]
  | AuthC (AddAuthRrs rrs) | AuthC (DeleteAuthRrs rrs) => [("rrs", json_list AuthRR_json rrs)]
  | AuthC (UpdateAuthRrs old new) =>
      [("old_rrs", json_list AuthRR_json old); ("new_rrs", json_list AuthRR_json new)]
  | FailForwarderC (AddFailForwarder view server) | FailForwarderC (UpdateFailForwarder view server) =>
      [("view", JStr view); ("forwarder", JStr server)]
  | FailForwarderC (DeleteFailForwarder view) => [("view", JStr view)]
  end.

Definition cmd_json (c : Cmd) : json := JObj (cmd_fields c).

(** [RRInCache] as the result of the commands that list the cache. *)
Definition RRInCache_json (r : RRInCache) : json :=
  JObj [("name", JStr (ric_Name r)); ("type", JStr (ric_Type r)); ("class", JStr (ric_Class r));
        ("ttl", json_int (ric_Ttl r)); ("rdata", JStr (ric_Rdata r))].

Definition RRInCache_decode (j : json) : option RRInCache :=
  fs ← struct_fields j;
  name ← decode_field "name" store_string "" fs;
  typ ← decode_field "type" store_string "" fs;
  class ← decode_field "class" store_string "" fs;
  ttl ← decode_field "ttl" store_int 0%Z fs;
  rdata ← decode_field "rdata" store_string "" fs;
  Some (mkRRInCache name typ class ttl rdata).

Definition listing_json (l : list RRInCache) : json := json_list RRInCache_json l.

(** Into a nil slice. *)
Definition listing_store (j : json) (old : list RRInCache) : option (list RRInCache) :=
  match j with
  | JNull => Some old
  | JArr l => mapM RRInCache_decode l
  | _ => None
  end.

(** ** Their texts, for the log *)

Definition newline : string := String "010"%char "".

Definition stringFromRRs (rrs : list AuthRR) : string :=
  strings_Join ((λ rr, "view:" +:+ arr_View rr +:+ ", zone:" +:+ arr_Zone rr +:+ ", name:" +:+ arr_Name rr +:+
    ", ttl:" +:+ arr_Ttl rr +:+ ", type:" +:+ arr_Type rr +:+ ", rdata:" +:+ arr_Rdata rr +:+ newline) <$> rrs) "".

Definition LocalPolicyData_toString (d : LocalPolicyData) : string :=
  "type:" +:+ lpd_Policy d +:+ "view:" +:+ lpd_View d +:+ ", data:" +:+ lpd_Data d.

Definition commas (l : list string) : string := strings_Join l ",".

Definition AclCmd_String (c : AclCmd) : string :=
  match c with
  | AddAcl name networks => "name: add acl and params: {name:" +:+ name +:+ ", acls:[" +:+ commas networks +:+ "]}"
  | DeleteAcl name => "name: delete acl and params: {name:" +:+ name +:+ "}"
  | UpdateAcl name networks =>
      "name: update acl and params: {name:" +:+ name +:+ ", acls:[" +:+ commas networks +:+ "]}"
  end.

Definition ViewCmd_String (c : ViewCmd) : string :=
  match c with
  | UpdateView name acls => "name: update view and params {name:" +:+ name +:+ ", acls:[" +:+ commas acls +:+ "]}"
  | UpdateViewPriority orders =>
      "name: update view priority and params: {orders:[" +:+ commas orders +:+ "]}"
  end.

Definition NameLimitCmd_String (c : NameLimitCmd) : string :=
  match c with
  | AddNameRateLimit view name limit =>
      "name: add name rrls and params:{view:" +:+ view +:+ ", name:" +:+ name +:+ ", rate_limit:" +:+
      strconv_Itoa limit +:+ "}"
  | DeleteNameRateLimit view name => "name: add name rrls and params:{view:" +:+ view +:+ ", name:" +:+ name +:+ "}"
  | UpdateNameRateLimit view name limit =>
      "name: update name rrls and params:{view:" +:+ view +:+ ", name:" +:+ name +:+ ", rate_limit:" +:+
      strconv_Itoa limit +:+ "}"
  end.

Definition IpLimitCmd_String (c : IpLimitCmd) : string :=
  match c with
  | AddIpRateLimit network limit =>
      "name: add ip rrls and params:{network:" +:+ network +:+ ", rate_limit:" +:+ strconv_Itoa limit +:+ "}"
  | DeleteIpRateLimit network => "name: delete ip rrls and params:{network:" +:+ network +:+ "}"
  | UpdateIpRateLimit network limit =>
      "name: update ip rrls and params:{network:" +:+ network +:+ ", rate_limit:" +:+ strconv_Itoa limit +:+ "}"
  end.

Definition SortListCmd_String (c : SortListCmd) : string :=
  match c with
  | AddSortList view ip ips =>
      "name: add sortlist and params: {view:" +:+ view +:+ ", source_ip:" +:+ ip +:+ ", prefered_ips:[" +:+
      commas ips +:+ "]}"
  | DeleteSortList view ip => "name: delete sortlist and params: {view:" +:+ view +:+ ", source_ip:" +:+ ip +:+ "}"
  | UpdateSortList view ip ips =>
      "name: update sortlist and params: {view:" +:+ view +:+ ", source_ip:" +:+ ip +:+ ", prefered_ips:[" +:+
      commas ips +:+ "]}"
  end.

Definition HijackCmd_String (c : HijackCmd) : string :=
  match c with
  | AddRedirectRR view name ttl typ rdata =>
      "name: add redirect rr and params:{view:" +:+ view +:+ ", name:" +:+ name +:+ ", ttl:" +:+ ttl +:+
      ", type:" +:+ typ +:+ ", rdata:" +:+ rdata +:+ "}"
  | DeleteRedirectRR view name typ rdata =>
      "name: delete redirect rr and params:{view:" +:+ view +:+ ", name:" +:+ name +:+ ", type:" +:+ typ +:+
      ", rdata:" +:+ rdata +:+ "}"
  | UpdateRedirectRR view name typ oldRdata newTtl newRdata =>
      "name: update redirect rr and params:{" +:+ newline +:+ "delete rr: view:" +:+ view +:+ ", name:" +:+ name +:+
      ", type:" +:+ typ +:+ ", rdata:" +:+ oldRdata +:+ newline +:+ "add rr: view:" +:+ view +:+ ", name:" +:+
      name +:+ ", ttl:" +:+ newTtl +:+ ", type:" +:+ typ +:+ ", rdata:" +:+ newRdata +:+ "}"
  end.

Definition CacheCmd_String (c : CacheCmd) : string :=
  match c with
  | CleanCache => "name: clean all cache"
  | CleanViewCache view => "name: clean cache and params:{view:" +:+ view +:+ "}"
  | CleanRRsetsCache view name => "name: clear cache and params:{name:" +:+ name +:+ ", view:" +:+ view +:+ "}"
  | CleanDomainCache name => "name: clear cache and params:{name:" +:+ name +:+ "}"
  | GetDomainCache name typ =>
      "name: get rrsets from cache and params:{name:" +:+ name +:+ ", type:" +:+ typ +:+ "}"
  | GetMessageCache view name typ =>
      "name: get rrsets from cache and params:{name:" +:+ name +:+ ", type:" +:+ typ +:+ ", view:" +:+ view +:+ "}"
  end.

Definition QuerySourceCmd_String (c : QuerySourceCmd) : string :=
  match c with
  | AddQuerySource view addr =>
      "name: add query source and params:{view:" +:+ view +:+ ", query_source:" +:+ addr +:+ "}"
  | DeleteQuerySource view => "name: delete query source and params:{view:" +:+ view +:+ "}"
  | UpdateQuerySource view addr =>
      "name: update query source and params:{view:" +:+ view +:+ ", query_source:" +:+ addr +:+ "}"
  end.

Definition StubCmd_String (c : StubCmd) : string :=
  match c with
  | AddStubZone view name masters =>
      "name: add stub zone and params: {name:" +:+ name +:+ ", view:" +:+ view +:+ ", masters:[" +:+
      commas masters +:+ "}"
  | DeleteStubZone view name => "name: delete stub zone and params: {name:" +:+ name +:+ ", view:" +:+ view +:+ "}"
  | UpdateStubZone view name masters =>
      "name: update stub zone and params: {name:" +:+ name +:+ ", view:" +:+ view +:+ ", masters:[" +:+
      commas masters +:+ "}"
  end.

Definition forward_text (z : ForwardZoneParam) : string :=
  fz_View z +:+ ", name:" +:+ fz_Name z +:+ ", forwarders:[" +:+ commas (fz_Forwarders z) +:+
  "], forward_style:" +:+ fz_ForwardStyle z.

Definition ForwardCmd_String (c : ForwardCmd) : string :=
  match c with
  | AddForwardZone zones =>
      strings_Join ((λ z, "name: add forward zone and params:{view:" +:+ forward_text z +:+ "},") <$> zones) ""
  | DeleteForwardZone view name =>
      "name: delete forward zone and params:{view:" +:+ view +:+ ", name: " +:+ name +:+ "}"
  | UpdateForwardZone z => "name: update forward zone and params:{view:" +:+ forward_text z +:+ "}"
  end.

Definition LocalDataCmd_String (c : LocalDataCmd) : string :=
  match c with
  | AddLocalData d => "name: add localdata and params:{" +:+ LocalPolicyData_toString d +:+ "}"
  | DeleteLocalData d => "name: delete localdata and params:{" +:+ LocalPolicyData_toString d +:+ "}"
  | UpdateLocalData old new =>
      "name: update localdata and params:{delete localdata:" +:+ LocalPolicyData_toString old +:+ newline +:+
      "add localdata:" +:+ LocalPolicyData_toString new
  end.

Definition AuthCmd_String (c : AuthCmd) : string :=
  match c with
  | AddAuthZone view name masters content =>
      "name: add authzone and params: {zone:" +:+ name +:+ ", view:" +:+ view +:+ ", masters:" +:+
      commas masters +:+ ", zone_content:" +:+ content +:+ "]}"
  | DeleteAuthZone view name => "name: delete authzone and params: {zone:" +:+ name +:+ ", view:" +:+ view +:+ "}"
  | UpdateAuthZone view name masters =>
      "name: update authzone and params: {zone:" +:+ name +:+ ", view:" +:+ view +:+ ", masters:" +:+
      commas masters +:+ "]}"
  | AddAuthRrs rrs => "name: add auth rrs and params: {" +:+ newline +:+ stringFromRRs rrs +:+ "}"
  | DeleteAuthRrs rrs => "name: delete auth rrs and params: {" +:+ newline +:+ stringFromRRs rrs +:+ "}"
  | UpdateAuthRrs old new =>
      "name: update auth rr ttl or rdata and params: {rrs for delete:" +:+ newline +:+ stringFromRRs old +:+
      ", rrs for add:" +:+ newline +:+ stringFromRRs new +:+ "}"
  end.

Definition FailForwarderCmd_String (c : FailForwarderCmd) : string :=
  match c with
  | AddFailForwarder view server =>
      "add fail forwarder and params:{view:" +:+ view +:+ ", forwarder:" +:+ server +:+ "}"
  | UpdateFailForwarder view server =>
      "update fail forwarder params:{view:" +:+ view +:+ ", forwarder:" +:+ server +:+ "}"
  | DeleteFailForwarder view => "delete fail forwarder params:{view:" +:+ view +:+ "}"
  end.

Definition Cmd_String (c : Cmd) : string :=
  match c with
  | ServerC Reconfig => "reconfig" | ServerC Ping => "ping" | ServerC Stop => "stop"
  | AclC c => AclCmd_String c
  | ViewC c => ViewCmd_String c
  | NameLimitC c => NameLimitCmd_String c
  | IpLimitC c => IpLimitCmd_String c
  | SrvFailedProtect enable => if enable then "enable server failed protect" else "disable server failed protect"
  | PutAAAAFilter view acls =>
      "name: update aaaa filter and params: {view: " +:+ view +:+ ", filter_aaaa_ips:[" +:+ commas acls +:+ "]}"
  | SortListC c => SortListCmd_String c
  | HijackC c => HijackCmd_String c
  | PutDns64 view fixes =>
      "name: update view dns64 and params: {view:" +:+ view +:+ ", dns64s:[" +:+ commas fixes +:+ "]}"
  | CacheC c => CacheCmd_String c
  | QuerySourceC c => QuerySourceCmd_String c
  | StubC c => StubCmd_String c
  | ForwardC c => ForwardCmd_String c
  | LocalDataC c => LocalDataCmd_String c
  | AuthC c => AuthCmd_String c
  | FailForwarderC c => FailForwarderCmd_String c
  end.

(** [Task.String] *)
Definition Task_String (t : @Task Cmd) : string :=
  "task :[" +:+ strings_Join ((λ c, Cmd_String c +:+ "," +:+ newline) <$> Cmds t) "" +:+ "]".

(** ** The handlers *)

(** The component a command belongs to. *)
Inductive Owner : Type :=
  | OServer | OAcl | OView | ONameLimit | OIpLimit | OProtector | OAaaa | OSorter | OHijack | ODns64
  | OCache | OQuerySource | OStub | OForwarder | OLocalData | OAuth | OFailForwarder.

#[export] Instance Owner_eq_dec : EqDecision Owner.
Proof. solve_decision. Defined.

Definition owner (c : Cmd) : Owner :=
  match c with
  | ServerC _ => OServer | AclC _ => OAcl | ViewC _ => OView | NameLimitC _ => ONameLimit
  | IpLimitC _ => OIpLimit | SrvFailedProtect _ => OProtector | PutAAAAFilter _ _ => OAaaa
  | SortListC _ => OSorter | HijackC _ => OHijack | PutDns64 _ _ => ODns64 | CacheC _ => OCache
  | QuerySourceC _ => OQuerySource | StubC _ => OStub | ForwardC _ => OForwarder
  | LocalDataC _ => OLocalData | AuthC _ => OAuth | FailForwarderC _ => OFailForwarder
  end.

Definition no_zone : ForwardZoneParam := mkForwardZone "" "" [] "".
Definition no_data : LocalPolicyData := mkLocalPolicyData "" "" "".

(** The commands each component registers, as empty structures. *)
Definition supported (o : Owner) : list Cmd :=
  match o with
  | OServer => ServerC <$> [Reconfig; Stop; Ping]
  | OAcl => AclC <$> [AddAcl "" []; DeleteAcl ""; UpdateAcl "" []]
  | OView => ViewC <$> [UpdateView "" []; UpdateViewPriority []]
  | ONameLimit => NameLimitC <$> [AddNameRateLimit "" "" 0; DeleteNameRateLimit "" ""; UpdateNameRateLimit "" "" 0]
  | OIpLimit => IpLimitC <$> [AddIpRateLimit "" 0; DeleteIpRateLimit ""; UpdateIpRateLimit "" 0]
  | OProtector => [SrvFailedProtect false]
  | OAaaa => [PutAAAAFilter "" []]
  | OSorter => SortListC <$> [AddSortList "" "" []; DeleteSortList "" ""; UpdateSortList "" "" []]
  | OHijack => HijackC <$> [AddRedirectRR "" "" "" "" ""; DeleteRedirectRR "" "" "" "";
                            UpdateRedirectRR "" "" "" "" "" ""]
  | ODns64 => [PutDns64 "" []]
  | OCache => CacheC <$> [CleanCache; CleanViewCache ""; CleanDomainCache ""; CleanRRsetsCache "" "";
                          GetDomainCache "" ""; GetMessageCache "" "" ""]
  | OQuerySource => QuerySourceC <$> [AddQuerySource "" ""; DeleteQuerySource ""; UpdateQuerySource "" ""]
  | OStub => StubC <$> [AddStubZone "" "" []; DeleteStubZone "" ""; UpdateStubZone "" "" []]
  | OForwarder => ForwardC <$> [AddForwardZone []; DeleteForwardZone "" ""; UpdateForwardZone no_zone]
  | OLocalData => LocalDataC <$> [AddLocalData no_data; DeleteLocalData no_data; UpdateLocalData no_data no_data]
  | OAuth => AuthC <$> [AddAuthZone "" "" [] ""; DeleteAuthZone "" ""; UpdateAuthZone "" "" [];
                        AddAuthRrs []; DeleteAuthRrs []; UpdateAuthRrs [] []]
  | OFailForwarder => FailForwarderC <$> [AddFailForwarder "" ""; DeleteFailForwarder ""; UpdateFailForwarder "" ""]
  end.

Section dispatch.
Context {N : G53Name} {M : G53Msg N} {T : DomainTree N} {ZT : ZoneTree N} {R : NetRadix} {G : GoSort}.

(** The process: the configuration, the metrics and the handler routines of the server, and
    the state of the components. *)
Abbreviation Proc := (Process (Conf := VanguardConf) (S := System)).
Abbreviation QM := (QueryModule (Conf := VanguardConf) (S := System)).

(** What commands meet: the clock, the order in which the map of caches is walked, the
    parsers of the libraries, the masters of zones, the resolution of addresses, the
    configuration a reload finds, the chain of the server and its routines; and the state
    a handler leaves behind when it panics, of which nothing is known. *)
Record CmdEnv : Type := mkCmdEnv {
  ce_now : Z;
  ce_order : list string;
  ce_parseCIDR : string → string + string;
  ce_RRsetFromString : string → string + RRset;
  ce_TTLFromString : string → string + Z;
  ce_dial : string → string + list (string + Message);
  ce_resolve : string → option string;
  ce_loaded : option VanguardConf;
  ce_handlers : list QM;
  ce_handlerCount : nat;
  ce_torn : Cmd → Proc → Proc;
}.

Context (env : CmdEnv).

Definition set_pr_state (s : System) (p : Proc) : Proc :=
  mkProcess (pr_conf p) (pr_metrics p) (pr_metrics_running p) (pr_acl p) (pr_routines p) s.
Definition set_pr_acl (a : AclManager) (p : Proc) : Proc :=
  mkProcess (pr_conf p) (pr_metrics p) (pr_metrics_running p) a (pr_routines p) (pr_state p).

(** A command of the component whose part [put] writes; [r] is what its handler did. *)
Definition on_part {A} (c : Cmd) (put : A → System → System) (r : outcome (A * option CmdError)) (p : Proc)
  : Proc * outcome (option (list RRInCache) + CmdError) :=
  match r with
  | Ret (x, err) =>
      (set_pr_state (put x (pr_state p)) p, Ret (match err with None => inl None | Some e => inr e end))
  | Panic why => (ce_torn env c p, Panic why)
  | Hang why => (ce_torn env c p, Hang why)
  end.

(** The access lists are those of the components. *)
Definition server_cmd (c : ServerCmd) (p : Proc) : Proc * outcome (option (list RRInCache) + CmdError) :=
  let '(p, r) := Server_HandleCmd vg_Acls (λ conf, vc_View <$> vs_ViewAcls (vg_Views conf))
                   (ce_now env) (ce_loaded env) (ce_handlers env) (ce_handlerCount env) c
                   (set_pr_acl (sy_acl (pr_state p)) p) in
  (set_pr_state (set_sy_acl (pr_acl p) (pr_state p)) p, r).

Definition cache_cmd (c : CacheCmd) (p : Proc) : Proc * outcome (option (list RRInCache) + CmdError) :=
  let s := pr_state p in
  match Cache_HandleCmd (ce_now env) (ce_order env) c (sy_heap s, sy_caches s) with
  | Ret (h, caches, r) => (set_pr_state (set_sy_caches caches (set_sy_heap h s)) p, Ret r)
  | Panic why => (ce_torn env (CacheC c) p, Panic why)
  | Hang why => (ce_torn env (CacheC c) p, Hang why)
  end.

Definition put_ip (t : throttlerEntry) (s : System) : System :=
  set_sy_filter (mkFilterState t (fs_name_throtter (sy_filter s)) (fs_drop (sy_filter s))) s.
Definition put_names (t : NameThrottler) (s : System) : System :=
  set_sy_filter (mkFilterState (fs_ip_throtter (sy_filter s)) t (fs_drop (sy_filter s))) s.

(** [HandleCmd] of the component a command belongs to. *)
Definition run_cmd (c : Cmd) (p : Proc) : Proc * outcome (option (list RRInCache) + CmdError) :=
  let s := pr_state p in
  match c with
  | ServerC cmd => server_cmd cmd p
  | AclC cmd => on_part c set_sy_acl (AclManager_HandleCmd (ce_now env) cmd (sy_acl s)) p
  | ViewC cmd => on_part c set_sy_views (Ret (AddrBasedView_HandleCmd cmd (sy_views s))) p
  | NameLimitC cmd => on_part c put_names (Ret (NameThrottler_HandleCmd cmd (fs_name_throtter (sy_filter s)))) p
  | IpLimitC cmd =>
      on_part c put_ip (Ret (IPThrottler_HandleCmd (ce_parseCIDR env) cmd (fs_ip_throtter (sy_filter s)))) p
  | SrvFailedProtect enable => on_part c set_sy_filter (Ret (SFProtector_HandleCmd enable (sy_filter s), None)) p
  | PutAAAAFilter view acls => on_part c set_sy_aaaa (Ret (updateViewAcls view acls (sy_aaaa s), None)) p
  | SortListC cmd => on_part c set_sy_sorter (Ret (Sorter_HandleCmd cmd (sy_sorter s))) p
  | HijackC cmd => on_part c set_sy_hijack (Hijack_HandleCmd cmd (sy_hijack s)) p
  | PutDns64 view fixes => on_part c set_sy_dns64 (Ret (updateDns64 view fixes (sy_dns64 s))) p
  | CacheC cmd => cache_cmd cmd p
  | QuerySourceC cmd => on_part c set_sy_sources (Ret (QuerySourceManager_HandleCmd cmd (sy_sources s))) p
  | StubC cmd => on_part c set_sy_stub (Stub_HandleCmd cmd (sy_stub s)) p
  | ForwardC cmd => on_part c set_sy_fwd (Ret (ViewFwderMgr_HandleCmd cmd (sy_fwd s))) p
  | LocalDataC cmd => on_part c set_sy_local (FakeAuth_HandleCmd cmd (sy_local s)) p
  | AuthC cmd =>
      on_part c set_sy_auth (AuthDataSource_HandleCmd (ce_RRsetFromString env) (ce_TTLFromString env)
        (ce_dial env) (sy_acl s) cmd (sy_auth s)) p
  | FailForwarderC cmd =>
      on_part c set_sy_failfwd (Ret (FailForwarder_HandleCmd (ce_resolve env) (sy_sources s) cmd (sy_failfwd s))) p
  end.

(** The handler a component registers: it knows its own commands only. *)
Definition component_handler (o : Owner) : @CmdHandler Cmd Proc (list RRInCache) := λ c p,
  if bool_decide (owner c = o) then run_cmd c p else (ce_torn env c p, Panic "should not be here").

(** ** Registration *)

(** What the constructors of the enabled modules register, in the order of their creation:
    the access lists, the modules along the chain, the server. *)
Definition module_owners (enabled : list string) (m : string) : list Owner :=
  let enable := isModuleEnable enabled in
  if bool_decide (m = ModuleResolver) then
    if existsb IsResolverSubModule enabled then
      [OQuerySource] ++ (if enable ModuleStubZone then [OStub] else [])
      ++ (if enable ModuleForwarder then [OForwarder] else [])
      ++ (if enable ModuleLocalData then [OLocalData] else [])
      ++ (if enable ModuleAuth then [OAuth] else [])
    else []
  else if negb (enable m) then []
  else if bool_decide (m = ModuleView) then [OView]
  else if bool_decide (m = ModuleFilter) then [OIpLimit; ONameLimit; OProtector]
  else if bool_decide (m = ModuleAAAAFilter) then [OAaaa]
  else if bool_decide (m = ModuleSortList) then [OSorter]
  else if bool_decide (m = ModuleHijack) then [OHijack]
  else if bool_decide (m = ModuleDNS64) then [ODns64]
  else if bool_decide (m = ModuleCache) then [OCache]
  else if bool_decide (m = ModuleFailForwarder) then [OFailForwarder]
  else [].

Definition registered (enabled : list string) : list Owner :=
  OAcl :: (m ← moduleInOrder; module_owners enabled m) ++ [OServer].

Definition system_dispatcher (enabled : list string) : @CmdDispatcher Cmd Proc (list RRInCache) :=
  foldl (λ d o, CmdDispatcher_RegisterHandler cmd_StructName (component_handler o) (supported o) d)
    newCmdDispatcher (registered enabled).
End dispatch.
