(* ===== verification/VgClient.v ===== *)
(** * The command line client and the whole way of a command (src/cmd/vgclient)

    vgclient turns its arguments into a command and sends it to the command service.  The
    theorems follow a command from there through the protocol and the dispatcher to the
    component that runs it. *)

From S2P Require Import Prelude GoList GoStd G53 Instances Core HttpCmd Json HttpProto Cache CacheHandler Cement Acl RateLimit ViewSelector Util Chain Forwarder Resolver Recursor Dns64 Zone Auth RecursorRun Xfr LocalData Stub RespTransfer Server QueryLog Config Main K8s System Commands.
From Stdlib Require Import Ascii.

(** ** The commands in the protocol *)

(** What the serializer package does with registered types. *)
Class SerializerLib : Type := mkSerializerLib {
  sl_ObjName : Cmd → string;
  sl_Serializer : Type;
  sl_New : sl_Serializer;
  sl_Register : Cmd → sl_Serializer → sl_Serializer + string;
  sl_DecodeType : sl_Serializer → string → option json → Cmd + string;
}.

(** The limits are uint32. *)
Definition cmd_in_range (c : Cmd) : bool :=
  match c with
  | NameLimitC (AddNameRateLimit _ _ n) | NameLimitC (UpdateNameRateLimit _ _ n)
  | IpLimitC (AddIpRateLimit _ n) | IpLimitC (UpdateIpRateLimit _ n) => bool_decide (is_u32 n)
  | _ => true
  end.

Definition bad_listing : string := "json: cannot unmarshal into Go value of type cache.RRInCache".

#[export] Instance vg_codec {lib : SerializerLib} : CmdCodec Cmd (list RRInCache) := {
  StructName := cmd_StructName;
  ObjName := sl_ObjName;
  Serializer := sl_Serializer;
  NewSerializer := sl_New;
  Serializer_Register := sl_Register;
  DecodeType := sl_DecodeType;
  cmd_typed := cmd_in_range;
  cmd_attrs c := inl (cmd_json c);
  result_json l := inl (listing_json l);
  result_store j old := match listing_store j old with Some l => inl l | None => inr bad_listing end;
  zero_result := [];
}.

(** ** cmd/vgclient/vgclient.go *)

(** The type names of the commands of [supportedCommands]. *)
Definition supportedCommands : list Cmd :=
  [ServerC Reconfig; CacheC CleanCache; CacheC (CleanViewCache ""); CacheC (CleanDomainCache "");
   CacheC (CleanRRsetsCache "" ""); CacheC (GetDomainCache "" ""); CacheC (GetMessageCache "" "" "");
   AuthC (AddAuthRrs []); AuthC (DeleteAuthRrs []); ForwardC (AddForwardZone [])].

Definition arg_rr (args : list string) : outcome AuthRR :=
  view ← index args 1; zone ← index args 2; name ← index args 3;
  ttl ← index args 4; typ ← index args 5; rdata ← index args 6;
  Ret (mkAuthRR view zone name ttl typ rdata).

(** The switch over the first argument; [None] is an unknown command. *)
Definition client_cmd (args : list string) : outcome (option Cmd) :=
  cmd ← index args 0;
  if bool_decide (cmd = "reconfig") then Ret (Some (ServerC Reconfig))
  else if bool_decide (cmd = "clean_cache") then Ret (Some (CacheC CleanCache))
  else if bool_decide (cmd = "clean_view_cache") then
    view ← index args 1; Ret (Some (CacheC (CleanViewCache view)))
  else if bool_decide (cmd = "clean_rrset_cache") then
    view ← index args 1; name ← index args 2; Ret (Some (CacheC (CleanRRsetsCache view name)))
  else if bool_decide (cmd = "add_rr") then rr ← arg_rr args; Ret (Some (AuthC (AddAuthRrs [rr])))
  else if bool_decide (cmd = "delete_rr") then rr ← arg_rr args; Ret (Some (AuthC (DeleteAuthRrs [rr])))
  else if bool_decide (cmd = "add_forwarder") then
    view ← index args 1; name ← index args 2; forwarders ← index args 3;
    Ret (Some (ForwardC (AddForwardZone [mkForwardZone view name (strings_Split forwarders ","%char) "order"])))
  else if bool_decide (cmd = "get_domain_cache") then
    name ← index args 1; typ ← index args 2; Ret (Some (CacheC (GetDomainCache name typ)))
  else if bool_decide (cmd = "get_message_cache") then
    view ← index args 1; name ← index args 2; typ ← index args 3;
    Ret (Some (CacheC (GetMessageCache view name typ)))
  else Ret None.

(** What the client prints. *)
Inductive ClientOut : Type :=
  | UnknownCmd (cmd : string)
  | PortNotValid
  | NoProxy (why : string)
  | TaskFailed (e : CmdError)
  | Listing (rrs : list RRInCache)
  | Nothing.

Definition cmdServiceName : string := "vanguard_cmd".

Definition wants_listing (args : list string) : bool :=
  bool_decide (head args = Some "get_domain_cache") || bool_decide (head args = Some "get_message_cache").

Section client.
Context {lib : SerializerLib} {W : Type}.
Context (url_Parse : string → option string) (bad_json : string).
Context (NewRestClient : string → RestClient W + string).

Definition client_main (cmdServer : string) (args : list string) (w : W) : W * outcome ClientOut :=
  match client_cmd args with
  | Panic why => (w, Panic why)
  | Hang why => (w, Hang why)
  | Ret None => (w, Ret (UnknownCmd (default "" (head args))))
  | Ret (Some c) =>
      let task := Task_AddCmd c NewTask in
      match split_addr cmdServer with
      | Panic why => (w, Panic why)
      | Hang why => (w, Hang why)
      | Ret (ip, portText) =>
          match strconv_Atoi portText with
          | None => (w, Ret PortNotValid)
          | Some port =>
              if (port =? 0)%Z then (w, Ret PortNotValid)
              else match GetProxy NewRestClient (mkEndPoint cmdServiceName ip port) supportedCommands with
              | inr err => (w, Ret (NoProxy err))
              | inl (p, cl) =>
                  let '(w, r) := HttpCmdProxy_HandleTask url_Parse bad_json p cl task (wants_listing args) w in
                  (w, r ← r;
                      Ret (match r with
                           | inr e => TaskFailed e
                           | inl (Some rrs) => Listing rrs
                           | inl None => Nothing
                           end))
              end
          end
      end
  end.
End client.

(** * What the commands do *)

(** ** Routing *)

(** The types a component registers are those of its own commands: no two components have
    commands of one name. *)
Lemma owner_supported c o :
  cmd_StructName c ∈ (cmd_StructName <$> supported o) ↔ owner c = o.
Proof.
  enough (bool_decide (cmd_StructName c ∈ (cmd_StructName <$> supported o)) = bool_decide (owner c = o)) as E
    by (by rewrite <- (bool_decide_eq_true (_ ∈ _)), E, bool_decide_eq_true).
  destruct c as [[]|[]|[]|[]|[]|?|? ?|[]|[]|? ?|[]|[]|[]|[]|[]|[]|[]], o; vm_compute; reflexivity.
Qed.

Section routing.
Context {N : G53Name} {M : G53Msg N} {T : DomainTree N} {ZT : ZoneTree N} {R : NetRadix} {G : GoSort}.
Abbreviation Proc := (Process (Conf := VanguardConf) (S := System)).
Implicit Types (env : CmdEnv) (c : Cmd) (p : Proc).

Lemma getHandler_registered env os c d :
  CmdDispatcher_getHandler cmd_StructName c
    (foldl (λ d o, CmdDispatcher_RegisterHandler cmd_StructName (component_handler env o) (supported o) d) d os) =
  if decide (owner c ∈ os) then Some (component_handler env (owner c))
  else CmdDispatcher_getHandler cmd_StructName c d.
Proof.
  revert d. induction os as [|o os IH]; intros d; cbn [foldl].
  { case_decide as Hin; [by apply not_elem_of_nil in Hin|done]. }
  rewrite IH, getHandler_RegisterHandler. pose proof (owner_supported c o) as Ho.
  destruct (decide (owner c ∈ os)); [by rewrite decide_True by set_solver|].
  destruct (decide (owner c = o)) as [<-|Hne].
  - rewrite decide_True by tauto. by rewrite decide_True by set_solver.
  - rewrite decide_False by tauto. by rewrite decide_False by set_solver.
Qed.

(** What the service reports of a handler's end. *)
Definition report (r : outcome (option (list RRInCache) + CmdError)) : outcome (@TaskResult (list RRInCache)) :=
  match r with
  | Ret (inl None) => Ret Task_Succeed
  | Ret (inl (Some l)) => Ret (Task_SucceedWithResult l)
  | Ret (inr e) => Ret (Task_Failed e)
  | Panic why => Ret (Task_Failed (Error_AddDetail ErrAssertFailed why))
  | Hang why => Hang why
  end.

(** The service with the components of the enabled modules. *)
Lemma HandleTask_system env enabled c p :
  HandleTask cmd_StructName (system_dispatcher env enabled) (mkTask [c]) p =
  if decide (owner c ∈ registered enabled) then ((run_cmd env c p).1, report (run_cmd env c p).2)
  else (p, Ret (Task_Failed ErrUnknownCmd)).
Proof.
  unfold HandleTask, system_dispatcher. cbn [Cmds]. rewrite getHandler_registered.
  case_decide; [|done]. unfold safeRunCommand, component_handler. rewrite bool_decide_eq_true_2 by done.
  by destruct (run_cmd env c p) as [p' [[[]|]| |]].
Qed.

Lemma system_dispatcher_ok `{lib : SerializerLib} env enabled :
  dispatcher_ok (system_dispatcher env enabled).
Proof.
  unfold system_dispatcher. generalize (registered enabled) as os.
  assert (∀ os d, dispatcher_ok d → dispatcher_ok (foldl (λ d o,
    CmdDispatcher_RegisterHandler cmd_StructName (component_handler env o) (supported o) d) d os)) as H.
  { induction os as [|o os IH]; intros d Hd; [done|]. apply IH. by apply (RegisterHandler_ok (K := vg_codec)). }
  intros os. apply H, newCmdDispatcher_ok.
Qed.
End routing.

(** ** Results on their way back *)

Definition rr_portable (r : RRInCache) : bool :=
  ascii_string (ric_Name r) && ascii_string (ric_Type r) && ascii_string (ric_Class r) &&
  bool_decide (is_i64 (ric_Ttl r)) && ascii_string (ric_Rdata r).

(** A field read from the members of a structure, by the names of the members. *)
Ltac decode_members :=
  unfold decode_field; cbn -[bool_decide fold_key store_int json_int];
  repeat match goal with
  | |- context [bool_decide (fold_key ?a = fold_key ?b)] =>
      let v := eval vm_compute in (bool_decide (fold_key a = fold_key b)) in
      change (bool_decide (fold_key a = fold_key b)) with v
  end;
  cbn -[store_int json_int].

Lemma RRInCache_roundtrip r :
  rr_portable r = true → wf_json (RRInCache_json r) = true ∧ RRInCache_decode (RRInCache_json r) = Some r.
Proof.
  destruct r as [name typ class ttl rdata]. unfold rr_portable. cbn [ric_Name ric_Type ric_Class ric_Ttl ric_Rdata].
  rewrite !andb_true_iff, bool_decide_eq_true. intros ((((H1 & H2) & H3) & H4) & H5).
  split; [unfold RRInCache_json; cbn -[json_int wf_json]; cbn [wf_json forallb fst snd];
    rewrite (json_int_wf _ H4); cbn; by rewrite H1, H2, H3, H5|].
  unfold RRInCache_decode, RRInCache_json. decode_members.
  by rewrite (store_json_int ttl 0 H4).
Qed.

Lemma listing_roundtrip l :
  forallb rr_portable l = true →
  wf_json (listing_json l) = true ∧ listing_store (listing_json l) [] = Some l.
Proof.
  intros Hl. assert (forallb wf_json (RRInCache_json <$> l) = true ∧
    mapM RRInCache_decode (RRInCache_json <$> l) = Some l) as [H1 H2].
  { induction l as [|r l IH]; [done|]. cbn in Hl. apply andb_true_iff in Hl as [Hr Hl].
    destruct (RRInCache_roundtrip r Hr) as [Hw Hd]. destruct (IH Hl) as [IHw IHd].
    rewrite fmap_cons. cbn [forallb mapM]. by rewrite Hw, Hd, IHw, IHd. }
  destruct l as [|r l]; [done|]. by split.
Qed.

(** ** From the command line to the component *)

(** What the client shows of a handler's result. *)
Definition shown (args : list string) (r : option (list RRInCache) + CmdError) : ClientOut :=
  match r with
  | inr e => TaskFailed e
  | inl x => if wants_listing args then Listing (default [] x) else Nothing
  end.

Definition portable_outcome (r : option (list RRInCache) + CmdError) : Prop :=
  match r with
  | inr e => portable_error e
  | inl None => True
  | inl (Some l) => forallb rr_portable l = true
  end.

Lemma client_cmd_in_range args c : client_cmd args = Ret (Some c) → cmd_in_range c = true.
Proof.
  unfold client_cmd. intros H. destruct (index args 0) as [cmd| |] eqn:E0; [|done..]. cbn in H.
  repeat match type of H with
  | context [if bool_decide ?P then _ else _] => destruct (bool_decide P)
  end; unfold arg_rr in H;
  repeat match type of H with
  | context [index args ?i] => destruct (index args i); [|done..]; cbn in H
  end; cbn in H; by simplify_eq.
Qed.

Section end_to_end.
Context {N : G53Name} {M : G53Msg N} {T : DomainTree N} {ZT : ZoneTree N} {R : NetRadix} {G : GoSort}.
Context {lib : SerializerLib} {L : CodecLaws Cmd (list RRInCache)}.
Context (url_Parse : string → option string) (bad_json : string).
Abbreviation Proc := (Process (Conf := VanguardConf) (S := System)).
Implicit Types (env : CmdEnv) (c : Cmd) (p : Proc).

Lemma portable_report r :
  portable_outcome r → ∃ tr, report (Ret r) = Ret tr ∧ portable_result tr ∧
    (∀ want, seen want tr = match r with
                            | inr e => inr e
                            | inl x => inl (if want then Some (default [] x) else None)
                            end).
Proof.
  intros Hr. destruct r as [[l|]|e]; cbn in *; eexists; (split; [reflexivity|]); (split; [|done]); try done.
  destruct (listing_roundtrip l Hr) as [Hw Hs]. exists (listing_json l). cbn.
  by rewrite Hs.
Qed.

(** [client_main] with the server of a process at the other end of a connection that loses
    nothing. *)
Definition client_against env (enabled : list string) (srv : HttpCmdProtocol Cmd (list RRInCache))
  (cmdServer : string) (args : list string) p : (Proc * list Fate) * outcome ClientOut :=
  client_main url_Parse bad_json
    (λ _, inl (link (transport_handler (HandleTask cmd_StructName (system_dispatcher env enabled)) srv)))
    cmdServer args (p, []).

(** C6: a command typed at vgclient runs as if it had been called in the server.  The
    arguments become a command, the command a JSON text in a request, the text is parsed
    and dispatched by the name of the command's type, the component that registered it runs
    it once, and its result or error comes back: the process ends in the state the handler
    leaves and the client shows the handler's result.  A command of a module that is not
    enabled changes nothing and is reported as unknown. *)
Theorem client_runs_command env enabled e srv s cmdServer args c ip portText port p p' r :
  NewHttpCmdProtocol (supportedCmds (system_dispatcher env enabled)) e = inl srv →
  register_all supportedCommands sl_New = inl s →
  url_Parse (EndPoint_GenerateServiceUrl (mkEndPoint cmdServiceName ip port)) = None →
  split_addr cmdServer = Ret (ip, portText) → strconv_Atoi portText = Some port → port ≠ 0%Z →
  client_cmd args = Ret (Some c) → wf_json (cmd_json c) = true → ascii_string (sl_ObjName c) = true →
  run_cmd env c p = (p', Ret r) → portable_outcome r →
  client_against env enabled srv cmdServer args p =
  if decide (owner c ∈ registered enabled) then ((p', []), Ret (shown args r))
  else ((p, []), Ret (TaskFailed ErrUnknownCmd)).
Proof using L.
  intros Hsrv Hcli Hurl Haddr Hport H0 Hc Hwf Hn Hrun Hr.
  unfold client_against, client_main. rewrite Hc, Haddr, Hport.
  rewrite (proj2 (Z.eqb_neq port 0) H0). unfold GetProxy, NewHttpCmdProtocol.
  cbn [NewSerializer vg_codec]. rewrite Hcli.
  change (Task_AddCmd c NewTask) with (mkTask [c]).
  set (cli := mkProtocol s _).
  assert (sendable c) as Hsend.
  { split; [by eapply client_cmd_in_range|]. by exists (cmd_json c). }
  pose proof (remote_call_lemma url_Parse bad_json (system_dispatcher env enabled) e srv cli
    (system_dispatcher_ok _ _) Hsrv Hurl (mkTask [c]) (wants_listing args) p) as Hcall.
  unfold remote in Hcall. cbn [StructName vg_codec] in Hcall.
  pose proof (HandleTask_system env enabled c p) as Hht. rewrite Hrun in Hht. cbn [fst snd] in Hht.
  destruct (portable_report r Hr) as (tr & Htr & Hport' & Hseen). rewrite Htr in Hht.
  destruct (decide (owner c ∈ registered enabled)).
  - rewrite (Hcall p' tr); [|by constructor|done..]. rewrite Hseen.
    destruct r as [x|err]; cbn; [by destruct (wants_listing args)|done].
  - rewrite (Hcall p (Task_Failed ErrUnknownCmd)); [done|by constructor|done|].
    cbn. split; [split; by vm_compute|done].
Qed.
End end_to_end.
