(* ===== verification/VgClientSpec.v ===== *)
(** * The way of a command: the theorems, with a serializer to try them on

    A serializer that decodes commands by the names of their types shows that the laws of
    HttpProto.v can hold; the theorems about remote calls and the command line client are
    stated for every serializer that has them. *)

From S2P Require Import Prelude GoList GoStd G53 Instances Core HttpCmd Json HttpProto Cache CacheHandler Cement Acl RateLimit ViewSelector Util Chain Forwarder Resolver Recursor Dns64 Zone Auth RecursorRun Xfr LocalData Stub RespTransfer Server QueryLog Config Main MainSpec K8s System SystemProps Commands VgClient.
From Stdlib Require Import Ascii.

(** ** A serializer *)

Definition store_strings (j : json) (old : list string) : option (list string) :=
  match j with
  | JNull => Some []
  | JArr l => mapM (λ j, store_string j "") l
  | _ => None
  end.
Definition store_list {A} (dec : json → option A) (j : json) (old : list A) : option (list A) :=
  match j with JNull => Some [] | JArr l => mapM dec l | _ => None end.
Definition store_bool (j : json) (old : bool) : option bool :=
  match j with JBool b => Some b | JNull => Some old | _ => None end.
Definition store_u32 (j : json) (old : Z) : option Z :=
  n ← store_int j old; if decide (is_u32 n) then Some n else None.

Definition f_str (k : string) := decode_field k store_string "".
Definition f_strs (k : string) := decode_field k store_strings [].
Definition f_u32 (k : string) := decode_field k store_u32 0%Z.

Definition decode_zone (j : json) : option ForwardZoneParam :=
  fs ← struct_fields j;
  view ← f_str "view" fs; name ← f_str "name" fs; fwds ← f_strs "forwarders" fs;
  style ← f_str "forward_style" fs; Some (mkForwardZone view name fwds style).

Definition decode_rr (j : json) : option AuthRR :=
  fs ← struct_fields j;
  view ← f_str "View" fs; zone ← f_str "Zone" fs; name ← f_str "Name" fs; ttl ← f_str "Ttl" fs;
  typ ← f_str "Type" fs; rdata ← f_str "Rdata" fs; Some (mkAuthRR view zone name ttl typ rdata).

Definition decode_data (j : json) (old : LocalPolicyData) : option LocalPolicyData :=
  fs ← struct_fields j;
  policy ← f_str "policy" fs; view ← f_str "view" fs; data ← f_str "data" fs;
  Some (mkLocalPolicyData policy view data).

Definition f_rrs (k : string) := decode_field k (store_list decode_rr) [].
Definition f_data (k : string) := decode_field k decode_data no_data.

(** The fields of the type of a command. *)
Definition decode_as (c : Cmd) (fs : list (string * json)) : option Cmd :=
  let str := λ k, f_str k fs in
  let strs := λ k, f_strs k fs in
  let limit := f_u32 "rate_limit" fs in
  match c with
  | ServerC c => Some (ServerC c)
  | AclC (AddAcl _ _) => a ← str "name"; b ← strs "networks"; Some (AclC (AddAcl a b))
  | AclC (DeleteAcl _) => a ← str "name"; Some (AclC (DeleteAcl a))
  | AclC (UpdateAcl _ _) => a ← str "name"; b ← strs "networks"; Some (AclC (UpdateAcl a b))
  | ViewC (UpdateView _ _) => a ← str "name"; b ← strs "acls"; Some (ViewC (UpdateView a b))
  | ViewC (UpdateViewPriority _) => a ← strs "orders"; Some (ViewC (UpdateViewPriority a))
  | NameLimitC (AddNameRateLimit _ _ _) =>
      a ← str "view"; b ← str "name"; n ← limit; Some (NameLimitC (AddNameRateLimit a b n))
  | NameLimitC (DeleteNameRateLimit _ _) => a ← str "view"; b ← str "name"; Some (NameLimitC (DeleteNameRateLimit a b))
  | NameLimitC (UpdateNameRateLimit _ _ _) =>
      a ← str "view"; b ← str "name"; n ← limit; Some (NameLimitC (UpdateNameRateLimit a b n))
  | IpLimitC (AddIpRateLimit _ _) => a ← str "network"; n ← limit; Some (IpLimitC (AddIpRateLimit a n))
  | IpLimitC (DeleteIpRateLimit _) => a ← str "network"; Some (IpLimitC (DeleteIpRateLimit a))
  | IpLimitC (UpdateIpRateLimit _ _) => a ← str "network"; n ← limit; Some (IpLimitC (UpdateIpRateLimit a n))
  | SrvFailedProtect _ => a ← decode_field "enable" store_bool false fs; Some (SrvFailedProtect a)
  | PutAAAAFilter _ _ => a ← str "view"; b ← strs "filter_aaaa_ips"; Some (PutAAAAFilter a b)
  | SortListC (AddSortList _ _ _) =>
      a ← str "view"; b ← str "source_ip"; l ← strs "prefered_ips"; Some (SortListC (AddSortList a b l))
  | SortListC (DeleteSortList _ _) => a ← str "view"; b ← str "source_ip"; Some (SortListC (DeleteSortList a b))
  | SortListC (UpdateSortList _ _ _) =>
      a ← str "view"; b ← str "source_ip"; l ← strs "prefered_ips"; Some (SortListC (UpdateSortList a b l))
  | HijackC (AddRedirectRR _ _ _ _ _) =>
      a ← str "view"; b ← str "name"; t ← str "ttl"; d ← str "type"; e ← str "rdata";
      Some (HijackC (AddRedirectRR a b t d e))
  | HijackC (DeleteRedirectRR _ _ _ _) =>
      a ← str "view"; b ← str "name"; d ← str "type"; e ← str "rdata"; Some (HijackC (DeleteRedirectRR a b d e))
  | HijackC (UpdateRedirectRR _ _ _ _ _ _) =>
      a ← str "view"; b ← str "name"; d ← str "type"; e ← str "old_rdata"; t ← str "new_ttl"; g ← str "new_rdata";
      Some (HijackC (UpdateRedirectRR a b d e t g))
  | PutDns64 _ _ => a ← str "view"; b ← strs "pre_and_post_fixes"; Some (PutDns64 a b)
  | CacheC CleanCache => Some (CacheC CleanCache)
  | CacheC (CleanViewCache _) => a ← str "view_name"; Some (CacheC (CleanViewCache a))
  | CacheC (CleanRRsetsCache _ _) =>
      a ← str "view_name"; b ← str "domain_name"; Some (CacheC (CleanRRsetsCache a b))
  | CacheC (CleanDomainCache _) => a ← str "domain_name"; Some (CacheC (CleanDomainCache a))
  | CacheC (GetDomainCache _ _) => a ← str "domain_name"; b ← str "type"; Some (CacheC (GetDomainCache a b))
  | CacheC (GetMessageCache _ _ _) =>
      a ← str "view_name"; b ← str "domain_name"; d ← str "type"; Some (CacheC (GetMessageCache a b d))
  | QuerySourceC (AddQuerySource _ _) => a ← str "view"; b ← str "query_source"; Some (QuerySourceC (AddQuerySource a b))
  | QuerySourceC (DeleteQuerySource _) => a ← str "view"; Some (QuerySourceC (DeleteQuerySource a))
  | QuerySourceC (UpdateQuerySource _ _) =>
      a ← str "view"; b ← str "query_source"; Some (QuerySourceC (UpdateQuerySource a b))
  | StubC (AddStubZone _ _ _) => a ← str "view"; b ← str "name"; l ← strs "masters"; Some (StubC (AddStubZone a b l))
  | StubC (DeleteStubZone _ _) => a ← str "view"; b ← str "name"; Some (StubC (DeleteStubZone a b))
  | StubC (UpdateStubZone _ _ _) =>
      a ← str "view"; b ← str "name"; l ← strs "masters"; Some (StubC (UpdateStubZone a b l))
  | ForwardC (AddForwardZone _) =>
      l ← decode_field "zones" (store_list decode_zone) [] fs; Some (ForwardC (AddForwardZone l))
  | ForwardC (DeleteForwardZone _ _) => a ← str "view"; b ← str "name"; Some (ForwardC (DeleteForwardZone a b))
  | ForwardC (UpdateForwardZone _) =>
      a ← str "view"; b ← str "name"; l ← strs "forwarders"; d ← str "forward_style";
      Some (ForwardC (UpdateForwardZone (mkForwardZone a b l d)))
  | LocalDataC (AddLocalData _) => a ← f_data "localdata" fs; Some (LocalDataC (AddLocalData a))
  | LocalDataC (DeleteLocalData _) => a ← f_data "localdata" fs; Some (LocalDataC (DeleteLocalData a))
  | LocalDataC (UpdateLocalData _ _) =>
      a ← f_data "old_localdata" fs; b ← f_data "new_localdata" fs; Some (LocalDataC (UpdateLocalData a b))
  | AuthC (AddAuthZone _ _ _ _) =>
      a ← str "view"; b ← str "name"; l ← strs "masters"; d ← str "zone_content"; Some (AuthC (AddAuthZone a b l d))
  | AuthC (DeleteAuthZone _ _) => a ← str "view"; b ← str "name"; Some (AuthC (DeleteAuthZone a b))
  | AuthC (UpdateAuthZone _ _ _) =>
      a ← str "view"; b ← str "name"; l ← strs "masters"; Some (AuthC (UpdateAuthZone a b l))
  | AuthC (AddAuthRrs _) => a ← f_rrs "rrs" fs; Some (AuthC (AddAuthRrs a))
  | AuthC (DeleteAuthRrs _) => a ← f_rrs "rrs" fs; Some (AuthC (DeleteAuthRrs a))
  | AuthC (UpdateAuthRrs _ _) => a ← f_rrs "old_rrs" fs; b ← f_rrs "new_rrs" fs; Some (AuthC (UpdateAuthRrs a b))
  | FailForwarderC (AddFailForwarder _ _) =>
      a ← str "view"; b ← str "forwarder"; Some (FailForwarderC (AddFailForwarder a b))
  | FailForwarderC (UpdateFailForwarder _ _) =>
      a ← str "view"; b ← str "forwarder"; Some (FailForwarderC (UpdateFailForwarder a b))
  | FailForwarderC (DeleteFailForwarder _) => a ← str "view"; Some (FailForwarderC (DeleteFailForwarder a))
  end.

Definition prototypes : list Cmd :=
  o ← [OServer; OAcl; OView; ONameLimit; OIpLimit; OProtector; OAaaa; OSorter; OHijack; ODns64; OCache;
       OQuerySource; OStub; OForwarder; OLocalData; OAuth; OFailForwarder]; supported o.

Definition prototype (name : string) : option Cmd :=
  find_first (λ c, bool_decide (cmd_StructName c = name)) prototypes.

(** The registered names; a name decodes with the decoder of its type. *)
#[export] Instance name_serializer : SerializerLib := {
  sl_ObjName := cmd_StructName;
  sl_Serializer := list string;
  sl_New := [];
  sl_Register c s := inl (cmd_StructName c :: s);
  sl_DecodeType s name j :=
    if bool_decide (name ∈ s) then
      match (fs ← from_option struct_fields (Some []) j; c ← prototype name; decode_as c fs) with
      | Some c => inl c
      | None => inr "unexpected end of JSON input"
      end
    else inr "unregistered type";
}.

Lemma store_json_strings l old : store_strings (json_strings l) old = Some l.
Proof.
  assert (mapM (λ j, store_string j "") (JStr <$> l) = Some l) as H.
  { induction l as [|s l IH]; [done|]. rewrite fmap_cons. cbn. by rewrite IH. }
  by destruct l.
Qed.

Lemma store_json_list {A} (enc : A → json) dec l old :
  (∀ x, dec (enc x) = Some x) → store_list dec (json_list enc l) old = Some l.
Proof.
  intros Hx. assert (mapM dec (enc <$> l) = Some l) as H.
  { induction l as [|x l IH]; [done|]. rewrite fmap_cons. cbn. by rewrite Hx, IH. }
  by destruct l.
Qed.

Lemma store_json_u32 n old : is_u32 n → store_u32 (json_int n) old = Some n.
Proof.
  intros Hn. unfold store_u32. rewrite store_json_int by (unfold is_u32, is_i64 in *; lia).
  cbn. by rewrite decide_True.
Qed.

Ltac members :=
  unfold f_str, f_strs, f_u32, f_rrs, f_data, decode_field;
  cbn -[bool_decide fold_key store_strings store_list store_u32 json_int json_strings json_list
        AuthRR_json LocalPolicyData_json ForwardZoneParam_json decode_data decode_rr decode_zone];
  repeat match goal with
  | |- context [bool_decide (fold_key ?a = fold_key ?b)] =>
      let v := eval vm_compute in (bool_decide (fold_key a = fold_key b)) in
      change (bool_decide (fold_key a = fold_key b)) with v
  end;
  cbn -[store_strings store_list store_u32 json_int json_strings json_list
        AuthRR_json LocalPolicyData_json ForwardZoneParam_json decode_data decode_rr decode_zone];
  rewrite ?store_json_strings; cbn -[store_strings store_list store_u32 json_int json_strings json_list
        AuthRR_json LocalPolicyData_json ForwardZoneParam_json decode_data decode_rr decode_zone].

Lemma decode_zone_json z : decode_zone (ForwardZoneParam_json z) = Some z.
Proof. destruct z. unfold decode_zone, ForwardZoneParam_json. members. done. Qed.

Lemma decode_rr_json rr : decode_rr (AuthRR_json rr) = Some rr.
Proof. destruct rr. unfold decode_rr, AuthRR_json. members. done. Qed.

Lemma decode_data_json d old : decode_data (LocalPolicyData_json d) old = Some d.
Proof. destruct d. unfold decode_data, LocalPolicyData_json. members. done. Qed.

Lemma decode_as_fields c c' :
  cmd_in_range c = true → prototype (cmd_StructName c) = Some c' → decode_as c' (cmd_fields c) = Some c.
Proof.
  intros Hc Hp.
  destruct c as [[]|[]|[]|[]|[]|?|? ?|[]|[]|? ?|[]|[]|[]|[]|[]|[]|[]]; vm_compute in Hp; injection Hp as <-;
    cbn [cmd_in_range] in Hc; try apply bool_decide_eq_true in Hc; cbn [decode_as cmd_fields]; members;
    rewrite ?store_json_u32 by done; rewrite ?decode_data_json;
    rewrite ?(store_json_list AuthRR_json decode_rr) by apply decode_rr_json;
    rewrite ?(store_json_list ForwardZoneParam_json decode_zone) by apply decode_zone_json;
    try reflexivity.
  by destruct z.
Qed.

Lemma prototype_exists c : is_Some (prototype (cmd_StructName c)).
Proof. destruct c as [[]|[]|[]|[]|[]|?|? ?|[]|[]|? ?|[]|[]|[]|[]|[]|[]|[]]; vm_compute; eauto. Qed.

Lemma registered_names cmds s :
  foldl (λ acc c, match acc with inl s => sl_Register c s | inr e => inr e end) (inl s) cmds =
  inl (reverse (cmd_StructName <$> cmds) ++ s).
Proof.
  revert s. induction cmds as [|c cmds IH]; intros s; [done|]. cbn [foldl].
  change (sl_Register c s) with (inl (B := string) (cmd_StructName c :: s)). rewrite IH.
  by rewrite fmap_cons, reverse_cons, <- (assoc_L app).
Qed.

#[export] Instance name_serializer_laws : CodecLaws Cmd (list RRInCache).
Proof.
  assert (∀ cmds s, register_all cmds NewSerializer = inl s →
    ∀ c, cmd_StructName c ∈ s ↔ ObjName c ∈ (ObjName <$> cmds)) as Hreg.
  { intros cmds s Hs c. unfold register_all in Hs. cbn in Hs. rewrite registered_names in Hs.
    injection Hs as <-. rewrite app_nil_r. by rewrite elem_of_reverse. }
  split.
  - intros cmds s c j Hs Hin Ht Hj. apply (Hreg _ _ Hs) in Hin. cbn in Hj. injection Hj as <-.
    cbn [DecodeType vg_codec sl_DecodeType name_serializer ObjName sl_ObjName].
    rewrite bool_decide_eq_true_2 by done. destruct (prototype_exists c) as [c' Hp].
    cbn [from_option struct_fields cmd_json mbind option_bind]. rewrite Hp. cbn [mbind option_bind].
    by rewrite (decode_as_fields c c' Ht Hp).
  - intros cmds s c j Hs Hin. rewrite <- (Hreg _ _ Hs) in Hin. cbn.
    rewrite bool_decide_eq_false_2 by done. eauto.
  - done.
  - done.
Qed.

(** ** A server and its client *)

Definition demo_cmd_env : CmdEnv :=
  mkCmdEnv 0 ["default"] (λ n, inr n) (λ _, inl "no rr") (λ _, inr 0%Z) (λ _, inl "no master") (λ _, None)
    None [] 8 (λ _ p, p).

Definition demo_proc : Process (Conf := VanguardConf) (S := System) :=
  mkProcess demo_vanguard demo_metrics true (mkAclManager ∅ ∅ [] true) 8 (demo_start (λ _, demo_rounds)).1.

Definition demo_endpoint : EndPoint := mkEndPoint cmdServiceName "127.0.0.1" 9009.

Definition demo_service : HttpCmdProtocol Cmd (list RRInCache) :=
  mkProtocol (K := vg_codec)
    (reverse (cmd_StructName <$> supportedCmds (system_dispatcher demo_cmd_env demo_modules))) demo_endpoint.

(** [vgclient clean_view_cache default] *)
Definition demo_args : list string := ["clean_view_cache"; "default"].
Definition demo_clean : Cmd := CacheC (CleanViewCache "default").

Lemma demo_clean_runs : (run_cmd demo_cmd_env demo_clean demo_proc).2 = Ret (inl None).
Proof. by vm_compute. Qed.

Lemma demo_registers :
  NewHttpCmdProtocol (supportedCmds (system_dispatcher demo_cmd_env demo_modules)) demo_endpoint = inl demo_service.
Proof.
  unfold NewHttpCmdProtocol, register_all. change (@NewSerializer _ _ vg_codec) with (@sl_New name_serializer).
  change (@Serializer_Register _ _ vg_codec) with (@sl_Register name_serializer).
  by rewrite registered_names, app_nil_r.
Qed.

Lemma demo_served : owner demo_clean ∈ registered demo_modules.
Proof. apply (bool_decide_unpack _). by vm_compute. Qed.

Lemma client_runs_command_witness :
  client_against (λ _, None) "invalid character" demo_cmd_env demo_modules demo_service "127.0.0.1:9009" demo_args demo_proc =
  (((run_cmd demo_cmd_env demo_clean demo_proc).1, []), Ret Nothing).
Proof.
  pose proof (client_runs_command (λ _, None) "invalid character" demo_cmd_env demo_modules demo_endpoint demo_service
    (reverse (cmd_StructName <$> supportedCommands)) "127.0.0.1:9009" demo_args demo_clean "127.0.0.1" "9009" 9009%Z
    demo_proc (run_cmd demo_cmd_env demo_clean demo_proc).1 (inl None) demo_registers) as H.
  rewrite H; [|reflexivity|reflexivity|reflexivity|reflexivity|lia|reflexivity|reflexivity|reflexivity
    |rewrite <- demo_clean_runs; apply surjective_pairing|exact I].
  by rewrite (decide_True _ _ demo_served).
Defined.

(** ** A counter behind a bad connection *)

(** The service of the package's test: commands that add to a number. *)
Inductive CountCmd : Type := AddCmd (n : Z) | DecCmd.

Definition count_name (c : CountCmd) : string := match c with AddCmd _ => "AddCmd" | DecCmd => "DecCmd" end.

#[export] Instance count_codec : CmdCodec CountCmd Z := {
  StructName := count_name;
  ObjName := count_name;
  Serializer := list string;
  NewSerializer := [];
  Serializer_Register c s := inl (count_name c :: s);
  DecodeType s name j :=
    if bool_decide (name ∈ s) then
      if bool_decide (name = "AddCmd") then
        match (fs ← from_option struct_fields (Some []) j; decode_field "Num" store_int 0%Z fs) with
        | Some n => inl (AddCmd n)
        | None => inr "unexpected end of JSON input"
        end
      else inl DecCmd
    else inr "unregistered type";
  cmd_typed c := match c with AddCmd n => bool_decide (is_i64 n) | DecCmd => true end;
  cmd_attrs c := inl (match c with AddCmd n => JObj [("Num", json_int n)] | DecCmd => JObj [] end);
  result_json n := inl (json_int n);
  result_store j old := match store_int j old with Some n => inl n | None => inr "not a number" end;
  zero_result := 0%Z;
}.

Lemma count_registered cmds s :
  foldl (λ acc c, match acc with inl s => inl (B := string) (count_name c :: s) | inr e => inr e end) (inl s) cmds =
  inl (reverse (count_name <$> cmds) ++ s).
Proof.
  revert s. induction cmds as [|c cmds IH]; intros s; [done|]. cbn [foldl]. rewrite IH.
  by rewrite fmap_cons, reverse_cons, <- (assoc_L app).
Qed.

#[export] Instance count_laws : CodecLaws CountCmd Z.
Proof.
  assert (∀ cmds s, register_all cmds NewSerializer = inl s →
    ∀ c, count_name c ∈ s ↔ ObjName c ∈ (ObjName <$> cmds)) as Hreg.
  { intros cmds s Hs c. unfold register_all in Hs. cbn in Hs. rewrite count_registered in Hs.
    injection Hs as <-. by rewrite app_nil_r, elem_of_reverse. }
  split; [|intros cmds s c j Hs Hin; rewrite <- (Hreg _ _ Hs) in Hin; cbn;
    rewrite bool_decide_eq_false_2 by done; eauto|done|done].
  intros cmds s c j Hs Hin Ht Hj. apply (Hreg _ _ Hs) in Hin. cbn in Hj, Ht.
  destruct c as [n|]; injection Hj as <-; cbn -[decode_field]; rewrite bool_decide_eq_true_2 by done; [|done].
  apply bool_decide_eq_true in Ht. unfold decode_field. cbn -[store_int json_int].
  by rewrite (store_json_int n 0 Ht).
Qed.

Definition count_handler : @CmdHandler CountCmd Z Z := λ c w,
  match c with AddCmd n => ((w + n)%Z, Ret (inl (Some (w + n)%Z))) | DecCmd => ((w - 1)%Z, Ret (inl (Some (w - 1)%Z))) end.

Definition count_service : @CmdDispatcher CountCmd Z Z :=
  CmdDispatcher_RegisterHandler count_name count_handler [AddCmd 0; DecCmd] newCmdDispatcher.

Definition count_protocol : HttpCmdProtocol CountCmd Z :=
  mkProtocol (K := count_codec) ["DecCmd"; "AddCmd"] demo_endpoint.

(** One addition, whose answer is lost once: the number grows by two. *)
Lemma lossy_call_witness :
  ∃ out, remote (λ _, None) "invalid character" count_service count_protocol count_protocol (mkTask [AddCmd 1]) true 0%Z
           [ResponseLost; Delivered] = out ∧
    out.1.1 = 2%Z ∧ out.2 = Ret (inl (Some 2%Z)).
Proof.
  destruct (lossy_call (λ _, None) "invalid character" count_service demo_endpoint count_protocol count_protocol
    (RegisterHandler_ok _ _ _ newCmdDispatcher_ok) eq_refl eq_refl (AddCmd 1) true 0%Z ResponseLost Delivered [])
    as (out & Hout & Hstate & n & r & Hn & Hr & Hres).
  - split; [done|]. eexists. by split_and!.
  - intros n Hn. destruct n as [|[|]]; [| |lia]; (eexists; split; [reflexivity|]); cbn;
      eexists; (split; [reflexivity|]); by split.
  - exists out. split_and!; [done|by rewrite Hstate|]. cbn in Hn. injection Hn as ->. cbn in Hr. injection Hr as <-.
    exact Hres.
Defined.
