(* ===== verification/Startup.v ===== *)
(** * Starting the process (src/cmd/vanguard/vanguard.go, src/logger, src/server)

    [main] loads the configuration, makes the logger and the access lists, constructs the
    enabled modules in their order, binds the sockets and starts the goroutines; any
    failure on the way is a panic that ends the process.  Every constructor makes the zero
    value of its component, which is the component's part of [new_system], and loads the
    configuration into it the way a reconfiguration does. *)

From S2P Require Import Prelude GoList GoStd G53 Instances Core HttpCmd Cache CacheHandler Cement Acl RateLimit ViewSelector Util Chain Forwarder Resolver Recursor Dns64 Zone Auth RecursorRun Xfr LocalData Stub RespTransfer Server ServerSpec QueryLog Config Transport Main MainSpec K8s System.

Local Open Scope Z_scope.

(** ** logger/logger.go *)

Definition supportedLevels : list string := ["debug"; "info"; "error"].
Definition defaultLogLevelIndex : nat := 1.

(** [globalLogger]: the loggers of the log library. *)
Inductive Log : Type :=
  | BlackHole
  | ConsoleLogger (level : string)
  | FileLogger (path level : string) (size versions : Z).

(** [opens] is the error of opening a log file, if there is one. *)
Definition InitLogger (opens : string → option string) (conf : GeneralLogConf) : string + Log :=
  let logLevel := strings_ToLower (glc_Level conf) in
  let logLevel := if bool_decide (logLevel ∈ supportedLevels) then logLevel
                  else default "" (supportedLevels !! defaultLogLevelIndex) in
  if negb (glc_Enable conf) then inr BlackHole
  else if bool_decide (glc_Path conf = "") then inr (ConsoleLogger logLevel)
  else match opens (glc_Path conf) with
       | Some err => inl err
       | None => inr (FileLogger (glc_Path conf) logLevel (glc_FileSize conf) (glc_Versions conf))
       end.

(** [UseDefaultLogger]: a logger on the console, unless there is one. *)
Definition UseDefaultLogger (level : string) (globalLogger : option Log) : option Log :=
  match globalLogger with
  | None => Some (ConsoleLogger level)
  | Some _ => globalLogger
  end.

Section startup.
Context {N : G53Name} {M : G53Msg N} {T : DomainTree N} {ZT : ZoneTree N} {R : NetRadix} {G : GoSort}.

(** The components before they are constructed; [fw] is what the forwarders meet. *)
Definition new_system (fw : FwdWorld) : System :=
  let zone := NewDynamicZone Name_Root in
  mkSystem ∅ 0 (mkQueryLogger [] 0 "" 0 false) (mkK8sAuth ∅ zone zone zone) (mkSelectorMgr [] ∅ ∅)
    (mkAclManager ∅ ∅ [] false)
    (mkFilterState (mkThrottler (newIPAccessRecordStore maxIPAccessRecordCount) nr_New) (mkNameThrottler ∅ ∅) 0)
    ∅ ∅ NewLocalData ∅ ∅ false NewLocalData (mkAuth ∅ ∅ ∅) (mkStubZoneManager ∅ None) ∅
    (mkViewFwderMgr ∅ (SafeFwderRepo_ReloadConf 0 0 0) ∅ fw)
    (mkRecursor (NewNsasCache 0) ∅ ∅ ∅ (newRecursorCtxPool maxInflightQuery)) ∅ ∅.

(** What start-up meets: the texts of the library, the files, the sockets and the clock,
    and the build of the program. *)
Record StartEnv : Type := mkStartEnv {
  se_fwd : FwdWorld;
  se_text : G53Text;
  se_controller : option string;
  se_SetULimit : Z → option string;
  se_openLog : string → option string;
  se_load : Loader;
  se_net : NetSys;
  se_now : Z;
  se_version : string;
  se_build : string;
}.

Context (env : Env) (re : ReloadEnv) (ipString : IP → string) (se : StartEnv).

(** ** The constructors *)

(** A constructor that loads the configuration with [ReloadConfig]. *)
Definition constructed (r : System * outcome unit) : outcome System := _ ← r.2; Ret r.1.

(** The controller, which watches the cluster, is made last. *)
Definition NewK8SAuth (conf : Kubernetes) (s : System) : outcome System :=
  r ← NewAuth (se_text se) (k8c_ClusterDomain conf) (k8c_ClusterDNSServer conf)
        (k8c_ClusterServiceIPRange conf) (k8c_ClusterCIDR conf);
  match r with
  | inl err => Panic ("create k8s module failed:" +:+ err)
  | inr auth =>
      match se_controller se with
      | Some err => Panic ("create k8s module failed:" +:+ err)
      | None => Ret (set_sy_k8s auth s)
      end
  end.

(** [GetQuerySource] locks the manager of the query sources, which [NewResolver] makes. *)
Definition NewFailForwarder (sources : bool) (conf : VanguardConf) (s : System) : outcome System :=
  match vg_FailForwarder conf with
  | [] => constructed (reload_failforwarder re conf s)
  | _ => if sources then constructed (reload_failforwarder re conf s)
         else Panic "nil pointer dereference: gQuerySourceManager"
  end.

(** The parts in the order of their construction; the forwarder loads its configuration a
    second time after its manager did. *)
Definition resolver_parts : list string :=
  [ModuleStubZone; ModuleForwarder; ModuleForwarder; ModuleRecursor; ModuleLocalData; ModuleAuth].

Fixpoint construct_parts (conf : VanguardConf) (parts : list string) (s : System) : outcome System :=
  match parts with
  | [] => Ret s
  | m :: parts =>
      if isModuleEnable (vg_EnableModules conf) m then
        s ← constructed (reload_resolver_part re conf m s); construct_parts conf parts s
      else construct_parts conf parts s
  end.

Definition construct_resolver (conf : VanguardConf) (s : System) : outcome System :=
  let s := set_sy_sources (QuerySource_ReloadConfig ((λ c, (qsv_View c, qsv_Address c)) <$> vg_QuerySource conf)) s in
  s ← construct_parts conf resolver_parts s;
  _ ← system_resolver env re (vg_EnableModules conf);
  Ret (set_sy_indirect (rsc_CheckCnameIndirect (vg_Resolver conf)) s).

(** The entries of [supported_creators]. *)
Definition construct_module (m : string) (conf : VanguardConf) (sources : bool) (s : System) : outcome System :=
  if bool_decide (m = ModuleKubernetes) then NewK8SAuth (vg_Kubernetes conf) s
  else if bool_decide (m = ModuleFailForwarder) then NewFailForwarder sources conf s
  else
    h ← system_module env re m;
    match qm_ReloadConfig h with
    | Some reload => constructed (reload conf s)
    | None => Ret s
    end.

(** The loop of [createHandler] over [moduleInOrder], for the state; [sources] tells
    whether the manager of the query sources exists yet. *)
Fixpoint construct (order : list string) (creator : gset string) (resolverEnable : bool)
  (conf : VanguardConf) (sources : bool) (s : System) : outcome System :=
  match order with
  | [] => Ret s
  | m :: order =>
      if bool_decide (m = ModuleResolver) then
        if resolverEnable then
          s ← construct_resolver conf s; construct order creator resolverEnable conf true s
        else construct order creator resolverEnable conf sources s
      else if bool_decide (m ∈ creator) then
        s ← construct_module m conf sources s; construct order creator resolverEnable conf sources s
      else construct order creator resolverEnable conf sources s
  end.

Definition start_handlers (conf : VanguardConf) (s : System)
  : outcome (System * (list (QueryModule (Conf := VanguardConf) (S := System)) * Handler System * option (Handler System))) :=
  r ← read_modules (vg_EnableModules conf) ∅ false;
  s ← construct moduleInOrder r.1 r.2 conf false s;
  h ← system_handler env re ipString (vg_EnableModules conf);
  Ret (s, h).

(** ** server.go *)

Definition handlerCount (conf : ServerConf) : Z :=
  if srv_HandlerCount conf =? 0 then Z.of_nat defaultHandlerCount else srv_HandlerCount conf.

(** [NewServer], and the goroutines that [Run] starts on what it made. *)
Definition create_server (conf : ServerConf) (os : Os) : outcome ((string + (Transport * Server)) * Os) :=
  r ← newTransport (se_net se) conf (handlerCount conf) os;
  match r with
  | (inl err, os) => Ret (inl err, os)
  | (inr t, os) =>
      Ret (inr (t, NewServer (Z.to_nat (handlerCount conf)) (length (tr_tcpListeners t)) (length (tr_udpConns t))), os)
  end.

(** ** vanguard.go *)

Record Flags : Type := mkFlags {
  fl_configFile : string;
  fl_showVersion : bool;
  fl_maxOpenFiles : Z;
}.

(** The flags before the command line is read. *)
Definition default_flags : Flags := mkFlags "/etc/vanguard/vanguard.conf" false 0.

(** A process that runs: what the commands work on, the chains, and what it holds of the
    system. *)
Record Running : Type := mkRunning {
  rn_process : Process (Conf := VanguardConf) (S := System);
  rn_handlers : list (QueryModule (Conf := VanguardConf) (S := System));
  rn_queryHandler : Handler System;
  rn_xfrHandler : option (Handler System);
  rn_logger : Log;
  rn_transport : Transport;
  rn_server : Server;
  rn_os : Os;
}.

Definition or_unknown (s : string) : string := if bool_decide (s = "") then "unknown" else s.

Definition version_text : string :=
  "vanguard " +:+ or_unknown (se_version se) +:+ " (build at " +:+ or_unknown (se_build se) +:+ ")" +:+ newline.

(** A step of [main] that panics with its error. *)
Definition must {A} (what : string) (r : string + A) : outcome A :=
  match r with
  | inl err => Panic (what +:+ " failed:" +:+ err)
  | inr a => Ret a
  end.

Definition set_ulimit (n : Z) : string + unit :=
  if 0 <? n then match se_SetULimit se n with Some err => inl err | None => inr tt end else inr tt.

(** The text of the version, or a process that runs. *)
Definition main (fl : Flags) (os : Os) : outcome (string + Running) :=
  if fl_showVersion fl then Ret (inl version_text)
  else
    _ ← must "set ulimit" (set_ulimit (fl_maxOpenFiles fl));
    conf ← must "load configure file" (LoadConfig (se_load se) (fl_configFile fl));
    log ← must "init logger" (InitLogger (se_openLog se) (lgc_GeneralLog (vg_Logger conf)));
    acl ← AclManager_ReloadConfig (se_now se) (vg_Acls conf) (mkAclManager ∅ ∅ [] false);
    r ← start_handlers conf (set_sy_acl acl (new_system (se_fwd se)));
    let '(s, (handlers, queryHandler, xfrHandler)) := r in
    r ← create_server (vg_Server conf) os;
    let '(created, os) := r in
    server ← must "create server" created;
    let metrics := Metrics_ReloadConfig (vc_View <$> vs_ViewAcls (vg_Views conf)) NewMetrics in
    Ret (inr (mkRunning
      (mkProcess conf metrics true acl (Z.to_nat (handlerCount (vg_Server conf))) s)
      handlers queryHandler xfrHandler log server.1 server.2 os)).

(** What an interrupt does: [Shutdown]. *)
Definition Shutdown (r : Running) : Running :=
  mkRunning (Server_stop (rn_process r)) (rn_handlers r) (rn_queryHandler r) (rn_xfrHandler r) (rn_logger r)
    (rn_transport r) (rn_server r) (Transport_Close (rn_transport r) (rn_os r)).

(** ** cmd/trace/trace.go: one question to a recursor of its own *)

Definition trace_conf : list RecursorInView := [mkRecursorInView true "default" "" false].

(** The alias handler over the recursor; [NewRecursor] and then [ReloadConfig] load the same
    configuration. *)
Definition trace_system : outcome System :=
  mgr ← NewSelectorMgr (re_keys re) [];
  let s := set_sy_sources (QuerySource_ReloadConfig []) (set_sy_views mgr (new_system (se_fwd se))) in
  r ← NewRecursor (re_RRsetFromString re) (re_readFile re) (re_roots re) (view_names re s) trace_conf;
  r ← Recursor_ReloadConfig (re_RRsetFromString re) (re_readFile re) (re_roots re) (view_names re s) trace_conf r;
  Ret (set_sy_recursor r s).

(** What is printed: a complaint, or the response if there is one.  [MakeQuery] is the
    function of the DNS library. *)
Inductive TraceOutput : Type :=
  | InvalidName
  | InvalidType
  | Traced (response : option Message).

Definition trace (MakeQuery : Name → RRType → Message) (name typ : string) : outcome TraceOutput :=
  s ← trace_system;
  match Name_FromString name with
  | inl _ => Ret InvalidName
  | inr qname =>
      match TypeFromString typ with
      | None => Ret InvalidType
      | Some qtype =>
          let client := mkClient (Some (UDPAddr [127; 0; 0; 1] 0)) None false (MakeQuery qname qtype) None
                          "default" 0 false false 0 in
          r ← CNameHandler_Resolve false (recursor_resolver env None) (sy_heap s, s) client;
          let '((h, _), client) := r in
          match c_response client with
          | None => Ret (Traced None)
          | Some l => m ← deref l h; Ret (Traced (Some m))
          end
      end
  end.
End startup.
