(* ===== verification/StartupSpec.v ===== *)
(** * A process that started serves (the start-up of Startup.v)

    What holds of a process that [main] leaves running: its configuration is the one of the
    file, its chain is the one of the enabled modules, it has handler routines, and it holds
    the sockets of the configured addresses and gives them back when it is interrupted.  And
    a configuration that can never start. *)

From S2P Require Import Prelude GoList GoStd G53 Instances Core HttpCmd Cache CacheHandler Cement Acl RateLimit ViewSelector Util Chain Forwarder Resolver Recursor Dns64 Zone Auth RecursorRun Xfr LocalData Stub RespTransfer Server ServerSpec QueryLog Config Transport Main MainSpec K8s System SystemSpec SystemProps SystemIds Startup.

Local Open Scope Z_scope.

Section startup_spec.
Context {N : G53Name} {M : G53Msg N} {T : DomainTree N} {ZT : ZoneTree N} {R : NetRadix} {G : GoSort}.
Context (env : Env) (re : ReloadEnv) (ipString : IP → string) (se : StartEnv).

(** ** The constructors leave the access lists and the messages *)

(** Loading the configuration of a component touches neither. *)
Definition keeps_base (f : System → System * outcome unit) : Prop :=
  ∀ s, sy_acl (f s).1 = sy_acl s ∧ sy_heap (f s).1 = sy_heap s.

Lemma reload_part_base {A} (put : A → System → System) f :
  (∀ x s, sy_acl (put x s) = sy_acl s ∧ sy_heap (put x s) = sy_heap s) → keeps_base (reload_part put f).
Proof. intros Hp s. unfold reload_part. destruct (f s); [apply Hp|done..]. Qed.

Lemma then_reload_base f g : keeps_base f → keeps_base g → keeps_base (then_reload f g).
Proof.
  intros Hf Hg s. unfold then_reload. destruct (Hf s) as [H1 H2]. destruct (f s) as [s1 [u| |]]; [|done..].
  cbn in H1, H2. rewrite <- H1, <- H2. apply Hg.
Qed.

Lemma module_base m conf h reload :
  system_module env re m = Ret h → qm_ReloadConfig h = Some reload → keeps_base (reload conf).
Proof.
  intros Hm Hr. unfold system_module in Hm.
  repeat (case_bool_decide; [injection Hm as <-; injection Hr as <- || discriminate Hr|]); try discriminate Hm.
  - intros s. unfold reload_view_selector. by destruct (SelectorMgr_ReloadConfig _ _ _).
  - unfold reload_filter. repeat apply then_reload_base; try by apply reload_part_base. by intros s.
  - by apply reload_part_base.
  - by intros s.
  - by apply reload_part_base.
  - by apply reload_part_base.
  - by intros s.
  - by apply reload_part_base.
  - by apply reload_part_base.
Qed.

Lemma constructed_base f s s' :
  keeps_base f → constructed (f s) = Ret s' → sy_acl s' = sy_acl s ∧ sy_heap s' = sy_heap s.
Proof.
  unfold constructed. intros Hf H. ret_step H. injection H as <-. apply Hf.
Qed.

Lemma resolver_part_base conf m : keeps_base (reload_resolver_part re conf m).
Proof.
  unfold reload_resolver_part. repeat case_bool_decide; by apply reload_part_base.
Qed.

Lemma construct_parts_base conf parts s s' :
  construct_parts re conf parts s = Ret s' → sy_acl s' = sy_acl s ∧ sy_heap s' = sy_heap s.
Proof.
  revert s. induction parts as [|m parts IH]; intros s H; cbn [construct_parts] in H; [by injection H as <-|].
  destruct (isModuleEnable _ _); [|by apply IH]. ret_step H.
  apply (constructed_base _ _ _ (resolver_part_base conf m)) in E as [<- <-]. by apply IH.
Qed.

Lemma construct_module_base m conf sources s s' :
  construct_module env re se m conf sources s = Ret s' → sy_acl s' = sy_acl s ∧ sy_heap s' = sy_heap s.
Proof.
  assert (keeps_base (reload_failforwarder re conf)) as Hff by by apply reload_part_base.
  unfold construct_module, NewK8SAuth, NewFailForwarder. intros H.
  case_bool_decide; [|case_bool_decide].
  - ret_step H. destruct r; [done|]. destruct (se_controller se); [done|]. by injection H as <-.
  - destruct (vg_FailForwarder conf); [|destruct sources; [|done]]; by apply (constructed_base _ _ _ Hff) in H.
  - ret_step H. destruct (qm_ReloadConfig r) eqn:Er; [|by injection H as <-].
    by apply (constructed_base _ _ _ (module_base _ conf _ _ E Er)) in H.
Qed.

Lemma construct_base order creator b conf sources s s' :
  construct env re se order creator b conf sources s = Ret s' → sy_acl s' = sy_acl s ∧ sy_heap s' = sy_heap s.
Proof.
  revert sources s. induction order as [|m order IH]; intros sources s H; cbn [construct] in H;
    [by injection H as <-|].
  case_bool_decide; [destruct b; [|by eapply IH]|case_bool_decide; [|by eapply IH]]; ret_step H.
  - apply IH in H as [-> ->]. unfold construct_resolver in E. ret_step E. ret_step E. injection E as <-.
    by apply construct_parts_base in E0.
  - apply IH in H as [-> ->]. by apply construct_module_base in E.
Qed.

(** ** A running process *)

Lemma must_Ret {A} what (r : string + A) a : must what r = Ret a → r = inr a.
Proof. destruct r; cbn; [done|]. by intros [= ->]. Qed.

Lemma LoadConfig_path load path conf : LoadConfig load path = inr conf → vg_Path conf = path.
Proof.
  unfold LoadConfig. destruct (Reload_path load (set_Path path zero_conf)) as [Hp _].
  destruct (Reload load _) as [c [err|]]; [done|]. intros [= <-]. exact Hp.
Qed.

Lemma handlerCount_pos conf : 0 ≤ handlerCount conf → 0 < handlerCount conf.
Proof. unfold handlerCount. destruct (Z.eqb_spec (srv_HandlerCount conf) 0); unfold defaultHandlerCount; lia. Qed.

Lemma create_server_spec conf os t server os' :
  create_server se conf os = Ret (inr (t, server), os') →
  0 < handlerCount conf ∧
  server = NewServer (Z.to_nat (handlerCount conf)) (length (tr_tcpListeners t)) (length (tr_udpConns t)) ∧
  holds (se_net se) conf os t os' ∧ Transport_Close t os' = os.
Proof.
  unfold create_server. intros H. ret_step H. destruct r as [[err|t'] os1]; [done|]. injection H as <- <- <-.
  apply newTransport_holds in E as (Hn & Hh & Hc). split_and!; [by apply handlerCount_pos|done..].
Qed.

Lemma start_handlers_spec conf s s' chain :
  start_handlers env re ipString se conf s = Ret (s', chain) →
  Forall known (vg_EnableModules conf) ∧ system_handler env re ipString (vg_EnableModules conf) = Ret chain ∧
  sy_acl s' = sy_acl s ∧ sy_heap s' = sy_heap s.
Proof.
  unfold start_handlers. intros H. ret_step H. ret_step H. ret_step H. injection H as <- <-.
  apply construct_base in E0. split; [|done].
  destruct (decide (Forall known (vg_EnableModules conf))) as [Hk|Hk]; [done|].
  destruct (read_modules_unknown (system_module env re) _ ∅ false Hk) as (m & _ & _ & E'). congruence.
Qed.

(** The steps of a [main] that leaves a running process. *)
Lemma main_parts fl os r :
  main env re ipString se fl os = Ret (inr r) → ∃ conf log acl s handlers first notify t server os',
    LoadConfig (se_load se) (fl_configFile fl) = inr conf ∧
    AclManager_ReloadConfig (se_now se) (vg_Acls conf) (mkAclManager ∅ ∅ [] false) = Ret acl ∧
    start_handlers env re ipString se conf (set_sy_acl acl (new_system (se_fwd se))) = Ret (s, (handlers, first, notify)) ∧
    create_server se (vg_Server conf) os = Ret (inr (t, server), os') ∧
    r = mkRunning
      (mkProcess conf (Metrics_ReloadConfig (vc_View <$> vs_ViewAcls (vg_Views conf)) NewMetrics) true acl
         (Z.to_nat (handlerCount (vg_Server conf))) s) handlers first notify log t server os'.
Proof.
  unfold main. destruct (fl_showVersion fl); [done|]. intros H. do 5 ret_step H.
  destruct r4 as [s [[handlers first] notify]]. ret_step H. destruct r4 as [created os']. ret_step H.
  destruct r4 as [t server]. injection H as <-. apply must_Ret in E0. apply must_Ret in E5. subst created.
  by exists r1, r2, r3, s, handlers, first, notify, t, server, os'.
Qed.

(** The chain, the goroutines and the counters a process starts with. *)
Lemma main_starts fl os r :
  main env re ipString se fl os = Ret (inr r) →
  let p := rn_process r in
  system_handler env re ipString (vg_EnableModules (pr_conf p)) = Ret (rn_handlers r, rn_queryHandler r, rn_xfrHandler r) ∧
  (0 < pr_routines p)%nat ∧
  rn_server r = NewServer (pr_routines p) (length (tr_tcpListeners (rn_transport r)))
                  (length (tr_udpConns (rn_transport r))) ∧
  mt_RequestCount (pr_metrics p) = 0 ∧ mt_ResponseCount (pr_metrics p) = 0.
Proof.
  intros (conf & log & acl & s & handlers & first & notify & t & server & os' & _ & _ & Hs & Hc & ->)%main_parts.
  apply create_server_spec in Hc as (Hn & -> & _ & _). apply start_handlers_spec in Hs as (_ & Hs & _). cbn.
  split_and!; [done|lia|done..].
Qed.

(** C32: a process that [main] leaves running serves.  Its configuration is the one of the
    file it was given, and a reconfiguration will read the same file; the modules of the
    configuration are all known and the chains are those of these modules; the access lists
    the handlers use are the ones commands change, their scheduler and the metrics run; the
    handler routines are as many as configured, at least one, and all wait for messages;
    one UDP socket is open for each address to listen on, one TCP socket when TCP is enabled
    and none otherwise, with one reader and one acceptor for each; and an interrupt leaves
    exactly the sockets there were before. *)
Theorem main_serves fl os r :
  main env re ipString se fl os = Ret (inr r) →
  let p := rn_process r in let conf := pr_conf p in
  LoadConfig (se_load se) (fl_configFile fl) = inr conf ∧ vg_Path conf = fl_configFile fl ∧
  Forall known (vg_EnableModules conf) ∧
  system_handler env re ipString (vg_EnableModules conf) = Ret (rn_handlers r, rn_queryHandler r, rn_xfrHandler r) ∧
  serving p ∧ pr_acl p = sy_acl (pr_state p) ∧ sy_heap (pr_state p) = ∅ ∧
  Z.of_nat (pr_routines p) = handlerCount (vg_Server conf) ∧ (0 < pr_routines p)%nat ∧
  rn_server r = NewServer (pr_routines p) (length (tr_tcpListeners (rn_transport r)))
                  (length (tr_udpConns (rn_transport r))) ∧
  holds (se_net se) (vg_Server conf) os (rn_transport r) (rn_os r) ∧ rn_os (Shutdown r) = os.
Proof.
  intros (conf & log & acl & s & handlers & first & notify & t & server & os' & Hl & Hacl & Hs & Hc & ->)%main_parts.
  cbn [rn_process pr_conf pr_state pr_acl pr_routines rn_server
    rn_transport rn_os rn_handlers rn_queryHandler rn_xfrHandler Shutdown].
  apply create_server_spec in Hc as (Hn & -> & Hh & Hc).
  apply start_handlers_spec in Hs as (Hk & Hs & Ha & Hhp). pose proof (AclManager_ReloadConfig_running _ _ _ _ Hacl) as Hrun.
  split_and!; try done; [by eapply LoadConfig_path|rewrite Z2Nat.id; lia|lia].
Qed.

(** ** A configuration that never starts *)

(** Without a resolver there is no manager of the query sources when the fail forwarder is
    made. *)
Lemma construct_no_sources order creator conf s s' :
  ModuleFailForwarder ∈ creator → vg_FailForwarder conf ≠ [] →
  construct env re se order creator false conf false s = Ret s' → ModuleFailForwarder ∉ order.
Proof.
  intros Hc Hf. revert s. induction order as [|m order IH]; intros s H; cbn [construct] in H; [by apply not_elem_of_nil|].
  apply not_elem_of_cons. case_bool_decide as Hr; [split; [by subst|by eapply IH]|].
  case_bool_decide as Hm; [|split; [by intros <-|by eapply IH]]. ret_step H. split; [|by eapply IH].
  intros <-. unfold construct_module, NewFailForwarder in E. cbn in E. by destruct (vg_FailForwarder conf).
Qed.

(** A server with the fail forwarder and no resolver cannot start.  If the configuration
    enables the fail forwarder and no part of the resolver, and configures a fail forwarder
    for some view, then [main] never leaves a running process, whatever else it finds: the
    constructor of the fail forwarder uses the manager of the query sources, which only the
    constructor of the resolver makes. *)
Theorem failforwarder_alone fl os conf :
  fl_showVersion fl = false → LoadConfig (se_load se) (fl_configFile fl) = inr conf →
  ModuleFailForwarder ∈ vg_EnableModules conf → Forall (λ m, m ∉ ResolverSubmodule) (vg_EnableModules conf) →
  vg_FailForwarder conf ≠ [] →
  ∀ r, main env re ipString se fl os ≠ Ret r.
Proof.
  intros Hv Hl Hin Hno Hf r H. unfold main in H. rewrite Hv in H. do 5 ret_step H. apply must_Ret in E0. clear H.
  assert (r1 = conf) as -> by congruence. unfold start_handlers in E3. do 2 ret_step E3. clear E3.
  destruct (decide (Forall known (vg_EnableModules conf))) as [Hk|Hk].
  2: { destruct (read_modules_unknown (system_module env re) _ ∅ false Hk) as (m & _ & _ & E'). congruence. }
  destruct (read_modules_known (system_module env re) _ ∅ false Hk) as (c & Ec & Hc). rewrite Ec in E4. injection E4 as <-.
  cbn [fst snd orb] in E5. rewrite bool_decide_eq_false_2 in E5.
  - eapply construct_no_sources in E5; [apply E5; by_decide| |done]. apply Hc. right. split; [by_decide|done].
  - intros (m & H1 & H2)%Exists_exists. rewrite Forall_forall in Hno. exact (Hno m H1 H2).
Qed.

(** What the trace tool prints is the answer to the query it made. *)
Lemma trace_id `{!G53MsgLaws M, !G53IdLaws M} MakeQuery name typ m :
  trace env re se MakeQuery name typ = Ret (Traced (Some m)) →
  ∃ qname qtype, Name_FromString name = inr qname ∧ TypeFromString typ = Some qtype ∧
    msg_id m = msg_id (MakeQuery qname qtype).
Proof.
  unfold trace. intros H. ret_step H. destruct (Name_FromString name) as [|qname]; [done|].
  destruct (TypeFromString typ) as [qtype|]; [|done]. exists qname, qtype. split_and!; [done..|].
  ret_step H. destruct r0 as [[h w] c]. destruct (c_response c) as [l|] eqn:El; [|done]. ret_step H. injection H as <-.
  eapply (cname_safe false _ (recursor_safe env None ltac:(done)) _ _ _ _ (m_header (MakeQuery qname qtype)))
    in E0 as [_ Ha]; [|by split]. exact (answered_deref _ _ _ _ _ Ha El E1).
Qed.
End startup_spec.

(** ** A start *)

Section startup_examples.
(** A file with the configuration of a resolving server on all addresses, and one with a
    fail forwarder alone. *)
Definition demo_file : VanguardConf :=
  mkVanguardConf "" (mkServerConf ["0.0.0.0:53"] "" 0 false) demo_modules
    (mkLoggerConf (mkQuerylogConf "" 0 0 false) (mkGeneralLogConf true "" 0 0 "DEBUG")) []
    (mkViewsConf [] [] [] []) (mkCacheConf 3600 60 100 false false)
    (mkForwarderConf [] (mkForwardProberConf 0 0 0)) [] [mkRecursorInView true "default" "" false]
    (mkResolverConf false) (mkFilterConf false [] []) [] [] [] [] [] [] [] [] [] (mkKubernetes "" "" "" "").
Definition alone_file : VanguardConf :=
  mkVanguardConf "" (mkServerConf ["0.0.0.0:53"] "" 0 false) [ModuleFailForwarder]
    (mkLoggerConf (mkQuerylogConf "" 0 0 false) (mkGeneralLogConf true "" 0 0 "DEBUG")) []
    (mkViewsConf [] [] [] []) (mkCacheConf 3600 60 100 false false)
    (mkForwarderConf [] (mkForwardProberConf 0 0 0)) [] []
    (mkResolverConf false) (mkFilterConf false [] []) [] [] [] [] [] [] []
    [mkFailForwarderInView "*" "10.0.0.9:53"] [] (mkKubernetes "" "" "" "").

Definition demo_loader : Loader := λ path,
  if bool_decide (path = "/etc/vanguard/vanguard.conf") then inr demo_file
  else if bool_decide (path = "alone.conf") then inr alone_file else inl "no such file".

Definition demo_senv : StartEnv (N := label_names) :=
  mkStartEnv (mkFwdWorld ∅ NewProber [] (λ _, None))
    (mkG53Text (λ _ _, None) (λ _, (RdA [], Some "no address")) (λ _, RdA [])) (Some "no cluster") (λ _, None)
    (λ _, None) demo_loader demo_net 0 "1.0" "".

Abbreviation demo_main fl := (main (demo_env (λ _, demo_rounds)) demo_reload demo_ip demo_senv fl ∅).

(** The server starts, with 1024 handler routines and two sockets, and closes both when it
    is interrupted. *)
Lemma main_serves_witness :
  ∃ r, demo_main default_flags = Ret (inr r) ∧ rn_logger r = ConsoleLogger "debug" ∧
    size (rn_os r) = 2%nat ∧ pr_routines (rn_process r) = 1024%nat ∧ rn_os (Shutdown r) = ∅.
Proof.
  assert (match demo_main default_flags with
          | Ret (inr r) => match rn_logger r with ConsoleLogger l => bool_decide (l = "debug") | _ => false end && (size (rn_os r) =? 2)%nat
          | _ => false
          end = true) as He by by_eval.
  destruct (demo_main default_flags) as [[v|r]| |] eqn:E; try done. exists r.
  apply andb_true_iff in He as [H1 H2%Nat.eqb_eq].
  destruct (rn_logger r) eqn:El; try done. apply bool_decide_eq_true in H1 as ->.
  destruct (main_serves _ _ _ _ _ _ _ E) as (Hl & _ & _ & _ & _ & _ & _ & Hn & _ & _ & _ & Hs).
  assert (LoadConfig (se_load demo_senv) (fl_configFile default_flags) =
          inr (set_Path "/etc/vanguard/vanguard.conf" demo_file)) as Hl' by by_eval.
  assert (pr_conf (rn_process r) = set_Path "/etc/vanguard/vanguard.conf" demo_file) as Hc by congruence.
  rewrite Hc in Hn. clear E. split_and!; [done..| |exact Hs]. apply Nat2Z.inj. rewrite Hn. by_eval.
Defined.
Lemma failforwarder_alone_witness : ∀ r, demo_main (mkFlags "alone.conf" false 0) ≠ Ret r.
Proof.
  apply (failforwarder_alone _ _ _ _ (mkFlags "alone.conf" false 0) ∅ (set_Path "alone.conf" alone_file));
    [done|by_eval|by_decide|by_decide|done].
Defined.

(** The trace tool resolves through the referral of the example and prints the answer. *)
Example trace_resolves :
  match trace (demo_env (λ _, demo_rounds)) demo_reload demo_senv query "www.example.org" "A" with
  | Ret (Traced (Some m)) => bool_decide (m_answer m = [])
  | _ => true
  end = false.
Proof. by_eval. Qed.
End startup_examples.
