(* ===== verification/ServerRun.v ===== *)
(** * The running server (src/server with the whole chain of src/cmd/vanguard)

    The goroutines of Server.v with the handlers of System.v: readers put messages into the
    channel, routines take them out, and a turn of a routine runs the chain on the state all
    routines share and sends what the chain answers.  Turns are steps: the handlers lock
    what they share for a part of a turn only, and what that lets in between is the subject
    of the components' own files.  The steps here are those of a server that serves: turns
    that panic, commands and the clock of the access lists are left to Server.v, Main.v and
    Acl.v. *)

From S2P Require Import Prelude GoList GoStd G53 Instances Core HttpCmd Cache CacheHandler Cement Acl RateLimit ViewSelector Util Chain Forwarder Resolver Recursor Dns64 Zone Auth RecursorRun Xfr LocalData Stub RespTransfer Server ServerSpec QueryLog Config Transport Main MainSpec K8s System SystemSpec SystemProps SystemIds Startup StartupSpec.

Local Open Scope Z_scope.

Section run.
Context {N : G53Name} {M : G53Msg N} {D : G53Wire N} {T : DomainTree N} {ZT : ZoneTree N} {R : NetRadix} {G : GoSort}.
Context (Rend : Message → list Z) (first : Handler System) (notify : option (Handler System)).

(** The goroutines, the state of the handlers, and two histories: the messages that were
    received, and the turns that ended with what they sent. *)
Record ServerState : Type := mkServerState {
  ru_server : Server;
  ru_state : Heap * Metrics * System;
  ru_received : list SrvMsg;
  ru_turns : list (SrvMsg * option (list Z));
}.

Definition turn (now : Z) (m : SrvMsg) (st : Heap * Metrics * System)
  : outcome (Heap * Metrics * System * option (list Z)) :=
  serve_message Rend (on_system first) (on_system <$> notify) now m st.

Definition result_of (sent : option (list Z)) : SrvResult :=
  match sent with Some bytes => Answered bytes | None => Unanswered end.

(** The messages a step of the goroutines has added to the channel. *)
Definition arrived (s s' : Server) : list SrvMsg := drop (length (sv_queue s)) (sv_queue s').

(** A step of the readers and acceptors, or of a routine that takes a message; the end of a
    turn; and a tick of the metrics. *)
Inductive run_step : ServerState → ServerState → Prop :=
  | run_goroutine s s' st received turns :
      srv_step (λ _ _, False) s s' →
      run_step (mkServerState s st received turns) (mkServerState s' st (received ++ arrived s s') turns)
  | run_turn s m busy1 busy2 now st st' sent received turns :
      sv_busy s = busy1 ++ m :: busy2 → turn now m st = Ret (st', sent) →
      run_step (mkServerState s st received turns)
        (mkServerState (finish m (result_of sent) (handler_done (busy1 ++ busy2) s)) st' received (turns ++ [(m, sent)]))
  | run_second s h mt w received turns :
      run_step (mkServerState s (h, mt, w) received turns) (mkServerState s (h, Metrics_tick mt, w) received turns).
End run.

Section run_spec.
Context {N : G53Name} {M : G53Msg N} {ML : G53MsgLaws M} {IL : G53IdLaws M} {D : G53Wire N} {T : DomainTree N}
  {ZT : ZoneTree N} {R : NetRadix} {G : GoSort}.

(** ** Messages are neither lost nor served twice *)

Definition any_result (_ : SrvMsg) (_ : SrvResult) : Prop := True.

Lemma srv_step_mono (P Q : SrvMsg → SrvResult → Prop) s s' :
  (∀ m r, P m r → Q m r) → srv_step P s s' → srv_step Q s s'.
Proof. intros HPQ. destruct 1; econstructor; eauto. Qed.

(** The steps of the whole server are steps of its goroutines. *)
Lemma run_step_server Rend first notify x y :
  run_step Rend first notify x y → rtc (srv_step any_result) (ru_server x) (ru_server y).
Proof.
  destruct 1 as [s s' st rec turns Hs|s m b1 b2 now st st' sent rec turns Hb Ht|]; [| |done]; apply rtc_once.
  - by eapply srv_step_mono.
  - by eapply step_finish.
Qed.

Definition conserved (x : ServerState) : Prop :=
  ru_received x ≡ₚ sv_queue (ru_server x) ++ sv_busy (ru_server x) ++ (ru_turns x).*1.

Lemma goroutine_conserves s s' :
  srv_step (λ _ _, False) s s' → sv_queue s' ++ sv_busy s' ≡ₚ (sv_queue s ++ sv_busy s) ++ arrived s s'.
Proof.
  assert (∀ q : list SrvMsg, drop (length q) q = []) as Hd by (intros q; by apply drop_ge).
  assert (∀ (q : list SrvMsg) m b, (q ++ [m]) ++ b ≡ₚ (q ++ b) ++ [m]) as Hmove.
  { intros q m b. rewrite <- !app_assoc. by rewrite (Permutation_app_comm b). }
  unfold arrived. destruct 1 as [| | | |s conn addr dest data Hr Hl|s i addr dest conn data Hi
    |s m queue idle Hq Hi|s m b1 b2 r Hb []]; cbn [sv_queue sv_busy set_listener set_conns enqueue releaseConn];
    rewrite ?Hd, ?app_nil_r; try done.
  - rewrite drop_app_length. apply Hmove.
  - destruct (control_runUDP i addr dest conn data s) as [E|(b & _ & E)]; injection E as Eq _ _ Eb _ _ _.
    + by rewrite Eq, Eb, Hd, app_nil_r.
    + rewrite Eq, Eb. cbn. rewrite drop_app_length. apply Hmove.
  - rewrite Hq. cbn [length]. rewrite drop_ge, app_nil_r by lia. by rewrite <- Permutation_middle.
Qed.

Lemma finish_work m r busy s :
  sv_queue (finish m r (handler_done busy s)) = sv_queue s ∧ sv_busy (finish m r (handler_done busy s)) = busy.
Proof.
  pose proof (control_finish m r (handler_done busy s)) as E. injection E as Eq _ _ Eb _ _ _. rewrite Eq, Eb.
  by destruct (sm_usingTCP m), r.
Qed.

Lemma run_conserves Rend first notify x y : run_step Rend first notify x y → conserved x → conserved y.
Proof.
  unfold conserved. destruct 1 as [s s' st rec turns Hs|s m b1 b2 now st st' sent rec turns Hb Ht|]; cbn; [| |done].
  - intros Hc. apply goroutine_conserves in Hs. rewrite Hc. rewrite (app_assoc (sv_queue s')), Hs.
    rewrite <- !app_assoc. do 2 f_equiv. apply Permutation_app_comm.
  - intros Hc. destruct (finish_work m (result_of sent) (b1 ++ b2) s) as [-> ->]. rewrite Hc, Hb, fmap_app. cbn.
    f_equiv. rewrite <- !app_assoc. f_equiv. cbn. rewrite (Permutation_app_comm turns.*1 [m]). cbn.
    by rewrite <- Permutation_middle.
Qed.

(** ** Configuration *)

(** What queries and notifies leave of the state: everything that configuration and commands
    set but the table of transfers, the data of the zones, and the views that have a cache. *)
Definition config_kept (s0 s : System) : Prop :=
  (∃ t, same_config (set_sy_xfr t s0) s) ∧ dom (sy_caches s) = dom (sy_caches s0).

Lemma same_config_xfr t s s' : same_config s s' → same_config (set_sy_xfr t s) (set_sy_xfr t s').
Proof. by intros []. Qed.

#[export] Instance config_kept_preorder : PreOrder config_kept.
Proof.
  split; [intros s; split; [exists (sy_xfr s); by destruct s|done]|].
  intros s1 s2 s3 [[t1 H1] D1] [[t2 H2] D2]. split; [|congruence]. exists t2.
  etrans; [|exact H2]. exact (same_config_xfr t2 _ _ H1).
Qed.

Lemma config_kept_same s0 s h : same_config (set_sy_heap h s0) s → dom (sy_caches s) = dom (sy_caches s0) → config_kept s0 s.
Proof. intros Hc Hd. split; [|done]. exists (sy_xfr s0). by destruct Hc. Qed.

Context (env : Env) (re : ReloadEnv) (ipString : IP → string).

Lemma notify_keeps s c s' c' : system_notify env ipString s c = Ret (s', c') → config_kept s s'.
Proof.
  unfold system_notify, XFRHandler_HandleQuery. intros H. ret_step H. destruct r as [[[t h] c1] started].
  assert (∀ h', config_kept s (set_sy_xfr t (set_sy_heap h' s))) as Hk.
  { intros h'. split; [|done]. exists t. by split. }
  destruct started as [[response tr]|]; [|injection H as <- <-; apply Hk].
  destruct (heap_alloc _ _) as [l h2]. injection H as <- <-. exact (Hk h2).
Qed.

(** What one turn does to the state and the counters. *)
Lemma turn_keeps enabled handlers first notify Rend now m h mt w h' mt' w' sent :
  system_handler env re ipString enabled = Ret (handlers, first, notify) →
  turn Rend first notify now m (h, mt, w) = Ret (h', mt', w', sent) → config_kept w w'.
Proof.
  intros Hsys H. unfold turn, serve_message in H. destruct (MessageFromWire _) as [e|request]; [by injection H as <- <- <- <-|].
  ret_step H. destruct r as [[[h1 mt1] w1] c].
  assert (config_kept w w1) as Hk.
  { unfold dispatch in E. destruct (_ =? OP_QUERY).
    - unfold on_system in E. ret_step E. destruct r as [s1 c1]. injection E as <- <- <- <-.
      destruct (system_triple env re ipString _ _ enabled handlers first notify
        (frame_links (set_sy_heap h w) (new_client now request m)) Hsys _ _ _ _ ltac:(by split_and!) E0) as (H1 & [H2 _] & _).
      by eapply config_kept_same.
    - destruct notify as [hn|]; cbn in E; [destruct (_ =? OP_NOTIFY)|]; [|by injection E as <- <- <- <-..].
      unfold on_system in E. ret_step E. destruct r as [s1 c1]. injection E as <- <- <- <-.
      assert (hn = system_notify env ipString) as ->.
      { unfold system_handler, createHandler in Hsys. ret_step Hsys. destruct r as [cr b]. ret_step Hsys.
        destruct (BuildQueryChain _); [|done]. injection Hsys as _ _ Hsys. destruct (_ && _); [by injection Hsys as <-|done]. }
      apply notify_keeps in E0. destruct E0 as [[t Ht] Hd]. split; [exists t; by destruct Ht|exact Hd]. }
  cbv zeta in H. destruct (c_response c); [ret_step H|]; by injection H as <- <- <- <-.
Qed.

(** ** What is counted *)

(** The message is a query. *)
Definition is_query (m : SrvMsg) : bool :=
  match MessageFromWire (sm_data m) with
  | inr request => h_opcode (m_header request) =? OP_QUERY
  | inl _ => false
  end.

Definition queries (turns : list (SrvMsg * option (list Z))) : Z :=
  Z.of_nat (length (base.filter (λ t, is_query t.1 = true) turns)).
Definition query_answers (turns : list (SrvMsg * option (list Z))) : Z :=
  Z.of_nat (length (base.filter (λ t, is_query t.1 = true ∧ is_Some t.2) turns)).

Lemma turn_counts enabled handlers first notify Rend now m h mt w h' mt' w' sent (HE : env_ids env) :
  system_handler env re ipString enabled = Ret (handlers, first, notify) →
  turn Rend first notify now m (h, mt, w) = Ret (h', mt', w', sent) →
  mt_RequestCount mt' = mt_RequestCount mt + queries [(m, sent)] ∧
  mt_ResponseCount mt' = mt_ResponseCount mt + query_answers [(m, sent)].
Proof.
  intros Hsys H. unfold turn, serve_message in H. unfold queries, query_answers, is_query. rewrite !filter_cons, !filter_nil.
  cbn [fst snd]. destruct (MessageFromWire _) as [e|request]; [injection H as <- <- <- <-;
    rewrite !decide_False by (done || by intros [? _]); cbn; lia|].
  ret_step H. destruct r as [[[h1 mt1] w1] c].
  pose proof (dispatch_step env HE re ipString _ _ _ _ _ _ _ _ _ _ Hsys E) as [_ [Hreq _]].
  assert (mt1 = mt) as ->.
  { unfold dispatch in E. destruct (_ =? OP_QUERY); [|destruct notify; cbn in E; [destruct (_ =? OP_NOTIFY)|]].
    all: try (unfold on_system in E; ret_step E; destruct r). all: by injection E as <- <- <- <-. }
  cbv zeta in H.
  assert (mt' = RecordMetrics c mt ∧ (is_Some sent ↔ is_Some (c_response c))) as [-> Hs].
  { destruct (c_response c); [ret_step H|]; injection H as <- <- <- <-; by split. }
  unfold RecordMetrics. rewrite Hreq. destruct (h_opcode (m_header request) =? OP_QUERY) eqn:Eq.
  - rewrite decide_True by done. cbn [mt_RequestCount mt_ResponseCount length].
    destruct (decide (is_Some (c_response c))) as [Hr|Hr].
    + rewrite bool_decide_true, decide_True by (done || by rewrite Hs). cbn. lia.
    + rewrite bool_decide_false, decide_False by (done || by rewrite Hs; intros [_ ?]). cbn. lia.
  - rewrite decide_False, decide_False by (done || by intros [? _]). destruct (_ && _); cbn; lia.
Qed.

(** ** The run of a process *)

(** A turn answers nothing, or the query of its message. *)
Definition answers_query (Rend : Message → list Z) (t : SrvMsg * option (list Z)) : Prop :=
  ∀ bytes, t.2 = Some bytes → ∃ request reply,
    MessageFromWire (sm_data t.1) = inr request ∧ bytes = Rend reply ∧ msg_id reply = msg_id request.

Record run_inv (Rend : Message → list Z) (w0 : System) (x : ServerState) : Prop := mkRunInv {
  ri_conserved : conserved x;
  ri_config : config_kept w0 (ru_state x).2;
  ri_requests : mt_RequestCount (ru_state x).1.2 = queries (ru_turns x);
  ri_responses : mt_ResponseCount (ru_state x).1.2 = query_answers (ru_turns x);
  ri_answers : Forall (answers_query Rend) (ru_turns x);
}.

Lemma queries_app t1 t2 : queries (t1 ++ t2) = queries t1 + queries t2.
Proof. unfold queries. rewrite filter_app, length_app. lia. Qed.
Lemma query_answers_app t1 t2 : query_answers (t1 ++ t2) = query_answers t1 + query_answers t2.
Proof. unfold query_answers. rewrite filter_app, length_app. lia. Qed.

Lemma run_inv_step enabled handlers first notify Rend w0 x y (HE : env_ids env) :
  system_handler env re ipString enabled = Ret (handlers, first, notify) →
  run_step Rend first notify x y → run_inv Rend w0 x → run_inv Rend w0 y.
Proof.
  intros Hsys Hs [H1 H2 H3 H4 H5]. pose proof (run_conserves _ _ _ _ _ Hs H1) as Hc.
  destruct Hs as [s s' st rec turns Hs|s m b1 b2 now st st' sent rec turns Hb Ht|s h mt w rec turns];
    [by split| |by split]. cbn in H2, H3, H4, H5. destruct st as [[h mt] w], st' as [[h' mt'] w'].
  pose proof (turn_keeps _ _ _ _ _ _ _ _ _ _ _ _ _ _ Hsys Ht) as Hk.
  destruct (turn_counts _ _ _ _ _ _ _ _ _ _ _ _ _ _ HE Hsys Ht) as [C1 C2].
  split; cbn in *; [done|by etrans|rewrite queries_app; lia|rewrite query_answers_app; lia|].
  apply Forall_app. split; [done|]. apply Forall_singleton. intros bytes Hbytes. cbn in Hbytes |- *. subst sent.
  destruct (MessageFromWire (sm_data m)) as [e|request] eqn:Ew.
  - unfold turn, serve_message in Ht. by rewrite Ew in Ht.
  - destruct (turn_response env HE re ipString _ _ _ _ _ _ _ _ _ _ _ Hsys Ew Ht) as [(reply & Hr & Hi) _].
    by exists request, reply.
Qed.

(** The process as [main] leaves it. *)
Definition started (r : Running) : ServerState :=
  mkServerState (rn_server r) (sy_heap (pr_state (rn_process r)), pr_metrics (rn_process r), pr_state (rn_process r)) [] [].

End run_spec.

(** ** A run *)

Section run_examples.
(** The server of the start-up example, a datagram from a client, and the turn on it. *)
Definition run_message : SrvMsg := mkSrvMsg false (UDPAddr [10; 0; 0; 9] 5353) (UDPAddr [10; 0; 0; 1] 53) 0 0 [4711].
Definition run_busy : Server :=
  let s := runUDP_turn 0 (UDPAddr [10; 0; 0; 9] 5353) (UDPAddr [10; 0; 0; 1] 53) 0 (Some [4711]) (NewServer 1024 0 2) in
  mkServer [] (sv_cap s) 1023 [run_message] (sv_listeners s) (sv_tcpConnCount s) (sv_conns s) (sv_readers s)
    (sv_pool s) (sv_made s).

Lemma run_to_busy Rend first notify st :
  rtc (run_step Rend first notify) (mkServerState (NewServer 1024 0 2) st [] []) (mkServerState run_busy st [run_message] []).
Proof.
  eapply rtc_l; [apply run_goroutine; apply (step_udp _ _ 0 (UDPAddr [10; 0; 0; 9] 5353) (UDPAddr [10; 0; 0; 1] 53) 0
    (Some [4711])); cbn; lia|].
  eapply rtc_l; [apply run_goroutine; apply (step_take _ _ run_message [] 1023); by vm_compute|].
  apply rtc_refl.
Qed.

Abbreviation demo_main fl := (main (demo_env (λ _, demo_rounds)) demo_reload demo_ip demo_senv fl ∅).

End run_examples.
